(* ===== verification/_CoqProject ===== *)
-Q . S2P
Prelude.v
Bits.v
Common.v
CString.v
Inet.v
IpSet.v
IpSetFile.v
Hash.v
SlidingWindow.v
ConnHeap.v
HashTable.v
LruCache.v
Packet.v
Parser.v
ParserTypes.v
PacketMem.v
RateLimiter.v
RateLimits.v
State.v
UdpProtect.v
TcpProtect.v
TcpStates.v
IcmpProtect.v
HttpProtect.v
Config.v
Geoip.v
Services.v
Logger.v
Xdp.v
EbpfLoader.v
Firewall.v
Analyzer.v
Baseline.v
Capture.v
Engine.v
Host.v
ProcessLog.v
Main.v
