(* ===== verification/Prelude.v ===== *)
(** * DDoS protection system: verification library

    A model of the system under [src/], and the theorems that say what it does.
    The development reads along the code: one file per component, one definition
    per function, in the order in which they build on each other; the program
    itself comes last.

    ** The program

    [src/core/main.c] loads a configuration, builds a context, starts threads and
    captures frames. Each frame is parsed ([src/packet]), handed to the traffic
    analyzer ([src/detection/analyzer.c]), which looks up the statistics of the
    source and the address lists ([src/storage/ipset.c]) and then asks the module
    of the packet's protocol for a verdict ([src/detection/*_protect.c]); TCP also
    tracks connections in an LRU cache ([src/storage/lru_cache.c]) over a hash
    table ([src/storage/hashtable.c]). A dropped packet may lead to a firewall
    rule ([src/filter/firewall.c]). Next to the main thread run one that prints
    statistics, one that sweeps the connection cache, and two management servers
    ([src/api]); a signal asks all of them to stop. [ebpf/xdp_filter.c] filters
    frames in the kernel on its own. The rate limiter ([src/filter/ratelimit.c]),
    the traffic baseline and the files of the address lists are built but not
    called by the engine.

    ** The files

    - [Prelude]: fixed-width integers, results with undefined behaviour, the
      state-and-result monad, byte buffers, lists.
    - [Bits]: masks and byte order. [CString]: the C string functions, on the
      memory from a pointer to the end of its object, and decimal output.
    - [Common]: [include/common.h], the comparison of addresses and of connection
      tuples (a class of three-way comparisons, with the keys they decide).
      [Inet]: addresses as text, the address helpers of [core/logger.c].
    - [IpSet]: the sets of [storage/ipset.c] in memory. [IpSetFile]: their files
      and their destruction.
    - [Hash]: [murmur3_32] and the tuple hash of [storage/hashtable.c].
      [ConnHeap]: the heap of connection entries. [HashTable]: the rest of
      [storage/hashtable.c]. [LruCache]: [storage/lru_cache.c].
    - [SlidingWindow], [RateLimiter]: [filter/ratelimit.c]. [RateLimits]: the
      limiter on a stream of packets of many addresses.
    - [Packet], [Parser]: [packet_t], [packet/parser.c], and the callback and
      predicates of [packet/capture.c]. [ParserTypes]: the types of what the
      callback hands on. [PacketMem]: the blocks the callback allocates, and
      [packet_free]. [Capture]: the capture handle of [packet/capture.c].
    - [State]: the statistics, the configuration record, and the state a
      protocol module runs in. [UdpProtect], [TcpProtect], [IcmpProtect],
      [HttpProtect]: the four modules. [TcpStates]: the connections of the TCP
      module on a stream of packets.
    - [Config]: [core/config.c]. [Logger]: [core/logger.c]. [Geoip]:
      [geoip/geoip.c]. [Services]: [api/rest_server.c] and [api/websocket.c].
    - [Xdp]: [ebpf/xdp_filter.c]. [EbpfLoader]: [filter/ebpf_loader.c].
      [Firewall]: [filter/firewall.c].
    - [Analyzer]: the pipeline of [detection/analyzer.c]. [Baseline]: its entropy,
      baseline and anomaly test.
    - [Engine]: the context of [core/main.c] and the packet callback. [Host]: the
      kernel filter and the engine on one frame. [ProcessLog]: the messages of
      [main], its threads and what they call, and the room they need in the log.
      [Main]: [main] of [core/main.c], its threads and signal handler.

    ** How the code is modelled

    Unsigned integers are integers with the reduction written out ([u32], the
    operations with a width as subscript). A [double] is a [spec_float] of the
    Standard Library with the precision of binary64. A function that can go wrong
    returns [res]: [Ok], [Undef] with the undefined behaviour reached (a read out
    of bounds, a use after free, a double free, a type confusion, a division by
    zero, a bad shift, a lock taken twice, released without being held or
    destroyed while held), or [Diverges]. Entries that the code
    links and frees live in explicit heaps, so that sharing and freeing are
    those of the code: [ConnHeap] for connections, the maps of [RateLimiter] and
    [Analyzer] for the others. A packet is a value, its string copies present, in
    every file but [PacketMem], which tracks its blocks and lets each allocation
    fail. The state of a module is a record; its functions
    are functions on it, or programs of the monad [st].

    The outcome of an allocation, the clock and the exit status of a shell
    command are arguments. A function reads the clock once per call. The
    functions are modelled as called with the object they work on; the checks of
    a function's own object pointer for [NULL] are not repeated, while pointers
    that may be [NULL] in the program (a module's context before initialisation,
    a set that could not be created, a header the parser did not find) are
    options. Locks are not modelled, apart from the logger's and, where it matters
    ([Config.config_reload]), the configuration's: each operation is one step,
    which is what the locks are for. The messages of [main], of its threads and of
    the functions they call outside the packet path go through the logger of
    [Logger], lock, files and rotation included; those of the detection modules,
    which the engine never reaches, and of the firewall and set functions are left
    out of their definitions. That a message is printed with a null string in
    [http_protect.c] is recorded as a finding only.

    The program is a transition system ([Main.step]): a state holds the position
    of the main thread, those of the others, and what they share; a step is one
    of a thread, and an execution any sequence of them. A step ends where a thread
    may wait or where it changes what the others read, so that an unprotected
    read and write of a flag or of a counter within a step counts as atomic: the
    data races of the code on its plain [bool] flags are not modelled. A signal is a
    step too: it runs the handler of SIGINT and SIGTERM, between two steps or while a
    thread holds the logger's lock, or takes the default action of a signal that has
    no handler, which for most ends the process.

    What is not under [src/] is a parameter with the behaviour its documentation
    promises, as a class: [inet_pton] and [inet_ntop] ([Inet.InetPton],
    [Inet.InetNtop], and [Inet.InetText] for the two together), the JSON library
    ([Config.Jansson], [Services.JanssonDump]); [log2] is an argument of the
    definitions of [Baseline]. Of libpcap, [Capture] keeps the request to leave
    the loop. The hash maps of the kernel are finite maps. The C library's string
    functions, [atoi], [snprintf], [strftime], [fgets] and the byte-order functions are
    defined.

    ** What the theorems show

    The system. From start-up on, the engine lets every packet through
    ([Engine.engine_never_filters]), up to a frame on which the parser reads outside
    its bytes: the analyzer never enters an address in its table. The theorems on the
    modules describe what they do once they are called. Start-up returns when strings
    can be copied. No execution of the program fails, unless one of these is missing
    ([Main.process_never_fails], whose [Main.calm] says so of each step): the two
    threads were created; the capture handle opens and its name is copied; the
    parser stays inside the frames; the log has room for a step's messages, or
    informational messages are not logged; SIGINT and SIGTERM do not arrive while a
    thread holds the logger's lock, nor between the release of the context and the
    reset of its pointer. The exit is reached once such a signal has been received and the
    capture has ended, unless another signal kills the process first
    ([Main.shutdown_completes], over fair executions); without both [main] does not
    return ([Main.exit_needs_signal_and_failure]).

    Containers. The IP set's chained table represents a set of unexpired
    addresses: lookup, insertion, removal and the expiry sweep implement the
    operations on it, every sequence of calls keeps the table well formed, and
    CIDR lookup is equality of bit prefixes. Loading a file ends whatever its
    bytes, and brings back what saving wrote, without the expiry. The hash table
    implements a finite map from tuples to entries; the LRU cache keeps recency
    order up to its capacity ([HashTable.TableContract] is all it knows of the
    table). A sliding window's sum is the sum of what was added in the last
    seconds. On a stream of packets the rate limiter keeps one byte history per
    address, until two addresses meet in a bucket
    ([RateLimits.rate_limiter_stream]).

    Packets. Parsing inverts a reference encoding of TCP and UDP frames; every
    field of a packet handed on has its C type; the rejected frames are
    characterised, and so are the frames on which the parsers read past the
    buffer. Whichever allocations fail, the callback frees what it has allocated,
    once ([PacketMem.pcap_callback_frees_all]).

    Decisions. Each protocol module implements a decision table, its counters
    included; the kernel filter implements its table on every frame, without loading
    a byte outside it, and accounts for every frame of a run
    ([Xdp.xdp_run_accounts]). The flag rules of the kernel and of the TCP module
    judge alike but for one scan ([Host.filters_agree_on_flags]); on a host with
    both filters a frame is dropped by the kernel or by nobody
    ([Host.host_filters_in_kernel_only]). No stream of packets brings a tracked
    connection to the established state ([TcpStates.tcp_none_established]). The
    analyzer puts the lists before the modules and keeps a reputation that leads to
    the blacklist; the anomaly test depends on nothing but the entropy. A
    configuration written as JSON is read back. Blocking and unblocking an address
    are inverse. The log keeps every line across the files it is split into, unless
    informational messages are logged ([Logger.log_stream_rotates]). The two servers
    keep their flag and their thread in step, from their shared interface
    ([Services.Service]).

    Defects. The theorems whose names say what goes wrong state an input and the
    failure it leads to: double frees in the cache, entries taken for windows in
    the rate limiter, over-reads in the parser, counters that wrap, a limit that
    is never read, a logger that waits for itself, a baseline that never returns,
    a blacklist the kernel does not see, a context freed under running threads, a
    signal handler that waits for a lock its own thread holds.

    ** Fuel

    Walks of chains take [ConnHeap.walk_fuel], one more than the size of the
    heap; on a well-formed table every chain is shorter, and the theorems on the
    table include that its operations return. [RateLimiter.find_rl] is run in
    the same way. [Analyzer.find_stats] takes one step, which
    [Analyzer.find_stats_fuel] shows decides any number of them; the destructor's
    loop two, since its second step frees the object of the first. The walks of
    [Baseline] are stated for every amount of fuel. The loop over a file gets one
    turn more than the file has bytes; each turn consumes one.
    [CString.print_u] writes at most twenty digits, all a 64-bit integer has. A
    server's thread returns within two steps of the request, which
    [Services.servers_lifecycle] proves. [Logger.log_message] nests at most twice
    ([Logger.nested_message]). A step of the process logs at most
    [Main.STEP_MESSAGES] messages, a start at most a hundred; the log that start-up
    opens has room for a thousand ([ProcessLog.logger_init_room]).

    ** Not modelled

    The banner [main] prints. Signals during start-up, and the messages of a start
    that fails. The log messages of the detection modules, of the firewall, of the
    files of the sets and of [config_reload]. The text [json_dumps] makes of a tree. What libpcap does
    inside its loop. The endpoints that [include/api.h] lists: the server answers
    none. Of the headers under [src/include], the prototypes: the functions are
    modelled from their bodies. *)

From stdpp Require Export base numbers list option gmap strings fin_maps.
From Stdlib Require Export ZArith Lia.

#[global] Open Scope Z_scope.

(** ** Fixed-width integers

    A [uintN_t] is an integer of [0 .. 2^N - 1]; every C operation on it is
    followed by the reduction the C standard prescribes for unsigned types. *)

Definition u8 (z : Z) : Z := z mod 2 ^ 8.
Definition u16 (z : Z) : Z := z mod 2 ^ 16.
Definition u32 (z : Z) : Z := z mod 2 ^ 32.
Definition u64 (z : Z) : Z := z mod 2 ^ 64.

(** The conversion of an unsigned 32-bit value to [int] (two's complement). *)
Definition i32 (z : Z) : Z := (z + 2 ^ 31) mod 2 ^ 32 - 2 ^ 31.

(** The same for [uint64_t] and [long long]. *)
Definition i64 (z : Z) : Z := (z + 2 ^ 63) mod 2 ^ 64 - 2 ^ 63.

Declare Scope cint_scope.
Delimit Scope cint_scope with cint.
Notation "a +₃₂ b" := (u32 (a + b)) (at level 50, left associativity) : cint_scope.
Notation "a -₃₂ b" := (u32 (a - b)) (at level 50, left associativity) : cint_scope.
Notation "a *₃₂ b" := (u32 (a * b)) (at level 40, left associativity) : cint_scope.
Notation "a +₆₄ b" := (u64 (a + b)) (at level 50, left associativity) : cint_scope.
Notation "a -₆₄ b" := (u64 (a - b)) (at level 50, left associativity) : cint_scope.
#[global] Open Scope cint_scope.

(** Unfolds the widths and hands the remaining arithmetic, [mod] by literals
    included, to [lia]. *)
Ltac cint :=
  unfold u8, u16, u32, u64, i32, i64 in *;
  change (2 ^ 8) with 256 in *; change (2 ^ 16) with 65536 in *;
  change (2 ^ 31) with 2147483648 in *; change (2 ^ 32) with 4294967296 in *;
  change (2 ^ 63) with 9223372036854775808 in *;
  change (2 ^ 64) with 18446744073709551616 in *;
  Z.div_mod_to_equations; lia.

Create HintDb cint.
Create Rewrite HintDb cint.

Lemma u8_range z : 0 <= u8 z < 2 ^ 8.
Proof. by apply Z.mod_pos_bound. Qed.
Lemma u16_range z : 0 <= u16 z < 2 ^ 16.
Proof. by apply Z.mod_pos_bound. Qed.
Lemma u32_range z : 0 <= u32 z < 2 ^ 32.
Proof. by apply Z.mod_pos_bound. Qed.
Lemma u64_range z : 0 <= u64 z < 2 ^ 64.
Proof. by apply Z.mod_pos_bound. Qed.
Lemma u8_small z : 0 <= z < 2 ^ 8 → u8 z = z.
Proof. apply Z.mod_small. Qed.
Lemma u16_small z : 0 <= z < 2 ^ 16 → u16 z = z.
Proof. apply Z.mod_small. Qed.
Lemma u32_small z : 0 <= z < 2 ^ 32 → u32 z = z.
Proof. apply Z.mod_small. Qed.
Lemma u64_small z : 0 <= z < 2 ^ 64 → u64 z = z.
Proof. apply Z.mod_small. Qed.

#[export] Hint Resolve u8_range u16_range u32_range u64_range : cint.
#[export] Hint Rewrite u8_small u16_small u32_small u64_small using lia : cint.

(** ** Results of C code

    [Ok] is a normal return; [Undef] names the undefined behaviour the code
    reaches; [Diverges] stands for a loop that has used up its fuel. *)

Inductive ub : Set :=
  | OutOfBounds | UseAfterFree | DoubleFree | NullDeref | TypeConfusion
  | DivByZero | BadShift | Uninitialised | SelfDeadlock | LockNotHeld | LockInUse.

#[global] Instance ub_eq_dec : EqDecision ub.
Proof. solve_decision. Defined.

Inductive res (A : Type) : Type :=
  | Ok (a : A)
  | Undef (u : ub)
  | Diverges.
Arguments Ok {A} a.
Arguments Undef {A} u.
Arguments Diverges {A}.

Definition rbind {A B} (m : res A) (f : A → res B) : res B :=
  match m with Ok a => f a | Undef u => Undef u | Diverges => Diverges end.
Arguments rbind {A B} !m f /.

Notation "'let*' x ':=' m 'in' k" := (rbind m (fun x => k))
  (at level 100, x pattern, m at next level, right associativity) : cint_scope.

Definition is_ok {A} (r : res A) : bool := match r with Ok _ => true | _ => false end.

Lemma rbind_Ok {A B} (m : res A) (f : A → res B) b :
  rbind m f = Ok b ↔ ∃ a, m = Ok a ∧ f a = Ok b.
Proof. destruct m; naive_solver. Qed.

#[global] Instance Ok_inj {A} : Inj (=) (=) (@Ok A).
Proof. by intros a b [= ->]. Qed.

(** ** Code over a mutable store: the state-and-result monad *)

Definition st (S A : Type) : Type := S → res (A * S).

Definition st_ret {S A} (a : A) : st S A := λ s, Ok (a, s).
Definition st_bind {S A B} (m : st S A) (f : A → st S B) : st S B := λ s,
  match m s with
  | Ok (a, s') => f a s' | Undef u => Undef u | Diverges => Diverges
  end.

Notation "x <- m ;; k" := (st_bind m (fun x => k))
  (at level 100, m at next level, right associativity) : cint_scope.
Notation "m ;; k" := (st_bind m (fun _ => k))
  (at level 100, right associativity) : cint_scope.

Definition st_get {S} : st S S := λ s, Ok (s, s).
Definition st_gets {S A} (f : S → A) : st S A := λ s, Ok (f s, s).
Definition st_modify {S} (f : S → S) : st S unit := λ s, Ok ((), f s).
Definition st_diverges {S A} : st S A := λ _, Diverges.
Definition st_lift {S A} (r : res A) : st S A := λ s,
  match r with Ok a => Ok (a, s) | Undef u => Undef u | Diverges => Diverges end.

(** Run code written for a part of the state ([proj] reads it out, [upd]
    writes it back). *)
Definition st_zoom {S T A} (proj : S → T) (upd : T → S → S) (m : st T A) : st S A := λ s,
  match m (proj s) with
  | Ok (a, t) => Ok (a, upd t s) | Undef u => Undef u | Diverges => Diverges
  end.

(** ** Byte buffers

    A buffer is the list of its bytes; reading past its end is undefined. *)

Definition byte_ok (b : Z) : Prop := 0 <= b < 256.
Definition bytes_ok (l : list Z) : Prop := Forall byte_ok l.

Definition rd8 (buf : list Z) (off : Z) : res Z :=
  if (0 <=? off)%Z
  then match buf !! Z.to_nat off with Some b => Ok b | None => Undef OutOfBounds end
  else Undef OutOfBounds.

(** [ntohs] and [ntohl] of the field at [off]: network order is big-endian. *)
Definition rd_be16 (buf : list Z) (off : Z) : res Z :=
  let* b0 := rd8 buf off in let* b1 := rd8 buf (off + 1) in Ok (b0 * 256 + b1).
Definition rd_be32 (buf : list Z) (off : Z) : res Z :=
  let* h := rd_be16 buf off in let* l := rd_be16 buf (off + 2) in Ok (h * 65536 + l).

Fixpoint rd_bytes (buf : list Z) (off : Z) (n : nat) : res (list Z) :=
  match n with
  | O => Ok []
  | S n' => let* b := rd8 buf off in let* bs := rd_bytes buf (off + 1) n' in Ok (b :: bs)
  end.

(** The [uint32_t] stored at four bytes, in network and in x86 order. *)
Definition be32 (l : list Z) : Z :=
  match l with
  | b0 :: b1 :: b2 :: b3 :: _ => ((b0 * 256 + b1) * 256 + b2) * 256 + b3
  | _ => 0
  end.
Definition le32 (l : list Z) : Z :=
  match l with
  | b0 :: b1 :: b2 :: b3 :: _ => ((b3 * 256 + b2) * 256 + b1) * 256 + b0
  | _ => 0
  end.

Lemma rd8_Ok buf off b :
  rd8 buf off = Ok b ↔ 0 <= off ∧ buf !! Z.to_nat off = Some b.
Proof.
  unfold rd8. destruct (Z.leb_spec 0 off); [|naive_solver lia].
  destruct (buf !! Z.to_nat off); naive_solver.
Qed.

Lemma rd8_in_range buf off :
  0 <= off < Z.of_nat (length buf) → ∃ b, rd8 buf off = Ok b ∧ b ∈ buf.
Proof.
  intros Hoff. destruct (lookup_lt_is_Some_2 buf (Z.to_nat off)) as [b Hb]; [lia|].
  exists b. rewrite rd8_Ok. split; [naive_solver lia|].
  by apply list_elem_of_lookup_2 in Hb.
Qed.

Lemma rd8_oob buf off :
  Z.of_nat (length buf) <= off → rd8 buf off = Undef OutOfBounds.
Proof.
  intros Hoff. unfold rd8. destruct (Z.leb_spec 0 off); [|done].
  by rewrite lookup_ge_None_2 by lia.
Qed.

Lemma be32_range l : length l = 4%nat → bytes_ok l → 0 <= be32 l < 2 ^ 32.
Proof.
  intros Hl Hb. destruct l as [|b0 [|b1 [|b2 [|b3 [|]]]]]; try done.
  unfold bytes_ok, byte_ok in Hb. rewrite !Forall_cons in Hb. simpl. lia.
Qed.

Lemma be32_inj l1 l2 :
  length l1 = 4%nat → length l2 = 4%nat → bytes_ok l1 → bytes_ok l2 →
  be32 l1 = be32 l2 → l1 = l2.
Proof.
  intros Hl1 Hl2 Hb1 Hb2 Heq.
  destruct l1 as [|a0 [|a1 [|a2 [|a3 [|]]]]]; try done.
  destruct l2 as [|b0 [|b1 [|b2 [|b3 [|]]]]]; try done.
  unfold bytes_ok, byte_ok in *. rewrite !Forall_cons in Hb1, Hb2. simpl in Heq.
  repeat f_equal; lia.
Qed.

(** ** Sums and counting *)

Definition sumZ (l : list Z) : Z := foldr Z.add 0 l.

Lemma sumZ_app l1 l2 : sumZ (l1 ++ l2) = sumZ l1 + sumZ l2.
Proof. induction l1; simpl; lia. Qed.

Lemma sumZ_Permutation l1 l2 : l1 ≡ₚ l2 → sumZ l1 = sumZ l2.
Proof. induction 1; simpl; lia. Qed.

(** [Some]-valued [find] on the first element that satisfies a boolean test. *)
Fixpoint find_first {A} (f : A → bool) (l : list A) : option A :=
  match l with [] => None | x :: l' => if f x then Some x else find_first f l' end.

Lemma find_first_Some {A} (f : A → bool) l x :
  find_first f l = Some x → x ∈ l ∧ f x = true.
Proof.
  induction l as [|y l IH]; simpl; [done|]. destruct (f y) eqn:E.
  - intros [= ->]. split; [left|done].
  - intros [? ?]%IH. split; [by right|done].
Qed.

(** Singly linked lists as code walks them: change, or unlink, the first node
    that satisfies the test. [None]: the walk reached the end. *)
Fixpoint update_first {A} (f : A → bool) (g : A → A) (l : list A) : option (list A) :=
  match l with
  | [] => None
  | x :: l' => if f x then Some (g x :: l') else (x ::.) <$> update_first f g l'
  end.

Fixpoint remove_first {A} (f : A → bool) (l : list A) : option (list A) :=
  match l with
  | [] => None
  | x :: l' => if f x then Some l' else (x ::.) <$> remove_first f l'
  end.

Lemma update_first_Some {A} (f : A → bool) g l l' :
  update_first f g l = Some l' →
  ∃ l1 x l2, l = l1 ++ x :: l2 ∧ l' = l1 ++ g x :: l2 ∧ f x = true ∧ Forall (λ y, f y = false) l1.
Proof.
  revert l'. induction l as [|y l IH]; intros l'; simpl; [done|].
  destruct (f y) eqn:E; intros H; simplify_eq.
  - exists [], y, l. done.
  - destruct (update_first f g l) as [l0|]; simplify_eq/=.
    destruct (IH l0) as (l1 & x & l2 & -> & -> & ? & ?); [done|].
    exists (y :: l1), x, l2. repeat split; [done|]. by constructor.
Qed.

Lemma update_first_None {A} (f : A → bool) g l :
  update_first f g l = None ↔ Forall (λ y, f y = false) l.
Proof.
  induction l as [|y l IH]; simpl; [done|]. rewrite Forall_cons, <- IH.
  destruct (f y), (update_first f g l); naive_solver.
Qed.

Lemma remove_first_Some {A} (f : A → bool) l l' :
  remove_first f l = Some l' →
  ∃ l1 x l2, l = l1 ++ x :: l2 ∧ l' = l1 ++ l2 ∧ f x = true ∧ Forall (λ y, f y = false) l1.
Proof.
  revert l'. induction l as [|y l IH]; intros l'; simpl; [done|].
  destruct (f y) eqn:E; intros H; simplify_eq.
  - exists [], y, l'. done.
  - destruct (remove_first f l) as [l0|]; simplify_eq/=.
    destruct (IH l0) as (l1 & x & l2 & -> & -> & ? & ?); [done|].
    exists (y :: l1), x, l2. repeat split; [done|]. by constructor.
Qed.

Lemma remove_first_None {A} (f : A → bool) l :
  remove_first f l = None ↔ Forall (λ y, f y = false) l.
Proof.
  induction l as [|y l IH]; simpl; [done|]. rewrite Forall_cons, <- IH.
  destruct (f y), (remove_first f l); naive_solver.
Qed.

(** Replacing one bucket of a table: what the concatenation holds. *)
Lemma concat_insert {A} (bs : list (list A)) i b b' :
  bs !! i = Some b → ∃ l1 l2, concat bs = l1 ++ b ++ l2 ∧ concat (<[i:=b']> bs) = l1 ++ b' ++ l2.
Proof.
  intros Hi. exists (concat (take i bs)), (concat (drop (S i) bs)).
  rewrite <- (take_drop_middle bs i b Hi) at 1. rewrite concat_app. simpl. split; [done|].
  rewrite insert_take_drop by (by eapply lookup_lt_Some). by rewrite concat_app.
Qed.

Lemma elem_of_concat {A} (x : A) bs : x ∈ concat bs ↔ ∃ i b, bs !! i = Some b ∧ x ∈ b.
Proof.
  rewrite list_elem_of_In, in_concat. setoid_rewrite <- list_elem_of_In. split.
  - intros (b & [i Hi]%list_elem_of_lookup & Hx). eauto.
  - intros (i & b & Hi & Hx). exists b. split; [by eapply list_elem_of_lookup_2|done].
Qed.

Lemma concat_replicate_nil {A} n : concat (replicate n (@nil A)) = [].
Proof. by induction n. Qed.
