(* ===== verification/Bits.v ===== *)
(** * Bit-level arithmetic

    The byte swap behind [htonl]/[ntohl] on the little-endian target, network
    masks and disjoint unions of bits, with the lemmas that relate them to
    division and remainder by powers of two. *)

From S2P Require Import Prelude.

(** [ntohl]/[htonl]: the byte swap of a little-endian host. *)
Definition bswap32 (z : Z) : Z :=
  Z.lor (Z.shiftl (Z.land z 255) 24)
    (Z.lor (Z.shiftl (Z.land (Z.shiftr z 8) 255) 16)
       (Z.lor (Z.shiftl (Z.land (Z.shiftr z 16) 255) 8)
          (Z.land (Z.shiftr z 24) 255))).

(** ** Bits of non-negative numbers below a power of two *)

Lemma testbit_high z n i : 0 <= z < 2 ^ n → n <= i → Z.testbit z i = false.
Proof.
  intros Hz Hi. destruct (decide (z = 0)) as [->|]; [apply Z.bits_0|].
  apply Z.bits_above_log2; [lia|].
  apply Z.lt_le_trans with n; [|done]. apply Z.log2_lt_pow2; lia.
Qed.

Lemma bits_ext_lt x y n :
  0 <= x < 2 ^ n → 0 <= y < 2 ^ n →
  (∀ i, 0 <= i < n → Z.testbit x i = Z.testbit y i) → x = y.
Proof.
  intros Hx Hy Hb. apply Z.bits_inj'. intros i Hi.
  destruct (Z.lt_ge_cases i n); [auto|].
  by rewrite !(testbit_high _ n) by done.
Qed.

Lemma bits_range x n :
  0 <= n → 0 <= x → (∀ i, n <= i → Z.testbit x i = false) → x < 2 ^ n.
Proof.
  intros Hn Hx Hb. rewrite <- (Z.mod_small x (2 ^ n)); [by apply Z.mod_pos_bound; lia|].
  split; [done|]. assert (x = x mod 2 ^ n) as Heq.
  { apply Z.bits_inj'. intros i Hi. destruct (Z.lt_ge_cases i n).
    - by rewrite Z.mod_pow2_bits_low by lia.
    - rewrite Z.mod_pow2_bits_high by lia. by apply Hb. }
  rewrite Heq. by apply Z.mod_pos_bound; lia.
Qed.

Lemma lor_range x y n : 0 <= n → 0 <= x < 2 ^ n → 0 <= y < 2 ^ n → 0 <= Z.lor x y < 2 ^ n.
Proof.
  intros Hn Hx Hy. split; [by apply Z.lor_nonneg; lia|].
  apply bits_range; [done|by apply Z.lor_nonneg; lia|].
  intros i Hi. by rewrite Z.lor_spec, !(testbit_high _ n) by done.
Qed.

Lemma lxor_range x y n : 0 <= n → 0 <= x < 2 ^ n → 0 <= y < 2 ^ n → 0 <= Z.lxor x y < 2 ^ n.
Proof.
  intros Hn Hx Hy. split; [by apply Z.lxor_nonneg; lia|].
  apply bits_range; [done|by apply Z.lxor_nonneg; lia|].
  intros i Hi. by rewrite Z.lxor_spec, !(testbit_high _ n) by done.
Qed.

Lemma land_255 z : Z.land z 255 = z mod 256.
Proof. change 255 with (Z.ones 8). by rewrite Z.land_ones by lia. Qed.

Lemma lor_shiftl_add a b n : 0 <= n → 0 <= b < 2 ^ n → Z.lor (Z.shiftl a n) b = a * 2 ^ n + b.
Proof.
  intros Hn Hb. rewrite <- Z.shiftl_mul_pow2 by done.
  symmetry. apply Z.add_nocarry_lor. apply Z.bits_inj_0. intros i.
  rewrite Z.land_spec. destruct (Z.lt_ge_cases i n).
  - by rewrite Z.shiftl_spec_low by lia.
  - rewrite (testbit_high b n i) by done. apply andb_false_r.
Qed.

(** ** The byte swap *)

Lemma bswap32_arith z :
  bswap32 z = (z mod 256) * 2 ^ 24 + (z / 256 mod 256) * 2 ^ 16
              + (z / 65536 mod 256) * 2 ^ 8 + z / 16777216 mod 256.
Proof.
  unfold bswap32. rewrite !land_255, !Z.shiftr_div_pow2 by lia.
  change (2 ^ 8) with 256. change (2 ^ 16) with 65536. change (2 ^ 24) with 16777216.
  assert (∀ x, 0 <= x mod 256 < 256) as Hm by (intros; by apply Z.mod_pos_bound).
  pose proof (Hm (z / 16777216)). pose proof (Hm (z / 65536)). pose proof (Hm (z / 256)).
  rewrite (lor_shiftl_add _ _ 8) by lia. rewrite (lor_shiftl_add _ _ 16) by lia.
  rewrite (lor_shiftl_add _ _ 24) by lia. lia.
Qed.

Lemma bswap32_range z : 0 <= bswap32 z < 2 ^ 32.
Proof. rewrite bswap32_arith. Z.div_mod_to_equations; lia. Qed.

Lemma bswap32_le32 l : length l = 4%nat → bytes_ok l → bswap32 (le32 l) = be32 l.
Proof.
  intros Hl Hb. destruct l as [|b0 [|b1 [|b2 [|b3 [|]]]]]; try done.
  unfold bytes_ok, byte_ok in Hb. rewrite !Forall_cons in Hb.
  rewrite bswap32_arith. simpl. Z.div_mod_to_equations; lia.
Qed.

(** The four bytes of a word, in memory order. *)
Definition bytes_le32 (z : Z) : list Z :=
  [z mod 256; z / 256 mod 256; z / 65536 mod 256; z / 16777216 mod 256].

Lemma bytes_le32_ok z : bytes_ok (bytes_le32 z).
Proof. repeat constructor; by apply Z.mod_pos_bound. Qed.

Lemma le32_bytes z : 0 <= z < 2 ^ 32 → le32 (bytes_le32 z) = z.
Proof. intros Hz. unfold le32, bytes_le32. Z.div_mod_to_equations; lia. Qed.

Lemma bswap32_involutive z : 0 <= z < 2 ^ 32 → bswap32 (bswap32 z) = z.
Proof.
  intros Hz. rewrite <- (le32_bytes z Hz) at 1.
  rewrite (bswap32_le32 (bytes_le32 z)) by (done || apply bytes_le32_ok).
  change (be32 (bytes_le32 z)) with (le32 (reverse (bytes_le32 z))).
  rewrite bswap32_le32; [by apply le32_bytes|done|].
  apply Forall_reverse, bytes_le32_ok.
Qed.

Lemma bswap32_inj x y :
  0 <= x < 2 ^ 32 → 0 <= y < 2 ^ 32 → bswap32 x = bswap32 y → x = y.
Proof.
  intros Hx Hy H. rewrite <- (bswap32_involutive x), <- (bswap32_involutive y) by done.
  by rewrite H.
Qed.

(** Bit [i] of the swapped value is the bit at the same place of the mirrored byte. *)
Lemma bswap32_testbit z i :
  0 <= i < 32 → Z.testbit (bswap32 z) i = Z.testbit z (i mod 8 + 8 * (3 - i / 8)).
Proof.
  intros Hi. unfold bswap32.
  assert (∀ x k, 0 <= k → Z.testbit (Z.land x 255) k = (Z.testbit x k && (k <? 8))) as Hl.
  { intros x k Hk. change 255 with (Z.ones 8). rewrite Z.land_spec.
    destruct (Z.ltb_spec k 8).
    - by rewrite Z.ones_spec_low by lia.
    - by rewrite Z.ones_spec_high by lia. }
  assert (i / 8 = 0 ∨ i / 8 = 1 ∨ i / 8 = 2 ∨ i / 8 = 3) as Hc by (Z.div_mod_to_equations; lia).
  pose proof (Z.div_mod i 8 ltac:(lia)) as Hdm.
  pose proof (Z.mod_pos_bound i 8 ltac:(lia)) as Hm.
  rewrite !Z.lor_spec.
  destruct Hc as [Hc|[Hc|[Hc|Hc]]]; rewrite Hc in *;
    repeat match goal with
    | |- context [Z.testbit (Z.shiftl ?x ?n) i] =>
        destruct (Z.lt_ge_cases i n);
        [rewrite (Z.shiftl_spec_low x n i) by lia
        |rewrite (Z.shiftl_spec_high x n i) by lia]; try lia
    end;
    rewrite ?Hl, ?Z.shiftr_spec by lia;
    repeat match goal with |- context [?x <? 8] => destruct (Z.ltb_spec x 8); try lia end;
    rewrite ?andb_false_r, ?andb_true_r, ?orb_false_l, ?orb_false_r; f_equal; lia.
Qed.

Lemma bswap32_land x y : bswap32 (Z.land x y) = Z.land (bswap32 x) (bswap32 y).
Proof.
  apply bits_ext_lt with 32; [apply bswap32_range| |].
  - pose proof (bswap32_range x) as [Hx _]. split; [apply Z.land_nonneg; lia|].
    apply bits_range; [lia|by apply Z.land_nonneg; lia|]. intros i Hi.
    by rewrite Z.land_spec, (testbit_high _ 32) by (try apply bswap32_range; done).
  - intros i Hi. by rewrite Z.land_spec, !bswap32_testbit, Z.land_spec by done.
Qed.

(** ** Network masks *)

(** [~((1 << k) - 1)] truncated to [w] bits: the ones above bit [k]. *)
Lemma mask_value w k : 0 <= k <= w → Z.lnot (2 ^ k - 1) mod 2 ^ w = 2 ^ w - 2 ^ k.
Proof.
  intros Hk. unfold Z.lnot. assert (0 < 2 ^ k <= 2 ^ w).
  { split; [lia|]. apply Z.pow_le_mono_r; lia. }
  symmetry. apply Z.mod_unique with (-1); lia.
Qed.

Lemma land_mask w x k :
  0 <= k <= w → 0 <= x < 2 ^ w → Z.land x (2 ^ w - 2 ^ k) = x / 2 ^ k * 2 ^ k.
Proof.
  intros Hk Hx.
  assert (Z.land x (2 ^ w - 2 ^ k) = Z.shiftl (Z.shiftr x k) k) as ->;
    [|by rewrite Z.shiftl_mul_pow2, Z.shiftr_div_pow2 by lia].
  assert (2 ^ w - 2 ^ k = Z.shiftl (Z.ones (w - k)) k) as ->.
  { rewrite Z.shiftl_mul_pow2, Z.ones_equiv by lia.
    replace (2 ^ w) with (2 ^ (w - k) * 2 ^ k) by (rewrite <- Z.pow_add_r by lia; f_equal; lia).
    lia. }
  apply Z.bits_inj'. intros i Hi. rewrite Z.land_spec, !Z.shiftl_spec by lia.
  destruct (Z.lt_ge_cases i k).
  - rewrite !(Z.testbit_neg_r _ (i - k)) by lia. apply andb_false_r.
  - rewrite Z.shiftr_spec by lia. replace (i - k + k) with i by lia.
    destruct (Z.lt_ge_cases i w).
    + rewrite Z.ones_spec_low by lia. apply andb_true_r.
    + by rewrite (testbit_high x w) by done.
Qed.

Lemma land_mask_eq w x y k :
  0 <= k <= w → 0 <= x < 2 ^ w → 0 <= y < 2 ^ w →
  Z.land x (2 ^ w - 2 ^ k) = Z.land y (2 ^ w - 2 ^ k) ↔ x / 2 ^ k = y / 2 ^ k.
Proof.
  intros Hk Hx Hy. rewrite !land_mask by done.
  assert (0 < 2 ^ k) by lia. split; [|by intros ->].
  intros Heq. by apply Z.mul_reg_r in Heq; [|lia].
Qed.

(** ** Big-endian numbers of any length *)

Definition be_val (l : list Z) : Z := foldl (λ a b, a * 256 + b) 0 l.

Lemma be_val_app l1 l2 : be_val (l1 ++ l2) = be_val l1 * 2 ^ (8 * Z.of_nat (length l2)) + be_val l2.
Proof.
  induction l2 as [|b l2 IH] using rev_ind.
  { rewrite app_nil_r. simpl. unfold be_val at 3. simpl. lia. }
  rewrite app_assoc. unfold be_val in *. rewrite !foldl_snoc, IH, length_app. simpl.
  replace (8 * Z.of_nat (length l2 + 1)) with (8 * Z.of_nat (length l2) + 8) by lia.
  rewrite Z.pow_add_r by lia. lia.
Qed.

Lemma be_val_range l : bytes_ok l → 0 <= be_val l < 2 ^ (8 * Z.of_nat (length l)).
Proof.
  induction l as [|b l IH] using rev_ind; intros Hl; [unfold be_val; simpl; lia|].
  unfold bytes_ok in Hl. rewrite Forall_app, Forall_singleton in Hl.
  destruct Hl as [Hl Hb]. specialize (IH Hl). unfold byte_ok in Hb.
  unfold be_val in *. rewrite foldl_snoc, length_app. simpl.
  replace (8 * Z.of_nat (length l + 1)) with (8 * Z.of_nat (length l) + 8) by lia.
  rewrite Z.pow_add_r by lia. change (2 ^ 8) with 256. lia.
Qed.

Lemma be_val_inj l1 l2 :
  length l1 = length l2 → bytes_ok l1 → bytes_ok l2 → be_val l1 = be_val l2 → l1 = l2.
Proof.
  revert l2. induction l1 as [|a l1 IH] using rev_ind; intros l2 Hlen H1 H2 Heq.
  { symmetry. by apply length_zero_iff_nil. }
  destruct l2 as [|b l2 _] using rev_ind; [rewrite length_app in Hlen; simpl in Hlen; lia|].
  rewrite !length_app in Hlen. simpl in Hlen.
  unfold bytes_ok, byte_ok in *. rewrite !Forall_app, !Forall_singleton in *.
  unfold be_val in Heq. rewrite !foldl_snoc in Heq.
  assert (a = b) as -> by lia. f_equal. apply IH; [lia|tauto|tauto|unfold be_val; lia].
Qed.

Lemma be_val_be32 l : length l = 4%nat → be_val l = be32 l.
Proof. intros Hl. destruct l as [|b0 [|b1 [|b2 [|b3 [|]]]]]; try done. Qed.
