(* ===== verification/Common.v ===== *)
(** * Shared data types and address utilities

    The types of [include/common.h] (attack and verdict enumerations, IP
    addresses, connection tuples and entries, per-IP and global statistics)
    and the address comparison of [src/core/logger.c] and
    [src/storage/hashtable.c], with the proof that both comparisons are total
    orders on the key they look at. *)

From S2P Require Import Prelude Bits.

(** ** Enumerations *)

Inductive attack_type : Set :=
  | ATTACK_NONE | ATTACK_UDP_FLOOD | ATTACK_UDP_FRAGMENTATION
  | ATTACK_DNS_AMPLIFICATION | ATTACK_NTP_AMPLIFICATION | ATTACK_SSDP_REFLECTION
  | ATTACK_MEMCACHED_AMPLIFICATION | ATTACK_TCP_SYN_FLOOD | ATTACK_TCP_ACK_FLOOD
  | ATTACK_TCP_RST_FLOOD | ATTACK_TCP_FIN_FLOOD | ATTACK_TCP_PSH_ACK_FLOOD
  | ATTACK_SLOWLORIS | ATTACK_SOCKSTRESS | ATTACK_ICMP_FLOOD
  | ATTACK_ICMP_FRAGMENTATION | ATTACK_PING_OF_DEATH | ATTACK_SMURF
  | ATTACK_HTTP_GET_FLOOD | ATTACK_HTTP_POST_FLOOD | ATTACK_SLOW_POST
  | ATTACK_HTTP_HEADER_ANOMALY.

#[global] Instance attack_type_eq_dec : EqDecision attack_type.
Proof. solve_decision. Defined.

(** The enumeration's value, the index of the counter arrays. *)
Definition attack_idx (a : attack_type) : nat :=
  match a with
  | ATTACK_NONE => 0 | ATTACK_UDP_FLOOD => 1 | ATTACK_UDP_FRAGMENTATION => 2
  | ATTACK_DNS_AMPLIFICATION => 3 | ATTACK_NTP_AMPLIFICATION => 4
  | ATTACK_SSDP_REFLECTION => 5 | ATTACK_MEMCACHED_AMPLIFICATION => 6
  | ATTACK_TCP_SYN_FLOOD => 7 | ATTACK_TCP_ACK_FLOOD => 8
  | ATTACK_TCP_RST_FLOOD => 9 | ATTACK_TCP_FIN_FLOOD => 10
  | ATTACK_TCP_PSH_ACK_FLOOD => 11 | ATTACK_SLOWLORIS => 12
  | ATTACK_SOCKSTRESS => 13 | ATTACK_ICMP_FLOOD => 14
  | ATTACK_ICMP_FRAGMENTATION => 15 | ATTACK_PING_OF_DEATH => 16
  | ATTACK_SMURF => 17 | ATTACK_HTTP_GET_FLOOD => 18
  | ATTACK_HTTP_POST_FLOOD => 19 | ATTACK_SLOW_POST => 20
  | ATTACK_HTTP_HEADER_ANOMALY => 21
  end.
Definition ATTACK_MAX : nat := 22.

#[global] Instance attack_idx_inj : Inj (=) (=) attack_idx.
Proof. intros [] []; done. Qed.

Inductive verdict : Set :=
  | VERDICT_ACCEPT | VERDICT_DROP | VERDICT_RATE_LIMIT | VERDICT_CHALLENGE.

#[global] Instance verdict_eq_dec : EqDecision verdict.
Proof. solve_decision. Defined.

(** [attack_type_to_string] receives the enumeration as an integer. *)
Definition attack_strings : list string :=
  ["None"; "UDP Flood"; "UDP Fragmentation"; "DNS Amplification";
   "NTP Amplification"; "SSDP Reflection"; "Memcached Amplification";
   "TCP SYN Flood"; "TCP ACK Flood"; "TCP RST Flood"; "TCP FIN Flood";
   "TCP PSH+ACK Flood"; "Slowloris"; "Sockstress"; "ICMP Flood";
   "ICMP Fragmentation"; "Ping of Death"; "Smurf Attack"; "HTTP GET Flood";
   "HTTP POST Flood"; "Slow POST"; "HTTP Header Anomaly"]%string.

Definition attack_type_to_string (type : nat) : string :=
  if bool_decide (type < ATTACK_MAX)%nat
  then default ""%string (attack_strings !! type)
  else "Unknown"%string.

Definition AF_INET : Z := 2.
Definition AF_INET6 : Z := 10.
Definition PROTO_ICMP : Z := 1.
Definition PROTO_TCP : Z := 6.
Definition PROTO_UDP : Z := 17.

(** ** Addresses and connection tuples *)

(** [ip_addr_t]: the 16 bytes of the [v4]/[v6] union, in memory order, and the
    family. The [v4] member is the first four bytes. *)
Record ip_addr := IpAddr { addr : list Z; family : Z }.

#[global] Instance ip_addr_eq_dec : EqDecision ip_addr.
Proof. solve_decision. Defined.

Definition v4_bytes (ip : ip_addr) : list Z := take 4 (addr ip).
Definition v6_bytes (ip : ip_addr) : list Z := take 16 (addr ip).

(** [s_addr] is a [uint32_t] in network order: on the little-endian target its
    value is the little-endian reading of the four bytes. *)
Definition s_addr (ip : ip_addr) : Z := le32 (v4_bytes ip).

Definition ip_ok (ip : ip_addr) : Prop :=
  length (addr ip) = 16%nat ∧ bytes_ok (addr ip) ∧ 0 <= family ip < 256.

Record conn_tuple := ConnTuple {
  src_ip : ip_addr; dst_ip : ip_addr; src_port : Z; dst_port : Z; protocol : Z
}.

#[global] Instance conn_tuple_eq_dec : EqDecision conn_tuple.
Proof. solve_decision. Defined.

(** [memcmp] on the first [n] bytes. The standard fixes only the sign of the
    result; the storage always holds at least [n] bytes. *)
Fixpoint memcmp (n : nat) (l1 l2 : list Z) : Z :=
  match n, l1, l2 with
  | S n', a :: l1', b :: l2' =>
      if a =? b then memcmp n' l1' l2' else if a <? b then -1 else 1
  | S _, [], _ :: _ => -1
  | S _, _ :: _, [] => 1
  | _, _, _ => 0
  end.

Definition ip_addr_compare (a b : ip_addr) : Z :=
  if negb (family a =? family b) then family a - family b
  else if family a =? AF_INET then memcmp 4 (addr a) (addr b)
  else memcmp 16 (addr a) (addr b).

Definition conn_tuple_compare (a b : conn_tuple) : Z :=
  if negb (protocol a =? protocol b) then protocol a - protocol b
  else if negb (src_port a =? src_port b) then src_port a - src_port b
  else if negb (dst_port a =? dst_port b) then dst_port a - dst_port b
  else
    let cmp := ip_addr_compare (src_ip a) (src_ip b) in
    if negb (cmp =? 0) then cmp else ip_addr_compare (dst_ip a) (dst_ip b).

(** What the comparisons look at. *)
Definition ip_bytes (ip : ip_addr) : list Z :=
  if family ip =? AF_INET then v4_bytes ip else v6_bytes ip.
Definition ip_key_t : Type := Z * list Z.
Definition ip_key (ip : ip_addr) : ip_key_t := (family ip, ip_bytes ip).

Definition conn_key_t : Type := Z * Z * Z * ip_key_t * ip_key_t.
Definition conn_key (t : conn_tuple) : conn_key_t :=
  (protocol t, src_port t, dst_port t, ip_key (src_ip t), ip_key (dst_ip t)).

(** ** Three-way comparisons

    [CmpOrder cmp key]: [cmp] is a total order on the values of [key], read
    from its sign as C code does. *)

Class CmpOrder {A K} (cmp : A → A → Z) (key : A → K) : Prop := {
  cmp_zero a b : cmp a b = 0 ↔ key a = key b;
  cmp_anti a b : Z.sgn (cmp b a) = - Z.sgn (cmp a b);
  cmp_trans a b c : cmp a b < 0 → cmp b c < 0 → cmp a c < 0;
  cmp_compat a a' b : key a = key a' → Z.sgn (cmp a b) = Z.sgn (cmp a' b);
}.

Definition lex_cmp {A} (c1 c2 : A → A → Z) (a b : A) : Z :=
  if c1 a b =? 0 then c2 a b else c1 a b.

Section lex.
Context {A K1 K2 : Type} {c1 c2 : A → A → Z} {k1 : A → K1} {k2 : A → K2}.
Context `{!CmpOrder c1 k1, !CmpOrder c2 k2}.

Lemma cmp_compat_r a b b' : k1 b = k1 b' → Z.sgn (c1 a b) = Z.sgn (c1 a b').
Proof.
  intros Hb. rewrite (cmp_anti b a), (cmp_anti b' a).
  by rewrite (cmp_compat b b' a Hb).
Qed.

#[export] Instance lex_cmp_order : CmpOrder (lex_cmp c1 c2) (λ a, (k1 a, k2 a)).
Proof.
  unfold lex_cmp. split.
  - intros a b. pose proof (cmp_zero (cmp := c1) a b) as H1.
    pose proof (cmp_zero (cmp := c2) a b) as H2.
    destruct (Z.eqb_spec (c1 a b) 0); rewrite pair_equal_spec; naive_solver.
  - intros a b. pose proof (cmp_anti (cmp := c1) a b).
    pose proof (cmp_anti (cmp := c2) a b).
    destruct (Z.eqb_spec (c1 a b) 0), (Z.eqb_spec (c1 b a) 0); lia.
  - intros a b c. pose proof (cmp_zero (cmp := c1) a b) as Hab.
    pose proof (cmp_zero (cmp := c1) b c) as Hbc.
    pose proof (cmp_trans (cmp := c1) a b c).
    pose proof (cmp_trans (cmp := c2) a b c).
    pose proof (cmp_compat (cmp := c1) a b c) as Hl.
    pose proof (cmp_compat_r a b c) as Hr.
    destruct (Z.eqb_spec (c1 a b) 0) as [E1|], (Z.eqb_spec (c1 b c) 0) as [E2|],
      (Z.eqb_spec (c1 a c) 0); intros; try lia.
    + apply Hab in E1. specialize (Hl E1). lia.
    + apply Hab in E1. specialize (Hl E1). lia.
    + apply Hab in E1. specialize (Hl E1). lia.
    + apply Hbc in E2. specialize (Hr E2). lia.
    + apply Hbc in E2. specialize (Hr E2). lia.
  - intros a a' b [= H1 H2]. pose proof (cmp_compat (cmp := c1) a a' b H1).
    pose proof (cmp_compat (cmp := c2) a a' b H2).
    destruct (Z.eqb_spec (c1 a b) 0), (Z.eqb_spec (c1 a' b) 0); lia.
Qed.
End lex.

#[export] Instance sub_order {A} (f : A → Z) : CmpOrder (λ a b, f a - f b) f.
Proof. split; intros; lia. Qed.

Lemma memcmp_take n l1 l2 : memcmp n l1 l2 = 0 ↔ take n l1 = take n l2.
Proof.
  revert l1 l2. induction n as [|n IH]; intros [|a l1] [|b l2]; simpl; try done.
  destruct (Z.eqb_spec a b) as [->|]; [rewrite IH; split; [by intros ->|by intros [=]]|].
  destruct (a <? b); split; intros H; simplify_eq.
Qed.

#[export] Instance memcmp_order n : CmpOrder (memcmp n) (take n).
Proof.
  split.
  - apply memcmp_take.
  - induction n as [|n IH]; intros [|a l1] [|b l2]; simpl; try done.
    destruct (Z.eqb_spec a b), (Z.eqb_spec b a); try lia; [by subst|].
    destruct (Z.ltb_spec a b), (Z.ltb_spec b a); simpl; lia.
  - induction n as [|n IH]; intros [|a l1] [|b l2] [|c l3]; simpl; try lia.
    destruct (Z.eqb_spec a b), (Z.eqb_spec b c), (Z.eqb_spec a c); subst; try lia;
      repeat match goal with |- context [?x <? ?y] => destruct (Z.ltb_spec x y) end;
      eauto; lia.
  - induction n as [|n IH]; intros [|a l1] [|a' l1'] [|b l2]; simpl; try done.
    intros [= <- Heq]. destruct (Z.eqb_spec a b); [by apply IH|done].
Qed.

(** Transport along a pointwise equal comparison or an injective key. *)
Lemma cmp_order_ext {A K K'} (c c' : A → A → Z) (k : A → K) (k' : A → K') :
  CmpOrder c k → (∀ a b, c' a b = c a b) → (∀ a b, k a = k b ↔ k' a = k' b) →
  CmpOrder c' k'.
Proof.
  intros [H0 H1 H2 H3] Hc Hk. split.
  - intros a b. by rewrite Hc, H0, Hk.
  - intros a b. by rewrite !Hc.
  - intros a b c0. rewrite !Hc. apply H2.
  - intros a a' b ?%Hk. rewrite !Hc. by apply H3.
Qed.

#[export] Instance ip_addr_compare_order : CmpOrder ip_addr_compare ip_key.
Proof.
  set (big n a b := memcmp n (addr a) (addr b)).
  unfold ip_addr_compare, ip_key, ip_bytes, v4_bytes, v6_bytes.
  assert (∀ n, CmpOrder (big n) (λ a, take n (addr a))) as Hbig.
  { intros n. destruct (memcmp_order n). split; unfold big; eauto. }
  split.
  - intros a b. destruct (Z.eqb_spec (family a) (family b)) as [E|]; cbn [negb]; cbv beta.
    + rewrite E. destruct (family b =? AF_INET); rewrite memcmp_take;
        (split; [by intros ->|by intros [=]]).
    + split; [lia|by intros [=]].
  - intros a b. rewrite (Z.eqb_sym (family b)).
    destruct (Z.eqb_spec (family a) (family b)) as [E|]; cbn [negb]; [|lia].
    rewrite E. destruct (family b =? AF_INET).
    + apply (cmp_anti (cmp := big 4%nat)).
    + apply (cmp_anti (cmp := big 16%nat)).
  - intros a b c.
    destruct (Z.eqb_spec (family a) (family b)) as [E1|],
      (Z.eqb_spec (family b) (family c)) as [E2|],
      (Z.eqb_spec (family a) (family c)); cbn [negb]; try lia; try congruence.
    rewrite E1, E2. destruct (family c =? AF_INET).
    + apply (cmp_trans (cmp := big 4%nat)).
    + apply (cmp_trans (cmp := big 16%nat)).
  - intros a a' b [= E Hk]. rewrite E in *.
    destruct (negb (family a' =? family b)); [done|].
    destruct (family a' =? AF_INET).
    + by apply (cmp_compat (cmp := big 4%nat)).
    + by apply (cmp_compat (cmp := big 16%nat)).
Qed.

(** The nested comparison is the lexicographic one over its five stages. *)
#[export] Instance conn_tuple_compare_order : CmpOrder conn_tuple_compare conn_key.
Proof.
  set (src_ip_cmp a b := ip_addr_compare (src_ip a) (src_ip b)).
  set (dst_ip_cmp a b := ip_addr_compare (dst_ip a) (dst_ip b)).
  assert (CmpOrder src_ip_cmp (λ a, ip_key (src_ip a))) as Hs
    by (destruct ip_addr_compare_order; split; unfold src_ip_cmp; eauto).
  assert (CmpOrder dst_ip_cmp (λ a, ip_key (dst_ip a))) as Hd
    by (destruct ip_addr_compare_order; split; unfold dst_ip_cmp; eauto).
  pose proof (lex_cmp_order (c1 := λ a b, protocol a - protocol b) (k1 := protocol)
    (c2 := lex_cmp (λ a b, src_port a - src_port b)
      (lex_cmp (λ a b, dst_port a - dst_port b) (lex_cmp src_ip_cmp dst_ip_cmp)))) as Hlex.
  eapply cmp_order_ext; [exact Hlex| |].
  - intros a b. unfold lex_cmp, conn_tuple_compare, src_ip_cmp, dst_ip_cmp.
    repeat match goal with
      | |- context [?x =? ?y] => destruct (Z.eqb_spec x y); cbn [negb]
      end; try done; try lia.
  - intros a b. unfold conn_key, ip_key. split; intros H; injection H; intros; congruence.
Qed.

(** ** The bucket index of an address

    [ipset_hash], [ip_hash_simple] and [ip_stats_hash] share one computation
    and differ in the modulus. *)

Definition ip_hash_raw (ip : ip_addr) : Z :=
  if family ip =? AF_INET then bswap32 (s_addr ip)
  else foldl (λ h i, Z.lxor h (le32 (take 4 (drop (4 * i) (v6_bytes ip))))) 0 (seq 0 4).

Lemma ip_hash_raw_key a b : ip_key a = ip_key b → ip_hash_raw a = ip_hash_raw b.
Proof.
  unfold ip_key, ip_bytes, ip_hash_raw, s_addr. intros [= Hf Hb]. rewrite Hf in *.
  destruct (family b =? AF_INET); by rewrite Hb.
Qed.

Lemma ip_compare_zero a b : ip_addr_compare a b = 0 ↔ ip_key a = ip_key b.
Proof. apply cmp_zero. Qed.

Lemma ip_compare_eqb a b : (ip_addr_compare a b =? 0) = bool_decide (ip_key a = ip_key b).
Proof.
  destruct (Z.eqb_spec (ip_addr_compare a b) 0) as [H|H]; rewrite ip_compare_zero in H;
    [by rewrite bool_decide_true|by rewrite bool_decide_false].
Qed.

Lemma v4_bytes_ok ip : ip_ok ip → length (v4_bytes ip) = 4%nat ∧ bytes_ok (v4_bytes ip).
Proof.
  intros (Hl & Hb & _). unfold v4_bytes. split; [rewrite length_take; lia|].
  by apply Forall_take.
Qed.

Lemma v6_bytes_ok ip : ip_ok ip → length (v6_bytes ip) = 16%nat ∧ bytes_ok (v6_bytes ip).
Proof.
  intros (Hl & Hb & _). unfold v6_bytes. split; [rewrite length_take; lia|].
  by apply Forall_take.
Qed.

Lemma ntohl_s_addr ip : ip_ok ip → bswap32 (s_addr ip) = be32 (v4_bytes ip).
Proof. intros [? ?]%v4_bytes_ok. by apply bswap32_le32. Qed.

Lemma s_addr_range ip : ip_ok ip → 0 <= s_addr ip < 2 ^ 32.
Proof.
  intros [Hl Hb]%v4_bytes_ok. unfold s_addr.
  destruct (v4_bytes ip) as [|b0 [|b1 [|b2 [|b3 [|]]]]]; try done.
  unfold bytes_ok, byte_ok in Hb. rewrite !Forall_cons in Hb. simpl. lia.
Qed.

(** Literal addresses, for examples. *)
Definition ip4 (a b c d : Z) : ip_addr := IpAddr ([a; b; c; d] ++ replicate 12 0) AF_INET.
Definition ip6 (l : list Z) : ip_addr := IpAddr (l ++ replicate (16 - length l) 0) AF_INET6.

(** Decides well-formedness of a literal address. *)
Definition ip_okb (ip : ip_addr) : bool :=
  bool_decide (length (addr ip) = 16%nat) &&
  forallb (λ b, (0 <=? b) && (b <? 256)) (addr ip) &&
  ((0 <=? family ip) && (family ip <? 256)).

Lemma ip_okb_ok ip : ip_okb ip = true → ip_ok ip.
Proof.
  unfold ip_okb, ip_ok. rewrite !andb_true_iff, bool_decide_eq_true, forallb_forall.
  intros [[Hl Hb] [Hf1 Hf2]]. split_and!; [done| |lia|lia].
  apply Forall_forall. intros b Hin%list_elem_of_In. specialize (Hb b Hin).
  unfold byte_ok. lia.
Qed.
