(* ===== verification/CString.v ===== *)
(** * C strings

    A [const char *] is the memory from the pointer to the end of its object,
    as a list of bytes. The string functions stop at the byte that decides
    their result; one that runs off the end of the object reads out of bounds. *)

From S2P Require Import Prelude.

Definition bytes_of (s : string) : list Z := Z.of_N ∘ Ascii.N_of_ascii <$> String.list_ascii_of_string s.

(** A string literal, with its terminator. *)
Definition c_str (s : string) : list Z := bytes_of s ++ [0].

Fixpoint strlen (m : list Z) : res nat :=
  match m with
  | [] => Undef OutOfBounds
  | b :: m' => if b =? 0 then Ok O else let* n := strlen m' in Ok (S n)
  end.

(** [strchr m c] for [c <> 0]: the offset of the first [c]. *)
Fixpoint strchr (m : list Z) (c : Z) : res (option nat) :=
  match m with
  | [] => Undef OutOfBounds
  | b :: m' =>
      if b =? c then Ok (Some O)
      else if b =? 0 then Ok None
      else let* r := strchr m' c in Ok (option_map S r)
  end.

(** [strncmp(m, lit, strlen(lit)) == 0]. *)
Fixpoint starts_with (lit m : list Z) : res bool :=
  match lit, m with
  | [], _ => Ok true
  | _ :: _, [] => Undef OutOfBounds
  | c :: lit', b :: m' => if b =? c then starts_with lit' m' else Ok false
  end.

(** [strstr(m, lit)] as an offset. *)
Fixpoint strstr (lit m : list Z) : res (option nat) :=
  let* hit := starts_with lit m in
  if hit then Ok (Some O)
  else match m with
       | [] => Undef OutOfBounds
       | b :: m' => if b =? 0 then Ok None else let* r := strstr lit m' in Ok (option_map S r)
       end.

(** [strcasestr(m, lit)] in the C locale, for a lower-case [lit]. *)
Definition tolower (b : Z) : Z := if (65 <=? b) && (b <=? 90) then b + 32 else b.
Definition strcasestr (lit m : list Z) : res (option nat) := strstr lit (tolower <$> m).

(** [strcmp(s, lit) == 0] for two terminated strings, given without terminators. *)
Definition strcmp_eq (s lit : list Z) : bool := bool_decide (s = lit).

Definition is_space (b : Z) : bool := (b =? 32) || ((9 <=? b) && (b <=? 13)).
Definition is_digit (b : Z) : bool := (48 <=? b) && (b <=? 57).

Fixpoint scan_digits (m : list Z) (acc : Z) : res Z :=
  match m with
  | [] => Undef OutOfBounds
  | b :: m' => if is_digit b then scan_digits m' (acc * 10 + (b - 48)) else Ok acc
  end.

Fixpoint skip_while (p : Z → bool) (m : list Z) : res (list Z) :=
  match m with
  | [] => Undef OutOfBounds
  | b :: m' => if p b then skip_while p m' else Ok m
  end.

(** [atoi] as the C library defines it on the target: [(int) strtol(s, NULL, 10)],
    where [strtol] saturates at the bounds of a 64-bit [long]. *)
Definition atoi (m : list Z) : res Z :=
  let* m := skip_while is_space m in
  match m with
  | [] => Undef OutOfBounds
  | b :: m' =>
      let* v := (if b =? 45 then let* v := scan_digits m' 0 in Ok (- v)
           else if b =? 43 then scan_digits m' 0
           else scan_digits m 0) in
      Ok (i32 (Z.max (- 2 ^ 63) (Z.min (2 ^ 63 - 1) v)))
  end.

Lemma starts_with_app lit m : starts_with lit (lit ++ m) = Ok true.
Proof. induction lit; simpl; [done|]. by rewrite Z.eqb_refl. Qed.

(** [lit] occurs in [s]. *)
Definition occurs (lit s : list Z) : Prop := ∃ pre, (pre ++ lit) `prefix_of` s.

Lemma occurs_cons lit b s : occurs lit (b :: s) ↔ lit `prefix_of` (b :: s) ∨ occurs lit s.
Proof.
  split.
  - intros [[|c pre] [post Heq]]; [left; by exists post|].
    right. exists pre, post. by injection Heq.
  - intros [[post Heq]|[pre [post Heq]]].
    + exists [], post. done.
    + exists (b :: pre), post. simpl. by rewrite Heq.
Qed.

Lemma starts_with_cstr lit s m :
  0 ∉ lit → starts_with lit (s ++ 0 :: m) = Ok (bool_decide (lit `prefix_of` s)).
Proof.
  revert s. induction lit as [|c lit IH]; intros s Hlit.
  { cbn [starts_with]. by rewrite bool_decide_eq_true_2 by apply prefix_nil. }
  apply not_elem_of_cons in Hlit as [Hc Hlit]. destruct s as [|b s]; cbn [starts_with app].
  - destruct (Z.eqb_spec 0 c); [congruence|]. rewrite bool_decide_eq_false_2; [done|].
    intros H%prefix_nil_inv. done.
  - destruct (Z.eqb_spec b c) as [->|Hne].
    + rewrite IH by done. f_equal. apply bool_decide_ext. split.
      * apply prefix_cons.
      * apply prefix_cons_inv_2.
    + rewrite bool_decide_eq_false_2; [done|]. intros H%prefix_cons_inv_1. congruence.
Qed.

(** On terminated strings [strstr] stays inside and decides occurrence. *)
Lemma strstr_cstr lit s m :
  0 ∉ lit → 0 ∉ s → ∃ o, strstr lit (s ++ 0 :: m) = Ok o ∧ (is_Some o ↔ occurs lit s).
Proof.
  intros Hlit. induction s as [|b s IH]; intros Hs.
  - pose proof (starts_with_cstr lit [] m Hlit) as Hsw. cbn [app] in Hsw. cbn [app strstr]. rewrite Hsw.
    destruct (bool_decide_reflect (lit `prefix_of` [])) as [Hp|Hp]; cbn [rbind].
    + exists (Some O). split; [done|]. split; [|by intros _]. intros _. by exists [].
    + exists None. split; [done|]. split; [by intros [? ?]|].
      intros [pre Hpre]. apply prefix_nil_inv, app_eq_nil in Hpre as [_ ->].
      destruct Hp. apply prefix_nil.
  - apply not_elem_of_cons in Hs as [Hb Hs]. cbn [app strstr].
    pose proof (starts_with_cstr lit (b :: s) m Hlit) as Hsw. cbn [app] in Hsw. rewrite Hsw.
    destruct (bool_decide_reflect (lit `prefix_of` (b :: s))) as [Hp|Hp]; cbn [rbind].
    + exists (Some O). split; [done|]. rewrite occurs_cons. split; [by left|by intros _].
    + destruct (IH Hs) as (o & Ho & Hiff). rewrite (proj2 (Z.eqb_neq b 0)) by done.
      exists (option_map S o). split; [by rewrite Ho|]. rewrite occurs_cons, <- Hiff.
      destruct o; simpl; split; [by right|by intros _| |].
      * by intros [? ?].
      * by intros [?|[? ?]].
Qed.

Lemma tolower_zero (s : list Z) : 0 ∉ s → 0 ∉ (tolower <$> s).
Proof.
  intros Hs (b & Hb & Hin)%list_elem_of_fmap. unfold tolower in Hb.
  destruct (Z.leb_spec 65 b), (Z.leb_spec b 90); simpl in Hb; subst; try lia; done.
Qed.

Lemma strchr_found s c m : c ∉ s → 0 ∉ s → strchr (s ++ c :: m) c = Ok (Some (length s)).
Proof.
  induction s as [|b s IH]; intros Hc H0; simpl; [by rewrite Z.eqb_refl|].
  apply not_elem_of_cons in Hc as [? ?]. apply not_elem_of_cons in H0 as [? ?].
  destruct (Z.eqb_spec b c), (Z.eqb_spec b 0); try congruence. by rewrite IH.
Qed.

(** ** Printing in decimal: [%u] and [%lu] *)

Fixpoint dec_digits (fuel : nat) (n : Z) (acc : list Z) : list Z :=
  match fuel with
  | O => acc
  | S fuel' =>
      let acc := (48 + n mod 10) :: acc in
      if n <? 10 then acc else dec_digits fuel' (n / 10) acc
  end.

(** No [uint64_t] has more than twenty digits. *)
Definition print_u (n : Z) : list Z := dec_digits 20 n [].

Lemma dec_digits_app fuel n acc : dec_digits fuel n acc = dec_digits fuel n [] ++ acc.
Proof.
  revert n acc. induction fuel as [|fuel IH]; intros n acc; [done|]. cbn [dec_digits].
  destruct (n <? 10); [done|]. rewrite IH, (IH _ [_]). by rewrite <- app_assoc.
Qed.

Lemma is_digit_mod n : is_digit (48 + n mod 10) = true.
Proof. unfold is_digit. pose proof (Z.mod_pos_bound n 10). apply andb_true_iff. lia. Qed.

Lemma dec_digits_digits fuel n : Forall (λ c, is_digit c = true) (dec_digits fuel n []).
Proof.
  revert n. induction fuel as [|fuel IH]; intros n; cbn [dec_digits]; [done|].
  destruct (n <? 10); [by repeat constructor; apply is_digit_mod|].
  rewrite dec_digits_app. apply Forall_app. split; [apply IH|].
  by repeat constructor; apply is_digit_mod.
Qed.

Lemma dec_digits_cons fuel n : ∃ d l, dec_digits (S fuel) n [] = d :: l.
Proof.
  revert n. induction fuel as [|fuel IH]; intros n; [cbn; destruct (n <? 10); eauto|].
  remember (S fuel) as f. cbn [dec_digits]. destruct (n <? 10); [eauto|].
  rewrite dec_digits_app. destruct (IH (n / 10)) as (d & l & ->). cbn [app]. eauto.
Qed.

(** The digits are read back, whatever follows them. *)
Lemma scan_dec_digits fuel n :
  0 <= n < 10 ^ Z.of_nat (S fuel) →
  ∃ k, 0 <= k ∧ ∀ m a, scan_digits (dec_digits (S fuel) n [] ++ m) a = scan_digits m (a * 10 ^ k + n).
Proof.
  revert n. induction fuel as [|fuel IH]; intros n Hn.
  - exists 1. split; [done|]. intros m a. change (10 ^ Z.of_nat 1) with 10 in Hn. cbn [dec_digits].
    rewrite (proj2 (Z.ltb_lt n 10)) by lia. cbn [app scan_digits].
    rewrite is_digit_mod, Z.mod_small by lia. f_equal. lia.
  - remember (S fuel) as f. cbn [dec_digits]. destruct (Z.ltb_spec n 10).
    { exists 1. split; [done|]. intros m a. cbn [app scan_digits].
      rewrite is_digit_mod, Z.mod_small by lia. f_equal. lia. }
    rewrite Nat2Z.inj_succ, Z.pow_succ_r in Hn by lia.
    destruct (IH (n / 10)) as (k & Hk0 & Hk).
    { split; [apply Z.div_pos; lia|]. apply Z.div_lt_upper_bound; lia. }
    exists (k + 1). split; [lia|]. intros m a. rewrite dec_digits_app, <- app_assoc, Hk.
    cbn [app scan_digits]. rewrite is_digit_mod. f_equal.
    pose proof (Z.div_mod n 10 ltac:(lia)). rewrite Z.pow_add_r by lia. lia.
Qed.

Lemma print_u_digits n : Forall (λ c, is_digit c = true) (print_u n).
Proof. apply dec_digits_digits. Qed.

Lemma scan_stops m b acc : is_digit b = false → scan_digits (b :: m) acc = Ok acc.
Proof. intros H. cbn [scan_digits]. by rewrite H. Qed.

Lemma digit_not_space d : is_digit d = true → is_space d = false.
Proof.
  unfold is_digit, is_space. intros [H1 H2]%andb_true_iff. apply orb_false_iff.
  split; [apply Z.eqb_neq|apply andb_false_iff; right; apply Z.leb_gt]; lia.
Qed.

(** [atoi] inverts [%u] on the values an [int] holds. *)
Lemma atoi_print_u n b m : 0 <= n < 2 ^ 31 → is_digit b = false → atoi (print_u n ++ b :: m) = Ok n.
Proof.
  intros Hn Hb. destruct (scan_dec_digits 19 n) as (k & _ & Hk).
  { change (10 ^ Z.of_nat 20) with 100000000000000000000. lia. }
  pose proof (print_u_digits n) as Hd. unfold print_u in *.
  destruct (dec_digits_cons 19 n) as (d & l & Hl). specialize (Hk (b :: m) 0).
  rewrite Hl in *. cbn [app] in *. apply Forall_cons in Hd as [Hd _]. unfold atoi.
  cbn [skip_while]. rewrite (digit_not_space d Hd). cbn [rbind].
  assert (48 <= d <= 57) by (unfold is_digit in Hd; apply andb_true_iff in Hd; lia).
  rewrite (proj2 (Z.eqb_neq d 45)), (proj2 (Z.eqb_neq d 43)) by lia.
  rewrite Hk, scan_stops by done. cbn [rbind]. f_equal. rewrite Z.mul_0_l, Z.add_0_l. cint.
Qed.

(** [snprintf(buf, n, ...)] keeps [n - 1] bytes of the text. *)
Definition snprintf (n : nat) (text : list Z) : list Z := take (n - 1) text.

Lemma snprintf_fits n text : (length text < n)%nat → snprintf n text = text.
Proof. intros H. apply take_ge. lia. Qed.

(** [strcspn(m, reject)]. *)
Fixpoint strcspn (reject : list Z) (m : list Z) : res nat :=
  match m with
  | [] => Undef OutOfBounds
  | b :: m' =>
      if (b =? 0) || bool_decide (b ∈ reject) then Ok O
      else let* n := strcspn reject m' in Ok (S n)
  end.

(** ** On terminated memory the functions stay inside *)

Lemma strlen_terminated m : 0 ∈ m → ∃ n, strlen m = Ok n.
Proof.
  induction m as [|b m IH]; intros H; [by apply not_elem_of_nil in H|]. cbn [strlen].
  destruct (Z.eqb_spec b 0) as [|Hb0]; [eauto|]. apply elem_of_cons in H as [?|H]; [congruence|].
  destruct (IH H) as [n ->]. cbn [rbind]. eauto.
Qed.

Lemma strcspn_terminated reject m :
  0 ∈ m → ∃ n, strcspn reject m = Ok n ∧ (n < length m)%nat.
Proof.
  induction m as [|b m IH]; intros H; [by apply not_elem_of_nil in H|]. cbn [strcspn length].
  destruct (Z.eqb_spec b 0) as [|Hb0]; cbn [orb]; [exists O; split; [done|lia]|].
  case_bool_decide; [exists O; split; [done|lia]|]. apply elem_of_cons in H as [?|H]; [congruence|].
  destruct (IH H) as (n & -> & Hn). cbn [rbind]. exists (S n). split; [done|lia].
Qed.

Lemma strchr_terminated m c :
  0 ∈ m → c ≠ 0 → ∃ r, strchr m c = Ok r ∧ ∀ k, r = Some k → 0 ∈ drop (S k) m.
Proof.
  intros H Hc. induction m as [|b m IH]; [by apply not_elem_of_nil in H|]. cbn [strchr].
  destruct (Z.eqb_spec b c) as [|Hbc].
  { exists (Some O). split; [done|]. intros k [= <-]. cbn [drop].
    apply elem_of_cons in H as [?|?]; [congruence|]. by rewrite drop_0. }
  destruct (Z.eqb_spec b 0) as [|Hb0]; [by exists None|]. apply elem_of_cons in H as [?|H]; [congruence|].
  destruct (IH H) as (r & -> & Hr). cbn [rbind]. exists (option_map S r). split; [done|].
  intros k Hk. destruct r as [k'|]; [|done]. injection Hk as <-. cbn [drop]. by apply Hr.
Qed.

Lemma scan_digits_terminated m acc : 0 ∈ m → ∃ n, scan_digits m acc = Ok n.
Proof.
  revert acc. induction m as [|b m IH]; intros acc H; [by apply not_elem_of_nil in H|].
  cbn [scan_digits]. destruct (is_digit b) eqn:E; [|eauto].
  apply elem_of_cons in H as [<-|H]; [done|]. by apply IH.
Qed.

Lemma skip_space_terminated m :
  0 ∈ m → ∃ b m', skip_while is_space m = Ok (b :: m') ∧ 0 ∈ b :: m' ∧ is_space b = false.
Proof.
  induction m as [|b m IH]; intros H; [by apply not_elem_of_nil in H|]. cbn [skip_while].
  destruct (is_space b) eqn:E; [|eauto]. apply elem_of_cons in H as [<-|H]; [done|]. by apply IH.
Qed.

Lemma atoi_terminated m : 0 ∈ m → ∃ n, atoi m = Ok n.
Proof.
  intros H. unfold atoi. destruct (skip_space_terminated m H) as (b & m' & -> & H' & _).
  cbn [rbind].
  destruct (Z.eqb_spec b 45) as [->|Hm]; [|destruct (Z.eqb_spec b 43) as [->|Hp]].
  - destruct (scan_digits_terminated m' 0) as [n ->]; [|cbn [rbind]; eauto].
    by apply elem_of_cons in H' as [?|?].
  - destruct (scan_digits_terminated m' 0) as [n ->]; [|cbn [rbind]; eauto].
    by apply elem_of_cons in H' as [?|?].
  - destruct (scan_digits_terminated (b :: m') 0 H') as [n ->]. cbn [rbind]. eauto.
Qed.

Lemma strcspn_stops reject s b m :
  Forall (λ c, c ≠ 0 ∧ c ∉ reject) s → b = 0 ∨ b ∈ reject → strcspn reject (s ++ b :: m) = Ok (length s).
Proof.
  intros Hs Hb. induction Hs as [|c s [Hc Hr] _ IH]; cbn [app strcspn length].
  - destruct Hb as [->|Hb]; [done|]. by rewrite bool_decide_eq_true_2, orb_true_r.
  - rewrite (proj2 (Z.eqb_neq c 0)), bool_decide_eq_false_2 by done. cbn [orb]. by rewrite IH.
Qed.

Example atoi_ex : (atoi (c_str "  -42x"), atoi (c_str "24"), atoi (c_str "99999999999999999999"))
                  = (Ok (-42), Ok 24, Ok (-1)).
Proof. vm_compute. reflexivity. Qed.
