(* ===== verification/Inet.v ===== *)
(** * Addresses as text

    [string_to_ip_addr] and [ip_addr_to_string] of [src/core/logger.c], over the
    C library's [inet_pton] and [inet_ntop]: their interface, what their
    documentation promises, and a concrete pair of functions that keeps the
    promises. *)

From S2P Require Import Prelude Common CString.

Definition MAX_IP_STR_LEN : Z := 46.

(** [inet_pton], given by the four or sixteen bytes it stores on success. *)
Class InetPton := {
  inet_pton4 : list Z → option (list Z);
  inet_pton6 : list Z → option (list Z)
}.

(** What its documentation promises of the bytes. *)
Class InetPtonLaws `{!InetPton} : Prop := {
  inet_pton4_ok s b : inet_pton4 s = Some b → length b = 4%nat ∧ bytes_ok b;
  inet_pton6_ok s b : inet_pton6 s = Some b → length b = 16%nat ∧ bytes_ok b
}.

(** [inet_ntop]: from the four or sixteen bytes of an address to its text. *)
Class InetNtop := {
  inet_ntop4 : list Z → list Z;
  inet_ntop6 : list Z → list Z
}.

(** Its documentation bounds the text by [INET6_ADDRSTRLEN], 46 bytes with the
    terminator. *)
Class InetNtopLaws `{!InetNtop} : Prop := {
  inet_ntop4_short b : (length (inet_ntop4 b) < 46)%nat;
  inet_ntop6_short b : (length (inet_ntop6 b) < 46)%nat
}.

(** The characters of an address: digits, [a] to [f], the dot and the colon. *)
Definition ip_char (c : Z) : bool :=
  is_digit c || ((97 <=? c) && (c <=? 102)) || (c =? 46) || (c =? 58).

(** The text [inet_ntop] prints is one [inet_pton] reads in the same family, and
    in that family only. *)
Class InetText `{!InetPton, !InetNtop} : Prop := {
  pton4_ntop4 b : length b = 4%nat → bytes_ok b → inet_pton4 (inet_ntop4 b) = Some b;
  pton6_ntop6 b : length b = 16%nat → bytes_ok b → inet_pton6 (inet_ntop6 b) = Some b;
  pton4_ntop6 b : length b = 16%nat → bytes_ok b → inet_pton4 (inet_ntop6 b) = None;
  ntop4_chars b : length b = 4%nat → bytes_ok b → Forall (λ c, ip_char c = true) (inet_ntop4 b);
  ntop6_chars b : length b = 16%nat → bytes_ok b → Forall (λ c, ip_char c = true) (inet_ntop6 b);
  ntop4_nonempty b : length b = 4%nat → bytes_ok b → inet_ntop4 b ≠ [];
  ntop6_nonempty b : length b = 16%nat → bytes_ok b → inet_ntop6 b ≠ []
}.

Section pton.
Context {inet : InetPton}.

(** Writes the result over the storage [ip]; only the member written changes. *)
Definition string_to_ip_addr (str : list Z) (ip : ip_addr) : Z * ip_addr :=
  match inet_pton4 str with
  | Some b => (0, IpAddr (b ++ drop 4 (addr ip)) AF_INET)
  | None =>
      match inet_pton6 str with
      | Some b => (0, IpAddr (b ++ drop 16 (addr ip)) AF_INET6)
      | None => (-1, ip)
      end
  end.

Lemma string_to_ip_addr_ok {laws : InetPtonLaws} str ip ip' :
  ip_ok ip → string_to_ip_addr str ip = (0, ip') → ip_ok ip' ∧ (family ip' = AF_INET ∨ family ip' = AF_INET6).
Proof.
  intros (Hl & Hb & Hf). unfold string_to_ip_addr.
  destruct (inet_pton4 str) as [b|] eqn:E4; [|destruct (inet_pton6 str) as [b|] eqn:E6; [|done]].
  - apply inet_pton4_ok in E4 as [Lb Bb]. intros [= <-]. unfold ip_ok; simpl.
    rewrite length_app, length_drop.
    split; [split_and!; [lia|by apply Forall_app_2, Forall_drop|done|done]|by left].
  - apply inet_pton6_ok in E6 as [Lb Bb]. intros [= <-]. unfold ip_ok; simpl.
    rewrite length_app, length_drop.
    split; [split_and!; [lia|by apply Forall_app_2, Forall_drop|done|done]|by right].
Qed.
End pton.

Section ntop.
Context {ntop : InetNtop}.

Definition ip_addr_to_string (ip : ip_addr) : list Z :=
  if family ip =? AF_INET then inet_ntop4 (take 4 (addr ip)) else inet_ntop6 (v6_bytes ip).

Lemma ip_addr_to_string_short {laws : InetNtopLaws} ip :
  (length (ip_addr_to_string ip) < 46)%nat.
Proof.
  unfold ip_addr_to_string. destruct (family ip =? AF_INET);
    [apply inet_ntop4_short|apply inet_ntop6_short].
Qed.
End ntop.

Section text.
Context {inet : InetPton} {ntop : InetNtop} {text : InetText}.

Lemma ip_addr_to_string_chars ip :
  ip_ok ip → Forall (λ c, ip_char c = true) (ip_addr_to_string ip) ∧ ip_addr_to_string ip ≠ [].
Proof.
  intros Hip. pose proof (v4_bytes_ok ip Hip) as [? ?]. pose proof (v6_bytes_ok ip Hip) as [? ?].
  unfold ip_addr_to_string. fold (v4_bytes ip). destruct (family ip =? AF_INET).
  - split; [by apply ntop4_chars|by apply ntop4_nonempty].
  - split; [by apply ntop6_chars|by apply ntop6_nonempty].
Qed.

(** Reading a printed address gives the address back. *)
Lemma string_to_ip_addr_print ip stack :
  ip_ok ip → (family ip = AF_INET ∨ family ip = AF_INET6) →
  ∃ ip', string_to_ip_addr (ip_addr_to_string ip) stack = (0, ip') ∧
    family ip' = family ip ∧ ip_key ip' = ip_key ip.
Proof.
  intros Hip Hf. pose proof (v4_bytes_ok ip Hip) as [L4 B4]. pose proof (v6_bytes_ok ip Hip) as [L6 B6].
  unfold ip_addr_to_string, string_to_ip_addr. fold (v4_bytes ip).
  destruct Hf as [Hf|Hf].
  - rewrite (proj2 (Z.eqb_eq _ _) Hf), pton4_ntop4 by done. eexists. split; [done|].
    cbn [family]. split; [by rewrite Hf|]. unfold ip_key, ip_bytes. rewrite Hf. cbn [family].
    change (AF_INET =? AF_INET) with true. cbv iota. f_equal. unfold v4_bytes at 1. cbn [addr].
    rewrite take_app_le by lia. by apply take_ge; lia.
  - rewrite (proj2 (Z.eqb_neq _ _)) by (rewrite Hf; done). rewrite pton4_ntop6, pton6_ntop6 by done.
    eexists. split; [done|]. cbn [family]. split; [by rewrite Hf|]. unfold ip_key, ip_bytes.
    rewrite Hf. cbn [family]. change (AF_INET6 =? AF_INET) with false. cbv iota. f_equal.
    unfold v6_bytes at 1. cbn [addr]. rewrite take_app_le by lia. by apply take_ge; lia.
Qed.
End text.

(** ** Functions that keep the promises

    Dotted decimal, and the eight groups of a v6 address written out in full. *)

(** The pieces of a text between separators. *)
Fixpoint split_on (c : Z) (l : list Z) : list (list Z) :=
  match l with
  | [] => [[]]
  | b :: l' =>
      if b =? c then [] :: split_on c l'
      else match split_on c l' with p :: ps => (b :: p) :: ps | [] => [[b]] end
  end.

Fixpoint join (c : Z) (ps : list (list Z)) : list Z :=
  match ps with
  | [] => []
  | [p] => p
  | p :: ps' => p ++ c :: join c ps'
  end.

Lemma split_on_piece c p l : c ∉ p → split_on c (p ++ c :: l) = p :: split_on c l.
Proof.
  induction p as [|b p IH]; cbn [app split_on]; [by rewrite Z.eqb_refl|].
  intros [Hb Hp]%not_elem_of_cons. rewrite (proj2 (Z.eqb_neq b c)) by done. by rewrite IH.
Qed.

Lemma split_on_none c p : c ∉ p → split_on c p = [p].
Proof.
  induction p as [|b p IH]; cbn [split_on]; [done|].
  intros [Hb Hp]%not_elem_of_cons. rewrite (proj2 (Z.eqb_neq b c)) by done. by rewrite IH.
Qed.

Lemma split_on_join c ps : ps ≠ [] → Forall (λ p, c ∉ p) ps → split_on c (join c ps) = ps.
Proof.
  induction ps as [|p [|q ps] IH]; [done| |]; intros _ [Hp Hps]%Forall_cons.
  - by apply split_on_none.
  - change (join c (p :: q :: ps)) with (p ++ c :: join c (q :: ps)).
    rewrite split_on_piece by done. by rewrite IH.
Qed.

Lemma join_Forall (P : Z → Prop) c ps : P c → Forall (Forall P) ps → Forall P (join c ps).
Proof.
  intros Hc. induction ps as [|p [|q ps] IH]; intros H; [done| |]; apply Forall_cons in H as [Hp Hps].
  - done.
  - change (join c (p :: q :: ps)) with (p ++ c :: join c (q :: ps)).
    apply Forall_app. split; [done|]. constructor; [done|]. by apply IH.
Qed.

Definition byte_okb (b : Z) : bool := (0 <=? b) && (b <? 256).

(** The bytes read, if they are as many as the family has. *)
Definition address (n : nat) (b : list Z) : option (list Z) :=
  if Nat.eqb (length b) n && forallb byte_okb b then Some b else None.

Lemma address_Some n l b : address n l = Some b → length b = n ∧ bytes_ok b.
Proof.
  unfold address. destruct (Nat.eqb_spec (length l) n); cbn [andb]; [|done].
  destruct (forallb byte_okb l) eqn:E; [|done]. intros [= <-]. split; [done|].
  apply Forall_forall. intros x Hx. rewrite forallb_forall in E.
  apply list_elem_of_In in Hx. apply E in Hx. unfold byte_okb in Hx. unfold byte_ok. lia.
Qed.

Lemma address_ok n b : length b = n → bytes_ok b → address n b = Some b.
Proof.
  intros <- Hb. unfold address. rewrite Nat.eqb_refl. cbn [andb].
  replace (forallb byte_okb b) with true; [done|]. symmetry. apply forallb_forall. intros x Hx.
  apply list_elem_of_In in Hx. eapply Forall_forall in Hb; [|done]. unfold byte_ok in Hb.
  unfold byte_okb. lia.
Qed.

Definition read_dec (p : list Z) : option Z :=
  match p with
  | [] => None
  | _ => if forallb is_digit p then match scan_digits (p ++ [0]) 0 with Ok n => Some n | _ => None end
         else None
  end.

Definition hex_digit (d : Z) : Z := if d <? 10 then 48 + d else 87 + d.
Definition hex_value (c : Z) : option Z :=
  if is_digit c then Some (c - 48)
  else if (97 <=? c) && (c <=? 102) then Some (c - 87) else None.
Definition hex_byte (b : Z) : list Z := [hex_digit (b / 16); hex_digit (b mod 16)].
Definition unhex (c d : Z) : option Z :=
  match hex_value c, hex_value d with Some h, Some l => Some (h * 16 + l) | _, _ => None end.
Definition unhex_group (p : list Z) : option (list Z) :=
  match p with
  | [a; b; c; d] => match unhex a b, unhex c d with Some x, Some y => Some [x; y] | _, _ => None end
  | _ => None
  end.

Fixpoint groups (b : list Z) : list (list Z) :=
  match b with x :: y :: b' => (hex_byte x ++ hex_byte y) :: groups b' | _ => [] end.

#[local] Instance numeric_pton : InetPton := {|
  inet_pton4 s := mapM read_dec (split_on 46 s) ≫= address 4;
  inet_pton6 s := mapM unhex_group (split_on 58 s) ≫= λ g, address 16 (concat g)
|}.
#[local] Instance numeric_ntop : InetNtop := {|
  inet_ntop4 b := take 45 (join 46 (print_u <$> b));
  inet_ntop6 b := take 45 (join 58 (groups b))
|}.

(** What holds of every byte is checked on the 256 of them. *)
Lemma byte_forall (f : Z → bool) :
  forallb f (Z.of_nat <$> seq 0 256) = true → ∀ b, byte_ok b → f b = true.
Proof.
  intros H b Hb. rewrite forallb_forall in H. apply H, list_elem_of_In, list_elem_of_fmap.
  exists (Z.to_nat b). unfold byte_ok in Hb. split; [lia|]. apply elem_of_seq. lia.
Qed.

Definition dec_byte_okb (b : Z) : bool :=
  bool_decide (read_dec (print_u b) = Some b) && bool_decide (length (print_u b) ≤ 3)%nat.

Lemma dec_byte b : byte_ok b → read_dec (print_u b) = Some b ∧ (length (print_u b) ≤ 3)%nat.
Proof.
  intros Hb. assert (dec_byte_okb b = true) as [H1 H2]%andb_true_iff.
  { revert b Hb. apply byte_forall. vm_compute. reflexivity. }
  apply bool_decide_eq_true in H1, H2. done.
Qed.

Definition hex_byte_okb (b : Z) : bool :=
  bool_decide (unhex (hex_digit (b / 16)) (hex_digit (b mod 16)) = Some b) &&
  forallb (λ c, ip_char c && negb (c =? 46) && negb (c =? 58)) (hex_byte b).

Lemma hex_byte_ok b :
  byte_ok b → unhex (hex_digit (b / 16)) (hex_digit (b mod 16)) = Some b ∧
    Forall (λ c, ip_char c = true ∧ c ≠ 46 ∧ c ≠ 58) (hex_byte b).
Proof.
  intros Hb. assert (hex_byte_okb b = true) as [H1 H2]%andb_true_iff.
  { revert b Hb. apply byte_forall. vm_compute. reflexivity. }
  apply bool_decide_eq_true in H1. split; [done|]. apply Forall_forall. intros c Hc.
  rewrite forallb_forall in H2. apply list_elem_of_In, H2 in Hc.
  rewrite !andb_true_iff, !negb_true_iff, !Z.eqb_neq in Hc. naive_solver.
Qed.

Lemma digit_in_text c : is_digit c = true → ip_char c = true ∧ c ≠ 46 ∧ c ≠ 58.
Proof.
  unfold ip_char, is_digit. intros [H1 H2]%andb_true_iff. split; [|lia].
  rewrite H1, H2. done.
Qed.

Lemma print_u_text n : Forall (λ c, ip_char c = true ∧ c ≠ 46 ∧ c ≠ 58) (print_u n).
Proof. eapply Forall_impl; [apply print_u_digits|]. apply digit_in_text. Qed.

Lemma groups_text b :
  bytes_ok b → Forall (Forall (λ c, ip_char c = true ∧ c ≠ 46 ∧ c ≠ 58)) (groups b).
Proof.
  induction b as [b IH] using (induction_ltof1 _ (@length Z)). unfold ltof in IH.
  destruct b as [|x [|y b]]; intros Hb; cbn [groups]; [done..|].
  apply Forall_cons in Hb as [Hx [Hy Hb]%Forall_cons].
  constructor; [|apply IH; [cbn; lia|done]].
  apply Forall_app. split; by apply hex_byte_ok.
Qed.

Lemma groups_read b :
  bytes_ok b → Nat.even (length b) = true → mapM unhex_group (groups b) ≫= (λ g, Some (concat g)) = Some b.
Proof.
  induction b as [b IH] using (induction_ltof1 _ (@length Z)). unfold ltof in IH.
  destruct b as [|x [|y b]]; intros Hb Hev; [done..|].
  apply Forall_cons in Hb as [Hx [Hy Hb]%Forall_cons].
  specialize (IH b ltac:(cbn; lia) Hb Hev). cbn [groups mapM].
  cbn [hex_byte app unhex_group].
  rewrite (proj1 (hex_byte_ok x Hx)), (proj1 (hex_byte_ok y Hy)). cbn [mbind option_bind].
  destruct (mapM unhex_group (groups b)) as [g|]; [|done]. injection IH as IH.
  change (Some (x :: y :: concat g) = Some (x :: y :: b)). by rewrite IH.
Qed.

Lemma groups_length b :
  Nat.even (length b) = true →
  (length (groups b) + length (groups b) = length b ∧ Forall (λ p, length p = 4) (groups b))%nat.
Proof.
  induction b as [b IH] using (induction_ltof1 _ (@length Z)). unfold ltof in IH.
  destruct b as [|x [|y b]]; intros Hev; [done..|].
  destruct (IH b ltac:(cbn; lia) Hev) as [H1 H2]. cbn [groups length]. split; [lia|].
  by constructor.
Qed.

Lemma join_length c ps k :
  Forall (λ p, length p ≤ k)%nat ps → (length (join c ps) ≤ length ps * S k)%nat.
Proof.
  induction ps as [|p [|q ps] IH]; intros H; [done| |]; apply Forall_cons in H as [Hp Hps].
  - cbn [join length]. lia.
  - change (join c (p :: q :: ps)) with (p ++ c :: join c (q :: ps)). specialize (IH Hps).
    rewrite length_app. cbn [length] in *. lia.
Qed.

Lemma text_avoids c p :
  c = 46 ∨ c = 58 → Forall (λ c, ip_char c = true ∧ c ≠ 46 ∧ c ≠ 58) p → c ∉ p.
Proof. intros Hc Hp Hin. eapply Forall_forall in Hp; [|done]. naive_solver. Qed.

Section numeric.
Variable b : list Z.
Hypothesis Hb : bytes_ok b.

Lemma numeric4_fits : length b = 4%nat → inet_ntop4 b = join 46 (print_u <$> b).
Proof.
  intros Hl. apply take_ge. etransitivity; [apply (join_length _ _ 3)|rewrite length_fmap; lia].
  apply Forall_fmap. eapply Forall_impl; [exact Hb|]. intros x Hx. by apply dec_byte.
Qed.

Lemma numeric6_fits : length b = 16%nat → inet_ntop6 b = join 58 (groups b).
Proof.
  intros Hl. destruct (groups_length b) as [H1 H2]; [by rewrite Hl|].
  apply take_ge. etransitivity; [apply (join_length _ _ 4)|lia].
  eapply Forall_impl; [exact H2|]. intros p Hp. cbn beta in *. by rewrite Hp.
Qed.

Lemma numeric4_pieces : length b = 4%nat → split_on 46 (inet_ntop4 b) = print_u <$> b.
Proof.
  intros Hl. rewrite numeric4_fits by done. apply split_on_join; [by destruct b|].
  apply Forall_fmap, Forall_true. intros x. apply text_avoids; [by left|apply print_u_text].
Qed.

Lemma numeric6_pieces : length b = 16%nat → split_on 58 (inet_ntop6 b) = groups b.
Proof.
  intros Hl. rewrite numeric6_fits by done.
  apply split_on_join; [by destruct b as [|? [|? ?]]|].
  eapply Forall_impl; [by apply groups_text|]. intros p. apply text_avoids. by right.
Qed.

Lemma numeric_pton4_ntop4 : length b = 4%nat → inet_pton4 (inet_ntop4 b) = Some b.
Proof.
  intros Hl. cbn [inet_pton4 numeric_pton]. rewrite numeric4_pieces by done.
  replace (mapM read_dec (print_u <$> b)) with (Some b); [by apply address_ok|].
  symmetry. apply mapM_Some, Forall2_fmap_l, Forall2_same_length_lookup_2; [done|].
  intros i x y Hx Hy. simplify_eq. apply dec_byte. by eapply Forall_lookup_1.
Qed.

Lemma numeric_pton6_ntop6 : length b = 16%nat → inet_pton6 (inet_ntop6 b) = Some b.
Proof.
  intros Hl. cbn [inet_pton6 numeric_pton]. rewrite numeric6_pieces by done.
  pose proof (groups_read b Hb) as Hr. rewrite Hl in Hr. specialize (Hr eq_refl).
  destruct (mapM unhex_group (groups b)) as [g|]; [|done]. cbn [mbind option_bind] in *.
  injection Hr as ->. by apply address_ok.
Qed.

Lemma numeric_pton4_ntop6 : length b = 16%nat → inet_pton4 (inet_ntop6 b) = None.
Proof.
  intros Hl. cbn [inet_pton4 numeric_pton]. rewrite split_on_none.
  - destruct (mapM read_dec [inet_ntop6 b]) as [g|] eqn:E; [|done]. cbn [mbind option_bind].
    apply mapM_Some, Forall2_length in E. destruct (address 4 g) eqn:E4; [|done].
    unfold address in E4. destruct (Nat.eqb_spec (length g) 4); [|done]. cbn [length] in E. lia.
  - rewrite numeric6_fits by done. intros Hin.
    assert (Forall (λ c, c ≠ 46) (join 58 (groups b))) as Hall.
    { apply join_Forall; [done|]. eapply Forall_impl; [by apply groups_text|].
      intros p Hp. eapply Forall_impl; [exact Hp|]. naive_solver. }
    eapply Forall_forall in Hall; [|done]. done.
Qed.

Lemma numeric4_chars : length b = 4%nat → Forall (λ c, ip_char c = true) (inet_ntop4 b).
Proof.
  intros Hl. rewrite numeric4_fits by done. apply join_Forall; [done|].
  apply Forall_fmap, Forall_true. intros x. eapply Forall_impl; [apply print_u_text|]. naive_solver.
Qed.

Lemma numeric6_chars : length b = 16%nat → Forall (λ c, ip_char c = true) (inet_ntop6 b).
Proof.
  intros Hl. rewrite numeric6_fits by done. apply join_Forall; [done|].
  eapply Forall_impl; [by apply groups_text|]. intros p Hp. eapply Forall_impl; [exact Hp|]. naive_solver.
Qed.
End numeric.

#[local] Instance numeric_pton_laws : InetPtonLaws.
Proof.
  split; intros s b; cbn [inet_pton4 inet_pton6 numeric_pton].
  - destruct (mapM read_dec (split_on 46 s)); [|done]. apply address_Some.
  - destruct (mapM unhex_group (split_on 58 s)); [|done]. apply address_Some.
Qed.

#[local] Instance numeric_ntop_laws : InetNtopLaws.
Proof.
  split; intros b; cbn [inet_ntop4 inet_ntop6 numeric_ntop]; rewrite length_take; lia.
Qed.

#[local] Instance numeric_text : InetText.
Proof.
  split; intros b Hl Hb.
  - by apply numeric_pton4_ntop4.
  - by apply numeric_pton6_ntop6.
  - by apply numeric_pton4_ntop6.
  - by apply numeric4_chars.
  - by apply numeric6_chars.
  - destruct b as [|x b]; [done|]. destruct (dec_digits_cons 19 x) as (d & l & Hd).
    change (take 45 (join 46 (dec_digits 20 x [] :: (print_u <$> b))) ≠ []). rewrite Hd.
    destruct b; discriminate.
  - by destruct b as [|? [|? [|? [|? ?]]]].
Qed.

Example numeric_ex :
  (string_to_ip_addr (bytes_of "10.1.2.3") (ip4 0 0 0 0), inet_ntop4 [10; 1; 2; 3])
  = ((0, ip4 10 1 2 3), bytes_of "10.1.2.3").
Proof. vm_compute. reflexivity. Qed.
