(* ===== verification/IpSet.v ===== *)
(** * IP sets

    [src/storage/ipset.c]: the whitelist and blacklist, a hash table of
    addresses with a prefix length and an expiry. The first part models the
    operations in memory; the second relates the chained table to the multiset of its
    entries, CIDR matching to equality of prefixes, and shows which sequences
    of calls keep the table's counters and chains consistent. *)

From S2P Require Import Prelude Bits Common CString Inet.

(** ** Data *)

Record ipset_entry := IpsetEntry {
  e_ip : ip_addr;
  e_prefix_len : Z;   (* uint8_t *)
  e_expires : Z       (* time_t, 0 = never *)
}.

(** [buckets] holds each chain from its head. *)
Record ipset := Ipset {
  buckets : list (list ipset_entry);
  entry_count : Z;
  max_size : Z
}.

Definition IPSET_BUCKETS : Z := 4096.

(** The two [calloc] calls of [ipset_create] are given by their outcomes. *)
Definition ipset_create (calloc1 calloc2 : bool) (max : Z) : option ipset :=
  if calloc1 then
    if calloc2 then
      Some (Ipset (replicate (Z.to_nat IPSET_BUCKETS) []) 0 max)
    else None
  else None.

Definition ipset_hash (ip : ip_addr) : Z := ip_hash_raw ip mod IPSET_BUCKETS.

Definition bucket_of (set : ipset) (hash : Z) : list ipset_entry :=
  default [] (buckets set !! Z.to_nat hash).

Definition with_bucket (set : ipset) (hash : Z) (b : list ipset_entry) (count : Z) : ipset :=
  Ipset (<[Z.to_nat hash := b]> (buckets set)) count (max_size set).

Definition same_ip (ip : ip_addr) (e : ipset_entry) : bool :=
  ip_addr_compare (e_ip e) ip =? 0.

Definition expired (now : Z) (e : ipset_entry) : bool :=
  (0 <? e_expires e) && (e_expires e <? now).

(** ** Insertion and removal *)

Definition ipset_add_expiring (calloc_ok : bool) (set : ipset) (ip : ip_addr) (expires : Z)
    : Z * ipset :=
  if max_size set <=? entry_count set then (-1, set)
  else
    let hash := ipset_hash ip in
    match update_first (λ e, same_ip ip e && (e_prefix_len e =? 32))
            (λ e, IpsetEntry (e_ip e) (e_prefix_len e) expires) (bucket_of set hash) with
    | Some b => (0, with_bucket set hash b (entry_count set))
    | None =>
        if calloc_ok then
          let entry := IpsetEntry ip (if family ip =? AF_INET then 32 else 128) expires in
          (0, with_bucket set hash (entry :: bucket_of set hash) (entry_count set +₃₂ 1))
        else (-1, set)
    end.

Definition ipset_add (calloc_ok : bool) (set : ipset) (ip : ip_addr) : Z * ipset :=
  ipset_add_expiring calloc_ok set ip 0.

Definition ipset_remove (set : ipset) (ip : ip_addr) : Z * ipset :=
  let hash := ipset_hash ip in
  match remove_first (same_ip ip) (bucket_of set hash) with
  | Some b => (0, with_bucket set hash b (entry_count set -₃₂ 1))
  | None => (-1, set)
  end.

(** ** Lookup *)

Fixpoint contains_walk (now : Z) (ip : ip_addr) (chain : list ipset_entry) : bool :=
  match chain with
  | [] => false
  | e :: next =>
      if expired now e then contains_walk now ip next
      else if same_ip ip e then true
      else contains_walk now ip next
  end.

Definition ipset_contains (now : Z) (set : ipset) (ip : ip_addr) : bool :=
  contains_walk now ip (bucket_of set (ipset_hash ip)).

(** [1 << n] on a 32-bit [int]: defined for counts below 31 only. *)
Definition shl1_int (n : Z) : res Z :=
  if (0 <=? n) && (n <? 31) then Ok (2 ^ n) else Undef BadShift.

Definition ip_in_cidr (ip network : ip_addr) (prefix_len : Z) : res bool :=
  if negb (family ip =? family network) then Ok false
  else if family ip =? AF_INET then
    let* mask :=
      (if negb (prefix_len =? 0)
       then let* s := shl1_int (32 - prefix_len) in
            Ok (bswap32 (u32 (Z.lnot (s - 1))))
       else Ok 0) in
    Ok (Z.land (s_addr ip) mask =? Z.land (s_addr network) mask)
  else
    let ip_bytes := v6_bytes ip in
    let net_bytes := v6_bytes network in
    let full_bytes := prefix_len / 8 in
    let remaining_bits := prefix_len mod 8 in
    if 16 <? full_bytes then Undef OutOfBounds
    else if negb (memcmp (Z.to_nat full_bytes) ip_bytes net_bytes =? 0) then Ok false
    else if 0 <? remaining_bits then
      let* s := shl1_int (8 - remaining_bits) in
      let mask := u8 (Z.lnot (s - 1)) in
      let* a := rd8 ip_bytes full_bytes in
      let* b := rd8 net_bytes full_bytes in
      Ok (Z.land a mask =? Z.land b mask)
    else Ok true.

Fixpoint cidr_walk (now : Z) (ip : ip_addr) (chain : list ipset_entry) : res bool :=
  match chain with
  | [] => Ok false
  | e :: next =>
      if expired now e then cidr_walk now ip next
      else
        let* hit := ip_in_cidr ip (e_ip e) (e_prefix_len e) in
        if hit then Ok true else cidr_walk now ip next
  end.

Fixpoint cidr_buckets (now : Z) (ip : ip_addr) (bs : list (list ipset_entry)) : res bool :=
  match bs with
  | [] => Ok false
  | b :: bs' =>
      let* hit := cidr_walk now ip b in
      if hit then Ok true else cidr_buckets now ip bs'
  end.

Definition ipset_contains_cidr (now : Z) (set : ipset) (ip : ip_addr) : res bool :=
  cidr_buckets now ip (buckets set).

(** ** CIDR insertion *)

Section cidr.
Context {inet : InetPton}.

(** The address text copied to [ip_str] and the prefix length, as a
    [uint32_t]. Without a slash [strncpy] leaves the last byte of [ip_str]
    unset, which terminates the copy only when the text is shorter. *)
Definition split_cidr (cidr : list Z) : res (option (list Z * Z)) :=
  let* slash := strchr cidr 47 in
  match slash with
  | None =>
      let* len := strlen cidr in
      if Z.of_nat len <? MAX_IP_STR_LEN - 1
      then Ok (Some (take len cidr, 32))
      else Undef Uninitialised
  | Some len =>
      if MAX_IP_STR_LEN <=? Z.of_nat len then Ok None
      else let* n := atoi (drop (S len) cidr) in
           Ok (Some (take len cidr, u32 n))
  end.

(** [stack] is the previous content of the local [ip]. *)
Definition ipset_add_cidr (calloc_ok : bool) (stack : ip_addr) (set : ipset) (cidr : list Z)
    : res (Z * ipset) :=
  let* parts := split_cidr cidr in
  match parts with
  | None => Ok (-1, set)
  | Some (ip_str, prefix_len) =>
      let '(rc, ip) := string_to_ip_addr ip_str stack in
      if negb (rc =? 0) then Ok (-1, set)
      else if (family ip =? AF_INET) && (32 <? prefix_len) then Ok (-1, set)
      else if (family ip =? AF_INET6) && (128 <? prefix_len) then Ok (-1, set)
      else if max_size set <=? entry_count set then Ok (-1, set)
      else if negb calloc_ok then Ok (-1, set)
      else
        let hash := ipset_hash ip in
        let entry := IpsetEntry ip (u8 prefix_len) 0 in
        Ok (0, with_bucket set hash (entry :: bucket_of set hash) (entry_count set +₃₂ 1))
  end.
End cidr.

Definition ipset_size (set : ipset) : Z := entry_count set.

Definition ipset_clear (set : ipset) : ipset :=
  Ipset ((λ _, []) <$> buckets set) 0 (max_size set).

(** One bucket of the expiry sweep: the chain kept, and how many were freed. *)
Fixpoint cleanup_walk (now : Z) (chain : list ipset_entry) : list ipset_entry * Z :=
  match chain with
  | [] => ([], 0)
  | e :: next =>
      let '(kept, cleaned) := cleanup_walk now next in
      if expired now e then (kept, cleaned + 1) else (e :: kept, cleaned)
  end.

Definition ipset_cleanup_expired (now : Z) (set : ipset) : Z * ipset :=
  let swept := cleanup_walk now <$> buckets set in
  let cleaned := sumZ (swept.*2) in
  (cleaned, Ipset (swept.*1) (entry_count set -₃₂ cleaned) (max_size set)).

(** ** The table invariant *)

Definition entries (set : ipset) : list ipset_entry := concat (buckets set).

Definition entry_ok (e : ipset_entry) : Prop :=
  ip_ok (e_ip e) ∧ 0 <= e_prefix_len e <= (if family (e_ip e) =? AF_INET then 32 else 128).

Record ipset_ok (set : ipset) : Prop := {
  ok_buckets : Z.of_nat (length (buckets set)) = IPSET_BUCKETS;
  ok_chain i b e : buckets set !! i = Some b → e ∈ b →
    ipset_hash (e_ip e) = Z.of_nat i ∧ entry_ok e;
  ok_count : entry_count set = Z.of_nat (length (entries set));
  ok_capacity : entry_count set <= max_size set < 2 ^ 32
}.

Lemma ipset_hash_range ip : 0 <= ipset_hash ip < IPSET_BUCKETS.
Proof. by apply Z.mod_pos_bound. Qed.

Lemma ipset_hash_key a b : ip_key a = ip_key b → ipset_hash a = ipset_hash b.
Proof. intros H. unfold ipset_hash. by rewrite (ip_hash_raw_key a b). Qed.

Lemma same_ip_true ip e : same_ip ip e = true ↔ ip_key (e_ip e) = ip_key ip.
Proof. unfold same_ip. by rewrite ip_compare_eqb, bool_decide_eq_true. Qed.

Lemma bucket_of_lookup set ip :
  ipset_ok set → buckets set !! Z.to_nat (ipset_hash ip) = Some (bucket_of set (ipset_hash ip)).
Proof.
  intros [Hb _ _ _]. unfold bucket_of. pose proof (ipset_hash_range ip).
  destruct (lookup_lt_is_Some_2 (buckets set) (Z.to_nat (ipset_hash ip))) as [b ->];
    [lia|done].
Qed.

(** Every entry with a given key sits in the bucket its key selects. *)
Lemma entry_in_bucket set ip e :
  ipset_ok set → ip_key (e_ip e) = ip_key ip →
  e ∈ entries set ↔ e ∈ bucket_of set (ipset_hash ip).
Proof.
  intros Hok Hk. unfold entries. rewrite elem_of_concat. split.
  - intros (i & b & Hi & He). destruct (ok_chain _ Hok i b e Hi He) as [Hh _].
    rewrite <- (ipset_hash_key _ _ Hk), Hh. unfold bucket_of. by rewrite Nat2Z.id, Hi.
  - intros He. eexists _, _. split; [by apply (bucket_of_lookup set ip)|done].
Qed.

Lemma entries_ok set e : ipset_ok set → e ∈ entries set → entry_ok e.
Proof.
  intros Hok (i & b & Hi & He)%elem_of_concat. by destruct (ok_chain _ Hok i b e).
Qed.

(** Replacing the chain of [ip]'s bucket. *)
Lemma with_bucket_ok set ip b count :
  ipset_ok set →
  (∀ e, e ∈ b → ipset_hash (e_ip e) = ipset_hash ip ∧ entry_ok e) →
  count = entry_count set + Z.of_nat (length b)
          - Z.of_nat (length (bucket_of set (ipset_hash ip))) →
  count <= max_size set → ipset_ok (with_bucket set (ipset_hash ip) b count).
Proof.
  intros Hok Hb Hc Hmax. pose proof (bucket_of_lookup set ip Hok) as Hlook.
  pose proof (ipset_hash_range ip) as Hr. split; simpl.
  - rewrite length_insert. apply Hok.
  - intros i b0 e [(<- & <- & _)|(Hne & Hi)]%list_lookup_insert_Some He.
    + rewrite Z2Nat.id by lia. by apply Hb.
    + by apply (ok_chain _ Hok) with b0.
  - unfold entries. simpl. destruct (concat_insert _ _ _ b Hlook) as (l1 & l2 & H1 & H2).
    rewrite H2. rewrite (ok_count _ Hok) in Hc. unfold entries in Hc.
    rewrite H1, !length_app in Hc. rewrite !length_app. lia.
  - split; [done|]. apply Hok.
Qed.

(** ** Each operation preserves it *)

Lemma ipset_create_ok max set :
  0 <= max < 2 ^ 32 → ipset_create true true max = Some set → ipset_ok set.
Proof.
  intros Hmax Heq. unfold ipset_create in Heq. apply (inj Some) in Heq as <-.
  split; cbn [buckets entry_count max_size].
  - rewrite length_replicate. unfold IPSET_BUCKETS. lia.
  - intros i b e [-> _]%lookup_replicate He. by apply not_elem_of_nil in He.
  - unfold entries. cbn [buckets].
    by rewrite concat_replicate_nil.
  - lia.
Qed.

Lemma bucket_of_hash set ip e :
  ipset_ok set → e ∈ bucket_of set (ipset_hash ip) →
  ipset_hash (e_ip e) = ipset_hash ip ∧ entry_ok e.
Proof.
  intros Hok He. destruct (ok_chain _ Hok _ _ e (bucket_of_lookup set ip Hok) He) as [Hh ?].
  pose proof (ipset_hash_range ip). split; [lia|done].
Qed.

Lemma push_entry_ok set ip plen exp :
  ipset_ok set → entry_ok (IpsetEntry ip plen exp) → entry_count set < max_size set →
  ipset_ok (with_bucket set (ipset_hash ip)
    (IpsetEntry ip plen exp :: bucket_of set (ipset_hash ip)) (entry_count set +₃₂ 1)).
Proof.
  intros Hok He Hlt. pose proof (ok_capacity _ Hok). pose proof (ok_count _ Hok).
  apply with_bucket_ok; [done| | |].
  - intros e [->|?]%elem_of_cons; [done|by apply (bucket_of_hash set)].
  - rewrite u32_small by lia. simpl. lia.
  - rewrite u32_small; lia.
Qed.

Lemma ipset_add_expiring_ok ok set ip expires :
  ipset_ok set → ip_ok ip → ipset_ok (ipset_add_expiring ok set ip expires).2.
Proof.
  intros Hok Hip. unfold ipset_add_expiring.
  destruct (Z.leb_spec (max_size set) (entry_count set)); [done|].
  destruct (update_first _ _ _) as [b|] eqn:Hu; simpl.
  - apply update_first_Some in Hu as (l1 & x & l2 & Hl & -> & _ & _).
    apply with_bucket_ok; [done| | |apply Hok].
    + intros e He. assert (∀ e', e' ∈ l1 ++ x :: l2 →
        ipset_hash (e_ip e') = ipset_hash ip ∧ entry_ok e') as Hall.
      { intros e' He'. rewrite <- Hl in He'. by apply (bucket_of_hash set). }
      apply elem_of_app in He as [He|[->|He]%elem_of_cons].
      * apply Hall, elem_of_app. by left.
      * apply (Hall x). apply elem_of_app. right. by left.
      * apply Hall, elem_of_app. right. by right.
    + rewrite Hl, !length_app. simpl. lia.
  - destruct ok; [|done]. apply push_entry_ok; [done| |done].
    split; simpl; [done|]. destruct (family ip =? AF_INET); lia.
Qed.

Lemma ipset_remove_ok set ip : ipset_ok set → ipset_ok (ipset_remove set ip).2.
Proof.
  intros Hok. unfold ipset_remove.
  destruct (remove_first _ _) as [b|] eqn:Hr; [|done].
  apply remove_first_Some in Hr as (l1 & x & l2 & Hl & -> & _ & _).
  pose proof (ok_capacity _ Hok). pose proof (ok_count _ Hok) as Hc.
  assert (1 <= entry_count set).
  { pose proof (bucket_of_lookup set ip Hok) as Hlook.
    destruct (concat_insert _ _ _ [] Hlook) as (k1 & k2 & Hk & _).
    unfold entries in Hc. rewrite Hk, Hl, !length_app in Hc. simpl in Hc. lia. }
  simpl. rewrite u32_small by lia. apply with_bucket_ok; [done| | |lia].
  - intros e He. apply (bucket_of_hash set); [done|]. rewrite Hl.
    apply elem_of_app in He as [?|?]; apply elem_of_app; [by left|by right; right].
  - rewrite Hl, !length_app. simpl. lia.
Qed.

Lemma ipset_clear_ok set : ipset_ok set → ipset_ok (ipset_clear set).
Proof.
  intros Hok. split; simpl.
  - rewrite length_fmap. apply Hok.
  - intros i b e Hb He. apply list_lookup_fmap_Some in Hb as (? & -> & _).
    by apply not_elem_of_nil in He.
  - unfold entries. simpl. by induction (buckets set).
  - pose proof (ok_capacity _ Hok). pose proof (ok_count _ Hok). lia.
Qed.

Lemma cleanup_walk_spec now chain :
  cleanup_walk now chain
  = (filter (λ e, expired now e = false) chain,
     Z.of_nat (length (filter (λ e, expired now e = true) chain))).
Proof.
  induction chain as [|e chain IH]; [done|]. simpl. rewrite IH, !filter_cons.
  destruct (expired now e); simpl; [|done]. f_equal. lia.
Qed.

Lemma cleanup_buckets now bs :
  concat ((cleanup_walk now <$> bs).*1) = filter (λ e, expired now e = false) (concat bs) ∧
  sumZ ((cleanup_walk now <$> bs).*2)
  = Z.of_nat (length (filter (λ e, expired now e = true) (concat bs))).
Proof.
  induction bs as [|b bs [IH1 IH2]]; [done|]. rewrite !fmap_cons. cbn [concat sumZ foldr].
  rewrite !filter_app, length_app, IH1, !cleanup_walk_spec.
  fold (sumZ (cleanup_walk now <$> bs).*2). rewrite IH2. cbn [fst snd]. split; [done|lia].
Qed.

Lemma filter_count {A} (f : A → bool) l :
  length l = (length (filter (λ x, f x = false) l) + length (filter (λ x, f x = true) l))%nat.
Proof.
  induction l as [|x l IH]; [done|]. rewrite !filter_cons. destruct (f x); simpl; lia.
Qed.

Lemma ipset_cleanup_entries now set :
  entries (ipset_cleanup_expired now set).2
  = filter (λ e, expired now e = false) (entries set).
Proof. apply cleanup_buckets. Qed.

Lemma ipset_cleanup_ok now set :
  ipset_ok set → ipset_ok (ipset_cleanup_expired now set).2.
Proof.
  intros Hok. pose proof (ipset_cleanup_entries now set) as He.
  pose proof (ok_capacity _ Hok). pose proof (ok_count _ Hok) as Hc.
  pose proof (filter_count (expired now) (entries set)).
  destruct (cleanup_buckets now (buckets set)) as [_ Hsum].
  split.
  - simpl. rewrite !length_fmap. apply Hok.
  - simpl. intros i b e Hi Hb. apply list_lookup_fmap_Some in Hi as (p & -> & Hp).
    apply list_lookup_fmap_Some in Hp as (b0 & -> & Hb0).
    rewrite cleanup_walk_spec in Hb. simpl in Hb. apply list_elem_of_filter in Hb as [_ Hb].
    by apply (ok_chain _ Hok) with b0.
  - rewrite He. simpl. rewrite Hsum. unfold entries in *. rewrite u32_small; lia.
  - simpl. rewrite Hsum. unfold entries in *. rewrite u32_small; lia.
Qed.

(** ** Exact lookup *)

Lemma contains_walk_spec now ip chain :
  contains_walk now ip chain = true ↔
  ∃ e, e ∈ chain ∧ expired now e = false ∧ ip_key (e_ip e) = ip_key ip.
Proof.
  setoid_rewrite <- same_ip_true. induction chain as [|e chain IH]; simpl.
  { split; [done|]. by intros (e & ?%not_elem_of_nil & _). }
  setoid_rewrite elem_of_cons. destruct (expired now e) eqn:He; [|destruct (same_ip ip e) eqn:Hs].
  - rewrite IH. split; [naive_solver|]. intros (e' & [->|?] & ? & ?); [congruence|naive_solver].
  - naive_solver.
  - rewrite IH. split; [naive_solver|]. intros (e' & [->|?] & ? & ?); [congruence|naive_solver].
Qed.

(** Walking one bucket decides membership in the whole table. *)
Lemma contains_entries now set ip :
  ipset_ok set →
  ipset_contains now set ip = true ↔
  ∃ e, e ∈ entries set ∧ expired now e = false ∧ ip_key (e_ip e) = ip_key ip.
Proof.
  intros Hok. unfold ipset_contains. rewrite contains_walk_spec.
  split; intros (e & He & Hl & Hk); exists e; split; try done.
  - by rewrite (entry_in_bucket set ip).
  - by rewrite <- (entry_in_bucket set ip).
Qed.

(** ** CIDR matching *)

Definition ip_width (ip : ip_addr) : Z := if family ip =? AF_INET then 32 else 128.

(** The first [p] bits of the two addresses are equal. *)
Definition same_prefix (ip net : ip_addr) (p : Z) : Prop :=
  family ip = family net ∧
  be_val (ip_bytes ip) / 2 ^ (ip_width ip - p) = be_val (ip_bytes net) / 2 ^ (ip_width net - p).

Lemma shl1_int_Ok n : 0 <= n < 31 → shl1_int n = Ok (2 ^ n).
Proof.
  intros Hn. unfold shl1_int. destruct (Z.leb_spec 0 n), (Z.ltb_spec n 31); (done || lia).
Qed.

Lemma v4_mask_match ip net k :
  ip_ok ip → ip_ok net → 0 <= k <= 32 →
  (Z.land (s_addr ip) (bswap32 (u32 (Z.lnot (2 ^ k - 1)))) =?
   Z.land (s_addr net) (bswap32 (u32 (Z.lnot (2 ^ k - 1))))) = true ↔
  be32 (v4_bytes ip) / 2 ^ k = be32 (v4_bytes net) / 2 ^ k.
Proof.
  intros Hip Hnet Hk. unfold u32. rewrite mask_value by done. rewrite Z.eqb_eq.
  rewrite <- (ntohl_s_addr ip), <- (ntohl_s_addr net) by done.
  rewrite <- (land_mask_eq 32) by (try apply bswap32_range; lia).
  assert (0 < 2 ^ k <= 2 ^ 32) by (split; [lia|apply Z.pow_le_mono_r; lia]).
  assert (2 ^ 32 - 2 ^ k = bswap32 (bswap32 (2 ^ 32 - 2 ^ k))) as Hm
    by (by rewrite bswap32_involutive by lia).
  rewrite Hm at 3 4. rewrite <- !bswap32_land.
  assert (∀ a, ip_ok a → 0 <= Z.land (s_addr a) (bswap32 (2 ^ 32 - 2 ^ k)) < 2 ^ 32) as Hr.
  { intros a Ha. pose proof (s_addr_range a Ha). split; [apply Z.land_nonneg; lia|].
    apply bits_range; [lia|apply Z.land_nonneg; lia|]. intros i Hi.
    by rewrite Z.land_spec, (testbit_high (s_addr a) 32) by done. }
  split; [by intros ->|]. intros Heq. apply bswap32_inj; auto.
Qed.

(** Dropping the low bits of a big-endian number that end inside byte [k]. *)
Lemma be_val_prefix l k b r :
  bytes_ok l → l !! k = Some b → 0 <= r <= 8 →
  be_val l / 2 ^ (8 * (Z.of_nat (length l) - Z.of_nat k) - r)
  = be_val (take k l) * 2 ^ r + b / 2 ^ (8 - r).
Proof.
  intros Hl Hb Hr. pose proof (lookup_lt_Some _ _ _ Hb) as Hlt.
  assert (bytes_ok (drop (S k) l)) as Hd by (by apply Forall_drop).
  pose proof (be_val_range _ Hd) as Hdr. rewrite length_drop in Hdr.
  rewrite <- (take_drop_middle l k b Hb) at 1.
  rewrite (cons_middle b), app_assoc, be_val_app, be_val_app, length_drop.
  change (length [b]) with 1%nat. unfold be_val at 2. simpl.
  set (n := 8 * Z.of_nat (length l - S k)) in *. set (T := be_val (take k l)).
  assert (byte_ok b) as Hbb by (exact (Forall_lookup_1 _ _ _ _ Hl Hb)).
  replace (8 * (Z.of_nat (length l) - Z.of_nat k) - r) with (n + (8 - r)) by lia.
  rewrite Z.pow_add_r by lia. rewrite <- Z.div_div by lia.
  rewrite Z.div_add_l by lia. rewrite (Z.div_small (be_val _)) by done. rewrite Z.add_0_r.
  change (8 * Z.of_nat 1) with 8.
  replace (2 ^ 8) with (2 ^ r * 2 ^ (8 - r)) by (rewrite <- Z.pow_add_r by lia; f_equal; lia).
  rewrite Z.mul_assoc. apply Z.div_add_l. lia.
Qed.

Lemma be_val_take l k :
  bytes_ok l → (k <= length l)%nat →
  be_val l / 2 ^ (8 * (Z.of_nat (length l) - Z.of_nat k)) = be_val (take k l).
Proof.
  intros Hl Hk. assert (bytes_ok (drop k l)) as Hd by (by apply Forall_drop).
  pose proof (be_val_range _ Hd) as Hdr. rewrite length_drop in Hdr.
  rewrite <- (take_drop k l) at 1. rewrite be_val_app, length_drop.
  replace (8 * (Z.of_nat (length l) - Z.of_nat k)) with (8 * Z.of_nat (length l - k)) by lia.
  rewrite Z.div_add_l by lia. rewrite (Z.div_small (be_val (drop k l))) by done. lia.
Qed.

Lemma byte_mask_match a b k :
  byte_ok a → byte_ok b → 0 <= k <= 8 →
  (Z.land a (u8 (Z.lnot (2 ^ k - 1))) =? Z.land b (u8 (Z.lnot (2 ^ k - 1)))) = true ↔
  a / 2 ^ k = b / 2 ^ k.
Proof.
  intros Ha Hb Hk. unfold u8. rewrite mask_value by done. rewrite Z.eqb_eq.
  by apply land_mask_eq.
Qed.

Lemma ip_in_cidr_v4 ip net p :
  ip_ok ip → ip_ok net → family ip = AF_INET → family net = AF_INET →
  p = 0 ∨ 1 < p <= 32 →
  ∃ b, ip_in_cidr ip net p = Ok b ∧ (b = true ↔ same_prefix ip net p).
Proof.
  intros Hip Hnet Fip Fnet Hp. unfold ip_in_cidr, same_prefix, ip_width, ip_bytes.
  rewrite Fip, Fnet, !Z.eqb_refl. cbn [negb].
  destruct (v4_bytes_ok ip Hip) as [Li Bi], (v4_bytes_ok net Hnet) as [Ln Bn].
  rewrite !be_val_be32 by done.
  destruct (Z.eqb_spec p 0) as [->|Hp0]; cbn [negb rbind].
  - eexists. split; [done|]. rewrite !Z.land_0_r, Z.eqb_refl.
    rewrite !Z.div_small by (by apply be32_range). done.
  - rewrite shl1_int_Ok by lia. cbn [rbind]. eexists. split; [done|].
    rewrite v4_mask_match by (done || lia). tauto.
Qed.

Lemma ip_in_cidr_v6 ip net p :
  ip_ok ip → ip_ok net → family ip = family net → family net ≠ AF_INET → 0 <= p <= 128 →
  ∃ b, ip_in_cidr ip net p = Ok b ∧ (b = true ↔ same_prefix ip net p).
Proof.
  intros Hip Hnet Hf Fn Hp. unfold ip_in_cidr, same_prefix, ip_width, ip_bytes.
  rewrite Hf, Z.eqb_refl, (proj2 (Z.eqb_neq _ _) Fn). cbn [negb].
  destruct (v6_bytes_ok ip Hip) as [Li Bi], (v6_bytes_ok net Hnet) as [Ln Bn].
  set (x := v6_bytes ip) in *. set (y := v6_bytes net) in *.
  pose proof (Z.div_mod p 8 ltac:(lia)) as Hdm. pose proof (Z.mod_pos_bound p 8 ltac:(lia)) as Hr.
  set (k := p / 8) in *. set (r := p mod 8) in *.
  destruct (Z.ltb_spec 16 k); [lia|].
  assert (∀ l, bytes_ok l → length l = 16%nat →
    be_val l / 2 ^ (8 * (16 - k)) = be_val (take (Z.to_nat k) l)) as Hfull.
  { intros l Hb Hl. rewrite <- be_val_take by (done || lia). do 2 f_equal. lia. }
  destruct (Z.eqb_spec (memcmp (Z.to_nat k) x y) 0) as [Hm|Hm]; rewrite memcmp_take in Hm; cbn [negb].
  - destruct (Z.ltb_spec 0 r).
    + destruct (lookup_lt_is_Some_2 x (Z.to_nat k)) as [a Ha]; [lia|].
      destruct (lookup_lt_is_Some_2 y (Z.to_nat k)) as [b Hb]; [lia|].
      rewrite shl1_int_Ok by lia. cbn [rbind].
      rewrite (proj2 (rd8_Ok x k a)), (proj2 (rd8_Ok y k b)) by (split; [lia|done]).
      cbn [rbind]. eexists. split; [done|].
      rewrite byte_mask_match by
        (try exact (Forall_lookup_1 _ _ _ _ Bi Ha); try exact (Forall_lookup_1 _ _ _ _ Bn Hb); lia).
      pose proof (be_val_prefix x _ a r Bi Ha ltac:(lia)) as Hx.
      pose proof (be_val_prefix y _ b r Bn Hb ltac:(lia)) as Hy.
      replace (128 - p) with (8 * (Z.of_nat (length x) - Z.of_nat (Z.to_nat k)) - r) at 1 by lia.
      replace (128 - p) with (8 * (Z.of_nat (length y) - Z.of_nat (Z.to_nat k)) - r) by lia.
      rewrite Hx, Hy, Hm. split; [intros ->; done|intros [_ ?]; lia].
    + eexists. split; [done|]. split; [|done]. intros _. split; [done|].
      replace (128 - p) with (8 * (16 - k)) by lia. rewrite !Hfull by done. by rewrite Hm.
  - eexists. split; [done|]. split; [done|]. intros [_ Heq]. destruct Hm.
    apply be_val_inj; [rewrite !length_take; lia|by apply Forall_take..|].
    rewrite <- !Hfull by done.
    replace (2 ^ (8 * (16 - k))) with (2 ^ (128 - p) * 2 ^ r)
      by (rewrite <- Z.pow_add_r by lia; f_equal; lia).
    rewrite <- !Z.div_div by lia. by rewrite Heq.
Qed.

(** [1 << 31] is not an [int]: a /1 network is the one prefix length the mask
    computation does not define. *)
Definition defined_prefix (e : ipset_entry) : Prop :=
  family (e_ip e) = AF_INET → e_prefix_len e ≠ 1.

Lemma ip_in_cidr_entry ip e :
  ip_ok ip → entry_ok e → defined_prefix e →
  ∃ b, ip_in_cidr ip (e_ip e) (e_prefix_len e) = Ok b ∧
       (b = true ↔ same_prefix ip (e_ip e) (e_prefix_len e)).
Proof.
  intros Hip [He Hp] Hd. destruct (Z.eq_dec (family ip) (family (e_ip e))) as [Hf|Hf].
  - destruct (Z.eqb_spec (family (e_ip e)) AF_INET) as [H4|H4].
    + apply ip_in_cidr_v4; try done; [congruence|]. specialize (Hd H4). lia.
    + by apply ip_in_cidr_v6.
  - exists false. unfold ip_in_cidr. rewrite (proj2 (Z.eqb_neq _ _) Hf). split; [done|].
    split; [done|]. by intros [? _].
Qed.

Definition cidr_live (now : Z) (ip : ip_addr) (e : ipset_entry) : Prop :=
  expired now e = false ∧ same_prefix ip (e_ip e) (e_prefix_len e).

Lemma cidr_walk_spec now ip chain :
  ip_ok ip → Forall (λ e, entry_ok e ∧ defined_prefix e) chain →
  ∃ b, cidr_walk now ip chain = Ok b ∧ (b = true ↔ ∃ e, e ∈ chain ∧ cidr_live now ip e).
Proof.
  intros Hip. unfold cidr_live. induction chain as [|e chain IH]; intros Hc; simpl.
  { exists false. split; [done|]. split; [done|]. by intros (e & ?%not_elem_of_nil & _). }
  apply Forall_cons in Hc as [[He Hd] Hc]. destruct (IH Hc) as (b & Hb & Hbs).
  setoid_rewrite elem_of_cons. destruct (expired now e) eqn:Hx.
  - exists b. split; [done|]. rewrite Hbs. split; [naive_solver|].
    intros (e' & [->|?] & ? & ?); [congruence|naive_solver].
  - destruct (ip_in_cidr_entry ip e Hip He Hd) as (h & Hh & Hhs). rewrite Hh. cbn [rbind].
    destruct h.
    + exists true. split; [done|]. split; [|done]. intros _. exists e.
      split; [by left|]. split; [done|]. by apply Hhs.
    + exists b. split; [done|]. rewrite Hbs. split; [naive_solver|].
      intros (e' & [->|?] & ? & Hp); [|naive_solver]. by apply Hhs in Hp.
Qed.

Lemma cidr_buckets_spec now ip bs :
  ip_ok ip → Forall (λ e, entry_ok e ∧ defined_prefix e) (concat bs) →
  ∃ b, cidr_buckets now ip bs = Ok b ∧ (b = true ↔ ∃ e, e ∈ concat bs ∧ cidr_live now ip e).
Proof.
  intros Hip. induction bs as [|c bs IH]; intros Hc; simpl.
  { exists false. split; [done|]. split; [done|]. by intros (e & ?%not_elem_of_nil & _). }
  simpl in Hc. apply Forall_app in Hc as [Hc1 Hc2].
  destruct (cidr_walk_spec now ip c Hip Hc1) as (b1 & H1 & Hs1).
  destruct (IH Hc2) as (b2 & H2 & Hs2). rewrite H1. cbn [rbind].
  setoid_rewrite elem_of_app. destruct b1; [exists true|exists b2]; naive_solver.
Qed.

(** ** Duplicates and removal *)

Lemma concat_push set ip b' :
  ipset_ok set →
  ∃ l1 l2, entries set = l1 ++ bucket_of set (ipset_hash ip) ++ l2 ∧
    ∀ n, entries (with_bucket set (ipset_hash ip) b' n) = l1 ++ b' ++ l2.
Proof.
  intros Hok. destruct (concat_insert _ _ _ b' (bucket_of_lookup set ip Hok)) as (l1 & l2 & H1 & H2).
  exists l1, l2. done.
Qed.

Lemma push_entries set ip e n :
  ipset_ok set →
  entries (with_bucket set (ipset_hash ip) (e :: bucket_of set (ipset_hash ip)) n)
  ≡ₚ e :: entries set.
Proof.
  intros Hok. destruct (concat_push set ip (e :: bucket_of set (ipset_hash ip)) Hok)
    as (l1 & l2 & -> & ->).
  by rewrite <- app_comm_cons, <- Permutation_middle.
Qed.

(** ** The abstract set

    What the table promises its clients: the keys of the entries that have not
    expired. *)

Definition live_keys (now : Z) (set : ipset) : gset ip_key_t :=
  list_to_set ((λ e, ip_key (e_ip e)) <$> filter (λ e, expired now e = false) (entries set)).

Lemma elem_of_live_keys now set k :
  k ∈ live_keys now set ↔ ∃ e, e ∈ entries set ∧ expired now e = false ∧ ip_key (e_ip e) = k.
Proof.
  unfold live_keys. rewrite elem_of_list_to_set, list_elem_of_fmap.
  setoid_rewrite list_elem_of_filter. naive_solver.
Qed.

Definition live_until (now expires : Z) : Prop := expires = 0 ∨ now <= expires.

Lemma expired_false now e : 0 <= e_expires e → expired now e = false ↔ live_until now (e_expires e).
Proof. unfold expired, live_until. rewrite andb_false_iff, !Z.ltb_ge. lia. Qed.

(** Calls a client can make, as steps between tables. *)
Section steps.
Context {inet : InetPton}.

Inductive ipset_step : ipset → ipset → Prop :=
  | step_add ok set ip expires :
      ip_ok ip → ipset_step set (ipset_add_expiring ok set ip expires).2
  | step_add_cidr ok stack set cidr rc set' :
      ip_ok stack → ipset_add_cidr ok stack set cidr = Ok (rc, set') → ipset_step set set'
  | step_remove set ip : ipset_step set (ipset_remove set ip).2
  | step_clear set : ipset_step set (ipset_clear set)
  | step_cleanup now set : ipset_step set (ipset_cleanup_expired now set).2.

Context {laws : InetPtonLaws}.

Lemma split_cidr_range cidr str p : split_cidr cidr = Ok (Some (str, p)) → 0 <= p.
Proof.
  unfold split_cidr. rewrite rbind_Ok. intros ([len|] & _ & H).
  - destruct (MAX_IP_STR_LEN <=? _); [done|]. apply rbind_Ok in H as (n & _ & [= _ <-]).
    apply u32_range.
  - apply rbind_Ok in H as (n & _ & H). destruct (_ <? _); [|done]. by injection H as _ <-.
Qed.

(** The branches of [ipset_add_cidr]. *)
Lemma ipset_add_cidr_cases ok stack set cidr rc set' :
  ipset_add_cidr ok stack set cidr = Ok (rc, set') →
  (rc = -1 ∧ set' = set) ∨
  (rc = 0 ∧ ok = true ∧ entry_count set < max_size set ∧
   ∃ str p ip, split_cidr cidr = Ok (Some (str, p)) ∧ string_to_ip_addr str stack = (0, ip) ∧
     (family ip = AF_INET → p <= 32) ∧ (family ip = AF_INET6 → p <= 128) ∧
     set' = with_bucket set (ipset_hash ip)
              (IpsetEntry ip (u8 p) 0 :: bucket_of set (ipset_hash ip)) (entry_count set +₃₂ 1)).
Proof.
  unfold ipset_add_cidr. rewrite rbind_Ok. intros ([[str p]|] & Hs & H); [|left; by simplify_eq].
  destruct (string_to_ip_addr str stack) as [r ip] eqn:Hp.
  destruct (Z.eqb_spec r 0) as [->|]; cbn [negb] in H; [|left; by simplify_eq].
  destruct ((family ip =? AF_INET) && (32 <? p)) eqn:G1; [left; by simplify_eq|].
  destruct ((family ip =? AF_INET6) && (128 <? p)) eqn:G2; [left; by simplify_eq|].
  destruct (Z.leb_spec (max_size set) (entry_count set)); [left; by simplify_eq|].
  destruct ok; cbn [negb] in H; [|left; by simplify_eq].
  right. injection H as <- <-. rewrite andb_false_iff, Z.eqb_neq, Z.ltb_ge in G1, G2.
  split; [done|]. split; [done|]. split; [done|]. exists str, p, ip.
  repeat split; [done|done|naive_solver|naive_solver].
Qed.

Lemma ipset_add_cidr_ok ok stack set cidr rc set' :
  ipset_ok set → ip_ok stack → ipset_add_cidr ok stack set cidr = Ok (rc, set') → ipset_ok set'.
Proof.
  intros Hok Hst H.
  destruct (ipset_add_cidr_cases _ _ _ _ _ _ H)
    as [[_ ->]|(_ & _ & Hlt & str & p & ip & Hs & Hip & H4 & H6 & ->)]; [done|].
  destruct (string_to_ip_addr_ok _ _ _ Hst Hip) as [Hipok Hfam].
  pose proof (split_cidr_range _ _ _ Hs). apply push_entry_ok; [done| |done].
  assert (p <= 128) by (destruct Hfam as [Hf|Hf]; [specialize (H4 Hf)|specialize (H6 Hf)]; lia).
  split; cbn [e_ip e_prefix_len]; [done|]. rewrite u8_small by lia.
  destruct Hfam as [Hf|Hf]; rewrite Hf; [specialize (H4 Hf)|specialize (H6 Hf)]; simpl; lia.
Qed.

Lemma ipset_step_ok set set' : ipset_ok set → ipset_step set set' → ipset_ok set'.
Proof.
  intros Hok Hstep. destruct Hstep.
  - by apply ipset_add_expiring_ok.
  - by eapply ipset_add_cidr_ok.
  - by apply ipset_remove_ok.
  - by apply ipset_clear_ok.
  - by apply ipset_cleanup_ok.
Qed.
End steps.

(** ** Properties *)

(** C24: Every table that a sequence of insertions, CIDR insertions, removals,
    clears and expiry sweeps builds from an empty one keeps its invariant: each
    entry is in the bucket of its address with a prefix length its family
    allows, the entry counter is the number of entries, and it never exceeds
    the capacity. *)
Theorem ipset_reachable_ok {inet : InetPton} {laws : InetPtonLaws} max set0 set :
  0 <= max < 2 ^ 32 → ipset_create true true max = Some set0 → rtc ipset_step set0 set →
  ipset_ok set.
Proof.
  intros Hmax Hc Hr. apply ipset_create_ok in Hc; [|done].
  induction Hr as [|s1 s2 s3 Hs _ IH]; [done|]. by apply IH, (ipset_step_ok s1 s2).
Qed.

(** C6: Looking an address up in the one bucket its hash selects answers
    membership in the abstract set of all unexpired entries. *)
Theorem ipset_contains_refines now set ip :
  ipset_ok set → ipset_contains now set ip = bool_decide (ip_key ip ∈ live_keys now set).
Proof.
  intros Hok. apply Bool.eq_iff_eq_true. rewrite bool_decide_eq_true, elem_of_live_keys.
  by apply contains_entries.
Qed.

(** C5: The CIDR lookup never reads outside an address and answers whether some
    unexpired entry shares its first [prefix_len] bits with the address, for
    IPv4 and IPv6 alike, provided no IPv4 entry has prefix length 1. *)
Theorem ipset_contains_cidr_exact now set ip :
  ipset_ok set → ip_ok ip → Forall defined_prefix (entries set) →
  ∃ b, ipset_contains_cidr now set ip = Ok b ∧
       (b = true ↔ ∃ e, e ∈ entries set ∧ expired now e = false ∧
                        same_prefix ip (e_ip e) (e_prefix_len e)).
Proof.
  intros Hok Hip Hd. apply cidr_buckets_spec; [done|]. apply Forall_forall. intros e He.
  split; [by apply (entries_ok set)|]. by rewrite Forall_forall in Hd; apply Hd.
Qed.

Lemma live_keys_push now set ip plen exp n :
  ipset_ok set → 0 <= exp → live_until now exp →
  live_keys now (with_bucket set (ipset_hash ip)
    (IpsetEntry ip plen exp :: bucket_of set (ipset_hash ip)) n) = {[ip_key ip]} ∪ live_keys now set.
Proof.
  intros Hok He Hl. apply set_eq. intros k. rewrite elem_of_union, elem_of_singleton, !elem_of_live_keys.
  setoid_rewrite push_entries; [|done]. setoid_rewrite elem_of_cons. split.
  - intros (e & [->|?] & ? & <-); [by left|right; eauto].
  - intros [->|(e & ? & ? & <-)]; [|by exists e; auto].
    eexists. split; [by left|]. split; [|done]. by apply expired_false.
Qed.

Lemma live_keys_update now set ip l1 x l2 exp n :
  ipset_ok set → bucket_of set (ipset_hash ip) = l1 ++ x :: l2 → ip_key (e_ip x) = ip_key ip →
  0 <= exp → live_until now exp →
  live_keys now (with_bucket set (ipset_hash ip)
    (l1 ++ IpsetEntry (e_ip x) (e_prefix_len x) exp :: l2) n) = {[ip_key ip]} ∪ live_keys now set.
Proof.
  intros Hok Hb Hk He Hl. set (b' := l1 ++ _ :: l2).
  destruct (concat_push set ip b' Hok) as (k1 & k2 & E1 & E2). rewrite Hb in E1.
  apply set_eq. intros k. rewrite elem_of_union, elem_of_singleton, !elem_of_live_keys.
  setoid_rewrite E2. setoid_rewrite E1. unfold b'.
  repeat setoid_rewrite elem_of_app. repeat setoid_rewrite elem_of_cons. split.
  - intros (e & [?|[[?|[->|?]]|?]] & Hx & <-); [right|right|by left|right|right]; exists e; tauto.
  - intros [->|(e & [?|[[?|[->|?]]|?]] & Hx & <-)]; [|by exists e; tauto..| |by exists e; tauto|by exists e; tauto].
    + eexists. split; [by right; left; right; left|]. split; [by apply expired_false|done].
    + eexists. split; [by right; left; right; left|]. split; [by apply expired_false|done].
Qed.

(** An entry that a second addition of the address updates: the code looks for prefix
    length 32, for IPv6 too. *)
Definition updatable (ip : ip_addr) (e : ipset_entry) : Prop :=
  ip_key (e_ip e) = ip_key ip ∧ e_prefix_len e = 32.

(** C7: Adding an address with an expiry: a full table, or a failed allocation
    for an address without an entry of prefix length 32, returns -1 and changes
    nothing; every other call returns 0, and until the expiry the abstract set has
    gained exactly that address. *)
Theorem ipset_add_expiring_refines ok set ip expires :
  ipset_ok set → 0 <= expires →
  let '(rc, set') := ipset_add_expiring ok set ip expires in
  (rc = -1 ∧ set' = set ∧
   (entry_count set = max_size set ∨ ok = false ∧ ∀ e, e ∈ entries set → ¬ updatable ip e)) ∨
  (rc = 0 ∧ entry_count set < max_size set ∧
   ∀ now, live_until now expires → live_keys now set' = {[ip_key ip]} ∪ live_keys now set).
Proof.
  intros Hok He. pose proof (ok_capacity _ Hok). unfold ipset_add_expiring.
  destruct (Z.leb_spec (max_size set) (entry_count set)); [left; split_and!; auto; left; lia|].
  destruct (update_first _ _ _) as [b|] eqn:Hu.
  - right. split_and!; [done|done|]. intros now Hl.
    apply update_first_Some in Hu as (l1 & x & l2 & Hb & -> & Hf & _).
    apply andb_true_iff in Hf as [Hf%same_ip_true _]. by apply live_keys_update.
  - destruct ok; [right; split_and!; [done|done|]; intros now Hl; by apply live_keys_push|].
    left. split_and!; [done|done|]. right. split; [done|]. intros e Hin [Hkey Hp].
    rewrite update_first_None, Forall_forall in Hu.
    rewrite (entry_in_bucket set ip e Hok Hkey) in Hin. apply Hu, andb_false_iff in Hin as [Hs|Hs].
    + by rewrite <- Bool.not_true_iff_false, same_ip_true in Hs.
    + by apply Z.eqb_neq in Hs.
Qed.

(** The expiry sweep at time [now] returns the number of expired entries,
    keeps exactly the others, and is invisible to every later lookup. *)
Theorem ipset_cleanup_refines now set :
  ipset_ok set →
  let '(cleaned, set') := ipset_cleanup_expired now set in
  entries set' = filter (λ e, expired now e = false) (entries set) ∧
  cleaned = Z.of_nat (length (entries set)) - Z.of_nat (length (entries set')) ∧
  ipset_size set' = ipset_size set - cleaned ∧
  ∀ later, now <= later → live_keys later set' = live_keys later set.
Proof.
  intros Hok. pose proof (ipset_cleanup_entries now set) as He.
  pose proof (ipset_cleanup_ok now set Hok) as Hok'.
  pose proof (filter_count (expired now) (entries set)) as Hcount.
  destruct (cleanup_buckets now (buckets set)) as [_ Hsum].
  destruct (ipset_cleanup_expired now set) as [cleaned set'] eqn:Hc.
  assert (cleaned = Z.of_nat (length (entries set)) - Z.of_nat (length (entries set'))) as Hcl.
  { cbn [snd] in He. rewrite He. injection Hc as <- _. rewrite Hsum. unfold entries in *. lia. }
  cbn [snd] in *. split_and!; [done|done| |].
  - unfold ipset_size. rewrite (ok_count _ Hok), (ok_count _ Hok'). lia.
  - intros later Hl. apply set_eq. intros k. rewrite !elem_of_live_keys, He.
    setoid_rewrite list_elem_of_filter. split; [naive_solver|].
    intros (e & Hin & Hx & Hk). exists e. split_and!; try done.
    unfold expired in *. rewrite andb_false_iff, !Z.ltb_ge in *. lia.
Qed.

(** C23: Removal unlinks exactly one entry with the given address, whatever its
    prefix length, and fails without a change when there is none; when the
    address has one entry, the abstract set loses exactly that address. *)
Theorem ipset_remove_refines set ip :
  ipset_ok set →
  let '(rc, set') := ipset_remove set ip in
  (rc = -1 ∧ set' = set ∧ (∀ e, e ∈ entries set → ip_key (e_ip e) ≠ ip_key ip)) ∨
  (rc = 0 ∧ ∃ e, entries set ≡ₚ e :: entries set' ∧ ip_key (e_ip e) = ip_key ip ∧
     ((∀ e', e' ∈ entries set' → ip_key (e_ip e') ≠ ip_key ip) →
      ∀ now, live_keys now set' = live_keys now set ∖ {[ip_key ip]})).
Proof.
  intros Hok. unfold ipset_remove. destruct (remove_first _ _) as [b|] eqn:Hr.
  - right. split; [done|]. apply remove_first_Some in Hr as (l1 & x & l2 & Hb & -> & Hs & _).
    apply same_ip_true in Hs. set (set' := with_bucket _ _ _ _).
    assert (entries set ≡ₚ x :: entries set') as Hp.
    { destruct (concat_push set ip (l1 ++ l2) Hok) as (k1 & k2 & -> & E2). unfold set'.
      rewrite E2, Hb, <- !app_assoc, (app_assoc k1 l1), (app_assoc k1 l1 (l2 ++ k2)).
      simpl. by rewrite <- Permutation_middle. }
    exists x. split_and!; [done|done|]. intros Hu now. apply set_eq. intros k.
    rewrite elem_of_difference, elem_of_singleton, !elem_of_live_keys.
    setoid_rewrite Hp. setoid_rewrite elem_of_cons. split.
    + intros (e & He & Hx & <-). split; [by eauto|by apply Hu].
    + intros ((e & [->|He] & Hx & <-) & Hne); [congruence|eauto].
  - left. split_and!; [done|done|]. intros e He Hk.
    rewrite remove_first_None, Forall_forall in Hr.
    rewrite (entry_in_bucket set ip e Hok Hk) in He. apply Hr in He.
    by rewrite <- Bool.not_true_iff_false, same_ip_true in He.
Qed.

(** ** What a client that blocks an address relies on *)

Lemma same_prefix_key ip net p : ip_key ip = ip_key net → same_prefix ip net p.
Proof.
  unfold ip_key, same_prefix, ip_width. intros [= Hf Hb]. by rewrite Hf, Hb.
Qed.

(** After a successful addition there is an entry for the address with the new
    expiry, and prefix lengths are still defined. *)
Lemma ipset_add_entry set ip expires :
  ipset_ok set → entry_count set < max_size set → Forall defined_prefix (entries set) →
  let set' := (ipset_add_expiring true set ip expires).2 in
  (∃ e, e ∈ entries set' ∧ ip_key (e_ip e) = ip_key ip ∧ e_expires e = expires) ∧
  Forall defined_prefix (entries set').
Proof.
  intros Hok Hroom Hd. unfold ipset_add_expiring. rewrite (proj2 (Z.leb_gt _ _)) by lia.
  destruct (update_first _ _ _) as [b|] eqn:Hu; cbn [snd].
  - apply update_first_Some in Hu as (l1 & x & l2 & Hb & -> & Hf & _).
    apply andb_true_iff in Hf as [Hf%same_ip_true _].
    set (b' := l1 ++ _ :: l2). destruct (concat_push set ip b' Hok) as (k1 & k2 & E1 & E2).
    rewrite E2. rewrite E1, Hb in Hd. unfold b'. split.
    + exists (IpsetEntry (e_ip x) (e_prefix_len x) expires).
      split; [|split; [exact Hf|done]]. rewrite !elem_of_app, elem_of_cons. auto.
    + rewrite !Forall_app, Forall_cons in *. by destruct_and! Hd.
  - split.
    + eexists. split; [rewrite push_entries by done; by left|done].
    + rewrite push_entries by done. constructor; [|done]. intros Hf. cbn in *. by rewrite Hf.
Qed.

Lemma ipset_contains_cidr_added now set ip expires :
  ipset_ok set → ip_ok ip → entry_count set < max_size set → Forall defined_prefix (entries set) →
  0 <= expires → live_until now expires →
  ipset_contains_cidr now (ipset_add_expiring true set ip expires).2 ip = Ok true.
Proof.
  intros Hok Hip Hroom Hd He Hl. pose proof (ipset_add_expiring_ok true set ip expires Hok Hip) as Hok'.
  destruct (ipset_add_entry set ip expires Hok Hroom Hd) as [(e & Hin & Hk & Hx) Hd'].
  destruct (cidr_buckets_spec now ip (buckets (ipset_add_expiring true set ip expires).2))
    as (b & Hb & Hspec); [done| |].
  - apply Forall_forall. intros e' He'. rewrite Forall_forall in Hd'.
    split; [by apply (entries_ok _ _ Hok')|by apply Hd'].
  - unfold ipset_contains_cidr. rewrite Hb. f_equal. apply Hspec. exists e. split; [done|].
    split; [apply expired_false; by rewrite Hx|by apply same_prefix_key].
Qed.

(** ** Entries pushed to and taken from the front of a chain *)

Definition untracked (set : ipset) (ip : ip_addr) : Prop :=
  ∀ e, e ∈ entries set → ip_key (e_ip e) ≠ ip_key ip.

Lemma same_ip_untracked set ip e :
  ipset_ok set → untracked set ip → e ∈ bucket_of set (ipset_hash ip) → same_ip ip e = false.
Proof.
  intros Hok Hu He. apply not_true_is_false. intros Hs%same_ip_true.
  apply (Hu e); [|done]. by apply (entry_in_bucket set ip e).
Qed.

Lemma with_bucket_same set ip b n :
  ipset_ok set →
  with_bucket (with_bucket set (ipset_hash ip) b n) (ipset_hash ip)
    (bucket_of set (ipset_hash ip)) (entry_count set) = set.
Proof.
  intros Hok. unfold with_bucket. cbn [buckets max_size]. rewrite list_insert_insert_eq.
  rewrite list_insert_id by (by apply bucket_of_lookup). by destruct set.
Qed.

Lemma bucket_of_with_bucket set ip b n :
  ipset_ok set → bucket_of (with_bucket set (ipset_hash ip) b n) (ipset_hash ip) = b.
Proof.
  intros Hok. unfold bucket_of, with_bucket. cbn [buckets].
  rewrite list_lookup_insert_eq; [done|].
  apply lookup_lt_is_Some. eexists. by apply (bucket_of_lookup set ip).
Qed.

Lemma with_bucket_twice set ip b b' n n' :
  with_bucket (with_bucket set (ipset_hash ip) b n) (ipset_hash ip) b' n' =
    with_bucket set (ipset_hash ip) b' n'.
Proof. unfold with_bucket. cbn [buckets max_size]. by rewrite list_insert_insert_eq. Qed.

(** An entry for [ip] at the head of its chain is the one removed. *)
Lemma remove_head set ip e b n :
  ipset_ok set → ip_key (e_ip e) = ip_key ip →
  ipset_remove (with_bucket set (ipset_hash ip) (e :: b) n) ip =
    (0, with_bucket set (ipset_hash ip) b (n -₃₂ 1)).
Proof.
  intros Hok Hk. unfold ipset_remove. rewrite bucket_of_with_bucket by done. cbn [remove_first].
  rewrite (proj2 (same_ip_true ip e)) by done. by rewrite with_bucket_twice.
Qed.

(** An IPv6 address has no entry of prefix length 32, so adding it pushes a new one. *)
Lemma add_v6 set ip :
  family ip ≠ AF_INET → entry_count set < max_size set →
  (∀ e, e ∈ bucket_of set (ipset_hash ip) → same_ip ip e = true → e_prefix_len e ≠ 32) →
  (ipset_add true set ip).2 = with_bucket set (ipset_hash ip)
    (IpsetEntry ip 128 0 :: bucket_of set (ipset_hash ip)) (entry_count set +₃₂ 1).
Proof.
  intros Hf Hlt Hno. unfold ipset_add, ipset_add_expiring. rewrite (proj2 (Z.leb_gt _ _)) by lia.
  rewrite (proj2 (update_first_None _ _ _)); [by rewrite (proj2 (Z.eqb_neq _ _) Hf)|].
  apply Forall_forall. intros e He. apply andb_false_iff.
  destruct (same_ip ip e) eqn:E; [right|by left]. rewrite Z.eqb_neq. by apply Hno.
Qed.

(** ** Where the set departs from its comments *)

(** IPv6 addresses are stored with prefix length 128 but looked for with
    prefix length 32, so adding one twice stores it twice, and removing it once
    leaves it blocked. *)
Theorem ipset_v6_readd_survives_removal now set ip :
  ipset_ok set → family ip ≠ AF_INET → ip_ok ip → entry_count set + 2 <= max_size set →
  (∀ e, e ∈ entries set → ip_key (e_ip e) ≠ ip_key ip) →
  let set2 := (ipset_add true (ipset_add true set ip).2 ip).2 in
  ipset_size set2 = ipset_size set + 2 ∧
  (ipset_remove set2 ip).1 = 0 ∧ ipset_contains now (ipset_remove set2 ip).2 ip = true.
Proof.
  intros Hok Hf Hip Hcap Hfresh. pose proof (ok_capacity _ Hok). pose proof (ok_count _ Hok).
  rewrite (add_v6 set) by (try done; try lia;
    intros e He; by rewrite (same_ip_untracked set ip e)).
  set (s1 := with_bucket _ _ _ _).
  assert (bucket_of s1 (ipset_hash ip) = IpsetEntry ip 128 0 :: bucket_of set (ipset_hash ip)) as Hb
    by (by apply bucket_of_with_bucket).
  rewrite (add_v6 s1); [|done| |].
  2: { cbn [entry_count max_size s1 with_bucket]. rewrite u32_small; lia. }
  2: { rewrite Hb. intros e [->|He]%elem_of_cons; [done|]. by rewrite (same_ip_untracked set ip e). }
  rewrite Hb. unfold s1. rewrite with_bucket_twice. cbn [entry_count with_bucket ipset_size].
  split; [unfold ipset_size; cbn [entry_count]; rewrite !u32_small; rewrite ?u32_small; lia|].
  rewrite remove_head by done. split; [done|]. cbn [snd]. unfold ipset_contains.
  rewrite bucket_of_with_bucket by done. cbn [contains_walk expired e_expires].
  by rewrite (proj2 (same_ip_true ip _)).
Qed.

(** An IPv6 address added without a prefix becomes a /32 network: from then
    on every IPv6 address that agrees with it on the first 32 bits matches. *)
Theorem ipset_add_plain_v6_blocks_slash32 {inet : InetPton} {laws : InetPtonLaws} now stack set cidr n b set' ip :
  ipset_ok set → ip_ok stack → Forall defined_prefix (entries set) →
  strchr cidr 47 = Ok None → strlen cidr = Ok n → Z.of_nat n < 45 →
  inet_pton4 (take n cidr) = None → inet_pton6 (take n cidr) = Some b →
  ipset_add_cidr true stack set cidr = Ok (0, set') →
  ip_ok ip → family ip = AF_INET6 → take 4 (addr ip) = take 4 b →
  ipset_contains_cidr now set' ip = Ok true.
Proof.
  intros Hok Hst Hdef Hslash Hlen Hn H4 H6 Hadd Hip Hfam Htake.
  pose proof (ipset_add_cidr_ok _ _ _ _ _ _ Hok Hst Hadd) as Hok'.
  apply ipset_add_cidr_cases in Hadd as [[? _]|(_ & _ & _ & str & p & a & Hs & Ha & _ & _ & ->)]; [done|].
  unfold split_cidr in Hs. rewrite Hslash, Hlen in Hs. cbn [rbind] in Hs.
  unfold MAX_IP_STR_LEN in Hs. rewrite (proj2 (Z.ltb_lt _ _)) in Hs by lia. injection Hs as <- <-.
  unfold string_to_ip_addr in Ha. rewrite H4, H6 in Ha. injection Ha as <-.
  set (net := IpAddr (b ++ drop 16 (addr stack)) AF_INET6) in *.
  set (e := IpsetEntry net (u8 32) 0) in *.
  pose proof (push_entries set net e (entry_count set +₃₂ 1) Hok) as He. fold net in He.
  edestruct (cidr_buckets_spec now ip) as (r & Hr & Hspec); [exact Hip| |].
  2: { unfold ipset_contains_cidr. rewrite Hr. f_equal. apply Hspec. exists e. split.
    - fold (entries (with_bucket set (ipset_hash net)
        (e :: bucket_of set (ipset_hash net)) (entry_count set +₃₂ 1))).
      rewrite He. by left.
    - split; [done|]. destruct (inet_pton6_ok _ _ H6) as [Lb Bb].
      split; [done|]. unfold ip_width, ip_bytes, v6_bytes. rewrite Hfam. unfold e, net. cbn [e_ip family].
      change (AF_INET6 =? AF_INET) with false. cbv iota.
      cbn [addr e_prefix_len]. change (128 - u8 32) with (8 * (Z.of_nat 16 - Z.of_nat 4)).
      destruct Hip as (Li & Bi & _).
      assert (∀ l, length l = 16%nat → bytes_ok l →
        be_val l / 2 ^ (8 * (Z.of_nat 16 - Z.of_nat 4)) = be_val (take 4 l)) as Hv.
      { intros l Ll Bl. rewrite <- Ll at 1. apply be_val_take; [done|lia]. }
      rewrite (take_ge (addr ip)) by lia. rewrite take_app_length' by done.
      rewrite !Hv by done. by rewrite Htake. }
  fold (entries (with_bucket set (ipset_hash net)
        (e :: bucket_of set (ipset_hash net)) (entry_count set +₃₂ 1))).
  apply Forall_forall. intros e' He'. split; [by apply (entries_ok _ _ Hok')|].
  rewrite He in He'. apply elem_of_cons in He' as [->|He']; [done|].
  by rewrite Forall_forall in Hdef; apply Hdef.
Qed.

(** A /1 IPv4 network makes the mask computation undefined for every IPv4
    address that is compared with it. *)
Lemma ip_in_cidr_slash1_undefined ip net :
  family ip = AF_INET → family net = AF_INET → ip_in_cidr ip net 1 = Undef BadShift.
Proof. intros H1 H2. unfold ip_in_cidr. by rewrite H1, H2. Qed.

(** ** Witnesses *)

(** A dotted-quad reader that knows one text of each family. *)
#[local] Instance sample_inet : InetPton := {|
  inet_pton4 s := if bool_decide (s = bytes_of "10.0.0.0") then Some [10; 0; 0; 0] else None;
  inet_pton6 s := if bool_decide (s = bytes_of "2001:db8::1")
    then Some [32; 1; 13; 184; 0; 0; 0; 0; 0; 0; 0; 0; 0; 0; 0; 1] else None
|}.

#[local] Instance sample_inet_laws : InetPtonLaws.
Proof.
  split; intros s b; simpl; case_bool_decide; intros [= <-]; (split; [done|]);
    repeat constructor; unfold byte_ok; lia.
Qed.

Definition sample_set : ipset := Ipset (replicate (Z.to_nat IPSET_BUCKETS) []) 0 10.
Definition sample_ip : ip_addr := ip4 10 1 2 3.
Definition sample_v6 : ip_addr := ip6 [32; 1; 13; 184; 0; 0; 0; 0; 0; 0; 0; 0; 0; 0; 0; 1].
Definition sample_one : ipset := (ipset_add_expiring true sample_set sample_ip 100).2.

Lemma sample_set_ok : ipset_ok sample_set.
Proof. apply (ipset_create_ok 10); [lia|reflexivity]. Qed.
Lemma sample_one_ok : ipset_ok sample_one.
Proof. apply ipset_add_expiring_ok; [apply sample_set_ok|by apply ip_okb_ok]. Qed.
Lemma sample_set_entries : entries sample_set = [].
Proof. apply concat_replicate_nil. Qed.
Lemma sample_one_entries : entries sample_one = [IpsetEntry sample_ip 32 100].
Proof. vm_compute. reflexivity. Qed.

Lemma ipset_reachable_ok_witness : ipset_ok (ipset_remove sample_one sample_ip).2.
Proof.
  apply (ipset_reachable_ok (inet := sample_inet) 10 sample_set);
    [lia|reflexivity|].
  apply rtc_l with sample_one; [apply step_add, ip_okb_ok; reflexivity|].
  apply rtc_once, step_remove.
Defined.

Lemma ipset_contains_refines_witness :
  ipset_contains 50 sample_one sample_ip = bool_decide (ip_key sample_ip ∈ live_keys 50 sample_one).
Proof. apply (ipset_contains_refines 50 sample_one sample_ip sample_one_ok). Defined.

Lemma ipset_contains_cidr_exact_witness :
  ∃ b, ipset_contains_cidr 50 sample_one sample_ip = Ok b ∧
       (b = true ↔ ∃ e, e ∈ entries sample_one ∧ expired 50 e = false ∧
                        same_prefix sample_ip (e_ip e) (e_prefix_len e)).
Proof.
  apply (ipset_contains_cidr_exact 50 sample_one sample_ip sample_one_ok);
    [by apply ip_okb_ok|].
  rewrite sample_one_entries. repeat constructor. intros _ [=].
Defined.

(** An address that is there is updated without an allocation. *)
Lemma ipset_add_expiring_refines_witness :
  let '(rc, set') := ipset_add_expiring false sample_one sample_ip 200 in
  rc = 0 ∧ ∀ now, live_until now 200 → live_keys now set' = {[ip_key sample_ip]} ∪ live_keys now sample_one.
Proof.
  pose proof (ipset_add_expiring_refines false sample_one sample_ip 200 sample_one_ok ltac:(lia)) as H.
  destruct (ipset_add_expiring false sample_one sample_ip 200) as [rc set'].
  destruct H as [(_ & _ & [Hfull|[_ Hnone]])|(Hrc & _ & Hlive)].
  - discriminate Hfull.
  - exfalso. apply (Hnone (IpsetEntry sample_ip 32 100)); [|done].
    rewrite sample_one_entries. by left.
  - split; [exact Hrc|exact Hlive].
Defined.

Lemma ipset_cleanup_refines_witness :
  let '(cleaned, set') := ipset_cleanup_expired 200 sample_one in
  entries set' = filter (λ e, expired 200 e = false) (entries sample_one) ∧
  cleaned = Z.of_nat (length (entries sample_one)) - Z.of_nat (length (entries set')) ∧
  ipset_size set' = ipset_size sample_one - cleaned ∧
  ∀ later, 200 <= later → live_keys later set' = live_keys later sample_one.
Proof. apply (ipset_cleanup_refines 200 sample_one sample_one_ok). Defined.

Lemma ipset_remove_refines_witness :
  let '(rc, set') := ipset_remove sample_one sample_ip in
  (rc = -1 ∧ set' = sample_one ∧
   (∀ e, e ∈ entries sample_one → ip_key (e_ip e) ≠ ip_key sample_ip)) ∨
  (rc = 0 ∧ ∃ e, entries sample_one ≡ₚ e :: entries set' ∧ ip_key (e_ip e) = ip_key sample_ip ∧
     ((∀ e', e' ∈ entries set' → ip_key (e_ip e') ≠ ip_key sample_ip) →
      ∀ now, live_keys now set' = live_keys now sample_one ∖ {[ip_key sample_ip]})).
Proof. apply (ipset_remove_refines sample_one sample_ip sample_one_ok). Defined.

Lemma ipset_v6_readd_survives_removal_witness :
  let set2 := (ipset_add true (ipset_add true sample_set sample_v6).2 sample_v6).2 in
  ipset_size set2 = ipset_size sample_set + 2 ∧
  (ipset_remove set2 sample_v6).1 = 0 ∧
  ipset_contains 7 (ipset_remove set2 sample_v6).2 sample_v6 = true.
Proof.
  apply (ipset_v6_readd_survives_removal 7 sample_set sample_v6 sample_set_ok);
    [intros [=]|by apply ip_okb_ok|vm_compute; intros [=]|].
  rewrite sample_set_entries. intros e He. by apply not_elem_of_nil in He.
Defined.

Lemma ipset_add_plain_v6_blocks_slash32_witness :
  ∃ set', ipset_add_cidr true (ip4 0 0 0 0) sample_set (c_str "2001:db8::1") = Ok (0, set') ∧
    ipset_contains_cidr 5 set' (ip6 [32; 1; 13; 184; 255]) = Ok true.
Proof.
  eexists. split; [reflexivity|].
  apply (ipset_add_plain_v6_blocks_slash32 5 (ip4 0 0 0 0) sample_set (c_str "2001:db8::1") 11
    [32; 1; 13; 184; 0; 0; 0; 0; 0; 0; 0; 0; 0; 0; 0; 1]);
    [apply sample_set_ok|by apply ip_okb_ok| |reflexivity..|by apply ip_okb_ok|reflexivity|reflexivity].
  rewrite sample_set_entries. constructor.
Defined.
