(* ===== verification/IpSetFile.v ===== *)
(** * IP sets in files

    The rest of [src/storage/ipset.c]: loading a set from a text file with one
    address or network per line, and saving it. A file is the list of its bytes;
    what [fopen] finds, the outcomes of the allocations and the previous content
    of uninitialised locals are arguments. *)

From S2P Require Import Prelude Common CString Inet IpSet.

(** ** Reading lines *)

Definition LINE_SIZE : nat := 256.

(** At most [n] bytes of the file, up to and including a newline, and the rest. *)
Fixpoint read_line (n : nat) (file : list Z) : list Z * list Z :=
  match n, file with
  | S n', b :: file' =>
      if b =? 10 then ([b], file')
      else let '(l, rest) := read_line n' file' in (b :: l, rest)
  | _, _ => ([], file)
  end.

(** [fgets(buf, n, fp)]: the bytes it stores before the terminator. *)
Definition fgets (n : nat) (file : list Z) : option (list Z * list Z) :=
  match file with [] => None | _ => Some (read_line (n - 1) file) end.

(** The array after a string is stored at its beginning. *)
Definition store_string (l line : list Z) : list Z := l ++ 0 :: drop (S (length l)) line.

Section load.
Context {inet : InetPton}.
Variables (calloc_ok : nat → bool) (stack : nat → ip_addr).

(** The [while] loop: [i] counts its iterations, [line] is the array. *)
Fixpoint load_lines (fuel i : nat) (line file : list Z) (set : ipset) (count : Z) : res (Z * ipset) :=
  match fuel with
  | O => Diverges
  | S fuel' =>
      match fgets LINE_SIZE file with
      | None => Ok (count, set)
      | Some (l, file') =>
          let line := store_string l line in
          let* j := strcspn [10] line in
          let line := <[j := 0]> line in
          let* c := rd8 line 0 in
          if (c =? 35) || (c =? 0) then load_lines fuel' (S i) line file' set count
          else
            let* (rc, set') := ipset_add_cidr (calloc_ok i) (stack i) set line in
            load_lines fuel' (S i) line file' set' (if rc =? 0 then count + 1 else count)
      end
  end.

(** [opened]: the content of the file, if it can be opened. Each turn of the loop
    consumes a byte. *)
Definition ipset_load_from_file (line : list Z) (set : ipset) (opened : option (list Z))
    : res (Z * ipset) :=
  match opened with
  | None => Ok (-1, set)
  | Some file => load_lines (S (length file)) 0 line file set 0
  end.
End load.

(** ** Saving *)

Section save.
Context {ntop : InetNtop}.

(** [fprintf(fp, "%s/%u\n", ip_str, entry->prefix_len)]. *)
Definition save_line (e : ipset_entry) : list Z :=
  ip_addr_to_string (e_ip e) ++ [47] ++ print_u (e_prefix_len e) ++ [10].

Fixpoint save_chain (chain : list ipset_entry) (file : list Z) (count : Z) : list Z * Z :=
  match chain with
  | [] => (file, count)
  | e :: next => save_chain next (file ++ save_line e) (count + 1)
  end.

Fixpoint save_buckets (bs : list (list ipset_entry)) (file : list Z) (count : Z) : list Z * Z :=
  match bs with
  | [] => (file, count)
  | b :: bs' => let '(file, count) := save_chain b file count in save_buckets bs' file count
  end.

(** The result, and the content of the file, if it can be opened. *)
Definition ipset_save_to_file (opened : bool) (set : ipset) : Z * option (list Z) :=
  if opened then
    let '(file, count) := save_buckets (buckets set) [] 0 in (count, Some file)
  else (-1, None).

Lemma save_chain_spec chain file count :
  save_chain chain file count =
    (file ++ concat (save_line <$> chain), count + Z.of_nat (length chain)).
Proof.
  revert file count. induction chain as [|e chain IH]; intros file count; cbn [save_chain].
  - cbn. by rewrite app_nil_r, Z.add_0_r.
  - rewrite IH, fmap_cons. cbn [concat length]. rewrite <- app_assoc. f_equal. lia.
Qed.

Lemma save_buckets_spec bs file count :
  save_buckets bs file count =
    (file ++ concat (save_line <$> concat bs), count + Z.of_nat (length (concat bs))).
Proof.
  revert file count. induction bs as [|b bs IH]; intros file count; cbn [save_buckets].
  - cbn. by rewrite app_nil_r, Z.add_0_r.
  - rewrite save_chain_spec, IH. cbn [concat].
    rewrite fmap_app, concat_app, length_app, <- app_assoc. f_equal. lia.
Qed.

Lemma save_spec set :
  ipset_save_to_file true set =
    (Z.of_nat (length (entries set)), Some (concat (save_line <$> entries set))).
Proof. unfold ipset_save_to_file. by rewrite save_buckets_spec. Qed.
End save.

(** ** Destruction

    The entries freed, in order; nothing of the set remains. *)
Fixpoint destroy_chain (chain : list ipset_entry) : list ipset_entry :=
  match chain with [] => [] | e :: next => e :: destroy_chain next end.

Fixpoint destroy_buckets (bs : list (list ipset_entry)) : list ipset_entry :=
  match bs with [] => [] | b :: bs' => destroy_chain b ++ destroy_buckets bs' end.

Definition ipset_destroy (set : option ipset) : list ipset_entry :=
  match set with None => [] | Some s => destroy_buckets (buckets s) end.

(** ** The loop *)

Lemma read_line_split n file l rest :
  read_line n file = (l, rest) → file = l ++ rest ∧ (length l <= n)%nat.
Proof.
  revert file l rest. induction n as [|n IH]; intros [|b file] l rest H; cbn [read_line] in H;
    try (injection H as <- <-; split; [done|cbn; lia]).
  destruct (b =? 10); [injection H as <- <-; split; [done|cbn; lia]|].
  destruct (read_line n file) as [l' rest'] eqn:E. injection H as <- <-.
  apply IH in E as [-> ?]. split; [done|cbn; lia].
Qed.

Lemma fgets_progress n file l rest :
  (1 < n)%nat → fgets n file = Some (l, rest) →
  file = l ++ rest ∧ (length rest < length file)%nat ∧ (length l < n)%nat.
Proof.
  intros Hn. unfold fgets. destruct file as [|b file]; [done|]. intros H. apply (inj Some) in H.
  pose proof (read_line_split _ _ _ _ H) as [Hf Hl]. split; [done|]. split; [|lia].
  rewrite Hf, length_app. destruct l; [|cbn; lia]. exfalso.
  destruct n as [|[|n]]; [lia..|]. cbn [Nat.sub read_line] in H.
  destruct (b =? 10); [done|]. by destruct (read_line _ file).
Qed.

Lemma store_string_terminated l line : 0 ∈ store_string l line.
Proof. unfold store_string. apply elem_of_app. right. by left. Qed.

Lemma cut_terminated (m : list Z) j : (j < length m)%nat → 0 ∈ <[j := 0]> m.
Proof. intros Hj. apply list_elem_of_lookup_2 with j. by apply list_lookup_insert_eq. Qed.

Lemma split_cidr_terminated cidr :
  0 ∈ cidr → split_cidr cidr = Undef Uninitialised ∨ ∃ r, split_cidr cidr = Ok r.
Proof.
  intros H. unfold split_cidr.
  destruct (strchr_terminated cidr 47 H) as (r & -> & Hr); [done|]. cbn [rbind].
  destruct r as [k|].
  - destruct (MAX_IP_STR_LEN <=? Z.of_nat k); [eauto|].
    destruct (atoi_terminated (drop (S k) cidr)) as [n ->]; [by apply Hr|]. cbn [rbind]. eauto.
  - destruct (strlen_terminated cidr H) as [n ->]. cbn [rbind].
    destruct (_ <? _); eauto.
Qed.

(** A call on a terminated line adds one permanent entry, or fails and changes
    nothing, or reads the unset end of the copied text. *)
Lemma ipset_add_cidr_total {inet : InetPton} {laws : InetPtonLaws} ok stack set cidr :
  ipset_ok set → ip_ok stack → 0 ∈ cidr →
  match ipset_add_cidr ok stack set cidr with
  | Ok (rc, set') =>
      ipset_ok set' ∧
      ∃ new, entries set' ≡ₚ new ++ entries set ∧ Forall (λ e, e_expires e = 0) new ∧
        length new = if rc =? 0 then 1%nat else 0%nat
  | Undef u => u = Uninitialised
  | Diverges => False
  end.
Proof.
  intros Hok Hst Hc. destruct (ipset_add_cidr ok stack set cidr) as [[rc set']|u|] eqn:H.
  - split; [by eapply ipset_add_cidr_ok|].
    destruct (ipset_add_cidr_cases _ _ _ _ _ _ H)
      as [[-> ->]|(-> & _ & _ & str & p & ip & _ & _ & _ & _ & ->)]; [by exists []|].
    eexists [_]. split; [by apply push_entries|]. split; [|done]. by constructor.
  - unfold ipset_add_cidr in H.
    destruct (split_cidr_terminated cidr Hc) as [Hs|[[[str p]|] Hs]]; rewrite Hs in H; cbn [rbind] in H;
      [by injection H| |done].
    by destruct (string_to_ip_addr str stack) as [r ip]; repeat case_match.
  - unfold ipset_add_cidr in H.
    destruct (split_cidr_terminated cidr Hc) as [Hs|[[[str p]|] Hs]]; rewrite Hs in H; cbn [rbind] in H;
      [done| |done].
    by destruct (string_to_ip_addr str stack) as [r ip]; repeat case_match.
Qed.

Lemma load_lines_total {inet : InetPton} {laws : InetPtonLaws} calloc_ok stack fuel i line file set count :
  ipset_ok set → (∀ k, ip_ok (stack k)) → (length file < fuel)%nat →
  match load_lines calloc_ok stack fuel i line file set count with
  | Ok (n, set') =>
      ipset_ok set' ∧
      ∃ new, entries set' ≡ₚ new ++ entries set ∧ Forall (λ e, e_expires e = 0) new ∧
        n = count + Z.of_nat (length new)
  | Undef u => u = Uninitialised
  | Diverges => False
  end.
Proof.
  intros Hok Hst. revert i line file set count Hok.
  induction fuel as [|fuel IH]; intros i line file set count Hok Hf; [lia|]. cbn [load_lines].
  destruct (fgets LINE_SIZE file) as [[l file']|] eqn:Hl.
  2: { split; [done|]. exists []. split_and!; [done..|cbn; lia]. }
  apply fgets_progress in Hl as (_ & Hlt & _); [|unfold LINE_SIZE; lia].
  set (m := store_string l line).
  destruct (strcspn_terminated [10] m (store_string_terminated l line)) as (j & -> & Hj).
  cbn [rbind]. pose proof (cut_terminated m j Hj) as Hcut. set (text := <[j := 0]> m) in *.
  destruct (rd8_in_range text 0) as (c & -> & _).
  { destruct text; [by apply not_elem_of_nil in Hcut|cbn; lia]. }
  cbn [rbind]. destruct ((c =? 35) || (c =? 0)); [by apply IH; [|lia]|].
  pose proof (ipset_add_cidr_total (calloc_ok i) (stack i) set text Hok (Hst i) Hcut) as Hadd.
  destruct (ipset_add_cidr _ _ _ _) as [[rc set1]|u|]; cbn [rbind]; [|done..].
  destruct Hadd as (Hok1 & new1 & Hnew1 & Hexp1 & Hlen1).
  specialize (IH (S i) text file' set1 (if rc =? 0 then count + 1 else count) Hok1 ltac:(lia)).
  destruct (load_lines _ _ _ _ _ _ _ _) as [[n set2]|u|]; [|done..].
  destruct IH as (Hok2 & new2 & Hnew2 & Hexp2 & ->). split; [done|].
  exists (new2 ++ new1). split; [by rewrite Hnew2, Hnew1, app_assoc|].
  split; [by apply Forall_app|]. rewrite length_app. destruct (rc =? 0); lia.
Qed.

(** C21: Loading a set returns on every file: the loop ends, it stays inside the
    line buffer whatever the bytes are, the table keeps its invariant, and the
    result is the number of permanent entries it has added to those there were.
    The only undefined behaviour in reach is the unset last byte of the copied
    address text, on a line without a slash that fills it. *)
Theorem ipset_load_terminates {inet : InetPton} {laws : InetPtonLaws} calloc_ok stack line set opened :
  ipset_ok set → (∀ k, ip_ok (stack k)) →
  match ipset_load_from_file calloc_ok stack line set opened with
  | Ok (n, set') =>
      ipset_ok set' ∧
      match opened with
      | None => n = -1 ∧ set' = set
      | Some _ =>
          ∃ new, entries set' ≡ₚ new ++ entries set ∧ Forall (λ e, e_expires e = 0) new ∧
            n = Z.of_nat (length new)
      end
  | Undef u => u = Uninitialised
  | Diverges => False
  end.
Proof.
  intros Hok Hst. unfold ipset_load_from_file. destruct opened as [file|]; [|done].
  apply (load_lines_total calloc_ok stack (S (length file)) 0 line file set 0); [done..|lia].
Qed.

(** ** What is saved is loaded *)

Section roundtrip.
Context {inet : InetPton} {ntop : InetNtop} {text : InetText} {short : InetNtopLaws} {laws : InetPtonLaws}.

(** What a line says of an entry. *)
Definition entry_key (e : ipset_entry) : ip_key_t * Z := (ip_key (e_ip e), e_prefix_len e).

(** The entries a client of the set can have made. *)
Definition entry_inet (e : ipset_entry) : Prop :=
  entry_ok e ∧ (family (e_ip e) = AF_INET ∨ family (e_ip e) = AF_INET6).

Lemma print_u_short e : entry_inet e → (length (print_u (e_prefix_len e)) ≤ 3)%nat.
Proof.
  intros [[_ Hp] _]. apply dec_byte. unfold byte_ok.
  destruct (family (e_ip e) =? AF_INET); lia.
Qed.

Lemma ip_char_plain c : ip_char c = true → c ≠ 0 ∧ c ≠ 10 ∧ c ≠ 35 ∧ c ≠ 47.
Proof.
  intros H. assert (c = 46 ∨ 48 <= c); [|lia].
  unfold ip_char, is_digit in H. rewrite !orb_true_iff, !andb_true_iff in H. lia.
Qed.

Lemma address_plain e :
  entry_inet e →
  Forall (λ c, c ≠ 0 ∧ c ≠ 10 ∧ c ≠ 35 ∧ c ≠ 47) (ip_addr_to_string (e_ip e)) ∧
  ∃ d l, ip_addr_to_string (e_ip e) = d :: l.
Proof.
  intros [[Hip _] _]. destruct (ip_addr_to_string_chars (e_ip e) Hip) as [Hc Hne]. split.
  - eapply Forall_impl; [exact Hc|]. apply ip_char_plain.
  - destruct (ip_addr_to_string (e_ip e)); [done|eauto].
Qed.

(** The characters of a line before its newline. *)
Definition body (e : ipset_entry) : list Z :=
  ip_addr_to_string (e_ip e) ++ 47 :: print_u (e_prefix_len e).

Lemma save_line_body e : save_line e = body e ++ [10].
Proof. unfold save_line, body. by rewrite <- app_assoc. Qed.

Lemma body_plain e : entry_inet e → Forall (λ c, c ≠ 0 ∧ c ∉ [10]) (body e).
Proof.
  intros He. unfold body. apply Forall_app. split; [|constructor].
  - eapply Forall_impl; [by apply address_plain|]. intros c. rewrite list_elem_of_singleton. naive_solver.
  - rewrite list_elem_of_singleton. lia.
  - eapply Forall_impl; [apply print_u_digits|]. intros c Hc. rewrite list_elem_of_singleton.
    unfold is_digit in Hc. apply andb_true_iff in Hc. lia.
Qed.

Lemma body_length e : entry_inet e → (length (body e) < 50)%nat.
Proof.
  intros He. unfold body. rewrite length_app. cbn [length].
  pose proof (print_u_short e He). pose proof (ip_addr_to_string_short (e_ip e)). lia.
Qed.

Lemma read_line_newline n l rest :
  10 ∉ l → (length l < n)%nat → read_line n (l ++ 10 :: rest) = (l ++ [10], rest).
Proof.
  revert n. induction l as [|b l IH]; intros [|n] Hl Hn; cbn [length] in Hn; [lia|done|lia|].
  apply not_elem_of_cons in Hl as [Hb Hl]. cbn [app read_line].
  rewrite (proj2 (Z.eqb_neq b 10)) by done. by rewrite IH by (done || lia).
Qed.

Lemma fgets_saved e rest :
  entry_inet e → fgets LINE_SIZE (save_line e ++ rest) = Some (save_line e, rest).
Proof.
  intros He. rewrite save_line_body, <- app_assoc. cbn [app]. unfold fgets.
  rewrite read_line_newline.
  - by destruct (body e).
  - intros Hin. pose proof (body_plain e He) as Hp. eapply Forall_forall in Hp; [|done].
    destruct Hp as [_ Hp]. apply Hp. by left.
  - pose proof (body_length e He). unfold LINE_SIZE. lia.
Qed.

(** The line handed to [ipset_add_cidr]. *)
Lemma cut_saved e line :
  entry_inet e →
  let m := store_string (save_line e) line in
  strcspn [10] m = Ok (length (body e)) ∧
  ∃ tl, <[length (body e) := 0]> m = body e ++ 0 :: tl.
Proof.
  intros He m. unfold m, store_string. rewrite save_line_body, <- app_assoc. cbn [app]. split.
  - apply strcspn_stops; [by apply body_plain|]. right. by left.
  - eexists. rewrite insert_app_r_alt, Nat.sub_diag by lia. done.
Qed.

Lemma split_saved e tl :
  entry_inet e → split_cidr (body e ++ 0 :: tl) = Ok (Some (ip_addr_to_string (e_ip e), e_prefix_len e)).
Proof.
  intros He. destruct (address_plain e He) as [Hp _]. pose proof (ip_addr_to_string_short (e_ip e)).
  unfold split_cidr, body. rewrite <- app_assoc. cbn [app]. rewrite strchr_found.
  2-3: intros Hin; eapply Forall_forall in Hp; [|done]; naive_solver.
  cbn [rbind]. unfold MAX_IP_STR_LEN. rewrite (proj2 (Z.leb_gt _ _)) by lia.
  assert (0 <= e_prefix_len e <= 128).
  { destruct He as [[_ ?] _]. destruct (family (e_ip e) =? AF_INET); lia. }
  replace (drop (S (length (ip_addr_to_string (e_ip e)))) _)
    with (print_u (e_prefix_len e) ++ 0 :: tl).
  2: { rewrite <- Nat.add_1_r. by rewrite drop_app_add. }
  rewrite atoi_print_u by (done || lia). cbn [rbind]. rewrite take_app_length, u32_small by lia. done.
Qed.

(** The permanent entry that a saved line becomes. *)
Definition restored (e e' : ipset_entry) : Prop := entry_key e' = entry_key e ∧ e_expires e' = 0.

Lemma add_saved stack set e tl :
  ipset_ok set → entry_inet e → ip_ok stack → entry_count set < max_size set →
  ∃ set' e', ipset_add_cidr true stack set (body e ++ 0 :: tl) = Ok (0, set') ∧
    entries set' ≡ₚ e' :: entries set ∧ restored e e' ∧ max_size set' = max_size set.
Proof.
  intros Hok He Hst Hroom. unfold ipset_add_cidr. rewrite split_saved by done. cbn [rbind].
  destruct He as [[Hip Hp] Hf].
  destruct (string_to_ip_addr_print (e_ip e) stack Hip Hf) as (ip & -> & Hfam & Hkey).
  change (negb (0 =? 0)) with false. cbv iota.
  assert ((family ip =? AF_INET) && (32 <? e_prefix_len e) = false ∧
          (family ip =? AF_INET6) && (128 <? e_prefix_len e) = false) as [-> ->].
  { rewrite Hfam, !andb_false_iff, !Z.ltb_ge. destruct Hf as [Hf|Hf]; rewrite Hf in *;
      cbn in Hp; split; (by left) || (right; lia). }
  rewrite (proj2 (Z.leb_gt _ _)) by lia. cbn [negb]. eexists _, _. split; [done|].
  split; [by apply push_entries|]. split; [|done]. split; [|done].
  unfold entry_key. cbn [e_ip e_prefix_len]. rewrite Hkey.
  f_equal. apply u8_small. destruct (family (e_ip e) =? AF_INET); lia.
Qed.

Lemma head_plain e tl :
  entry_inet e → ∃ c, rd8 (body e ++ 0 :: tl) 0 = Ok c ∧ (c =? 35) || (c =? 0) = false.
Proof.
  intros He. destruct (address_plain e He) as [Hp (d & l & Hd)]. unfold body. rewrite Hd in *.
  apply Forall_cons in Hp as [(? & ? & ? & ?) _]. exists d. split; [done|].
  rewrite orb_false_iff, !Z.eqb_neq. done.
Qed.

Lemma load_saved stack es fuel i line set count :
  ipset_ok set → (∀ k, ip_ok (stack k)) → Forall entry_inet es →
  entry_count set + Z.of_nat (length es) <= max_size set →
  (length (concat (save_line <$> es)) < fuel)%nat →
  ∃ set' es', load_lines (λ _, true) stack fuel i line (concat (save_line <$> es)) set count =
      Ok (count + Z.of_nat (length es), set') ∧
    ipset_ok set' ∧ entries set' ≡ₚ es' ++ entries set ∧ Forall2 restored es es'.
Proof.
  intros Hok Hst Hes. revert fuel i line set count Hok.
  induction Hes as [|e es He Hes IH]; intros fuel i line set count Hok Hroom Hf.
  { destruct fuel as [|fuel]; [cbn in Hf; lia|]. exists set, []. split_and!; [|done..].
    cbn. by rewrite Z.add_0_r. }
  rewrite fmap_cons in Hf |- *. cbn [concat length] in *. rewrite length_app in Hf.
  destruct fuel as [|fuel]; [lia|]. cbn [load_lines]. rewrite fgets_saved by done.
  destruct (cut_saved e line He) as [Hcut (tl & Htl)]. rewrite Hcut. cbn [rbind]. rewrite Htl.
  destruct (head_plain e tl He) as (c & -> & Hc). cbn [rbind]. rewrite Hc.
  destruct (add_saved (stack i) set e tl Hok He (Hst i) ltac:(lia)) as (set1 & e1 & Hadd & Hent & Hr & Hmax).
  rewrite Hadd. cbn [rbind]. change (0 =? 0) with true. cbv iota.
  assert (ipset_ok set1) as Hok1 by (by eapply ipset_add_cidr_ok).
  assert (entry_count set1 = entry_count set + 1) as Hcount.
  { rewrite (ok_count _ Hok), (ok_count _ Hok1), Hent. cbn [length]. lia. }
  destruct (IH fuel (S i) (body e ++ 0 :: tl) set1 (count + 1) Hok1)
    as (set2 & es2 & -> & Hok2 & Hent2 & Hr2).
  { rewrite Hcount, Hmax. lia. }
  { rewrite save_line_body, length_app in Hf. cbn [length] in Hf. lia. }
  exists set2, (e1 :: es2). split; [f_equal; f_equal; lia|]. split; [done|].
  split; [|by constructor]. rewrite Hent2, Hent. cbn [app]. by rewrite Permutation_middle.
Qed.

(** C8: Saving a set and loading the file into a new one that is large enough
    brings back every entry, address and prefix length, and nothing else; but the
    expiry is not in the file: each entry is permanent afterwards, so the new set
    contains for ever every address that had an entry, expired ones included. *)
Theorem ipset_save_load stack line set new :
  ipset_ok set → Forall entry_inet (entries set) → (∀ k, ip_ok (stack k)) →
  ipset_ok new → entries new = [] → entry_count set <= max_size new →
  ∃ file set',
    ipset_save_to_file true set = (entry_count set, Some file) ∧
    ipset_load_from_file (λ _, true) stack line new (Some file) = Ok (entry_count set, set') ∧
    ipset_ok set' ∧ entry_key <$> entries set' ≡ₚ entry_key <$> entries set ∧
    ∀ now ip, ipset_contains now set' ip = true ↔
      ∃ e, e ∈ entries set ∧ ip_key (e_ip e) = ip_key ip.
Proof.
  intros Hok Hes Hst Hnew Hempty Hroom.
  exists (concat (save_line <$> entries set)).
  pose proof (ok_count _ Hok) as Hcount. pose proof (ok_count _ Hnew) as Hcount'.
  rewrite Hempty in Hcount'. cbn [length] in Hcount'.
  destruct (load_saved stack (entries set) (S (length (concat (save_line <$> entries set)))) 0 line new 0)
    as (set' & es' & Hload & Hok' & Hent & Hr); [done..|lia|lia|].
  exists set'. rewrite Hempty, app_nil_r in Hent. split; [by rewrite save_spec, Hcount|].
  split; [by rewrite Hcount|]. split; [done|]. split.
  { rewrite Hent. replace (entry_key <$> es') with (entry_key <$> entries set); [done|]. clear -Hr.
    induction Hr as [|e e' es es' [Hk _] _ IH]; [done|]. by rewrite !fmap_cons, Hk, IH. }
  intros now ip. rewrite contains_entries by done. split.
  - intros (e' & He' & _ & Hk). rewrite Hent in He'.
    apply list_elem_of_lookup in He' as [j Hj].
    destruct (Forall2_lookup_r _ _ _ _ _ Hr Hj) as (e & Hje & [Hek _]).
    exists e. split; [by eapply list_elem_of_lookup_2|]. unfold entry_key in Hek. congruence.
  - intros (e & He & Hk). apply list_elem_of_lookup in He as [j Hj].
    destruct (Forall2_lookup_l _ _ _ _ _ Hr Hj) as (e' & Hje & [Hek Hx]).
    exists e'. rewrite Hent. split; [by eapply list_elem_of_lookup_2|].
    unfold entry_key in Hek. split; [|congruence]. unfold expired. by rewrite Hx.
Qed.
End roundtrip.

(** ** Witnesses *)

#[local] Existing Instances numeric_pton numeric_ntop numeric_pton_laws numeric_ntop_laws numeric_text.

Definition file_set : ipset :=
  (ipset_add true (ipset_add_expiring true sample_set sample_ip 100).2 sample_v6).2.

Lemma file_set_ok : ipset_ok file_set.
Proof. by apply ipset_add_expiring_ok; [apply ipset_add_expiring_ok; [apply sample_set_ok|]|]; apply ip_okb_ok. Qed.

Lemma file_set_entries :
  entries file_set ≡ₚ [IpsetEntry sample_v6 128 0; IpsetEntry sample_ip 32 100].
Proof.
  change file_set with (with_bucket sample_one (ipset_hash sample_v6)
    (IpsetEntry sample_v6 128 0 :: bucket_of sample_one (ipset_hash sample_v6))
    (entry_count sample_one +₃₂ 1)).
  rewrite push_entries by apply sample_one_ok. by rewrite sample_one_entries.
Qed.

Example save_ex :
  save_line (IpsetEntry sample_ip 32 100) ++ save_line (IpsetEntry sample_v6 128 0)
  = bytes_of "10.1.2.3/32" ++ [10] ++ bytes_of "2001:0db8:0000:0000:0000:0000:0000:0001/128" ++ [10].
Proof. vm_compute. reflexivity. Qed.

(** A comment, a network, an empty line, a bad prefix length, and a last line
    without a newline. *)
Definition example_file : list Z :=
  bytes_of "# lists" ++ [10] ++ bytes_of "10.0.0.0/8" ++ [10; 10] ++ bytes_of "10.0.0.0/33" ++ [10] ++
  bytes_of "192.168.1.1".

Lemma ipset_load_terminates_witness :
  match ipset_load_from_file (λ _, true) (λ _, ip4 0 0 0 0) [] sample_set (Some example_file) with
  | Ok (n, set') => n = 2 ∧ ipset_ok set'
  | _ => False
  end.
Proof.
  pose proof (ipset_load_terminates (λ _, true) (λ _, ip4 0 0 0 0) [] sample_set (Some example_file)
    sample_set_ok (λ _, ip_okb_ok (ip4 0 0 0 0) eq_refl)) as H.
  assert (match ipset_load_from_file (λ _, true) (λ _, ip4 0 0 0 0) [] sample_set (Some example_file) with
          | Ok (n, _) => n = 2 | _ => False end) as Hn by (vm_compute; reflexivity).
  destruct (ipset_load_from_file _ _ _ _ _) as [[n set']|u|]; [|done..].
  split; [done|]. by destruct H.
Defined.

(** Saving a temporary and a permanent entry at a time when the first has expired. *)
Lemma ipset_save_load_witness :
  ∃ file set',
    ipset_save_to_file true file_set = (2, Some file) ∧
    ipset_load_from_file (λ _, true) (λ _, ip4 0 0 0 0) [] sample_set (Some file) = Ok (2, set') ∧
    ipset_contains 1000 file_set sample_ip = false ∧ ipset_contains 1000 set' sample_ip = true.
Proof.
  destruct (ipset_save_load (λ _, ip4 0 0 0 0) [] file_set sample_set file_set_ok)
    as (file & set' & Hs & Hl & _ & _ & Hc).
  - rewrite file_set_entries.
    constructor; [|constructor; [|done]]; (split; [split; [by apply ip_okb_ok|cbn; lia]|]);
      [by right|by left].
  - intros _. by apply ip_okb_ok.
  - apply sample_set_ok.
  - apply sample_set_entries.
  - vm_compute. discriminate.
  - exists file, set'. split; [exact Hs|]. split; [exact Hl|].
    split; [vm_compute; reflexivity|]. apply Hc. exists (IpsetEntry sample_ip 32 100).
    split; [|done]. rewrite file_set_entries. right. by left.
Defined.
