(* ===== verification/Hash.v ===== *)
(** * The connection hash

    [murmur3_32] and [conn_tuple_hash] of [src/storage/hashtable.c], with the
    32-bit wrap-around of every operation written out. The theorems: the hash
    agrees with [conn_tuple_compare] (equal keys land in one bucket), and it
    separates any two IPv4 tuples that differ in a single component, because
    every mixing step is invertible. *)

From S2P Require Import Prelude Bits Common.

Definition HASH_SEED : Z := 0x9747b28c.
Definition c1 : Z := 0xcc9e2d51.
Definition c2 : Z := 0x1b873593.

(** [(x << r) | (x >> (32 - r))] on [uint32_t]. *)
Definition rotl32 (x r : Z) : Z := Z.lor (u32 (Z.shiftl x r)) (Z.shiftr x (32 - r)).

(** [k1 *= c1; k1 = rotl(k1, 15); k1 *= c2]. *)
Definition mix_k1 (k1 : Z) : Z := rotl32 (k1 *₃₂ c1) 15 *₃₂ c2.

(** One iteration of the body loop. *)
Definition mix_block (h1 k1 : Z) : Z :=
  (rotl32 (Z.lxor h1 (mix_k1 k1)) 13 *₃₂ 5) +₃₂ 0xe6546b64.

Fixpoint murmur_body (nblocks : nat) (data : list Z) (h1 : Z) : Z :=
  match nblocks with
  | O => h1
  | S n => murmur_body n (drop 4 data) (mix_block h1 (le32 (take 4 data)))
  end.

(** The [switch] on [len & 3], whose cases fall through. *)
Definition murmur_tail (tail : list Z) (rem : Z) (h1 : Z) : Z :=
  let t i := default 0 (tail !! i) in
  if rem =? 0 then h1
  else
    let k1 := 0 in
    let k1 := if rem =? 3 then Z.lxor k1 (Z.shiftl (t 2%nat) 16) else k1 in
    let k1 := if 2 <=? rem then Z.lxor k1 (Z.shiftl (t 1%nat) 8) else k1 in
    let k1 := Z.lxor k1 (t 0%nat) in
    Z.lxor h1 (mix_k1 k1).

Definition xorshift (h s : Z) : Z := Z.lxor h (Z.shiftr h s).

Definition fmix (h1 : Z) : Z :=
  let h1 := xorshift h1 16 in
  let h1 := h1 *₃₂ 0x85ebca6b in
  let h1 := xorshift h1 13 in
  let h1 := h1 *₃₂ 0xc2b2ae35 in
  xorshift h1 16.

Definition murmur3_32 (key : list Z) (seed : Z) : Z :=
  let len := Z.of_nat (length key) in
  let nblocks := Nat.div (length key) 4 in
  let h1 := murmur_body nblocks key seed in
  let h1 := murmur_tail (drop (nblocks * 4) key) (Z.land len 3) h1 in
  fmix (Z.lxor h1 (u32 len)).

(** A [uint16_t] in memory. *)
Definition bytes_le16 (p : Z) : list Z := [p mod 256; p / 256 mod 256].

Definition conn_tuple_hash (t : conn_tuple) : Z :=
  let hash := HASH_SEED in
  let hash := if family (src_ip t) =? AF_INET then murmur3_32 (v4_bytes (src_ip t)) hash
              else murmur3_32 (v6_bytes (src_ip t)) hash in
  let hash := if family (dst_ip t) =? AF_INET then murmur3_32 (v4_bytes (dst_ip t)) hash
              else murmur3_32 (v6_bytes (dst_ip t)) hash in
  let hash := murmur3_32 (bytes_le16 (src_port t)) hash in
  let hash := murmur3_32 (bytes_le16 (dst_port t)) hash in
  murmur3_32 [protocol t] hash.

(** Published test vectors for this seed. *)
From S2P Require Import CString.
Example murmur_vector_test : murmur3_32 (bytes_of "test") HASH_SEED = 0x704b81dc.
Proof. vm_compute. reflexivity. Qed.
Example murmur_vector_hello : murmur3_32 (bytes_of "Hello, world!") HASH_SEED = 0x24884cba.
Proof. vm_compute. reflexivity. Qed.
Example murmur_vector_fox :
  murmur3_32 (bytes_of "The quick brown fox jumps over the lazy dog") HASH_SEED = 0x2fa826cd.
Proof. vm_compute. reflexivity. Qed.

(** ** Every step is injective on 32-bit words *)

Notation word x := (0 <= x < 2 ^ 32).

Lemma rotl32_arith x r :
  word x → 0 <= r <= 32 → rotl32 x r = (x mod 2 ^ (32 - r)) * 2 ^ r + x / 2 ^ (32 - r).
Proof.
  intros Hx Hr. unfold rotl32, u32.
  assert (2 ^ 32 = 2 ^ (32 - r) * 2 ^ r) as Hp by (rewrite <- Z.pow_add_r by lia; f_equal; lia).
  rewrite Z.shiftl_mul_pow2, Z.shiftr_div_pow2 by lia. rewrite Hp, Z.mul_mod_distr_r by lia.
  rewrite <- (Z.shiftl_mul_pow2 (x mod _)) at 1 by lia. rewrite lor_shiftl_add; [done|lia|].
  split; [apply Z.div_pos; lia|]. apply Z.div_lt_upper_bound; lia.
Qed.

Lemma rotl32_word x r : word x → 0 <= r <= 32 → word (rotl32 x r).
Proof.
  intros Hx Hr. unfold rotl32. apply lor_range; [lia|apply u32_range|].
  rewrite Z.shiftr_div_pow2 by lia. split; [apply Z.div_pos; lia|].
  apply Z.div_lt_upper_bound; [lia|]. assert (0 < 2 ^ (32 - r)) by lia. nia.
Qed.

Lemma rotl32_inj x y r : word x → word y → 0 <= r <= 32 → rotl32 x r = rotl32 y r → x = y.
Proof.
  intros Hx Hy Hr. rewrite !rotl32_arith by done.
  assert (2 ^ 32 = 2 ^ r * 2 ^ (32 - r)) as Hp by (rewrite <- Z.pow_add_r by lia; f_equal; lia).
  assert (∀ z, word z → 0 <= z / 2 ^ (32 - r) < 2 ^ r) as Hq.
  { intros z Hz. split; [apply Z.div_pos; lia|]. apply Z.div_lt_upper_bound; lia. }
  pose proof (Hq x Hx). pose proof (Hq y Hy). intros Heq.
  rewrite (Z.div_mod x (2 ^ (32 - r))), (Z.div_mod y (2 ^ (32 - r))) by lia.
  assert (x mod 2 ^ (32 - r) = y mod 2 ^ (32 - r)) as Hm by nia. rewrite Hm in *. nia.
Qed.

(** Multiplication by a constant with an inverse modulo [2^32]. *)
Lemma mul32_inj c d x y :
  (c * d) mod 2 ^ 32 = 1 → word x → word y → x *₃₂ c = y *₃₂ c → x = y.
Proof.
  intros Hcd Hx Hy Heq. unfold u32 in Heq.
  assert (∀ z, word z → ((z * c) mod 2 ^ 32 * d) mod 2 ^ 32 = z) as Hinv.
  { intros z Hz. rewrite Z.mul_mod_idemp_l, <- Z.mul_assoc by lia.
    rewrite <- Z.mul_mod_idemp_r, Hcd, Z.mul_1_r by lia. by apply Z.mod_small. }
  rewrite <- (Hinv x Hx), <- (Hinv y Hy). by rewrite Heq.
Qed.

Lemma add32_inj c x y : word x → word y → x +₃₂ c = y +₃₂ c → x = y.
Proof. intros Hx Hy Heq. unfold u32 in *. Z.div_mod_to_equations; lia. Qed.

Lemma lxor_inj_l a x y : Z.lxor a x = Z.lxor a y → x = y.
Proof.
  intros H. rewrite <- (Z.lxor_0_l x), <- (Z.lxor_0_l y), <- (Z.lxor_nilpotent a).
  by rewrite !Z.lxor_assoc, H.
Qed.

Lemma lxor_inj_r a x y : Z.lxor x a = Z.lxor y a → x = y.
Proof. rewrite !(Z.lxor_comm _ a). apply lxor_inj_l. Qed.

Lemma xorshift_word h s : word h → 0 <= s → word (xorshift h s).
Proof.
  intros Hh Hs. apply lxor_range; [lia|done|]. rewrite Z.shiftr_div_pow2 by lia.
  split; [apply Z.div_pos; lia|]. apply Z.le_lt_trans with h; [|lia].
  apply Z.div_le_upper_bound; [lia|]. assert (0 < 2 ^ s) by lia. nia.
Qed.

(** The difference of two preimages is its own right shift, so it is zero. *)
Lemma xorshift_inj x y s : 0 <= x → 0 <= y → 0 < s → xorshift x s = xorshift y s → x = y.
Proof.
  intros Hx Hy Hs Heq. unfold xorshift in Heq. set (z := Z.lxor x y).
  assert (z = Z.shiftr z s) as Hz.
  { unfold z. rewrite Z.shiftr_lxor. apply Z.bits_inj'. intros i _.
    apply (f_equal (λ v, Z.testbit v i)) in Heq. rewrite !Z.lxor_spec in *.
    by destruct (Z.testbit x i), (Z.testbit y i), (Z.testbit (Z.shiftr x s) i),
      (Z.testbit (Z.shiftr y s) i). }
  assert (0 <= z) as Hz0 by (apply Z.lxor_nonneg; lia).
  rewrite Z.shiftr_div_pow2 in Hz by lia.
  assert (2 ^ 1 <= 2 ^ s) by (apply Z.pow_le_mono_r; lia).
  assert (z = 0) as Hzero.
  { destruct (Z.eq_dec z 0); [done|]. assert (z / 2 ^ s < z); [|lia].
    apply Z.div_lt_upper_bound; nia. }
  by apply Z.lxor_eq.
Qed.

#[export] Hint Resolve u32_range rotl32_word xorshift_word : cint.

Lemma mix_k1_word k : word (mix_k1 k).
Proof. apply u32_range. Qed.

Lemma mix_k1_inj x y : word x → word y → mix_k1 x = mix_k1 y → x = y.
Proof.
  intros Hx Hy H. unfold mix_k1 in H.
  apply (mul32_inj c2 0x56ed309b) in H; [|reflexivity|apply rotl32_word; [apply u32_range|lia]..].
  apply rotl32_inj in H; [|apply u32_range..|lia].
  by apply (mul32_inj c1 0xdee13bb1) in H.
Qed.

Lemma mix_block_word h k : word (mix_block h k).
Proof. apply u32_range. Qed.

Lemma mix_block_inj h h' k k' :
  word h → word h' → mix_block h k = mix_block h' k' → Z.lxor h (mix_k1 k) = Z.lxor h' (mix_k1 k').
Proof.
  intros Hh Hh' H. unfold mix_block in H.
  apply add32_inj in H; [|apply u32_range..].
  assert (∀ a b, word a → word (Z.lxor a (mix_k1 b))) as Hw.
  { intros. apply lxor_range; [lia|done|apply mix_k1_word]. }
  apply (mul32_inj 5 0xcccccccd) in H; [|reflexivity|apply rotl32_word; [auto|lia]..].
  apply rotl32_inj in H; auto. lia.
Qed.

Lemma murmur_body_word n data h : word h → word (murmur_body n data h).
Proof. revert data h. induction n; intros data h Hh; simpl; [done|]. apply IHn, mix_block_word. Qed.

Lemma murmur_body_seed_inj n data h h' :
  word h → word h' → murmur_body n data h = murmur_body n data h' → h = h'.
Proof.
  revert data h h'. induction n as [|n IH]; intros data h h' Hh Hh'; simpl; [done|].
  intros H%IH; [|apply mix_block_word..]. apply mix_block_inj in H; [|done..].
  by apply lxor_inj_r in H.
Qed.

Lemma murmur_tail_word tail rem h : word h → word (murmur_tail tail rem h).
Proof.
  intros Hh. unfold murmur_tail. destruct (rem =? 0); [done|].
  apply lxor_range; [lia|done|apply mix_k1_word].
Qed.

Lemma murmur_tail_seed_inj tail rem h h' :
  murmur_tail tail rem h = murmur_tail tail rem h' → h = h'.
Proof. unfold murmur_tail. destruct (rem =? 0); [done|]. apply lxor_inj_r. Qed.

Lemma fmix_word h : word h → word (fmix h).
Proof. intros Hh. unfold fmix. apply xorshift_word; [apply u32_range|lia]. Qed.

Lemma fmix_inj x y : word x → word y → fmix x = fmix y → x = y.
Proof.
  intros Hx Hy H. unfold fmix in H.
  apply xorshift_inj in H; [|apply u32_range..|lia].
  apply (mul32_inj 0xc2b2ae35 0x7ed1b41d) in H;
    [|reflexivity|apply xorshift_word; [apply u32_range|lia]..].
  apply xorshift_inj in H; [|apply u32_range..|lia].
  apply (mul32_inj 0x85ebca6b 0xa5cb9243) in H; [|reflexivity|apply xorshift_word; [done|lia]..].
  by apply xorshift_inj in H; [|lia..].
Qed.

Lemma murmur_pre_word key h :
  word h →
  word (Z.lxor (murmur_tail (drop (length key / 4 * 4) key) (Z.land (Z.of_nat (length key)) 3)
                  (murmur_body (length key / 4) key h)) (u32 (Z.of_nat (length key)))).
Proof.
  intros Hh. apply lxor_range; [lia| |apply u32_range].
  by apply murmur_tail_word, murmur_body_word.
Qed.

Lemma murmur_word key h : word h → word (murmur3_32 key h).
Proof. intros Hh. by apply fmix_word, murmur_pre_word. Qed.

Lemma murmur_seed_inj key h h' :
  word h → word h' → murmur3_32 key h = murmur3_32 key h' → h = h'.
Proof.
  intros Hh Hh' H. apply fmix_inj in H; [|by apply murmur_pre_word..].
  apply lxor_inj_r, murmur_tail_seed_inj in H. by apply murmur_body_seed_inj in H.
Qed.

(** A four-byte key is one body block. *)
Lemma murmur_word_key_inj k k' h :
  length k = 4%nat → length k' = 4%nat → bytes_ok k → bytes_ok k' → word h →
  murmur3_32 k h = murmur3_32 k' h → k = k'.
Proof.
  intros Lk Lk' Bk Bk' Hh H. apply fmix_inj in H; [|by apply murmur_pre_word..].
  rewrite Lk, Lk' in H. apply lxor_inj_r in H.
  change (murmur_body (4 / 4) ?x h) with (mix_block h (le32 (take 4 x))) in H.
  unfold murmur_tail in H. change (Z.land (Z.of_nat 4) 3 =? 0) with true in H. cbv iota in H.
  rewrite !take_ge in H by lia. apply mix_block_inj in H; [|done..].
  assert (∀ l, length l = 4%nat → bytes_ok l → word (le32 l)) as Hw.
  { intros l Ll Bl. rewrite <- (reverse_involutive l).
    destruct l as [|b0 [|b1 [|b2 [|b3 [|]]]]]; try done.
    apply (be32_range [b3; b2; b1; b0]); [done|].
    unfold bytes_ok in *. rewrite !Forall_cons in *. naive_solver. }
  apply lxor_inj_l, mix_k1_inj in H; [|auto..].
  apply be32_inj; try done. rewrite <- !bswap32_le32 by done. by rewrite H.
Qed.

(** Keys of one and two bytes go through the tail only. *)
Lemma murmur_byte_key_inj b b' h :
  byte_ok b → byte_ok b' → word h → murmur3_32 [b] h = murmur3_32 [b'] h → b = b'.
Proof.
  unfold byte_ok. intros Hb Hb' Hh H. apply fmix_inj in H; [|by apply murmur_pre_word..].
  apply lxor_inj_r in H.
  change (Z.lxor h (mix_k1 (Z.lxor 0 b)) = Z.lxor h (mix_k1 (Z.lxor 0 b'))) in H.
  rewrite !Z.lxor_0_l in H. by apply lxor_inj_l, mix_k1_inj in H; [|lia..].
Qed.

Lemma tail16_value p : 0 <= p < 2 ^ 16 →
  Z.lxor (Z.lxor 0 (Z.shiftl (p / 256 mod 256) 8)) (p mod 256) = p.
Proof.
  intros Hp. rewrite Z.lxor_0_l.
  assert (p / 256 mod 256 = p / 256) as -> by (Z.div_mod_to_equations; lia).
  transitivity (Z.lor (Z.shiftl (p / 256) 8) (p mod 256)).
  - apply Z.lxor_lor. apply Z.bits_inj_0. intros i. rewrite Z.land_spec.
    destruct (Z.lt_ge_cases i 8); [by rewrite Z.shiftl_spec_low by lia|].
    rewrite (testbit_high (p mod 256) 8) by (try apply Z.mod_pos_bound; lia).
    apply andb_false_r.
  - rewrite lor_shiftl_add by (try apply Z.mod_pos_bound; lia). Z.div_mod_to_equations; lia.
Qed.

Lemma murmur_port_key_inj p q h :
  0 <= p < 2 ^ 16 → 0 <= q < 2 ^ 16 → word h →
  murmur3_32 (bytes_le16 p) h = murmur3_32 (bytes_le16 q) h → p = q.
Proof.
  intros Hp Hq Hh H. apply fmix_inj in H; [|by apply murmur_pre_word..].
  apply lxor_inj_r in H. unfold murmur_tail in H.
  change (Z.lxor h (mix_k1 (Z.lxor (Z.lxor 0 (Z.shiftl (p / 256 mod 256) 8)) (p mod 256)))
    = Z.lxor h (mix_k1 (Z.lxor (Z.lxor 0 (Z.shiftl (q / 256 mod 256) 8)) (q mod 256)))) in H.
  rewrite !tail16_value in H by done.
  by apply lxor_inj_l, mix_k1_inj in H; [|lia..].
Qed.

(** The two address stages share one shape. *)
Definition hash_ip (ip : ip_addr) (h : Z) : Z :=
  if family ip =? AF_INET then murmur3_32 (v4_bytes ip) h else murmur3_32 (v6_bytes ip) h.

Lemma hash_ip_key a b h : ip_key a = ip_key b → hash_ip a h = hash_ip b h.
Proof.
  unfold ip_key, ip_bytes, hash_ip. intros [= Hf Hb]. rewrite Hf in *.
  destruct (family b =? AF_INET); by rewrite Hb.
Qed.

Lemma hash_ip_word ip h : word h → word (hash_ip ip h).
Proof. intros Hh. unfold hash_ip. destruct (family ip =? AF_INET); by apply murmur_word. Qed.

Lemma hash_ip_seed_inj ip h h' : word h → word h' → hash_ip ip h = hash_ip ip h' → h = h'.
Proof. unfold hash_ip. destruct (family ip =? AF_INET); apply murmur_seed_inj. Qed.

Lemma hash_ip_v4_inj a b h :
  ip_ok a → ip_ok b → family a = AF_INET → family b = AF_INET → word h →
  hash_ip a h = hash_ip b h → ip_key a = ip_key b.
Proof.
  intros Ha Hb Fa Fb Hh. unfold hash_ip, ip_key, ip_bytes. rewrite Fa, Fb, Z.eqb_refl.
  destruct (v4_bytes_ok a Ha), (v4_bytes_ok b Hb). intros Hk%murmur_word_key_inj; try done.
  by rewrite Hk.
Qed.

Lemma conn_tuple_hash_unfold t :
  conn_tuple_hash t =
  murmur3_32 [protocol t] (murmur3_32 (bytes_le16 (dst_port t)) (murmur3_32 (bytes_le16 (src_port t))
    (hash_ip (dst_ip t) (hash_ip (src_ip t) HASH_SEED)))).
Proof. done. Qed.

Lemma HASH_SEED_word : word HASH_SEED.
Proof. unfold HASH_SEED. lia. Qed.

#[export] Hint Resolve HASH_SEED_word murmur_word hash_ip_word : cint.

Lemma conn_tuple_hash_key a b : conn_key a = conn_key b → conn_tuple_hash a = conn_tuple_hash b.
Proof.
  intros H. rewrite !conn_tuple_hash_unfold. unfold conn_key in H.
  assert (ip_key (src_ip a) = ip_key (src_ip b) ∧ ip_key (dst_ip a) = ip_key (dst_ip b)) as [Hs Hd].
  { unfold ip_key in *. injection H. intros. split; congruence. }
  rewrite (hash_ip_key _ _ _ Hs), (hash_ip_key _ _ _ Hd).
  injection H. by intros _ _ _ _ -> -> ->.
Qed.

Definition tuple_ok (t : conn_tuple) : Prop :=
  ip_ok (src_ip t) ∧ ip_ok (dst_ip t) ∧ 0 <= src_port t < 2 ^ 16 ∧
  0 <= dst_port t < 2 ^ 16 ∧ 0 <= protocol t < 256.

(** [conn_tuple_compare] is a total order on connection keys read from its
    sign, and [conn_tuple_hash] is constant on its equivalence classes: tuples
    that compare equal are hashed alike, whatever the unused address bytes. *)
Theorem conn_tuple_order_hash :
  CmpOrder conn_tuple_compare conn_key ∧
  ∀ a b, conn_tuple_compare a b = 0 → conn_tuple_hash a = conn_tuple_hash b.
Proof.
  split; [apply conn_tuple_compare_order|]. intros a b H%cmp_zero.
  by apply conn_tuple_hash_key.
Qed.

(** The unused bytes of an IPv4 address do not matter. *)
Lemma conn_tuple_order_hash_witness :
  let dirty := IpAddr ([10; 0; 0; 1] ++ replicate 12 255) AF_INET in
  conn_tuple_hash (ConnTuple dirty dirty 1 2 PROTO_TCP)
  = conn_tuple_hash (ConnTuple (ip4 10 0 0 1) (ip4 10 0 0 1) 1 2 PROTO_TCP).
Proof. intros dirty. apply (proj2 conn_tuple_order_hash). reflexivity. Defined.

Lemma conn_tuple_hash_inj a b :
  tuple_ok a → tuple_ok b →
  family (src_ip a) = AF_INET → family (src_ip b) = AF_INET →
  family (dst_ip a) = AF_INET → family (dst_ip b) = AF_INET →
  conn_tuple_hash a = conn_tuple_hash b →
  let src := ip_key (src_ip a) = ip_key (src_ip b) in
  let dst := ip_key (dst_ip a) = ip_key (dst_ip b) in
  let sport := src_port a = src_port b in
  let dport := dst_port a = dst_port b in
  let proto := protocol a = protocol b in
  (dst → sport → dport → proto → src) ∧ (src → sport → dport → proto → dst) ∧
  (src → dst → dport → proto → sport) ∧ (src → dst → sport → proto → dport) ∧
  (src → dst → sport → dport → proto).
Proof.
  intros (Sa & Da & Spa & Dpa & Pa) (Sb & Db & Spb & Dpb & Pb) Fsa Fsb Fda Fdb H.
  rewrite !conn_tuple_hash_unfold in H. cbv zeta. split_and!.
  - intros Hd Hsp Hdp Hp. rewrite Hsp, Hdp, Hp, (hash_ip_key _ _ _ Hd) in H.
    do 3 apply murmur_seed_inj in H; eauto 8 with cint.
    apply hash_ip_seed_inj in H; eauto with cint.
    apply hash_ip_v4_inj in H; auto with cint.
  - intros Hs Hsp Hdp Hp. rewrite Hsp, Hdp, Hp, (hash_ip_key _ _ _ Hs) in H.
    do 3 apply murmur_seed_inj in H; eauto 8 with cint.
    apply hash_ip_v4_inj in H; auto with cint.
  - intros Hs Hd Hdp Hp. rewrite Hdp, Hp, (hash_ip_key _ _ _ Hs), (hash_ip_key _ _ _ Hd) in H.
    do 2 apply murmur_seed_inj in H; eauto 8 with cint.
    apply murmur_port_key_inj in H; auto with cint.
  - intros Hs Hd Hsp Hp. rewrite Hsp, Hp, (hash_ip_key _ _ _ Hs), (hash_ip_key _ _ _ Hd) in H.
    apply murmur_seed_inj in H; eauto 8 with cint.
    apply murmur_port_key_inj in H; eauto 8 with cint.
  - intros Hs Hd Hsp Hdp. rewrite Hsp, Hdp, (hash_ip_key _ _ _ Hs), (hash_ip_key _ _ _ Hd) in H.
    apply murmur_byte_key_inj in H; eauto 8 with cint.
Qed.

(** The five ways to differ in one component. *)
Definition differ_in_one (a b : conn_tuple) : Prop :=
  let src := ip_key (src_ip a) = ip_key (src_ip b) in
  let dst := ip_key (dst_ip a) = ip_key (dst_ip b) in
  let sport := src_port a = src_port b in
  let dport := dst_port a = dst_port b in
  let proto := protocol a = protocol b in
  (¬ src ∧ dst ∧ sport ∧ dport ∧ proto) ∨ (src ∧ ¬ dst ∧ sport ∧ dport ∧ proto) ∨
  (src ∧ dst ∧ ¬ sport ∧ dport ∧ proto) ∨ (src ∧ dst ∧ sport ∧ ¬ dport ∧ proto) ∨
  (src ∧ dst ∧ sport ∧ dport ∧ ¬ proto).

(** Two IPv4 connection tuples that differ in exactly one component (source
    or destination address, source or destination port, or protocol) have
    different 32-bit hashes; a flood that varies one field cannot collide. *)
Theorem conn_tuple_hash_separates a b :
  tuple_ok a → tuple_ok b →
  family (src_ip a) = AF_INET → family (src_ip b) = AF_INET →
  family (dst_ip a) = AF_INET → family (dst_ip b) = AF_INET →
  differ_in_one a b → conn_tuple_hash a ≠ conn_tuple_hash b.
Proof.
  intros Ha Hb Fsa Fsb Fda Fdb Hd Heq.
  pose proof (conn_tuple_hash_inj a b Ha Hb Fsa Fsb Fda Fdb Heq) as Hinj.
  unfold differ_in_one in Hd. cbv zeta in *. tauto.
Qed.

(** Two SYN packets of one flood that differ in their source address only. *)
Definition flood_tuple (a b c d : Z) : conn_tuple :=
  ConnTuple (ip4 a b c d) (ip4 10 0 0 1) 4242 80 PROTO_TCP.

Lemma conn_tuple_hash_separates_witness :
  conn_tuple_hash (flood_tuple 1 2 3 4) ≠ conn_tuple_hash (flood_tuple 9 9 9 9).
Proof.
  apply conn_tuple_hash_separates; try reflexivity.
  - unfold tuple_ok, flood_tuple, PROTO_TCP; simpl; split_and!; try lia; by apply ip_okb_ok.
  - unfold tuple_ok, flood_tuple, PROTO_TCP; simpl; split_and!; try lia; by apply ip_okb_ok.
  - left. split_and!; try reflexivity. intros [=].
Defined.
