(* ===== verification/SlidingWindow.v ===== *)
(** * Sliding windows

    The per-second ring buffer of [src/filter/ratelimit.c]. The ring is related
    to a list of per-second totals, newest first, and through it to the history
    of additions: the sum is the total of the additions of the last [size]
    seconds. *)

From S2P Require Import Prelude.

(** [window_start] is the time of the newest bucket. *)
Record sliding_window := SlidingWindow {
  sw_buckets : list Z;
  sw_size : Z;          (* uint32_t *)
  sw_current_idx : Z;   (* uint32_t *)
  sw_window_start : Z   (* time_t *)
}.

Definition sliding_window_create (calloc1 calloc2 : bool) (window_size now : Z)
    : option sliding_window :=
  if calloc1 then
    if calloc2 then
      Some (SlidingWindow (replicate (Z.to_nat window_size) 0) window_size 0 now)
    else None
  else None.

(** [sw->buckets[idx] = f(sw->buckets[idx])]. *)
Definition bucket_write (bs : list Z) (idx : Z) (f : Z → Z) : res (list Z) :=
  match bs !! Z.to_nat idx with
  | Some b => if 0 <=? idx then Ok (<[Z.to_nat idx := f b]> bs) else Undef OutOfBounds
  | None => Undef OutOfBounds
  end.

(** The loop that clears the buckets of the seconds skipped. *)
Fixpoint advance (n : nat) (size idx : Z) (bs : list Z) : res (Z * list Z) :=
  match n with
  | O => Ok (idx, bs)
  | S n' =>
      if size =? 0 then Undef DivByZero
      else
        let idx := (idx +₃₂ 1) mod size in
        let* bs := bucket_write bs idx (λ _, 0) in
        advance n' size idx bs
  end.

Definition sliding_window_add (sw : sliding_window) (value now : Z) : res sliding_window :=
  let diff := now - sw_window_start sw in
  if sw_size sw <=? diff then
    let bs := (λ _, 0) <$> sw_buckets sw in
    let* bs := bucket_write bs 0 (λ _, value) in
    Ok (SlidingWindow bs (sw_size sw) 0 now)
  else if 0 <? diff then
    let* (idx, bs) := advance (Z.to_nat diff) (sw_size sw) (sw_current_idx sw) (sw_buckets sw) in
    let* bs := bucket_write bs idx (λ b, b +₆₄ value) in
    Ok (SlidingWindow bs (sw_size sw) idx now)
  else
    let* bs := bucket_write (sw_buckets sw) (sw_current_idx sw) (λ b, b +₆₄ value) in
    Ok (SlidingWindow bs (sw_size sw) (sw_current_idx sw) (sw_window_start sw)).

Fixpoint sum_loop (bs : list Z) (n : nat) (i : nat) (acc : Z) : res Z :=
  match n with
  | O => Ok acc
  | S n' =>
      match bs !! i with
      | Some b => sum_loop bs n' (S i) (acc +₆₄ b)
      | None => Undef OutOfBounds
      end
  end.

Definition sliding_window_sum (sw : sliding_window) (now : Z) : res Z :=
  let diff := now - sw_window_start sw in
  if sw_size sw <=? diff then Ok 0
  else sum_loop (sw_buckets sw) (Z.to_nat (sw_size sw)) 0 0.

(** A client's additions, in the order of the calls. *)
Fixpoint add_all (sw : sliding_window) (es : list (Z * Z)) : res sliding_window :=
  match es with
  | [] => Ok sw
  | (now, value) :: es' => let* sw := sliding_window_add sw value now in add_all sw es'
  end.

(** ** The ring as a list, newest bucket first *)

Definition view (idx : Z) (bs : list Z) : list Z :=
  reverse (take (Z.to_nat idx + 1) bs) ++ reverse (drop (Z.to_nat idx + 1) bs).

Record sw_ok (sw : sliding_window) : Prop := {
  ok_size : 0 < sw_size sw < 2 ^ 32;
  ok_length : Z.of_nat (length (sw_buckets sw)) = sw_size sw;
  ok_idx : 0 <= sw_current_idx sw < sw_size sw
}.

Lemma view_perm idx bs : view idx bs ≡ₚ bs.
Proof. unfold view. rewrite !reverse_Permutation. by rewrite take_drop. Qed.

Lemma bucket_write_Ok bs idx f :
  0 <= idx < Z.of_nat (length bs) →
  ∃ b, bs !! Z.to_nat idx = Some b ∧ bucket_write bs idx f = Ok (<[Z.to_nat idx := f b]> bs).
Proof.
  intros Hi. destruct (lookup_lt_is_Some_2 bs (Z.to_nat idx)) as [b Hb]; [lia|].
  exists b. unfold bucket_write. rewrite Hb, (proj2 (Z.leb_le 0 idx)) by lia. done.
Qed.

(** Writing at the current index changes the head of the view. *)
Lemma view_write idx bs b v :
  bs !! idx = Some b →
  ∃ rest, view (Z.of_nat idx) bs = b :: rest ∧ view (Z.of_nat idx) (<[idx := v]> bs) = v :: rest.
Proof.
  intros Hb. pose proof (lookup_lt_Some _ _ _ Hb) as Hlt.
  exists (reverse (take idx bs) ++ reverse (drop (S idx) bs)).
  unfold view. rewrite Nat2Z.id, Nat.add_1_r.
  rewrite (take_S_r _ _ _ Hb), (take_S_r (<[idx:=v]> bs) idx v) by by apply list_lookup_insert_eq.
  rewrite !reverse_snoc, take_insert_ge, drop_insert_lt by lia. done.
Qed.

Lemma last_drop_view p x q :
  view (Z.of_nat (length p)) (p ++ x :: q) = x :: reverse p ++ reverse q.
Proof.
  unfold view. rewrite Nat2Z.id, (cons_middle x), app_assoc.
  rewrite take_app_length', drop_app_length' by (rewrite length_app; simpl; lia).
  by rewrite reverse_snoc.
Qed.

(** Moving the index on and clearing drops the oldest bucket. *)
Lemma view_advance size idx bs :
  0 < size < 2 ^ 32 → Z.of_nat (length bs) = size → 0 <= idx < size →
  ∃ bs', bucket_write bs ((idx +₃₂ 1) mod size) (λ _, 0) = Ok bs' ∧ length bs' = length bs ∧
    view ((idx +₃₂ 1) mod size) bs' = 0 :: take (length bs - 1) (view idx bs).
Proof.
  intros Hs Hl Hi. set (i' := (idx +₃₂ 1) mod size).
  assert (i' = if decide (idx + 1 = size) then 0 else idx + 1) as Hi'.
  { unfold i'. rewrite u32_small by lia. case_decide as Hc.
    - rewrite Hc. apply Z_mod_same_full.
    - apply Z.mod_small. lia. }
  assert (0 <= i' < size) as Hr by (apply Z.mod_pos_bound; lia).
  destruct (bucket_write_Ok bs i' (λ _, 0)) as (x & Hx & ->); [lia|].
  eexists. split; [done|]. split; [apply length_insert|].
  pose proof (take_drop_middle bs _ _ Hx) as Hsplit.
  set (p := take (Z.to_nat i') bs) in *. set (q := drop (S (Z.to_nat i')) bs) in *.
  assert (length p = Z.to_nat i') as Lp by (apply length_take_le; lia).
  clearbody p q. subst bs. rewrite length_app in Hl. simpl in Hl.
  rewrite insert_app_r_alt, Lp, Nat.sub_diag by lia. cbn [insert list_insert].
  replace i' with (Z.of_nat (length p)) at 1 by lia. rewrite last_drop_view. f_equal.
  unfold view. case_decide as Hc.
  - assert (p = []) as -> by (apply length_zero_iff_nil; lia). simpl in *.
    rewrite (take_ge (x :: q)), (drop_ge (x :: q)) by (simpl; lia).
    rewrite reverse_nil, app_nil_r, reverse_cons.
    rewrite take_app_length' by (rewrite length_reverse; simpl; lia). done.
  - replace (Z.to_nat idx + 1)%nat with (length p) by lia.
    rewrite take_app_length, drop_app_length, reverse_cons, app_assoc.
    rewrite take_app_length'; [done|]. rewrite !length_app, !length_reverse. simpl. lia.
Qed.

Lemma advance_view n size idx bs :
  0 < size < 2 ^ 32 → Z.of_nat (length bs) = size → 0 <= idx < size → (n <= length bs)%nat →
  ∃ idx' bs', advance n size idx bs = Ok (idx', bs') ∧ length bs' = length bs ∧
    0 <= idx' < size ∧
    view idx' bs' = replicate n 0 ++ take (length bs - n) (view idx bs).
Proof.
  intros Hs. revert idx bs. induction n as [|n IH]; intros idx bs Hl Hi Hn; simpl.
  { exists idx, bs. split_and!; try done; try lia. rewrite Nat.sub_0_r, take_ge; [done|].
    rewrite (Permutation_length (view_perm idx bs)). lia. }
  rewrite (proj2 (Z.eqb_neq size 0)) by lia.
  destruct (view_advance size idx bs) as (bs1 & -> & L1 & V1); [done..|]. cbn [rbind].
  destruct (IH ((idx +₃₂ 1) mod size) bs1) as (idx' & bs' & -> & L' & Hi' & V');
    [lia|by apply Z.mod_pos_bound; lia|lia|].
  exists idx', bs'. split_and!; [done|lia|lia|lia|]. rewrite V', V1, L1.
  replace (length bs - n)%nat with (S (length bs - S n)) by lia. simpl.
  rewrite firstn_firstn, Nat.min_l by lia.
  by rewrite app_comm_cons, replicate_cons_app, <- app_assoc.
Qed.

(** ** The history of additions *)

(** What was added in second [t]. *)
Definition sum_at (es : list (Z * Z)) (t : Z) : Z := sumZ ((filter (λ e, e.1 = t) es).*2).

(** What was added after second [t]. *)
Definition sum_after (es : list (Z * Z)) (t : Z) : Z := sumZ ((filter (λ e, t < e.1) es).*2).

(** The clock readings of the calls never decrease. *)
Fixpoint nondecreasing (t0 : Z) (es : list (Z * Z)) : Prop :=
  match es with [] => True | (t, _) :: es' => t0 <= t ∧ nondecreasing t es' end.

Definition last_time (t0 : Z) (es : list (Z * Z)) : Z := default t0 (last es.*1).

(** Bucket [k] of the view is the total of second [window_start - k]. *)
Definition totals (es : list (Z * Z)) (T : Z) (n : nat) : list Z :=
  (λ k, u64 (sum_at es (T - Z.of_nat k))) <$> seq 0 n.

Record sw_rep (sw : sliding_window) (es : list (Z * Z)) : Prop := {
  rep_ok : sw_ok sw;
  rep_past : Forall (λ e, e.1 <= sw_window_start sw) es;
  rep_view : view (sw_current_idx sw) (sw_buckets sw)
             = totals es (sw_window_start sw) (length (sw_buckets sw))
}.

Lemma sum_at_app es1 es2 t : sum_at (es1 ++ es2) t = sum_at es1 t + sum_at es2 t.
Proof. unfold sum_at. by rewrite filter_app, fmap_app, sumZ_app. Qed.

Lemma sum_at_none es t : Forall (λ e : Z * Z, e.1 < t) es → sum_at es t = 0.
Proof.
  unfold sum_at. induction 1 as [|[t' v] es Hlt _ IH]; [done|]. rewrite filter_cons.
  simpl in *. case_decide; [lia|done].
Qed.

Lemma sum_at_single t v t' : sum_at [(t, v)] t' = if decide (t = t') then v else 0.
Proof. unfold sum_at. rewrite filter_cons. simpl. case_decide; simpl; lia. Qed.

Lemma length_totals es T n : length (totals es T n) = n.
Proof. unfold totals. by rewrite length_fmap, length_seq. Qed.

Lemma totals_lookup es T n k :
  (k < n)%nat → totals es T n !! k = Some (u64 (sum_at es (T - Z.of_nat k))).
Proof.
  intros Hk. unfold totals. rewrite list_lookup_fmap, lookup_seq_lt by done. done.
Qed.

Lemma totals_alt es T n :
  totals es T n = u64 <$> ((λ k, sum_at es (T - Z.of_nat k)) <$> seq 0 n).
Proof. unfold totals. by rewrite <- list_fmap_compose. Qed.

(** Later seconds have empty buckets. *)
Lemma totals_shift es T d n :
  Forall (λ e, e.1 <= T) es → (d <= n)%nat →
  totals es (T + Z.of_nat d) n = replicate d 0 ++ take (n - d) (totals es T n).
Proof.
  intros Hp Hd. apply list_eq. intros k. destruct (decide (k < n)%nat) as [Hk|Hk].
  - rewrite totals_lookup by done. destruct (decide (k < d)%nat) as [Hkd|Hkd].
    + rewrite lookup_app_l, lookup_replicate_2 by (rewrite ?length_replicate; done).
      rewrite sum_at_none; [done|]. eapply Forall_impl; [done|]. simpl. intros. lia.
    + rewrite lookup_app_r by (rewrite length_replicate; lia).
      rewrite length_replicate, lookup_take_lt, totals_lookup by lia. do 3 f_equal. lia.
  - rewrite !lookup_ge_None_2; [done| |rewrite length_totals; lia].
    rewrite length_app, length_replicate, length_take, length_totals. lia.
Qed.

(** Adding to the newest second. *)
Lemma totals_add es T n v b rest :
  totals es T (S n) = b :: rest →
  totals (es ++ [(T, v)]) T (S n) = (b +₆₄ v) :: rest.
Proof.
  unfold totals. rewrite <- cons_seq, !fmap_cons. intros [= <- <-]. f_equal.
  - rewrite sum_at_app, sum_at_single. rewrite decide_True by lia.
    unfold u64. by rewrite Zplus_mod_idemp_l.
  - apply list_fmap_ext. intros i x [Hx _]%lookup_seq. subst x.
    rewrite sum_at_app, sum_at_single, decide_False by lia. f_equal. lia.
Qed.

(** The write that ends every branch of an addition. *)
Lemma rep_write idx bs T es v size :
  Forall (λ e, e.1 <= T) es → 0 < size < 2 ^ 32 →
  Z.of_nat (length bs) = size → 0 <= idx < size → view idx bs = totals es T (length bs) →
  ∃ bs', bucket_write bs idx (λ b, b +₆₄ v) = Ok bs' ∧
    sw_rep (SlidingWindow bs' size idx T) (es ++ [(T, v)]).
Proof.
  intros Hp Hs Hl Hi Hv. destruct (bucket_write_Ok bs idx (λ b, b +₆₄ v)) as (b & Hb & ->); [lia|].
  eexists. split; [done|]. destruct (view_write _ _ _ (b +₆₄ v) Hb) as (rest & V1 & V2).
  rewrite Z2Nat.id in V1, V2 by lia. split; simpl.
  - split; simpl; [done|by rewrite length_insert|done].
  - apply Forall_app. split; [done|]. by constructor.
  - rewrite length_insert, V2. rewrite Hv in V1. destruct (length bs) as [|n]; [lia|].
    symmetry. by apply totals_add.
Qed.

Lemma sum_at_zero_totals T n : totals [] T n = replicate n 0.
Proof.
  unfold totals. apply list_eq. intros k.
  rewrite list_lookup_fmap. destruct (decide (k < n)%nat).
  - by rewrite lookup_seq_lt, lookup_replicate_2 by done.
  - rewrite lookup_seq_ge by lia. symmetry. apply lookup_replicate_None. lia.
Qed.

(** One addition. The window that has moved past every bucket is refilled with
    the value alone, which is what the history says. *)
Lemma sliding_window_add_rep sw es v now :
  sw_rep sw es → 0 <= v < 2 ^ 64 → sw_window_start sw <= now →
  ∃ sw', sliding_window_add sw v now = Ok sw' ∧ sw_rep sw' (es ++ [(now, v)]) ∧
    sw_size sw' = sw_size sw ∧ sw_window_start sw' = now.
Proof.
  intros [[Hs Hl Hi] Hp Hv] Hval Hnow. destruct sw as [bs size idx T]. simpl in *.
  unfold sliding_window_add. simpl. destruct (Z.leb_spec size (now - T)) as [Hd|Hd].
  - set (bs0 := (λ _, 0) <$> bs).
    assert (length bs0 = length bs) as L0 by apply length_fmap.
    destruct (bucket_write_Ok bs0 0 (λ _, v)) as (b & Hb & ->); [lia|]. simpl.
    eexists. split; [done|]. split; [|done].
    assert (totals es now (length bs) = replicate (length bs) 0) as Hz.
    { rewrite <- (sum_at_zero_totals now). unfold totals. apply list_fmap_ext.
      intros i x [Hx Hlt]%lookup_seq. f_equal. rewrite sum_at_none; [done|].
      eapply Forall_impl; [exact Hp|]. simpl. intros. lia. }
    assert (b = 0) as ->. { by apply list_lookup_fmap_Some in Hb as (? & -> & _). }
    split; simpl.
    + split; simpl; [done|by rewrite length_insert, L0|lia].
    + apply Forall_app. split; [|by constructor].
      eapply Forall_impl; [exact Hp|]. simpl. intros. lia.
    + change (Z.to_nat 0) with 0%nat in *.
      rewrite length_insert, L0. destruct (view_write _ _ _ v Hb) as (rest & V1 & V2).
      change (Z.of_nat 0) with 0 in V1, V2. rewrite V2. destruct (length bs) as [|n] eqn:Ln; [lia|].
      simpl in Hz. rewrite (totals_add es now n v 0 (replicate n 0)) by done.
      rewrite Z.add_0_l, u64_small by done. f_equal.
      assert (view 0 bs0 ≡ₚ replicate (S n) 0) as Hperm.
      { rewrite view_perm. unfold bs0. rewrite (const_fmap (λ _ : Z, 0) _ 0) by done. by rewrite Ln. }
      rewrite V1 in Hperm. apply (Permutation_cons_inv (a := 0)) in Hperm.
      symmetry in Hperm. apply replicate_Permutation in Hperm. by rewrite Hperm.
  - destruct (Z.ltb_spec 0 (now - T)) as [Hd0|Hd0].
    + destruct (advance_view (Z.to_nat (now - T)) size idx bs) as (idx' & bs' & -> & L' & Hi' & V');
        [done|done|done|lia|]. simpl.
      destruct (rep_write idx' bs' now es v size) as (bs2 & -> & Hrep); try done; try lia.
      * eapply Forall_impl; [exact Hp|]. simpl. intros. lia.
      * rewrite V', Hv, L', <- totals_shift by (done || lia). f_equal. lia.
      * simpl. by eexists.
    + assert (now = T) as -> by lia.
      destruct (rep_write idx bs T es v size) as (bs2 & -> & Hrep); try done.
      simpl. by eexists.
Qed.

Lemma add_all_rep sw es0 es :
  sw_rep sw es0 → nondecreasing (sw_window_start sw) es → Forall (λ e, 0 <= e.2 < 2 ^ 64) es →
  ∃ sw', add_all sw es = Ok sw' ∧ sw_rep sw' (es0 ++ es) ∧ sw_size sw' = sw_size sw ∧
    sw_window_start sw' = last_time (sw_window_start sw) es.
Proof.
  revert sw es0. induction es as [|[t v] es IH]; intros sw es0 Hrep Hn Hv; simpl.
  { exists sw. by rewrite app_nil_r. }
  destruct Hn as [Ht Hn]. apply Forall_cons in Hv as [Hv Hvs]. simpl in Hv.
  destruct (sliding_window_add_rep sw es0 v t) as (sw1 & -> & Hrep1 & S1 & T1); [done..|]. simpl.
  destruct (IH sw1 (es0 ++ [(t, v)])) as (sw' & -> & Hrep' & S' & T'); [done|by rewrite T1|done|].
  rewrite <- app_assoc in Hrep'. exists sw'. split_and!; [done|done|by rewrite S'|].
  rewrite T', T1. unfold last_time. rewrite fmap_cons, last_cons. by destruct (last es.*1).
Qed.

Lemma sum_loop_spec bs i acc :
  (i <= length bs)%nat → 0 <= acc < 2 ^ 64 →
  sum_loop bs (length bs - i) i acc = Ok (u64 (acc + sumZ (drop i bs))).
Proof.
  intros Hi Hacc. remember (length bs - i)%nat as n eqn:Hn. revert i acc Hi Hacc Hn.
  induction n as [|n IH]; intros i acc Hi Hacc Hn; simpl.
  { rewrite drop_ge by lia. simpl. rewrite Z.add_0_r, u64_small by done. done. }
  destruct (lookup_lt_is_Some_2 bs i) as [b Hb]; [lia|]. rewrite Hb.
  rewrite IH by (try apply u64_range; lia). rewrite (drop_S _ _ _ Hb). simpl.
  unfold u64. rewrite Zplus_mod_idemp_l. do 2 f_equal. lia.
Qed.

Lemma u64_add_r a b : u64 (a + b) = u64 (a + u64 b).
Proof. unfold u64. by rewrite Zplus_mod_idemp_r. Qed.

Lemma sumZ_u64 (l : list Z) : u64 (sumZ (u64 <$> l)) = u64 (sumZ l).
Proof.
  induction l as [|x l IH]; [done|]. rewrite fmap_cons. cbn [sumZ foldr].
  change (foldr Z.add 0) with sumZ. rewrite (u64_add_r (u64 x)), IH, <- u64_add_r.
  unfold u64. apply Zplus_mod_idemp_l.
Qed.

(** The last [n] seconds together. *)
Lemma sum_totals es T n :
  Forall (λ e, e.1 <= T) es →
  sumZ ((λ k, sum_at es (T - Z.of_nat k)) <$> seq 0 n) = sum_after es (T - Z.of_nat n).
Proof.
  intros Hp. induction n as [|n IH].
  - simpl. unfold sum_after. rewrite Z.sub_0_r. induction Hp as [|e es He _ IHe]; [done|].
    rewrite filter_cons. case_decide; [lia|done].
  - rewrite seq_S, fmap_app, sumZ_app, IH. simpl. clear IH. unfold sum_after, sum_at.
    induction es as [|[t v] es IHe]; [done|]. apply Forall_cons in Hp as [_ Hp].
    specialize (IHe Hp). rewrite !filter_cons. simpl in *.
    repeat case_decide; cbn [fmap list_fmap sumZ foldr snd]; change (foldr Z.add 0) with sumZ in *; lia.
Qed.

(** What the sum reads, in terms of the history. *)
Lemma sliding_window_sum_rep sw es now :
  sw_rep sw es →
  sliding_window_sum sw now
  = Ok (if sw_size sw <=? now - sw_window_start sw then 0
        else u64 (sum_after es (sw_window_start sw - sw_size sw))).
Proof.
  intros [[Hs Hl Hi] Hp Hview]. unfold sliding_window_sum. destruct (sw_size sw <=? _); [done|].
  pose proof (sum_loop_spec (sw_buckets sw) 0 0 ltac:(lia) ltac:(lia)) as Hsum.
  rewrite Nat.sub_0_r, drop_0, Z.add_0_l in Hsum.
  replace (Z.to_nat (sw_size sw)) with (length (sw_buckets sw)) by lia. rewrite Hsum. f_equal.
  rewrite <- (sumZ_Permutation _ _ (view_perm (sw_current_idx sw) (sw_buckets sw))), Hview.
  rewrite totals_alt, sumZ_u64, sum_totals by done. do 2 f_equal. lia.
Qed.

(** A new window has an empty history. *)
Lemma sliding_window_create_rep size t0 sw :
  0 < size < 2 ^ 32 → sliding_window_create true true size t0 = Some sw →
  sw_rep sw [] ∧ sw_size sw = size ∧ sw_window_start sw = t0.
Proof.
  intros Hs Hc. unfold sliding_window_create in Hc. apply (inj Some) in Hc. subst sw.
  split; [|done]. split; simpl.
  - split; simpl; [done|rewrite length_replicate; lia|lia].
  - constructor.
  - rewrite length_replicate, sum_at_zero_totals. symmetry. apply replicate_Permutation.
    by rewrite view_perm.
Qed.

(** C11: Additions at non-decreasing times never write out of bounds, and the sum
    read at time [now] is the total (modulo 2^64) of the additions of the [size]
    seconds that end at the last addition, or 0 when [size] seconds have passed
    since it; read at the time of the last addition it is exactly the traffic of
    the last [size] seconds. *)
Theorem sliding_window_sum_exact size t0 es now sw0 :
  0 < size < 2 ^ 32 → sliding_window_create true true size t0 = Some sw0 →
  nondecreasing t0 es → Forall (λ e, 0 <= e.2 < 2 ^ 64) es →
  ∃ sw, add_all sw0 es = Ok sw ∧
    let T := last_time t0 es in
    sliding_window_sum sw now
    = Ok (if size <=? now - T then 0 else u64 (sum_after es (T - size))).
Proof.
  intros Hs Hc Hn Hv. destruct (sliding_window_create_rep _ _ _ Hs Hc) as (Hrep & <- & <-).
  destruct (add_all_rep sw0 [] es) as (sw & Hadd & Hrep' & S' & T'); [done..|].
  exists sw. split; [done|]. cbv zeta. by rewrite (sliding_window_sum_rep _ _ _ Hrep'), S', T'.
Qed.

Lemma sliding_window_sum_exact_witness :
  ∃ sw0 sw, sliding_window_create true true 3 10 = Some sw0 ∧
    add_all sw0 [(10, 5); (11, 7); (13, 1)] = Ok sw ∧
    sliding_window_sum sw 13 = Ok 8.
Proof.
  eexists. destruct (sliding_window_sum_exact 3 10 [(10, 5); (11, 7); (13, 1)] 13 _
    ltac:(lia) eq_refl) as (sw & Hadd & Hsum).
  - simpl. lia.
  - repeat constructor; simpl; lia.
  - exists sw. split; [reflexivity|]. split; [exact Hadd|]. rewrite Hsum. vm_compute. reflexivity.
Defined.

(** A window of size 0 is created but cannot be used: the first addition writes
    past its empty array. *)
Lemma sliding_window_zero_size_undefined t0 v now sw :
  sliding_window_create true true 0 t0 = Some sw → t0 <= now →
  sliding_window_add sw v now = Undef OutOfBounds.
Proof.
  intros Hc Hn. apply (inj Some) in Hc as <-. unfold sliding_window_add. simpl.
  by rewrite (proj2 (Z.leb_le 0 (now - t0))) by lia.
Qed.
