(* ===== verification/ConnHeap.v ===== *)
(** * The heap of connection entries

    [conn_entry_t] of [include/common.h]: entries live in a heap and are linked
    twice, by [next] in the chains of [src/storage/hashtable.c] and by
    [lru_prev]/[lru_next] in the list of [src/storage/lru_cache.c]. Reading or
    writing through a pointer to a freed entry, and freeing it again, are
    undefined. *)

From S2P Require Import Prelude Common Hash.

Notation loc := positive.

Inductive tcp_state : Set :=
  | TCP_STATE_SYN_SENT | TCP_STATE_SYN_RECEIVED | TCP_STATE_ESTABLISHED
  | TCP_STATE_FIN_WAIT | TCP_STATE_CLOSE_WAIT | TCP_STATE_CLOSED.

#[global] Instance tcp_state_eq_dec : EqDecision tcp_state.
Proof. solve_decision. Defined.

Record conn_entry := ConnEntry {
  ce_tuple : conn_tuple;
  ce_state : tcp_state;
  ce_first_seen : Z;
  ce_last_seen : Z;
  ce_packets : Z;
  ce_bytes : Z;
  ce_flags : Z;
  ce_next : option loc;
  ce_lru_prev : option loc;
  ce_lru_next : option loc
}.

#[global] Instance conn_entry_eq_dec : EqDecision conn_entry.
Proof. solve_decision. Defined.

Notation heap := (gmap loc conn_entry).

Definition set_next (p : option loc) (e : conn_entry) : conn_entry :=
  ConnEntry (ce_tuple e) (ce_state e) (ce_first_seen e) (ce_last_seen e) (ce_packets e)
    (ce_bytes e) (ce_flags e) p (ce_lru_prev e) (ce_lru_next e).
Definition set_lru_prev (p : option loc) (e : conn_entry) : conn_entry :=
  ConnEntry (ce_tuple e) (ce_state e) (ce_first_seen e) (ce_last_seen e) (ce_packets e)
    (ce_bytes e) (ce_flags e) (ce_next e) p (ce_lru_next e).
Definition set_lru_next (p : option loc) (e : conn_entry) : conn_entry :=
  ConnEntry (ce_tuple e) (ce_state e) (ce_first_seen e) (ce_last_seen e) (ce_packets e)
    (ce_bytes e) (ce_flags e) (ce_next e) (ce_lru_prev e) p.
Definition set_last_seen (t : Z) (e : conn_entry) : conn_entry :=
  ConnEntry (ce_tuple e) (ce_state e) (ce_first_seen e) t (ce_packets e)
    (ce_bytes e) (ce_flags e) (ce_next e) (ce_lru_prev e) (ce_lru_next e).
Definition set_state (s : tcp_state) (e : conn_entry) : conn_entry :=
  ConnEntry (ce_tuple e) s (ce_first_seen e) (ce_last_seen e) (ce_packets e)
    (ce_bytes e) (ce_flags e) (ce_next e) (ce_lru_prev e) (ce_lru_next e).

(** [l->field], [l->field = v] and [free(l)]. *)
Definition load (h : heap) (l : loc) : res conn_entry :=
  match h !! l with Some e => Ok e | None => Undef UseAfterFree end.
Definition store (h : heap) (l : loc) (f : conn_entry → conn_entry) : res heap :=
  let* e := load h l in Ok (<[l := f e]> h).
Definition free (h : heap) (l : loc) : res heap :=
  match h !! l with Some _ => Ok (delete l h) | None => Undef DoubleFree end.

(** [if (p) p->field = v;]. *)
Definition store_opt (h : heap) (p : option loc) (f : conn_entry → conn_entry) : res heap :=
  match p with Some l => store h l f | None => Ok h end.

(** A walk over a read-only heap ends, or has come round to an entry already
    seen, within this many steps. *)
Definition walk_fuel (h : heap) : nat := S (size h).

(** Frees a linked list by saving the link before each [free]. *)
Fixpoint free_list (fuel : nat) (nx : conn_entry → option loc) (h : heap) (p : option loc)
    : res heap :=
  match p with
  | None => Ok h
  | Some l =>
      match fuel with
      | O => Diverges
      | S fuel' =>
          let* e := load h l in
          let* h := free h l in
          free_list fuel' nx h (nx e)
      end
  end.

(** ** Chains

    [chain nx h p ls]: following [nx] from [p] visits exactly [ls]. *)
Fixpoint chain (nx : conn_entry → option loc) (h : heap) (p : option loc) (ls : list loc)
    : Prop :=
  match ls with
  | [] => p = None
  | l :: ls' => p = Some l ∧ ∃ e, h !! l = Some e ∧ chain nx h (nx e) ls'
  end.

Lemma store_Ok h l f e : h !! l = Some e → store h l f = Ok (<[l := f e]> h).
Proof. intros He. unfold store, load. by rewrite He. Qed.

Lemma free_Ok h l : is_Some (h !! l) → free h l = Ok (delete l h).
Proof. intros [e He]. unfold free. by rewrite He. Qed.

Section chains.
Context (nx : conn_entry → option loc).

Lemma chain_det h p ls1 ls2 : chain nx h p ls1 → chain nx h p ls2 → ls1 = ls2.
Proof.
  revert p ls2. induction ls1 as [|l ls1 IH]; intros p [|l' ls2]; simpl.
  - done.
  - intros -> [? _]. done.
  - by intros [-> _].
  - intros (-> & e & He & H1) ([= <-] & e' & He' & H2). simplify_eq.
    f_equal. by eapply IH.
Qed.

Lemma chain_app h p ls1 ls2 :
  chain nx h p (ls1 ++ ls2) →
  ∃ q, chain nx h q ls2 ∧ ∀ ls', chain nx h q ls' → chain nx h p (ls1 ++ ls').
Proof.
  revert p. induction ls1 as [|l ls1 IH]; intros p; simpl; [eauto|].
  intros (-> & e & He & (q & Hq & Hall)%IH). exists q. split; [done|].
  intros ls' Hls'. split; [done|]. exists e. eauto.
Qed.

Lemma chain_elem h p ls l : chain nx h p ls → l ∈ ls → is_Some (h !! l).
Proof.
  revert p. induction ls as [|l' ls IH]; intros p; simpl; [by intros _ ?%not_elem_of_nil|].
  intros (-> & e & He & Hc) [->|Hl]%elem_of_cons; eauto.
Qed.

Lemma chain_NoDup h p ls : chain nx h p ls → NoDup ls.
Proof.
  revert p. induction ls as [|l ls IH]; intros p; [constructor|].
  intros (-> & e & He & Hc). constructor; [|by eapply IH].
  intros (ls1 & ls2 & ->)%list_elem_of_split.
  destruct (chain_app _ _ _ _ Hc) as (q & Hq & _). simpl in Hq.
  destruct Hq as (-> & e' & He' & Hq). simplify_eq.
  pose proof (chain_det _ _ _ _ Hc Hq) as Heq. apply (f_equal length) in Heq.
  rewrite length_app in Heq. simpl in Heq. lia.
Qed.

Lemma chain_size h p ls : chain nx h p ls → (length ls <= size h)%nat.
Proof.
  intros Hc. pose proof (chain_NoDup _ _ _ Hc) as Hnd.
  assert ((list_to_set ls : gset loc) ⊆ dom h) as Hsub.
  { intros l Hl%elem_of_list_to_set. apply elem_of_dom. by eapply chain_elem. }
  apply subseteq_size in Hsub. by rewrite size_dom, size_list_to_set in Hsub.
Qed.

(** A chain looks only at its own entries' links. *)
Lemma chain_frame h h' p ls :
  (∀ l e, l ∈ ls → h !! l = Some e → ∃ e', h' !! l = Some e' ∧ nx e' = nx e) →
  chain nx h p ls → chain nx h' p ls.
Proof.
  revert p. induction ls as [|l ls IH]; intros p Hf; simpl; [done|].
  intros (-> & e & He & Hc). split; [done|].
  destruct (Hf l e) as (e' & He' & Hn); [left|done|]. exists e'. split; [done|].
  rewrite Hn. apply IH; [|done]. intros l0 e0 Hl0. apply Hf. by right.
Qed.

Lemma chain_insert_other h p ls l e :
  l ∉ ls → chain nx h p ls → chain nx (<[l := e]> h) p ls.
Proof.
  intros Hl. apply chain_frame. intros l' e' Hl' He'. exists e'. split; [|done].
  by rewrite lookup_insert_ne by set_solver.
Qed.

Lemma chain_delete_other h p ls l : l ∉ ls → chain nx h p ls → chain nx (delete l h) p ls.
Proof.
  intros Hl. apply chain_frame. intros l' e' Hl' He'. exists e'. split; [|done].
  by rewrite lookup_delete_ne by set_solver.
Qed.

(** Unlinking an entry from the middle: its predecessor takes over its link. *)
Lemma chain_unlink h p ls1 a l ls2 (f : option loc → conn_entry → conn_entry) ea el :
  (∀ q e, nx (f q e) = q) →
  chain nx h p (ls1 ++ a :: l :: ls2) → h !! a = Some ea → h !! l = Some el →
  chain nx (<[a := f (nx el) ea]> h) p (ls1 ++ a :: ls2).
Proof.
  intros Hf Hc Ha Hl. pose proof (chain_NoDup _ _ _ Hc) as Hnd.
  apply NoDup_app in Hnd as (_ & Hdisj & Hnd2).
  apply NoDup_cons in Hnd2 as [Ha2 [Hl2 _]%NoDup_cons].
  assert (a ∉ ls1) as Ha1 by (intros ?%Hdisj; set_solver).
  destruct (chain_app _ _ _ _ Hc) as (q & (-> & e & He & Hne & e' & He' & Hq) & _). simplify_eq.
  revert p Hc Ha1 Hdisj. induction ls1 as [|l1 ls1 IH]; intros p Hc Ha1 Hdisj; simpl in *.
  - destruct Hc as (-> & _). split; [done|]. exists (f (nx el) ea).
    rewrite lookup_insert_eq, Hf. split; [done|].
    apply chain_insert_other; [set_solver|done].
  - destruct Hc as (-> & e1 & He1 & Hc). split; [done|]. exists e1.
    rewrite lookup_insert_ne by set_solver. split; [done|].
    apply IH; [done|set_solver|set_solver].
Qed.

(** What freeing a chain leaves. *)
Lemma free_list_chain fuel h p ls :
  chain nx h p ls → (length ls <= fuel)%nat →
  free_list fuel nx h p = Ok (foldl (λ h l, delete l h) h ls).
Proof.
  revert h p fuel. induction ls as [|l ls IH]; intros h p fuel Hc Hf.
  - simpl in Hc. subst. by destruct fuel.
  - pose proof (chain_NoDup _ _ _ Hc) as [Hl _]%NoDup_cons.
    destruct Hc as (-> & e & He & Hc). destruct fuel as [|fuel]; simpl in *; [lia|].
    unfold load. rewrite He. simpl. rewrite free_Ok by eauto. simpl.
    apply IH; [|lia]. by apply chain_delete_other.
Qed.
End chains.

(** Freed entries are gone, the others untouched. *)
Lemma foldl_delete_lookup (h : heap) ls l :
  foldl (λ h l, delete l h) h ls !! l = if decide (l ∈ ls) then None else h !! l.
Proof.
  revert h. induction ls as [|l' ls IH]; intros h; cbn [foldl].
  { case_decide as Hl; [by apply not_elem_of_nil in Hl|done]. }
  rewrite IH. destruct (decide (l' = l)) as [->|Hne].
  - rewrite lookup_delete_eq, (decide_True (P := l ∈ l :: ls)) by left. by case_decide.
  - rewrite lookup_delete_ne by done. repeat case_decide; set_solver.
Qed.
