(* ===== verification/HashTable.v ===== *)
(** * The connection hash table

    [src/storage/hashtable.c]: chains of heap-allocated entries in an array of
    buckets. The first part models every operation, the writes to the heap
    included; the second relates a table to the finite map from connection keys
    to entries it stands for, and the last part is the contract under which
    [LruCache] uses it. Each operation runs under the lock of its bucket and is
    one step here. *)

From S2P Require Import Prelude Common Hash ConnHeap.

#[global] Instance conn_key_t_eq_dec : EqDecision conn_key_t.
Proof. unfold conn_key_t, ip_key_t. apply _. Defined.
#[global] Instance conn_key_t_countable : Countable conn_key_t.
Proof. unfold conn_key_t, ip_key_t. apply _. Defined.

(** [ht_buckets] holds the head of each chain. *)
Record hashtable := Hashtable {
  ht_buckets : list (option loc);
  ht_size : Z;      (* uint32_t *)
  ht_entries : Z    (* uint64_t *)
}.

Definition hashtable_create (calloc1 calloc2 : bool) (size : Z) : option hashtable :=
  if calloc1 then
    if calloc2 then Some (Hashtable (replicate (Z.to_nat size) None) size 0) else None
  else None.

(** [hash % ht->size] and the head of that bucket. *)
Definition bucket_idx (ht : hashtable) (key : conn_tuple) : res Z :=
  if ht_size ht =? 0 then Undef DivByZero else Ok (conn_tuple_hash key mod ht_size ht).
Definition bucket_head (ht : hashtable) (idx : Z) : res (option loc) :=
  match ht_buckets ht !! Z.to_nat idx with Some p => Ok p | None => Undef OutOfBounds end.
Definition set_head (ht : hashtable) (idx : Z) (p : option loc) (entries : Z) : hashtable :=
  Hashtable (<[Z.to_nat idx := p]> (ht_buckets ht)) (ht_size ht) entries.

(** The walk down a chain, with the entry before the one found. *)
Fixpoint find_entry (fuel : nat) (h : heap) (key : conn_tuple) (prev p : option loc)
    : res (option (option loc * loc)) :=
  match p with
  | None => Ok None
  | Some l =>
      match fuel with
      | O => Diverges
      | S fuel' =>
          let* e := load h l in
          if conn_tuple_compare (ce_tuple e) key =? 0 then Ok (Some (prev, l))
          else find_entry fuel' h key (Some l) (ce_next e)
      end
  end.

(** Copying the new entry over the old one copies its [next] field too, and
    the assignment that follows writes back what the copy left there. *)
Definition hashtable_insert (h : heap) (ht : hashtable) (key : conn_tuple) (entry : loc)
    : res (Z * heap * hashtable) :=
  let* idx := bucket_idx ht key in
  let* head := bucket_head ht idx in
  let* found := find_entry (walk_fuel h) h key None head in
  match found with
  | Some (_, curr) =>
      let* e := load h entry in
      let* h := store h curr (λ _, e) in
      let* h := store h curr (λ c, set_next (ce_next c) c) in
      Ok (0, h, ht)
  | None =>
      let* h := store h entry (set_next head) in
      Ok (0, h, set_head ht idx (Some entry) (ht_entries ht +₆₄ 1))
  end.

Definition hashtable_lookup (h : heap) (ht : hashtable) (key : conn_tuple) : res (option loc) :=
  let* idx := bucket_idx ht key in
  let* head := bucket_head ht idx in
  let* found := find_entry (walk_fuel h) h key None head in
  Ok (snd <$> found).

Definition hashtable_remove (h : heap) (ht : hashtable) (key : conn_tuple)
    : res (Z * heap * hashtable) :=
  let* idx := bucket_idx ht key in
  let* head := bucket_head ht idx in
  let* found := find_entry (walk_fuel h) h key None head in
  match found with
  | None => Ok (-1, h, ht)
  | Some (prev, entry) =>
      let* e := load h entry in
      match prev with
      | Some q =>
          let* h := store h q (set_next (ce_next e)) in
          let* h := free h entry in
          Ok (0, h, Hashtable (ht_buckets ht) (ht_size ht) (ht_entries ht -₆₄ 1))
      | None =>
          let* h := free h entry in
          Ok (0, h, set_head ht idx (ce_next e) (ht_entries ht -₆₄ 1))
      end
  end.

Definition hashtable_size (ht : hashtable) : Z := ht_entries ht.

Fixpoint free_buckets (h : heap) (bs : list (option loc)) : res heap :=
  match bs with
  | [] => Ok h
  | p :: bs' => let* h := free_list (walk_fuel h) ce_next h p in free_buckets h bs'
  end.

Definition hashtable_clear (h : heap) (ht : hashtable) : res (heap * hashtable) :=
  let* h := free_buckets h (ht_buckets ht) in
  Ok (h, Hashtable (replicate (length (ht_buckets ht)) None) (ht_size ht) 0).

Definition hashtable_destroy (h : heap) (ht : hashtable) : res heap :=
  free_buckets h (ht_buckets ht).

(** [hashtable_foreach] runs under read locks: the callback sees an entry and
    the caller's data [u], which alone it changes. *)
Section foreach.
Context {U : Type} (cb : conn_entry → U → Z * U).

(** [inl]: the callback stopped the iteration. *)
Fixpoint foreach_chain (fuel : nat) (h : heap) (p : option loc) (count : Z) (u : U)
    : res ((Z + Z) * U) :=
  match p with
  | None => Ok (inr count, u)
  | Some l =>
      match fuel with
      | O => Diverges
      | S fuel' =>
          let* e := load h l in
          let '(ret, u) := cb e u in
          if negb (ret =? 0) then Ok (inl ret, u)
          else foreach_chain fuel' h (ce_next e) (count + 1) u
      end
  end.

Fixpoint foreach_buckets (h : heap) (bs : list (option loc)) (count : Z) (u : U)
    : res (Z * U) :=
  match bs with
  | [] => Ok (count, u)
  | p :: bs' =>
      let* (r, u) := foreach_chain (walk_fuel h) h p count u in
      match r with
      | inl ret => Ok (ret, u)
      | inr count => foreach_buckets h bs' count u
      end
  end.

Definition hashtable_foreach (h : heap) (ht : hashtable) (u : U) : res (Z * U) :=
  foreach_buckets h (ht_buckets ht) 0 u.
End foreach.

(** ** The map a table stands for *)

Definition key_at (h : heap) (l : loc) (k : conn_key_t) : Prop :=
  ∃ e, h !! l = Some e ∧ conn_key (ce_tuple e) = k.

(** [cs] are the chains: acyclic, disjoint, each entry in the chain its hash
    selects, and no two entries with one key. *)
Record ht_rep (h : heap) (ht : hashtable) (cs : list (list loc)) (m : gmap conn_key_t loc)
    : Prop := {
  rep_size : 0 < ht_size ht < 2 ^ 32;
  rep_length : Z.of_nat (length (ht_buckets ht)) = ht_size ht;
  rep_chains : Forall2 (chain ce_next h) (ht_buckets ht) cs;
  rep_nodup : NoDup (concat cs);
  rep_place i c l e : cs !! i = Some c → l ∈ c → h !! l = Some e →
    conn_tuple_hash (ce_tuple e) mod ht_size ht = Z.of_nat i;
  rep_map k l : m !! k = Some l ↔ l ∈ concat cs ∧ key_at h l k
}.

(** The counter agrees as well. *)
Definition ht_ok (h : heap) (ht : hashtable) (m : gmap conn_key_t loc) : Prop :=
  (∃ cs, ht_rep h ht cs m) ∧ ht_entries ht = u64 (Z.of_nat (size m)).

Lemma conn_compare_zero a b : conn_tuple_compare a b = 0 ↔ conn_key a = conn_key b.
Proof. apply cmp_zero. Qed.

Lemma find_entry_hit fuel h key prev p ls1 l ls2 :
  chain ce_next h p (ls1 ++ l :: ls2) → (length (ls1 ++ l :: ls2) <= fuel)%nat →
  key_at h l (conn_key key) → (∀ l', l' ∈ ls1 → ¬ key_at h l' (conn_key key)) →
  find_entry fuel h key prev p = Ok (Some (from_option Some prev (last ls1), l)).
Proof.
  revert fuel prev p. induction ls1 as [|a ls1 IH]; intros fuel prev p Hc Hf (e & He & Hk) Hno;
    destruct Hc as (-> & e1 & He1 & Hc); destruct fuel as [|fuel]; simpl in Hf; try lia;
    cbn [find_entry]; unfold load; rewrite He1; cbn [rbind].
  - rewrite He in He1. apply (inj Some) in He1 as <-. apply conn_compare_zero in Hk. by rewrite Hk.
  - destruct (Z.eqb_spec (conn_tuple_compare (ce_tuple e1) key) 0) as [Hz|_].
    + apply conn_compare_zero in Hz. destruct (Hno a); [left|by exists e1].
    + rewrite IH; [|done|lia|by exists e|set_solver]. rewrite last_cons. by destruct (last ls1).
Qed.

Lemma find_entry_miss fuel h key prev p ls :
  chain ce_next h p ls → (length ls <= fuel)%nat →
  (∀ l', l' ∈ ls → ¬ key_at h l' (conn_key key)) →
  find_entry fuel h key prev p = Ok None.
Proof.
  revert fuel prev p. induction ls as [|a ls IH]; intros fuel prev p Hc Hf Hno.
  { simpl in Hc. subst. by destruct fuel. }
  destruct Hc as (-> & e1 & He1 & Hc); destruct fuel as [|fuel]; simpl in Hf; [lia|].
  simpl. unfold load. rewrite He1. cbn [rbind].
  destruct (Z.eqb_spec (conn_tuple_compare (ce_tuple e1) key) 0) as [Hz|_].
  - apply conn_compare_zero in Hz. destruct (Hno a); [left|by exists e1].
  - apply IH; [done|lia|set_solver].
Qed.

Lemma key_at_fun h l k1 k2 : key_at h l k1 → key_at h l k2 → k1 = k2.
Proof. intros (e1 & He1 & <-) (e2 & He2 & <-). by simplify_eq. Qed.

Section rep.
Context {h : heap} {ht : hashtable} {cs : list (list loc)} {m : gmap conn_key_t loc}.
Context (Hrep : ht_rep h ht cs m).

Lemma rep_live l : l ∈ concat cs → ∃ e, h !! l = Some e.
Proof.
  intros (i & c & Hc & Hl)%elem_of_concat.
  destruct (Forall2_lookup_r _ _ _ _ _ (rep_chains _ _ _ _ Hrep) Hc) as (p & _ & Hp).
  by eapply chain_elem.
Qed.

Lemma rep_lookup_live k l : m !! k = Some l → key_at h l k.
Proof. intros Hm. by apply (rep_map _ _ _ _ Hrep) in Hm as [_ ?]. Qed.

Lemma rep_lookup_inj k1 k2 l : m !! k1 = Some l → m !! k2 = Some l → k1 = k2.
Proof. intros ?%rep_lookup_live ?%rep_lookup_live. by eapply key_at_fun. Qed.

(** The bucket of a key: its index, head and chain, and what the walk finds. *)
Lemma rep_bucket key :
  ∃ i p c, bucket_idx ht key = Ok (Z.of_nat i) ∧ bucket_head ht (Z.of_nat i) = Ok p ∧
    conn_tuple_hash key mod ht_size ht = Z.of_nat i ∧
    ht_buckets ht !! i = Some p ∧ cs !! i = Some c ∧ chain ce_next h p c ∧
    match m !! conn_key key with
    | Some l => ∃ ls1 ls2, c = ls1 ++ l :: ls2 ∧
        find_entry (walk_fuel h) h key None p = Ok (Some (last ls1, l))
    | None => find_entry (walk_fuel h) h key None p = Ok None
    end.
Proof.
  destruct Hrep as [Hs Hlen Hch Hnd Hpl Hm]. unfold bucket_idx, bucket_head.
  rewrite (proj2 (Z.eqb_neq (ht_size ht) 0)) by lia.
  pose proof (Z.mod_pos_bound (conn_tuple_hash key) (ht_size ht) ltac:(lia)) as Hidx.
  set (i := Z.to_nat (conn_tuple_hash key mod ht_size ht)).
  destruct (lookup_lt_is_Some_2 (ht_buckets ht) i) as [p Hp]; [lia|].
  destruct (Forall2_lookup_l _ _ _ _ _ Hch Hp) as (c & Hc & Hpc).
  exists i, p, c. rewrite Nat2Z.id, Hp. split_and!; try done; try (f_equal; lia); try lia.
  pose proof (chain_size _ _ _ _ Hpc) as Hfuel.
  destruct (m !! conn_key key) as [l|] eqn:Hk.
  - apply Hm in Hk as Hk'. destruct Hk' as [(j & c' & Hc' & Hl)%elem_of_concat Hat].
    destruct (Hat) as (e & He & Hke).
    pose proof (Hpl _ _ _ _ Hc' Hl He) as Hj.
    rewrite (conn_tuple_hash_key _ _ Hke) in Hj. assert (j = i) as -> by lia. simplify_eq.
    apply list_elem_of_split in Hl as (ls1 & ls2 & ->).
    exists ls1, ls2. split; [done|].
    rewrite (find_entry_hit _ _ _ _ _ ls1 l ls2); [|done|unfold walk_fuel; lia|done|].
    + by destruct (last ls1).
    + intros l' Hl' Hat'. pose proof (chain_NoDup _ _ _ _ Hpc) as Hndc.
      assert (m !! conn_key key = Some l') as Hk'.
      { apply Hm. split; [|done]. apply elem_of_concat. exists i, (ls1 ++ l :: ls2).
        split; [done|]. apply elem_of_app. by left. }
      rewrite Hk in Hk'. apply (inj Some) in Hk' as <-. apply NoDup_app in Hndc as (_ & Hd & _). eapply Hd; [done|left].
  - apply (find_entry_miss _ _ _ _ _ c); [done|unfold walk_fuel; lia|].
    intros l' Hl' Hat'. assert (m !! conn_key key = Some l') as Hk'; [|by rewrite Hk in Hk'].
    apply Hm. split; [|done]. apply elem_of_concat. eauto.
Qed.

Lemma rep_lookup key : hashtable_lookup h ht key = Ok (m !! conn_key key).
Proof.
  destruct (rep_bucket key) as (i & p & c & Hi & Hp & _ & _ & _ & _ & Hf).
  unfold hashtable_lookup. rewrite Hi. cbn [rbind]. rewrite Hp. cbn [rbind].
  destruct (m !! conn_key key) as [l|].
  - destruct Hf as (ls1 & ls2 & _ & ->). done.
  - by rewrite Hf.
Qed.
End rep.

(** ** Changing one chain *)

Lemma concat_disjoint {A} (cs : list (list A)) i j c d x :
  NoDup (concat cs) → cs !! i = Some c → cs !! j = Some d → x ∈ c → x ∈ d → i = j.
Proof.
  revert i j. induction cs as [|c0 cs IH]; intros i j Hnd Hc Hd Hxc Hxd; [done|].
  simpl in Hnd. apply NoDup_app in Hnd as (_ & Hdis & Hnd).
  destruct i as [|i], j as [|j]; simplify_eq/=; [done| | |f_equal; eauto].
  - destruct (Hdis x); [done|]. apply elem_of_concat. eauto.
  - destruct (Hdis x); [done|]. apply elem_of_concat. eauto.
Qed.

(** The same entry as far as keys are concerned. *)
Definition same_key (h h' : heap) (l : loc) : Prop :=
  ∀ e, h !! l = Some e → ∃ e', h' !! l = Some e' ∧
    conn_key (ce_tuple e') = conn_key (ce_tuple e).
Definition same_node (h h' : heap) (l : loc) : Prop :=
  ∀ e, h !! l = Some e → ∃ e', h' !! l = Some e' ∧ ce_next e' = ce_next e ∧
    conn_key (ce_tuple e') = conn_key (ce_tuple e).

Lemma same_node_key h h' l : same_node h h' l → same_key h h' l.
Proof. intros Hs e He. destruct (Hs e He) as (e' & ? & _ & ?). eauto. Qed.

Lemma same_key_at h h' l k :
  (∃ e, h !! l = Some e) → same_key h h' l → key_at h' l k ↔ key_at h l k.
Proof.
  intros (e & He) Hs. destruct (Hs e He) as (e' & He' & Hk). split.
  - intros (e1 & He1 & <-). exists e. split; [done|]. rewrite He' in He1. by apply (inj Some) in He1 as <-.
  - intros (e1 & He1 & <-). exists e'. split; [done|]. rewrite He in He1. by apply (inj Some) in He1 as <-.
Qed.

(** Chain [i] becomes [c'], made of entries it had before; the keys of the
    entries it lost leave the map. *)
Lemma rep_shrink h h' ht cs m m' i c c' p' n :
  ht_rep h ht cs m → cs !! i = Some c → NoDup c' → (∀ l, l ∈ c' → l ∈ c) →
  chain ce_next h' p' c' → (∀ l, l ∈ c' → same_key h h' l) →
  (∀ l, l ∈ concat cs → l ∉ c → same_node h h' l) →
  (∀ k l, m' !! k = Some l ↔ m !! k = Some l ∧ (l ∈ c → l ∈ c')) →
  ht_rep h' (set_head ht (Z.of_nat i) p' n) (<[i := c']> cs) m'.
Proof.
  intros Hrep Hc Hnd' Hsub Hch' Hkey Hnode Hm'. pose proof Hrep as [Hs Hlen Hch Hnd Hpl Hm].
  assert (∀ l, l ∈ concat (<[i:=c']> cs) ↔ l ∈ concat cs ∧ (l ∈ c → l ∈ c')) as Hel.
  { intros l. destruct (concat_insert cs i c c' Hc) as (l1 & l2 & E1 & ->).
    rewrite E1 in *. rewrite !NoDup_app in Hnd. destruct Hnd as (_ & D1 & _ & D2 & _).
    pose proof (D1 l). pose proof (D2 l). rewrite !elem_of_app in *. specialize (Hsub l).
    destruct (decide (l ∈ c)); naive_solver. }
  assert (∀ l, l ∈ concat (<[i:=c']> cs) → same_key h h' l) as Hsk.
  { intros l [Hl Hlc]%Hel. destruct (decide (l ∈ c)); [by apply Hkey, Hlc|].
    by apply same_node_key, Hnode. }
  split; simpl; [done|by rewrite length_insert| | | |].
  - apply Forall2_same_length_lookup_2.
    { rewrite !length_insert. by eapply Forall2_length. }
    intros j p d Hp Hd. rewrite Nat2Z.id in Hp. destruct (decide (i = j)) as [<-|Hij].
    + apply list_lookup_insert_Some in Hp as [(_ & -> & _)|[? _]]; [|done].
      by apply list_lookup_insert_Some in Hd as [(_ & -> & _)|[? _]].
    + rewrite list_lookup_insert_ne in Hp by done. rewrite list_lookup_insert_ne in Hd by done.
      eapply chain_frame, Forall2_lookup_lr, Hd; [|done|done].
      intros l e Hl He. destruct (Hnode l) with e as (e' & ? & ? & _); eauto.
      * apply elem_of_concat. eauto.
      * intros Hlc. apply Hij. by apply (concat_disjoint cs i j c d l).
  - destruct (concat_insert cs i c c' Hc) as (l1 & l2 & E1 & ->). rewrite E1 in Hnd.
    rewrite !NoDup_app in *. setoid_rewrite elem_of_app in Hnd. setoid_rewrite elem_of_app.
    naive_solver.
  - intros j d l e' Hd Hl He'. assert (l ∈ concat (<[i:=c']> cs)) as Hin.
    { apply elem_of_concat. eauto. }
    pose proof (Hsk _ Hin) as Hlk. apply Hel in Hin as [Hin _].
    destruct (rep_live Hrep l Hin) as [e He]. destruct (Hlk e He) as (e2 & He2 & Hk).
    rewrite He' in He2. apply (inj Some) in He2 as <-. rewrite (conn_tuple_hash_key _ _ Hk).
    apply list_lookup_insert_Some in Hd as [(-> & -> & _)|[_ Hd]].
    + eapply Hpl; [done|by apply Hsub|done].
    + by eapply Hpl.
  - intros k l. rewrite Hm', Hm, Hel. split.
    + intros [[Hl Hk] Hlc]. split; [done|]. apply (same_key_at h h'); [by eapply rep_live| |done].
      apply Hsk, Hel. done.
    + intros [[Hl Hlc] Hk]. split; [|done]. split; [done|].
      apply (same_key_at h h'); [by eapply rep_live| |done]. apply Hsk, Hel. done.
Qed.

(** A table does not depend on the fields it does not use. *)
Lemma rep_frame h h' ht cs m :
  ht_rep h ht cs m → (∀ l, l ∈ concat cs → same_node h h' l) → ht_rep h' ht cs m.
Proof.
  intros Hrep Hnode. pose proof Hrep as [Hs Hlen Hch Hnd Hpl Hm]. split; try done.
  - eapply Forall2_same_length_lookup_2; [by eapply Forall2_length|].
    intros i p c Hp Hc. eapply chain_frame, Forall2_lookup_lr, Hc; [|done|done].
    intros l e Hl He. destruct (Hnode l) with e as (e' & ? & ? & _); eauto.
    apply elem_of_concat. eauto.
  - intros i c l e' Hc Hl He'.
    assert (l ∈ concat cs) as Hin by (apply elem_of_concat; eauto).
    destruct (rep_live Hrep l Hin) as [e He]. destruct (Hnode l Hin e He) as (e2 & He2 & _ & Hk).
    rewrite He' in He2. apply (inj Some) in He2 as <-.
    rewrite (conn_tuple_hash_key _ _ Hk). by eapply Hpl.
  - intros k l. rewrite Hm. split; intros [Hl Hk]; (split; [done|]);
      (apply (same_key_at h h'); [by eapply rep_live|by apply same_node_key, Hnode|done]).
Qed.

(** ** The operations on the map *)

(** The heap without the table's own links. *)
Definition payload (h : heap) : heap := set_next None <$> h.

Lemma payload_set_next h l p e :
  h !! l = Some e → payload (<[l := set_next p e]> h) = payload h.
Proof.
  intros He. unfold payload. rewrite fmap_insert, insert_id; [done|].
  by rewrite lookup_fmap, He.
Qed.

Lemma payload_delete h l : payload (delete l h) = delete l (payload h).
Proof. apply fmap_delete. Qed.

Lemma same_node_refl h l : same_node h h l.
Proof. intros e He. eauto. Qed.

Lemma same_node_other h h' l l' e :
  l ≠ l' → same_node h h' l → same_node h (<[l' := e]> h') l.
Proof. intros Hne Hs. unfold same_node. by rewrite lookup_insert_ne by done. Qed.

Lemma same_key_other h h' l l' e :
  l ≠ l' → same_key h h' l → same_key h (<[l' := e]> h') l.
Proof. intros Hne Hs. unfold same_key. by rewrite lookup_insert_ne by done. Qed.

Lemma same_node_delete h h' l l' : l ≠ l' → same_node h h' l → same_node h (delete l' h') l.
Proof. intros Hne Hs. unfold same_node. by rewrite lookup_delete_ne by done. Qed.

Lemma same_key_delete h h' l l' : l ≠ l' → same_key h h' l → same_key h (delete l' h') l.
Proof. intros Hne Hs. unfold same_key. by rewrite lookup_delete_ne by done. Qed.

Lemma same_key_set_next h l p e : h !! l = Some e → same_key h (<[l := set_next p e]> h) l.
Proof.
  intros He e' He'. rewrite He in He'. apply (inj Some) in He' as <-.
  rewrite lookup_insert_eq. eauto.
Qed.

#[export] Hint Resolve same_node_refl same_node_key same_node_other same_key_other
  same_node_delete same_key_delete same_key_set_next : heap.

(** Taking [l] out of its chain takes its key out of the map. *)
Lemma rep_unlink h h' ht cs m k i ls1 l ls2 p' n :
  ht_rep h ht cs m → m !! k = Some l → cs !! i = Some (ls1 ++ l :: ls2) →
  NoDup (ls1 ++ l :: ls2) → chain ce_next h' p' (ls1 ++ ls2) →
  (∀ l', l' ≠ l → same_key h h' l') →
  (∀ l', l' ∉ ls1 ++ l :: ls2 → same_node h h' l') →
  ht_rep h' (set_head ht (Z.of_nat i) p' n) (<[i := ls1 ++ ls2]> cs) (delete k m).
Proof.
  intros Hrep Hl Hc Hnd Hch Hkey Hnode.
  assert (l ∉ ls1 ++ ls2) as Hnot.
  { apply NoDup_app in Hnd as (_ & Hd & [Hl2 _]%NoDup_cons). intros [?|?]%elem_of_app; [|done].
    eapply Hd; [done|left]. }
  eapply (rep_shrink h _ ht cs m _ i _ (ls1 ++ ls2)); try done.
  - apply (sublist_NoDup _ (ls1 ++ l :: ls2)); [done|].
    apply sublist_app; [done|by apply sublist_cons].
  - set_solver.
  - intros l' Hl'. apply Hkey. by intros ->.
  - intros l' _. apply Hnode.
  - intros k' l0. rewrite lookup_delete_Some. split.
    + intros [Hk Hm]. split; [done|]. intros Hl0.
      destruct (decide (l0 = l)) as [->|?]; [|set_solver].
      destruct Hk. by eapply (rep_lookup_inj Hrep).
    + intros [Hm Himp]. split; [|done]. intros <-. rewrite Hl in Hm.
      apply (inj Some) in Hm as <-. apply Hnot, Himp. set_solver.
Qed.

Lemma remove_present h ht cs m key l :
  ht_rep h ht cs m → m !! conn_key key = Some l →
  ∃ h' ht' cs', hashtable_remove h ht key = Ok (0, h', ht') ∧
    ht_rep h' ht' cs' (delete (conn_key key) m) ∧
    ht_entries ht' = ht_entries ht -₆₄ 1 ∧ payload h' = delete l (payload h).
Proof.
  intros Hrep Hl. destruct (rep_bucket Hrep key) as (i & p & c & Hi & Hp & _ & Hbp & Hc & Hpc & Hf).
  rewrite Hl in Hf. destruct Hf as (ls1 & ls2 & -> & Hf).
  unfold hashtable_remove. rewrite Hi. cbn [rbind]. rewrite Hp. cbn [rbind].
  rewrite Hf. cbn [rbind]. pose proof (chain_NoDup _ _ _ _ Hpc) as Hnd.
  destruct (rep_lookup_live Hrep _ _ Hl) as (e & He & _).
  unfold load. rewrite He. cbn [rbind].
  destruct ls1 as [|a ls1 _] using rev_ind.
  - simpl. rewrite free_Ok by eauto. simpl. eexists _, _, _. split; [done|].
    split; [|split; [done|by rewrite payload_delete]].
    destruct Hpc as (-> & e' & He' & Hpc). rewrite He in He'. apply (inj Some) in He' as <-.
    eapply (rep_unlink _ _ _ _ _ _ _ [] l ls2); try done.
    + apply chain_delete_other; [|done]. by apply NoDup_cons in Hnd as [? _].
    + intros. auto with heap.
    + intros l' Hl'. apply same_node_delete; [set_solver|auto with heap].
  - rewrite last_snoc. rewrite <- !app_assoc in *. simpl in *.
    destruct (rep_live Hrep a) as [ea Hea].
    { apply elem_of_concat. exists i, (ls1 ++ a :: l :: ls2). set_solver. }
    assert (l ∉ ls1 ++ a :: ls2) as Hnot.
    { pose proof Hnd as (_ & Hd & [Ha [Hl2 _]%NoDup_cons]%NoDup_cons)%NoDup_app.
      specialize (Hd l). set_solver. }
    assert (a ≠ l) as Hal by set_solver.
    rewrite (store_Ok _ _ _ _ Hea). cbn [rbind].
    rewrite free_Ok by (rewrite lookup_insert_ne by done; eauto). cbn [rbind].
    eexists _, _, _. split; [done|]. split; [|split; [done|]].
    + replace (Hashtable _ _ _) with (set_head ht (Z.of_nat i) p (ht_entries ht -₆₄ 1))
        by (unfold set_head; by rewrite Nat2Z.id, list_insert_id).
      eapply (rep_unlink _ _ _ _ _ _ _ (ls1 ++ [a]) l ls2); rewrite <- ?app_assoc; try done.
      * simpl. apply chain_delete_other; [done|].
        by apply (chain_unlink ce_next _ _ _ _ l _ set_next).
      * intros l' ?. apply same_key_delete; [done|].
        destruct (decide (l' = a)) as [->|]; auto with heap.
      * intros l' Hl'. apply same_node_delete; [set_solver|].
        apply same_node_other; [set_solver|auto with heap].
    + by rewrite payload_delete, payload_set_next.
Qed.

Lemma remove_absent h ht cs m key :
  ht_rep h ht cs m → m !! conn_key key = None → hashtable_remove h ht key = Ok (-1, h, ht).
Proof.
  intros Hrep Hl. destruct (rep_bucket Hrep key) as (i & p & c & Hi & Hp & _ & _ & _ & _ & Hf).
  rewrite Hl in Hf. unfold hashtable_remove. rewrite Hi. cbn [rbind]. rewrite Hp. cbn [rbind].
  by rewrite Hf.
Qed.

(** Linking an entry in front of its chain. *)
Lemma rep_extend h ht cs m i c p l e n :
  ht_rep h ht cs m → cs !! i = Some c → ht_buckets ht !! i = Some p →
  h !! l = Some e → ce_next e = p → l ∉ concat cs →
  m !! conn_key (ce_tuple e) = None → conn_tuple_hash (ce_tuple e) mod ht_size ht = Z.of_nat i →
  ht_rep h (set_head ht (Z.of_nat i) (Some l) n) (<[i := l :: c]> cs)
    (<[conn_key (ce_tuple e) := l]> m).
Proof.
  intros Hrep Hc Hp He Hn Hl Hk Hh. pose proof Hrep as [Hs Hlen Hch Hnd Hpl Hm].
  destruct (concat_insert cs i c (l :: c) Hc) as (l1 & l2 & E1 & E2).
  assert (concat (<[i:=l :: c]> cs) ≡ₚ l :: concat cs) as HE.
  { rewrite E1, E2. simpl. by rewrite <- Permutation_middle. }
  split; simpl; [done|by rewrite length_insert| | | |].
  - rewrite Nat2Z.id. apply Forall2_insert; [done|]. split; [done|]. exists e. split; [done|].
    rewrite Hn. by eapply Forall2_lookup_lr.
  - rewrite HE. by constructor.
  - intros j d l0 e0 Hd Hl0 He0. apply list_lookup_insert_Some in Hd as [(-> & <- & _)|[_ Hd]].
    + apply elem_of_cons in Hl0 as [->|Hl0]; [|by eapply Hpl].
      rewrite He in He0. by apply (inj Some) in He0 as <-.
    + by eapply Hpl.
  - intros k l0. rewrite HE, elem_of_cons, lookup_insert_Some, Hm. split.
    + intros [[<- <-]|[Hne [Hl0 Hk0]]]; [split; [by left|by exists e]|split; [by right|done]].
    + intros [[->|Hl0] Hk0].
      * left. split; [|done]. eapply (key_at_fun h l); [by exists e|done].
      * right. split; [|done]. intros <-. assert (m !! conn_key (ce_tuple e) = Some l0) as Habs.
        { by apply Hm. }
        by rewrite Hk in Habs.
Qed.

Lemma insert_absent h ht cs m key l e :
  ht_rep h ht cs m → m !! conn_key key = None → h !! l = Some e → l ∉ concat cs →
  conn_key (ce_tuple e) = conn_key key →
  ∃ h' ht' cs', hashtable_insert h ht key l = Ok (0, h', ht') ∧
    ht_rep h' ht' cs' (<[conn_key key := l]> m) ∧
    ht_entries ht' = ht_entries ht +₆₄ 1 ∧ payload h' = payload h.
Proof.
  intros Hrep Hl He Hfresh Hke.
  destruct (rep_bucket Hrep key) as (i & p & c & Hi & Hp & Hhash & Hbp & Hc & Hpc & Hf).
  rewrite Hl in Hf. unfold hashtable_insert. rewrite Hi. cbn [rbind]. rewrite Hp. cbn [rbind].
  rewrite Hf. cbn [rbind]. rewrite (store_Ok _ _ _ _ He). cbn [rbind].
  eexists _, _, (<[i := l :: c]> cs). split; [done|].
  split; [|split; [done|by apply payload_set_next]].
  rewrite <- Hke. change (ce_tuple e) with (ce_tuple (set_next p e)).
  apply rep_extend with p; try done.
  - apply (rep_frame h); [done|]. intros l' Hl'. apply same_node_other; [set_solver|auto with heap].
  - by rewrite lookup_insert_eq.
  - simpl. by rewrite Hke.
  - simpl. by rewrite (conn_tuple_hash_key _ _ Hke).
Qed.

(** Inserting under a key that is present: the chain now ends where the new
    entry's own [next] led, which for a new entry is nowhere. *)
Lemma insert_present h ht cs m key l e :
  ht_rep h ht cs m → is_Some (m !! conn_key key) → h !! l = Some e → ce_next e = None →
  conn_key (ce_tuple e) = conn_key key →
  ∃ curr i ls1 ls2 cs' m', m !! conn_key key = Some curr ∧
    cs !! i = Some (ls1 ++ curr :: ls2) ∧
    hashtable_insert h ht key l = Ok (0, <[curr := e]> h, ht) ∧
    ht_rep (<[curr := e]> h) ht cs' m' ∧
    (∀ k l0, m' !! k = Some l0 ↔ m !! k = Some l0 ∧ l0 ∉ ls2).
Proof.
  intros Hrep [curr Hl] He Hn Hke.
  destruct (rep_bucket Hrep key) as (i & p & c & Hi & Hp & _ & Hbp & Hc & Hpc & Hf).
  rewrite Hl in Hf. destruct Hf as (ls1 & ls2 & -> & Hf).
  destruct (rep_lookup_live Hrep _ _ Hl) as (ec & Hec & Hkc).
  exists curr, i, ls1, ls2, (<[i := ls1 ++ [curr]]> cs), (filter (λ kv, kv.2 ∉ ls2) m).
  split; [done|]. split; [done|]. split; [|split].
  - unfold hashtable_insert. rewrite Hi. cbn [rbind]. rewrite Hp. cbn [rbind]. rewrite Hf.
    cbn [rbind]. unfold load. rewrite He. cbn [rbind]. rewrite (store_Ok _ _ _ _ Hec). cbn [rbind].
    erewrite store_Ok by apply lookup_insert_eq. cbn [rbind].
    rewrite insert_insert_eq. do 3 f_equal. by destruct e.
  - replace ht with (set_head ht (Z.of_nat i) p (ht_entries ht))
      by (unfold set_head; rewrite Nat2Z.id, list_insert_id by done; by destruct ht).
    pose proof (chain_NoDup _ _ _ _ Hpc) as (_ & Hd & [Hc2 _]%NoDup_cons)%NoDup_app.
    pose proof (chain_NoDup _ _ _ _ Hpc) as Hnd. rewrite cons_middle, app_assoc in Hnd.
    apply NoDup_app in Hnd as (Hnd1 & Hd2 & _).
    eapply (rep_shrink h _ ht cs m _ i _ (ls1 ++ [curr])); try done.
    + set_solver.
    + assert (curr ∉ ls1) as Hcl by (intros ?%Hd; set_solver).
      clear -Hpc Hn Hcl. revert p Hpc. induction ls1 as [|a ls1 IH]; intros p Hpc; simpl in *.
      * destruct Hpc as (-> & _). split; [done|]. exists e. rewrite lookup_insert_eq. done.
      * destruct Hpc as (-> & ea & Hea & Hpc). split; [done|]. exists ea.
        rewrite lookup_insert_ne by set_solver. split; [done|]. apply IH; [set_solver|done].
    + intros l' _. destruct (decide (l' = curr)) as [->|]; [|auto with heap].
      intros e' He'. rewrite Hec in He'. apply (inj Some) in He' as <-. exists e.
      rewrite lookup_insert_eq. split; [done|]. by rewrite Hke.
    + intros l' _ Hl'. apply same_node_other; [set_solver|auto with heap].
    + intros k l0. rewrite map_lookup_filter_Some. simpl. split; intros [Hm Hx]; (split; [done|]).
      * intros Hin. rewrite cons_middle, app_assoc in Hin. by apply elem_of_app in Hin as [?|?].
      * intros Hin2. eapply (Hd2 l0); [|done]. apply Hx. set_solver.
  - intros k l0. apply map_lookup_filter_Some.
Qed.

(** ** Whole-table walks *)

Lemma rep_entries_perm h ht cs m : ht_rep h ht cs m → concat cs ≡ₚ (map_to_list m).*2.
Proof.
  intros Hrep. apply NoDup_Permutation; [by destruct Hrep| |].
  - pose proof (NoDup_map_to_list m) as Hnd.
    assert (∀ x y, x ∈ map_to_list m → y ∈ map_to_list m → x.2 = y.2 → x = y) as Hinj.
    { intros [k1 l1] [k2 l2] H1%elem_of_map_to_list H2%elem_of_map_to_list. simpl. intros ->.
      f_equal. by eapply (rep_lookup_inj Hrep). }
    induction Hnd as [|x l Hx Hnd IH]; simpl; constructor.
    + intros (y & Hy & Hyl)%list_elem_of_fmap. apply Hx.
      by rewrite (Hinj x y) by (done || left || by right).
    + apply IH. intros a b Ha Hb. apply Hinj; by right.
  - intros l. rewrite list_elem_of_fmap. split.
    + intros Hl. destruct (rep_live Hrep l Hl) as [e He].
      exists (conn_key (ce_tuple e), l). split; [done|]. apply elem_of_map_to_list.
      apply (rep_map _ _ _ _ Hrep). split; [done|by exists e].
    + intros ([k l'] & -> & Hin%elem_of_map_to_list). simpl.
      by apply (rep_map _ _ _ _ Hrep) in Hin as [? _].
Qed.

Lemma free_buckets_chains h bs cs :
  Forall2 (chain ce_next h) bs cs → NoDup (concat cs) →
  free_buckets h bs = Ok (foldl (λ h l, delete l h) h (concat cs)).
Proof.
  intros Hf. revert h Hf. revert cs.
  induction bs as [|p bs IH]; intros cs h Hf Hnd; inversion Hf as [|? c ? cs' Hc Hcs]; subst; [done|].
  cbn [free_buckets concat] in *. apply NoDup_app in Hnd as (_ & Hd & Hnd).
  rewrite (free_list_chain _ _ _ _ c) by (done || (apply chain_size in Hc; unfold walk_fuel; lia)).
  cbn [rbind]. rewrite foldl_app. apply IH; [|done].
  apply Forall2_same_length_lookup_2; [by eapply Forall2_length|].
  intros i q d Hq Hd'. eapply chain_frame, Forall2_lookup_lr, Hd'; [|done|done].
  intros l e Hl He. exists e. split; [|done]. rewrite foldl_delete_lookup, decide_False; [done|].
  intros Hlc. apply (Hd l); [done|]. apply elem_of_concat. eauto.
Qed.

(** The callback's results along a list of entries. *)
Fixpoint visit {U} (cb : conn_entry → U → Z * U) (es : list conn_entry) (count : Z) (u : U)
    : Z * U :=
  match es with
  | [] => (count, u)
  | e :: es' => let '(ret, u) := cb e u in
      if negb (ret =? 0) then (ret, u) else visit cb es' (count + 1) u
  end.

Section foreach_spec.
Context {U : Type} (cb : conn_entry → U → Z * U).

Lemma foreach_chain_visit fuel h p ls count u :
  chain ce_next h p ls → (length ls <= fuel)%nat →
  ∃ es, Forall2 (λ l e, h !! l = Some e) ls es ∧
    ∃ r u', foreach_chain cb fuel h p count u = Ok (r, u') ∧
      ∀ es', visit cb (es ++ es') count u
             = match r with inl ret => (ret, u') | inr count => visit cb es' count u' end.
Proof.
  revert fuel p count u. induction ls as [|l ls IH]; intros fuel p count u Hc Hf.
  - simpl in Hc. subst. exists []. split; [done|]. exists (inr count), u. by destruct fuel.
  - destruct Hc as (-> & e & He & Hc). destruct fuel as [|fuel]; simpl in *; [lia|].
    unfold load. rewrite He. cbn [rbind]. destruct (cb e u) as [ret u1] eqn:Ecb.
    destruct (IH fuel (ce_next e) (count + 1) u1) as (es & Hes & r & u' & Hr & Hv); [done|lia|].
    exists (e :: es). split; [by constructor|]. cbn [app visit]. setoid_rewrite Ecb.
    destruct (negb (ret =? 0)); [|eauto]. exists (inl ret), u1. done.
Qed.

Lemma foreach_buckets_visit h bs cs count u :
  Forall2 (chain ce_next h) bs cs →
  ∃ es, Forall2 (λ l e, h !! l = Some e) (concat cs) es ∧
    foreach_buckets cb h bs count u = Ok (visit cb es count u).
Proof.
  intros Hf. revert count u. induction Hf as [|p c bs cs Hc Hcs IH]; intros count u.
  - by exists [].
  - destruct (foreach_chain_visit (walk_fuel h) h p c count u Hc) as (es1 & Hes1 & r & u1 & Hr & Hv).
    { apply chain_size in Hc. unfold walk_fuel. lia. }
    cbn [foreach_buckets concat]. rewrite Hr. cbn [rbind]. destruct r as [ret|count1].
    + destruct (IH count u) as (es2 & Hes2 & _).
      exists (es1 ++ es2). split; [by apply Forall2_app|]. by rewrite Hv.
    + destruct (IH count1 u1) as (es2 & Hes2 & ->).
      exists (es1 ++ es2). split; [by apply Forall2_app|]. by rewrite Hv.
Qed.
End foreach_spec.

(** ** What the table promises

    The contract [LruCache] is proved against: [rep h t m] says that [t] in the
    heap [h] stands for [m]. *)
Class TableContract (rep : heap → hashtable → gmap conn_key_t loc → Prop) : Prop := {
  tc_lookup h t m key : rep h t m → hashtable_lookup h t key = Ok (m !! conn_key key);
  tc_live h t m k l : rep h t m → m !! k = Some l → key_at h l k;
  tc_insert h t m key l e :
    rep h t m → m !! conn_key key = None → h !! l = Some e → (∀ k, m !! k ≠ Some l) →
    conn_key (ce_tuple e) = conn_key key →
    ∃ h' t', hashtable_insert h t key l = Ok (0, h', t') ∧
      rep h' t' (<[conn_key key := l]> m) ∧ payload h' = payload h;
  tc_remove h t m key l :
    rep h t m → m !! conn_key key = Some l →
    ∃ h' t', hashtable_remove h t key = Ok (0, h', t') ∧
      rep h' t' (delete (conn_key key) m) ∧ payload h' = delete l (payload h);
  tc_frame h h' t m :
    rep h t m → (∀ k l, m !! k = Some l → same_node h h' l) → rep h' t m;
  tc_destroy_freed h h' t m :
    rep h t m → m ≠ ∅ → (∀ k l, m !! k = Some l → h' !! l = None) →
    hashtable_destroy h' t = Undef UseAfterFree
}.

Lemma rep_fresh h ht cs m l :
  ht_rep h ht cs m → (∀ k, m !! k ≠ Some l) → l ∉ concat cs.
Proof.
  intros Hrep Hl Hin. destruct (rep_live Hrep l Hin) as [e He].
  apply (Hl (conn_key (ce_tuple e))), (rep_map _ _ _ _ Hrep). split; [done|by exists e].
Qed.

(** Walking buckets whose entries have been freed. *)
Lemma free_buckets_freed h h' bs cs :
  Forall2 (chain ce_next h) bs cs → concat cs ≠ [] → (∀ l, l ∈ concat cs → h' !! l = None) →
  free_buckets h' bs = Undef UseAfterFree.
Proof.
  induction 1 as [|p c bs cs Hc Hcs IH]; intros Hne Hf; [done|].
  destruct c as [|l c]; simpl in *.
  - subst p. cbn. by apply IH.
  - destruct Hc as (-> & _). unfold load. by rewrite Hf by left.
Qed.

Lemma u64_succ n : u64 (Z.of_nat n) +₆₄ 1 = u64 (Z.of_nat (S n)).
Proof. cint. Qed.
Lemma u64_pred n : u64 (Z.of_nat (S n)) -₆₄ 1 = u64 (Z.of_nat n).
Proof. cint. Qed.

#[export] Instance ht_ok_contract : TableContract ht_ok.
Proof.
  split.
  - intros h t m key [[cs Hrep] _]. by eapply rep_lookup.
  - intros h t m k l [[cs Hrep] _]. by eapply rep_lookup_live.
  - intros h t m key l e [[cs Hrep] Hn] Hk He Hl Hke.
    destruct (insert_absent h t cs m key l e) as (h' & t' & cs' & Hi & Hrep' & Hn' & Hpay);
      [done..|by eapply rep_fresh|done|].
    exists h', t'. split; [done|]. split; [|done]. split; [by exists cs'|].
    by rewrite Hn', Hn, map_size_insert_None, u64_succ.
  - intros h t m key l [[cs Hrep] Hn] Hk.
    destruct (remove_present h t cs m key l) as (h' & t' & cs' & Hi & Hrep' & Hn' & Hpay); [done..|].
    exists h', t'. split; [done|]. split; [|done]. split; [by exists cs'|].
    assert (size m = S (size (delete (conn_key key) m))) as Hsz.
    { rewrite <- (insert_delete_id m (conn_key key) l) at 1 by done.
      apply map_size_insert_None, lookup_delete_eq. }
    by rewrite Hn', Hn, Hsz, u64_pred.
  - intros h h' t m [[cs Hrep] Hn] Hs. split; [|done]. exists cs.
    eapply rep_frame; [done|]. intros l Hl. destruct (rep_live Hrep l Hl) as [e He].
    apply (Hs (conn_key (ce_tuple e))), (rep_map _ _ _ _ Hrep). split; [done|by exists e].
  - intros h h' t m [[cs Hrep] _] Hne Hf.
    apply (free_buckets_freed h _ _ cs); [by destruct Hrep| |].
    + intros Hnil. apply Hne, map_empty. intros k. destruct (m !! k) as [l|] eqn:Hl; [|done].
      apply (rep_map _ _ _ _ Hrep) in Hl as [Hl _]. rewrite Hnil in Hl.
      by apply not_elem_of_nil in Hl.
    + intros l Hl. destruct (rep_live Hrep l Hl) as [e He].
      apply (Hf (conn_key (ce_tuple e))), (rep_map _ _ _ _ Hrep). split; [done|by exists e].
Qed.

(** A new table is the empty map, whatever is in the heap. *)
Lemma create_ok h size ht :
  0 < size < 2 ^ 32 → hashtable_create true true size = Some ht → ht_ok h ht ∅.
Proof.
  intros Hs Hc. apply (inj Some) in Hc as <-. split; [|done].
  exists (replicate (Z.to_nat size) []).
  pose proof (concat_replicate_nil (A := loc) (Z.to_nat size)) as Hnil.
  split; simpl; rewrite ?Hnil; [done|rewrite length_replicate; lia| |constructor| |].
  - apply Forall2_same_length_lookup_2; [by rewrite !length_replicate|].
    intros i p c [-> _]%lookup_replicate [-> _]%lookup_replicate. done.
  - intros i c l e [-> _]%lookup_replicate Hl. by apply not_elem_of_nil in Hl.
  - intros k l. rewrite lookup_empty. split; [done|]. intros [Hl _]. by apply not_elem_of_nil in Hl.
Qed.

(** A one-bucket table, for examples. *)
Lemma single_bucket_ok h p ls ks :
  chain ce_next h p ls → Forall2 (key_at h) ls ks → NoDup ks →
  ht_ok h (Hashtable [p] 1 (u64 (Z.of_nat (length ks)))) (list_to_map (zip ks ls)).
Proof.
  intros Hc Hk Hnd. pose proof (Forall2_length _ _ _ Hk) as Hlen.
  assert (NoDup (zip ks ls).*1) as Hnd1 by (rewrite fst_zip by lia; done).
  split.
  2: { simpl. rewrite map_size_list_to_map by done. rewrite length_zip. do 2 f_equal. lia. }
  exists [ls]. split; simpl; rewrite ?app_nil_r; [lia|done|by repeat constructor|by eapply chain_NoDup| |].
  - intros [|i] c l e Hi Hl He; simplify_eq/=. apply Z.mod_1_r.
  - intros k l. rewrite <- elem_of_list_to_map by done. split.
    + intros (i & Hi)%list_elem_of_lookup. rewrite lookup_zip_with_Some in Hi.
      destruct Hi as (k' & l' & [= -> ->] & Hk' & Hl'). split; [by eapply list_elem_of_lookup_2|].
      by eapply Forall2_lookup_lr.
    + intros [[i Hi]%list_elem_of_lookup Hkl].
      destruct (Forall2_lookup_l _ _ _ _ _ Hk Hi) as (k' & Hk' & Hat).
      rewrite (key_at_fun _ _ _ _ Hkl Hat). apply list_elem_of_lookup. exists i.
      rewrite lookup_zip_with_Some. eauto.
Qed.

(** ** Properties *)

(** C9: A table that stands for a map answers every lookup as the map does, and
    inserting a new entry under a key that is not there returns 0, adds exactly
    that binding, keeps the size counter equal to the number of keys, and
    changes nothing in the heap but [next] links. *)
Theorem hashtable_insert_refines h ht m key l e :
  ht_ok h ht m → m !! conn_key key = None → h !! l = Some e → (∀ k, m !! k ≠ Some l) →
  conn_key (ce_tuple e) = conn_key key →
  ∃ h' ht', hashtable_insert h ht key l = Ok (0, h', ht') ∧
    payload h' = payload h ∧
    hashtable_size ht' = u64 (Z.of_nat (S (size m))) ∧
    ∀ key', hashtable_lookup h' ht' key'
            = Ok (if decide (conn_key key' = conn_key key) then Some l else m !! conn_key key').
Proof.
  intros Hok Hk He Hl Hke.
  destruct (tc_insert h ht m key l e Hok Hk He Hl Hke) as (h' & ht' & Hi & Hok' & Hpay).
  exists h', ht'. split_and!; [done|done| |].
  - destruct Hok' as [_ Hn]. unfold hashtable_size. by rewrite Hn, map_size_insert_None.
  - intros key'. rewrite (tc_lookup _ _ _ _ Hok'). case_decide as Heq.
    + by rewrite Heq, lookup_insert_eq.
    + by rewrite lookup_insert_ne.
Qed.

Definition example_tuple (host : Z) : conn_tuple :=
  ConnTuple (ip4 10 0 0 host) (ip4 192 168 0 1) 1234 80 PROTO_TCP.
Definition example_entry (host : Z) (next : option loc) : conn_entry :=
  ConnEntry (example_tuple host) TCP_STATE_CLOSED 0 0 0 0 0 next None None.

Lemma hashtable_insert_refines_witness :
  ∃ h' ht', hashtable_insert {[1%positive := example_entry 1 None]}
      (Hashtable [None; None; None] 3 0) (example_tuple 1) 1%positive = Ok (0, h', ht') ∧
    hashtable_lookup h' ht' (example_tuple 1) = Ok (Some 1%positive).
Proof.
  destruct (hashtable_insert_refines {[1%positive := example_entry 1 None]}
    (Hashtable [None; None; None] 3 0) ∅ (example_tuple 1) 1%positive (example_entry 1 None))
    as (h' & ht' & Hi & _ & _ & Hl).
  - by apply (create_ok _ 3).
  - done.
  - done.
  - intros k. by rewrite lookup_empty.
  - done.
  - exists h', ht'. split; [done|]. rewrite Hl. by rewrite decide_True.
Defined.

(** C22: Removing a key returns 0 exactly when the key is present; then its entry
    and only it is freed, the other bindings stay, and the counter follows. *)
Theorem hashtable_remove_refines h ht m key :
  ht_ok h ht m →
  match m !! conn_key key with
  | None => hashtable_remove h ht key = Ok (-1, h, ht)
  | Some l => ∃ h' ht', hashtable_remove h ht key = Ok (0, h', ht') ∧
      payload h' = delete l (payload h) ∧
      hashtable_size ht' = u64 (Z.of_nat (size (delete (conn_key key) m))) ∧
      ∀ key', hashtable_lookup h' ht' key'
              = Ok (if decide (conn_key key' = conn_key key) then None else m !! conn_key key')
  end.
Proof.
  intros Hok. destruct (m !! conn_key key) as [l|] eqn:Hk.
  - destruct (tc_remove h ht m key l Hok Hk) as (h' & ht' & Hr & Hok' & Hpay).
    exists h', ht'. split_and!; [done|done|by destruct Hok'|].
    intros key'. rewrite (tc_lookup _ _ _ _ Hok'). case_decide as Heq.
    + by rewrite Heq, lookup_delete_eq.
    + by rewrite lookup_delete_ne.
  - destruct Hok as [[cs Hrep] _]. by eapply remove_absent.
Qed.

(** Two entries in one bucket. *)
Definition example_heap : heap :=
  {[1%positive := example_entry 1 (Some 2%positive); 2%positive := example_entry 2 None]}.
Definition example_table : hashtable := Hashtable [Some 1%positive] 1 2.
Definition example_map : gmap conn_key_t loc :=
  list_to_map (zip [conn_key (example_tuple 1); conn_key (example_tuple 2)]
                   [1%positive; 2%positive]).

Lemma example_ok : ht_ok example_heap example_table example_map.
Proof.
  apply (single_bucket_ok example_heap _ [1%positive; 2%positive]
    [conn_key (example_tuple 1); conn_key (example_tuple 2)]).
  - split; [done|]. eexists. split; [reflexivity|]. split; [done|]. eexists. by split.
  - repeat constructor; eexists; (split; [reflexivity|done]).
  - apply (bool_decide_unpack _). by vm_compute.
Qed.

Lemma hashtable_remove_refines_witness :
  ∃ h' ht', hashtable_remove example_heap example_table (example_tuple 2) = Ok (0, h', ht') ∧
    hashtable_lookup h' ht' (example_tuple 1) = Ok (Some 1%positive) ∧ hashtable_size ht' = 1.
Proof.
  pose proof (hashtable_remove_refines _ _ _ (example_tuple 2) example_ok) as H.
  replace (example_map !! conn_key (example_tuple 2)) with (Some 2%positive) in H by done.
  destruct H as (h' & ht' & Hr & _ & Hs & Hl). exists h', ht'. split; [done|]. split.
  - rewrite Hl. by rewrite decide_False by (by vm_compute).
  - rewrite Hs. reflexivity.
Defined.

(** Iterating calls the callback once on every entry of the map, in chain
    order, stops at the first non-zero result and returns it, and otherwise
    returns the number of entries. *)
Theorem hashtable_foreach_visits_all {U} (cb : conn_entry → U → Z * U) h ht m u :
  ht_ok h ht m →
  ∃ ls es, ls ≡ₚ (map_to_list m).*2 ∧ Forall2 (λ l e, h !! l = Some e) ls es ∧
    hashtable_foreach cb h ht u = Ok (visit cb es 0 u).
Proof.
  intros [[cs Hrep] _].
  destruct (foreach_buckets_visit cb h (ht_buckets ht) cs 0 u) as (es & Hes & Hv);
    [by destruct Hrep|].
  exists (concat cs), es. split; [by eapply rep_entries_perm|]. by split.
Qed.

Lemma hashtable_foreach_visits_all_witness :
  ∃ ls es, ls ≡ₚ [1%positive; 2%positive] ∧
    Forall2 (λ l e, example_heap !! l = Some e) ls es ∧
    hashtable_foreach (λ e n, (0, n + src_port (ce_tuple e))) example_heap example_table 0
    = Ok (visit (λ e n, (0, n + src_port (ce_tuple e))) es 0 0) ∧
    hashtable_foreach (λ e n, (0, n + src_port (ce_tuple e))) example_heap example_table 0
    = Ok (2, 2468).
Proof.
  destruct (hashtable_foreach_visits_all (λ e n, (0, n + src_port (ce_tuple e)))
    _ _ _ 0 example_ok) as (ls & es & Hp & Hes & Hv).
  exists ls, es. split; [|split; [done|split; [done|reflexivity]]].
  rewrite Hp. by (vm_compute; constructor).
Defined.

(** Clearing, and destroying, a table frees exactly its entries, each once;
    clearing leaves the empty table. *)
Theorem hashtable_clear_frees_all h ht m :
  ht_ok h ht m →
  ∃ h' ht', hashtable_clear h ht = Ok (h', ht') ∧ hashtable_destroy h ht = Ok h' ∧
    (∀ key, hashtable_lookup h' ht' key = Ok None) ∧ hashtable_size ht' = 0 ∧
    (∀ k l, m !! k = Some l → h' !! l = None) ∧
    (∀ l, (∀ k, m !! k ≠ Some l) → h' !! l = h !! l).
Proof.
  intros [[cs Hrep] _]. pose proof Hrep as [Hs Hlen Hch Hnd Hpl Hm].
  unfold hashtable_clear, hashtable_destroy.
  rewrite (free_buckets_chains _ _ cs) by done. cbn [rbind].
  eexists _, _. split; [done|]. split; [done|]. split_and!.
  - intros key. set (h' := foldl _ _ _).
    assert (ht_ok h' (Hashtable (replicate (length (ht_buckets ht)) None) (ht_size ht) 0) ∅) as Hok.
    { eapply create_ok; [done|]. unfold hashtable_create. do 3 f_equal. lia. }
    by rewrite (tc_lookup _ _ _ key Hok).
  - done.
  - intros k l [Hl _]%Hm. by rewrite foldl_delete_lookup, decide_True.
  - intros l Hl. rewrite foldl_delete_lookup, decide_False; [done|]. by eapply rep_fresh.
Qed.

Lemma hashtable_clear_frees_all_witness :
  ∃ h' ht', hashtable_clear example_heap example_table = Ok (h', ht') ∧
    h' !! 1%positive = None ∧ h' !! 2%positive = None.
Proof.
  destruct (hashtable_clear_frees_all _ _ _ example_ok) as (h' & ht' & Hc & _ & _ & _ & Hf & _).
  exists h', ht'. split; [done|]. split; [apply (Hf (conn_key (example_tuple 1)))|
    apply (Hf (conn_key (example_tuple 2)))]; reflexivity.
Defined.

(** Inserting a fresh entry under a key that is present returns 0 but cuts
    the bucket's chain after that key: every entry that followed it can no
    longer be found, although the counter still counts it. *)
Theorem hashtable_update_loses_tail h ht m key l e :
  ht_ok h ht m → is_Some (m !! conn_key key) → h !! l = Some e → ce_next e = None →
  conn_key (ce_tuple e) = conn_key key →
  ∃ curr lost h', m !! conn_key key = Some curr ∧
    (∃ pre p idx, bucket_idx ht key = Ok idx ∧ bucket_head ht idx = Ok p ∧
      chain ce_next h p (pre ++ curr :: lost)) ∧
    hashtable_insert h ht key l = Ok (0, h', ht) ∧
    ∀ key', hashtable_lookup h' ht key'
            = Ok (match m !! conn_key key' with
                  | Some l' => if decide (l' ∈ lost) then None else Some l'
                  | None => None
                  end).
Proof.
  intros [[cs Hrep] _] Hk He Hn Hke.
  destruct (insert_present h ht cs m key l e Hrep Hk He Hn Hke)
    as (curr & i & ls1 & ls2 & cs' & m' & Hcurr & Hc & Hi & Hrep' & Hm').
  exists curr, ls2, (<[curr := e]> h). split; [done|]. split; [|split; [done|]].
  - destruct (rep_bucket Hrep key) as (j & p & c & Hj & Hp & Hh & _ & Hc' & Hpc & _).
    exists ls1, p, (Z.of_nat j). split; [done|]. split; [done|]. replace (ls1 ++ _) with c; [done|].
    destruct (rep_lookup_live Hrep _ _ Hcurr) as (ec & Hec & Hkc).
    pose proof (rep_place _ _ _ _ Hrep i _ curr ec Hc ltac:(set_solver) Hec) as Hpl.
    rewrite (conn_tuple_hash_key _ _ Hkc) in Hpl. assert (i = j) as -> by lia. congruence.
  - intros key'. rewrite (rep_lookup Hrep'). f_equal.
    destruct (m' !! conn_key key') as [l'|] eqn:Hl'.
    + apply Hm' in Hl' as [-> Hno]. by rewrite decide_False.
    + destruct (m !! conn_key key') as [l'|] eqn:Hl''; [|done]. case_decide as Hin; [done|].
      assert (m' !! conn_key key' = Some l') as Habs by by apply Hm'. by rewrite Hl' in Habs.
Qed.

Lemma hashtable_update_loses_tail_witness :
  let h := <[3%positive := example_entry 1 None]> example_heap in
  (∃ (curr : loc) (lost : list loc) h', example_map !! conn_key (example_tuple 1) = Some curr ∧
    hashtable_insert h example_table (example_tuple 1) 3%positive = Ok (0, h', example_table) ∧
    hashtable_lookup h' example_table (example_tuple 2)
    = Ok (if decide (2%positive ∈ lost) then None else Some 2%positive)) ∧
  (let* (rest, ht) := hashtable_insert h example_table (example_tuple 1) 3%positive in
   hashtable_lookup rest.2 ht (example_tuple 2)) = Ok None.
Proof.
  intros h. split; [|by vm_compute].
  destruct (hashtable_update_loses_tail h example_table example_map (example_tuple 1) 3%positive
    (example_entry 1 None)) as (curr & lost & h' & Hc & _ & Hi & Hl).
  - eapply tc_frame; [apply example_ok|]. intros k l Hl. apply same_node_other; [|apply same_node_refl].
    intros ->. apply elem_of_list_to_map in Hl; [by vm_compute in Hl; set_solver|].
    apply (bool_decide_unpack _). by vm_compute.
  - by eexists.
  - by vm_compute.
  - done.
  - done.
  - exists curr, lost, h'. split; [done|]. split; [done|]. rewrite Hl. reflexivity.
Defined.
