(* ===== verification/LruCache.v ===== *)
(** * The LRU connection cache

    [src/storage/lru_cache.c]: a hash table whose entries are also linked in a
    doubly linked list, most recently used first. The first part models every
    operation, pointer writes included; the second shows that lookups keep the
    list in recency order up to the capacity, and what the operations that drop
    an entry do: [hashtable_remove] has already freed it. *)

From S2P Require Import Prelude Common Hash ConnHeap HashTable.

Record lru_cache := LruCache {
  lc_table : hashtable;
  lc_head : option loc;
  lc_tail : option loc;
  lc_max_size : Z;       (* uint32_t *)
  lc_current_size : Z    (* uint32_t *)
}.

Definition with_list (c : lru_cache) (head tail : option loc) : lru_cache :=
  LruCache (lc_table c) head tail (lc_max_size c) (lc_current_size c).
Definition with_table (c : lru_cache) (t : hashtable) (size : Z) : lru_cache :=
  LruCache t (lc_head c) (lc_tail c) (lc_max_size c) size.

(** [calloc1] is the cache's own allocation, the others the table's. *)
Definition lru_cache_create (calloc1 calloc2 calloc3 : bool) (max_size : Z) : option lru_cache :=
  if calloc1 then
    match hashtable_create calloc2 calloc3 max_size with
    | Some t => Some (LruCache t None None max_size 0)
    | None => None
    end
  else None.

(** The two assignments that take an entry out of the list. *)
Definition lru_unlink (h : heap) (l : loc) : res heap :=
  let* e := load h l in
  let* h := store_opt h (ce_lru_prev e) (set_lru_next (ce_lru_next e)) in
  let* e := load h l in
  store_opt h (ce_lru_next e) (set_lru_prev (ce_lru_prev e)).

(** The assignments that put one in front. *)
Definition lru_push_head (h : heap) (c : lru_cache) (l : loc) : res (heap * lru_cache) :=
  let* h := store h l (set_lru_next (lc_head c)) in
  let* h := store h l (set_lru_prev None) in
  let* h := store_opt h (lc_head c) (set_lru_prev (Some l)) in
  Ok (h, with_list c (Some l) (match lc_tail c with None => Some l | t => t end)).

Definition lru_move_to_head (h : heap) (c : lru_cache) (l : loc) : res (heap * lru_cache) :=
  if decide (lc_head c = Some l) then Ok (h, c)
  else
    let* h := lru_unlink h l in
    let* e := load h l in
    let c := with_list c (lc_head c)
               (if decide (lc_tail c = Some l) then ce_lru_prev e else lc_tail c) in
    lru_push_head h c l.

Definition lru_evict_lru (h : heap) (c : lru_cache) : res (option loc * heap * lru_cache) :=
  match lc_tail c with
  | None => Ok (None, h, c)
  | Some l =>
      let* e := load h l in
      let* h := store_opt h (ce_lru_prev e) (set_lru_next None) in
      let* e := load h l in
      let c := with_list c (if decide (lc_head c = Some l) then None else lc_head c)
                 (ce_lru_prev e) in
      let* (rest, t) := hashtable_remove h (lc_table c) (ce_tuple e) in
      Ok (Some l, rest.2, with_table c t (lc_current_size c -₃₂ 1))
  end.

Definition new_entry (key : conn_tuple) (now : Z) : conn_entry :=
  ConnEntry key TCP_STATE_CLOSED now now 0 0 0 None None None.

(** [alloc] is the result of [calloc], an address not in use, or [None]. *)
Definition lru_cache_get (h : heap) (c : lru_cache) (key : conn_tuple) (now : Z)
    (alloc : option loc) : res (option loc * heap * lru_cache) :=
  let* found := hashtable_lookup h (lc_table c) key in
  match found with
  | Some l =>
      let* (h, c) := lru_move_to_head h c l in
      let* h := store h l (set_last_seen now) in
      Ok (Some l, h, c)
  | None =>
      match alloc with
      | None => Ok (None, h, c)
      | Some l =>
          let h := <[l := new_entry key now]> h in
          let* (h, c) :=
            (if lc_max_size c <=? lc_current_size c then
               let* (r, c) := lru_evict_lru h c in
               match r.1 with
               | Some evicted => let* h := free r.2 evicted in Ok (h, c)
               | None => Ok (r.2, c)
               end
             else Ok (h, c)) in
          let* (r, t) := hashtable_insert h (lc_table c) key l in
          let* (h, c) := lru_push_head r.2 (with_table c t (lc_current_size c)) l in
          Ok (Some l, h, with_table c (lc_table c) (lc_current_size c +₃₂ 1))
      end
  end.

Definition lru_cache_update (h : heap) (c : lru_cache) (l : loc) (now : Z)
    : res (Z * heap * lru_cache) :=
  let* (h, c) := lru_move_to_head h c l in
  let* h := store h l (set_last_seen now) in
  Ok (0, h, c).

(** What [lru_cache_remove] and the expiry sweep share: out of the list, out of
    the table, and [free]. *)
Definition lru_drop (h : heap) (c : lru_cache) (l : loc) (key : conn_entry → conn_tuple)
    : res (heap * lru_cache) :=
  let* h := lru_unlink h l in
  let* e := load h l in
  let c := with_list c (if decide (lc_head c = Some l) then ce_lru_next e else lc_head c)
             (if decide (lc_tail c = Some l) then ce_lru_prev e else lc_tail c) in
  let* (r, t) := hashtable_remove h (lc_table c) (key e) in
  let* h := free r.2 l in
  Ok (h, with_table c t (lc_current_size c -₃₂ 1)).

Definition lru_cache_remove (h : heap) (c : lru_cache) (key : conn_tuple)
    : res (Z * heap * lru_cache) :=
  let* found := hashtable_lookup h (lc_table c) key in
  match found with
  | None => Ok (-1, h, c)
  | Some l => let* (h, c) := lru_drop h c l (λ _, key) in Ok (0, h, c)
  end.

Definition lru_cache_size (c : lru_cache) : Z := lc_current_size c.

Definition TCP_SYN_TIMEOUT : Z := 30.
Definition TCP_ESTABLISHED_TIMEOUT : Z := 7200.
Definition TCP_FIN_TIMEOUT : Z := 30.
Definition UDP_TIMEOUT : Z := 60.
Definition ICMP_TIMEOUT : Z := 10.

Definition conn_timeout (e : conn_entry) : Z :=
  if protocol (ce_tuple e) =? PROTO_TCP then
    match ce_state e with
    | TCP_STATE_SYN_SENT | TCP_STATE_SYN_RECEIVED => TCP_SYN_TIMEOUT
    | TCP_STATE_ESTABLISHED => TCP_ESTABLISHED_TIMEOUT
    | TCP_STATE_FIN_WAIT | TCP_STATE_CLOSE_WAIT => TCP_FIN_TIMEOUT
    | _ => TCP_SYN_TIMEOUT
    end
  else if protocol (ce_tuple e) =? PROTO_UDP then UDP_TIMEOUT
  else if protocol (ce_tuple e) =? PROTO_ICMP then ICMP_TIMEOUT
  else UDP_TIMEOUT.

Definition conn_expired (now : Z) (e : conn_entry) : bool :=
  conn_timeout e <? now - ce_last_seen e.

(** From the tail along [lru_prev]. *)
Fixpoint cleanup_loop (fuel : nat) (h : heap) (c : lru_cache) (now : Z) (p : option loc)
    (cleaned : Z) : res (Z * heap * lru_cache) :=
  match p with
  | None => Ok (cleaned, h, c)
  | Some l =>
      match fuel with
      | O => Diverges
      | S fuel' =>
          let* e := load h l in
          if conn_expired now e then
            let* (h, c) := lru_drop h c l ce_tuple in
            cleanup_loop fuel' h c now (ce_lru_prev e) (cleaned + 1)
          else cleanup_loop fuel' h c now (ce_lru_prev e) cleaned
      end
  end.

Definition lru_cache_cleanup_expired (h : heap) (c : lru_cache) (now : Z)
    : res (Z * heap * lru_cache) :=
  cleanup_loop (walk_fuel h) h c now (lc_tail c) 0.

Definition lru_cache_destroy (h : heap) (c : lru_cache) : res heap :=
  let* h := free_list (walk_fuel h) ce_lru_next h (lc_head c) in
  hashtable_destroy h (lc_table c).

(** ** Doubly linked segments

    [dseg h p ls n]: the entries of [ls] are linked in this order, the first
    back to [p] and the last forward to [n]. *)
Definition first (ls : list loc) (n : option loc) : option loc :=
  match ls with [] => n | l :: _ => Some l end.

Fixpoint dseg (h : heap) (p : option loc) (ls : list loc) (n : option loc) : Prop :=
  match ls with
  | [] => True
  | l :: ls' => ∃ e, h !! l = Some e ∧ ce_lru_prev e = p ∧ ce_lru_next e = first ls' n ∧
                  dseg h (Some l) ls' n
  end.

Definition final (p : option loc) (ls : list loc) : option loc :=
  match last ls with Some l => Some l | None => p end.

Lemma final_cons p l ls : final p (l :: ls) = final (Some l) ls.
Proof. unfold final. rewrite last_cons. by destruct (last ls). Qed.

Lemma first_app ls1 ls2 n : first (ls1 ++ ls2) n = first ls1 (first ls2 n).
Proof. by destruct ls1. Qed.

Lemma dseg_app h p ls1 ls2 n :
  dseg h p (ls1 ++ ls2) n ↔ dseg h p ls1 (first ls2 n) ∧ dseg h (final p ls1) ls2 n.
Proof.
  revert p. induction ls1 as [|l ls1 IH]; intros p; simpl; [naive_solver|].
  setoid_rewrite IH. rewrite first_app, final_cons. naive_solver.
Qed.

Lemma dseg_elem h p ls n l : dseg h p ls n → l ∈ ls → ∃ e, h !! l = Some e.
Proof.
  revert p. induction ls as [|l' ls IH]; intros p; [by intros _ ?%not_elem_of_nil|].
  intros (e & He & _ & _ & Hd) [->|Hl]%elem_of_cons; eauto.
Qed.

(** Segments look at the list links of their own entries only. *)
Lemma dseg_frame h h' p ls n :
  (∀ l e, l ∈ ls → h !! l = Some e → ∃ e', h' !! l = Some e' ∧
     ce_lru_prev e' = ce_lru_prev e ∧ ce_lru_next e' = ce_lru_next e) →
  dseg h p ls n → dseg h' p ls n.
Proof.
  revert p. induction ls as [|l ls IH]; intros p Hf; simpl; [done|].
  intros (e & He & Hp & Hn & Hd). destruct (Hf l e) as (e' & He' & Hp' & Hn'); [left|done|].
  exists e'. rewrite Hp', Hn'. split_and!; try done. apply IH; [|done].
  intros l0 e0 Hl0. apply Hf. by right.
Qed.

Lemma dseg_insert_other h p ls n l e : l ∉ ls → dseg h p ls n → dseg (<[l := e]> h) p ls n.
Proof.
  intros Hl. apply dseg_frame. intros l' e' Hl' He'. exists e'.
  by rewrite lookup_insert_ne by set_solver.
Qed.

Lemma dseg_last h p ls l n n' e :
  l ∉ ls → h !! l = Some e → dseg h p (ls ++ [l]) n →
  dseg (<[l := set_lru_next n' e]> h) p (ls ++ [l]) n'.
Proof.
  intros Hl He. rewrite !dseg_app. intros [H1 H2]. split; [by apply dseg_insert_other|].
  destruct H2 as (e' & He' & Hp & _). simplify_eq. simpl. eexists.
  by rewrite lookup_insert_eq.
Qed.

Lemma dseg_head h p p' l ls n e :
  l ∉ ls → h !! l = Some e → dseg h p (l :: ls) n →
  dseg (<[l := set_lru_prev p' e]> h) p' (l :: ls) n.
Proof.
  intros Hl He (e' & He' & _ & Hn & Hd). simplify_eq. eexists. rewrite lookup_insert_eq.
  split_and!; try done. by apply dseg_insert_other.
Qed.

(** The heap without the list's links and time stamps. *)
Definition strip_lru (e : conn_entry) : conn_entry := set_lru_prev None (set_lru_next None e).
Definition lru_payload (h : heap) : heap := strip_lru <$> h.

Lemma lru_payload_insert h l e e' :
  h !! l = Some e → strip_lru e' = strip_lru e → lru_payload (<[l := e']> h) = lru_payload h.
Proof.
  intros He Hs. unfold lru_payload. rewrite fmap_insert, Hs, insert_id; [done|].
  by rewrite lookup_fmap, He.
Qed.

Lemma lru_payload_lookup h h' l e :
  lru_payload h' = lru_payload h → h !! l = Some e →
  ∃ e', h' !! l = Some e' ∧ strip_lru e' = strip_lru e.
Proof.
  intros Hp He. assert (lru_payload h' !! l = Some (strip_lru e)) as Hl.
  { rewrite Hp. unfold lru_payload. by rewrite lookup_fmap, He. }
  unfold lru_payload in Hl. rewrite lookup_fmap in Hl.
  destruct (h' !! l) as [e'|]; [|done]. apply (inj Some) in Hl. eauto.
Qed.

Lemma same_node_lru h h' l : lru_payload h' = lru_payload h → same_node h h' l.
Proof.
  intros Hp e He. destruct (lru_payload_lookup _ _ _ _ Hp He) as (e' & He' & Hs).
  exists e'. split; [done|]. split.
  - by apply (f_equal ce_next) in Hs.
  - apply (f_equal (λ e, conn_key (ce_tuple e))) in Hs. exact Hs.
Qed.

(** Taking an entry out joins its neighbours. *)
Lemma lru_unlink_ok h ls1 l ls2 e :
  NoDup (ls1 ++ l :: ls2) → dseg h None (ls1 ++ l :: ls2) None → h !! l = Some e →
  ∃ h', lru_unlink h l = Ok h' ∧ dseg h' None (ls1 ++ ls2) None ∧
    lru_payload h' = lru_payload h ∧ h' !! l = Some e ∧
    ce_lru_prev e = last ls1 ∧ ce_lru_next e = head ls2.
Proof.
  intros Hnd Hd He. apply dseg_app in Hd as [H1 (e' & He' & Hp & Hn & H2)].
  rewrite He in He'. apply (inj Some) in He' as <-.
  assert (ce_lru_prev e = last ls1) as Hp1 by (rewrite Hp; unfold final; by destruct (last ls1)).
  assert (ce_lru_next e = head ls2) as Hn1 by (rewrite Hn; by destruct ls2).
  apply NoDup_app in Hnd as (Hnd1 & Hdis & [Hl2 Hnd2]%NoDup_cons).
  assert (l ∉ ls1) as Hl1 by (intros ?%Hdis; set_solver).
  unfold lru_unlink. unfold load at 1. rewrite He. cbn [rbind].
  assert (∃ h1, store_opt h (ce_lru_prev e) (set_lru_next (ce_lru_next e)) = Ok h1 ∧
    dseg h1 None ls1 (first ls2 None) ∧ dseg h1 (Some l) ls2 None ∧ h1 !! l = Some e ∧
    lru_payload h1 = lru_payload h) as (h1 & -> & D1 & D2 & E1 & P1).
  { rewrite Hp1, Hn. destruct ls1 as [|a ls1 _] using rev_ind; [eauto 10|].
    rewrite last_snoc. destruct (dseg_elem _ _ _ _ a H1) as [ea Hea]; [set_solver|].
    simpl. rewrite (store_Ok _ _ _ _ Hea). eexists. split; [done|].
    apply NoDup_app in Hnd1 as (_ & Ha & _). split_and!.
    - eapply dseg_last; [|done..]. intros ?%Ha. set_solver.
    - apply dseg_insert_other; [|done]. intros Ha2. apply (Hdis a); [set_solver|by right].
    - by rewrite lookup_insert_ne by set_solver.
    - by eapply lru_payload_insert. }
  cbn [rbind]. unfold load. rewrite E1. cbn [rbind].
  assert (∃ h2, store_opt h1 (ce_lru_next e) (set_lru_prev (ce_lru_prev e)) = Ok h2 ∧
    dseg h2 None ls1 (first ls2 None) ∧ dseg h2 (final None ls1) ls2 None ∧ h2 !! l = Some e ∧
    lru_payload h2 = lru_payload h1) as (h2 & -> & D3 & D4 & E2 & P2).
  { rewrite Hn1, Hp. destruct ls2 as [|b ls2]; [eauto 10|]. simpl.
    destruct (dseg_elem _ _ _ _ b D2) as [eb Heb]; [left|].
    rewrite (store_Ok _ _ _ _ Heb). eexists. split; [done|].
    apply NoDup_cons in Hnd2 as [Hb2 _]. split_and!.
    - apply dseg_insert_other; [|done]. intros Hb. eapply Hdis; [done|right; left].
    - by eapply dseg_head.
    - rewrite lookup_insert_ne by set_solver. done.
    - by eapply lru_payload_insert. }
  exists h2. split_and!; try done; [|by rewrite P2]. by apply dseg_app.
Qed.

Lemma lru_push_head_ok h c l ls e :
  l ∉ ls → NoDup ls → dseg h None ls None → h !! l = Some e → lc_head c = head ls →
  ∃ h', lru_push_head h c l
        = Ok (h', with_list c (Some l) (match lc_tail c with None => Some l | t => t end)) ∧
    dseg h' None (l :: ls) None ∧ lru_payload h' = lru_payload h.
Proof.
  intros Hl Hnd Hd He Hh. unfold lru_push_head. rewrite (store_Ok _ _ _ _ He). cbn [rbind].
  erewrite store_Ok by apply lookup_insert_eq. cbn [rbind]. rewrite insert_insert_eq, Hh.
  set (e1 := set_lru_prev None _). set (h1 := <[l := e1]> h).
  assert (dseg h1 None ls None) as D1 by by apply dseg_insert_other.
  assert (lru_payload h1 = lru_payload h) as P1 by by eapply lru_payload_insert.
  assert (h1 !! l = Some e1) as E1 by apply lookup_insert_eq.
  destruct ls as [|a ls]; simpl.
  - eexists. split; [done|]. split; [|done]. exists e1. done.
  - destruct (dseg_elem _ _ _ _ a D1) as [ea Hea]; [left|].
    rewrite (store_Ok _ _ _ _ Hea). cbn [rbind]. eexists. split; [done|].
    apply NoDup_cons in Hnd as [Ha _]. split.
    + exists e1. rewrite lookup_insert_ne by set_solver. split_and!; try done.
      by eapply (dseg_head _ None).
    + rewrite <- P1. by eapply lru_payload_insert.
Qed.

(** ** The cache invariant

    [ls] is the recency list, [m] the map of the hash table, known through its
    contract only. *)
Section cache.
Context {rep : heap → hashtable → gmap conn_key_t loc → Prop} {contract : TableContract rep}.

Record lru_ok (h : heap) (c : lru_cache) (ls : list loc) (m : gmap conn_key_t loc) : Prop := {
  lru_rep : rep h (lc_table c) m;
  lru_seg : dseg h None ls None;
  lru_nodup : NoDup ls;
  lru_head : lc_head c = head ls;
  lru_tail : lc_tail c = last ls;
  lru_members l : l ∈ ls ↔ ∃ k, m !! k = Some l;
  lru_count : lc_current_size c = Z.of_nat (length ls);
  lru_cap : lc_current_size c <= lc_max_size c < 2 ^ 32
}.

Lemma lru_lookup_live h c ls m k l : lru_ok h c ls m → m !! k = Some l → l ∈ ls ∧ key_at h l k.
Proof.
  intros Hok Hl. split; [apply (lru_members _ _ _ _ Hok); eauto|].
  eapply tc_live; [by destruct Hok|done].
Qed.

(** Changes that keep links and keys, a time stamp for instance. *)
Definition keeps_links (e e' : conn_entry) : Prop :=
  ce_tuple e' = ce_tuple e ∧ ce_next e' = ce_next e ∧
  ce_lru_prev e' = ce_lru_prev e ∧ ce_lru_next e' = ce_lru_next e.

Lemma lru_ok_update h c ls m l e e' :
  lru_ok h c ls m → h !! l = Some e → keeps_links e e' → lru_ok (<[l := e']> h) c ls m.
Proof.
  intros [Hr Hs Hnd Hh Ht Hm Hn Hc] He (K1 & K2 & K3 & K4). split; try done.
  - eapply tc_frame; [done|]. intros k l' Hl' e0 He0. destruct (decide (l = l')) as [->|].
    + rewrite He in He0. apply (inj Some) in He0 as <-. eexists. rewrite lookup_insert_eq.
      split; [done|]. by rewrite K1, K2.
    + exists e0. by rewrite lookup_insert_ne.
  - eapply dseg_frame; [|done]. intros l' e0 Hl' He0. destruct (decide (l = l')) as [->|].
    + rewrite He in He0. apply (inj Some) in He0 as <-. eexists. rewrite lookup_insert_eq.
      split; [done|]. by rewrite K3, K4.
    + exists e0. by rewrite lookup_insert_ne.
Qed.

Lemma lru_ok_set_last_seen h c ls m l e now :
  lru_ok h c ls m → h !! l = Some e → lru_ok (<[l := set_last_seen now e]> h) c ls m.
Proof. intros Hok He. by eapply lru_ok_update. Qed.

Lemma last_app_cons {A} (l1 l2 : list A) x : last (l1 ++ x :: l2) = last (x :: l2).
Proof. by rewrite last_app_cons. Qed.

Lemma lru_move_to_head_ok h c ls1 l ls2 m :
  lru_ok h c (ls1 ++ l :: ls2) m →
  ∃ h' c', lru_move_to_head h c l = Ok (h', c') ∧ lru_ok h' c' (l :: ls1 ++ ls2) m ∧
    lc_max_size c' = lc_max_size c ∧ lru_payload h' = lru_payload h.
Proof.
  intros Hok. pose proof Hok as [Hr Hs Hnd Hh Ht Hm Hn Hc]. unfold lru_move_to_head.
  destruct ls1 as [|a ls1].
  { simpl in *. rewrite Hh, decide_True by done. exists h, c. done. }
  assert (l ∉ (a :: ls1) ++ ls2) as Hnot.
  { apply NoDup_app in Hnd as (_ & Hd & [Hl2 _]%NoDup_cons). specialize (Hd l). set_solver. }
  rewrite Hh. cbn [app head] in *. rewrite decide_False by (intros [= ->]; set_solver).
  destruct (dseg_elem _ _ _ _ l Hs) as [e He]; [set_solver|].
  destruct (lru_unlink_ok h (a :: ls1) l ls2 e) as (h1 & -> & D1 & P1 & E1 & Hp & Hx); [done..|].
  cbn [rbind]. unfold load. rewrite E1. cbn [rbind].
  assert ((if decide (lc_tail c = Some l) then ce_lru_prev e else lc_tail c)
          = last (a :: ls1 ++ ls2)) as ->.
  { rewrite Ht, Hp. change (a :: ls1 ++ l :: ls2) with ((a :: ls1) ++ l :: ls2).
    change (a :: ls1 ++ ls2) with ((a :: ls1) ++ ls2). rewrite last_app_cons.
    destruct ls2 as [|b ls2]; [by rewrite app_nil_r, decide_True|].
    rewrite last_app_cons, last_cons_cons.
    destruct (last_is_Some (b :: ls2)) as [_ [z Hz]]; [done|]. rewrite Hz.
    rewrite decide_False; [done|]. intros [= ->]. apply Hnot.
    apply last_Some in Hz as [l' ->]. set_solver. }
  destruct (lru_push_head_ok h1 (with_list c (lc_head c) (last (a :: ls1 ++ ls2))) l
    (a :: ls1 ++ ls2) e) as (h2 & Hpush & D2 & P2); [done| |done|done|by rewrite Hh|].
  { rewrite app_comm_cons. apply (sublist_NoDup _ ((a :: ls1) ++ l :: ls2)); [done|].
    apply sublist_app; [done|by apply sublist_cons]. }
  rewrite Hh in Hpush. simpl in Hpush. rewrite Hpush. eexists _, _. split; [done|]. split; [|split; [done|by rewrite P2]].
  split; try done.
  - eapply tc_frame; [done|]. intros k l' _. apply same_node_lru. by rewrite P2, P1.
  - constructor; [done|]. rewrite app_comm_cons. apply (sublist_NoDup _ ((a :: ls1) ++ l :: ls2)); [done|].
    apply sublist_app; [done|by apply sublist_cons].
  - cbn [lc_tail with_list app]. rewrite last_cons_cons.
    destruct (last (a :: ls1 ++ ls2)) eqn:E; [done|].
    by apply last_None in E.
  - intros l'. rewrite <- Hm. set_solver.
  - simpl. rewrite Hn. simpl. rewrite !length_app. simpl. lia.
Qed.

(** What an entry records, without any link. *)
Definition core (e : conn_entry) : conn_entry := set_next None (strip_lru e).

Lemma core_lru_payload h : core <$> h = set_next None <$> lru_payload h.
Proof. unfold lru_payload. by rewrite <- map_fmap_compose. Qed.

Lemma core_payload h : core <$> h = strip_lru <$> payload h.
Proof. unfold payload. by rewrite <- map_fmap_compose. Qed.

Lemma lru_get_hit_ok h c ls1 l ls2 m key now alloc :
  lru_ok h c (ls1 ++ l :: ls2) m → m !! conn_key key = Some l →
  ∃ h' c' e', lru_cache_get h c key now alloc = Ok (Some l, h', c') ∧
    lru_ok h' c' (l :: ls1 ++ ls2) m ∧ lc_max_size c' = lc_max_size c ∧
    h' !! l = Some e' ∧ ce_last_seen e' = now ∧
    (∀ e, h !! l = Some e → core e' = core (set_last_seen now e)) ∧
    ∀ l', l' ≠ l → lru_payload h' !! l' = lru_payload h !! l'.
Proof.
  intros Hok Hl. unfold lru_cache_get.
  rewrite (tc_lookup _ _ _ key (lru_rep _ _ _ _ Hok)), Hl. cbn [rbind].
  destruct (lru_move_to_head_ok _ _ _ _ _ _ Hok) as (h1 & c1 & -> & Hok1 & Hmax & Hpay). cbn [rbind].
  destruct (dseg_elem _ _ _ _ l (lru_seg _ _ _ _ Hok1)) as [e1 He1]; [left|].
  rewrite (store_Ok _ _ _ _ He1). cbn [rbind].
  eexists _, _, _. split; [done|]. split; [by apply lru_ok_set_last_seen|]. split; [done|].
  rewrite lookup_insert_eq. split; [done|]. split; [done|]. split.
  { intros e He. destruct (lru_payload_lookup _ _ _ _ Hpay He) as (e2 & He2 & Hs2).
    rewrite He1 in He2. apply (inj Some) in He2 as <-.
    change (set_last_seen now (set_next None (strip_lru e1))
            = set_last_seen now (set_next None (strip_lru e))). by rewrite Hs2. }
  intros l' Hne. rewrite <- Hpay. unfold lru_payload. by rewrite !lookup_fmap, lookup_insert_ne.
Qed.

(** The list survives the table's own operations, which write [next] only. *)
Lemma dseg_payload h h' p ls n :
  payload h' = payload h → dseg h p ls n → dseg h' p ls n.
Proof.
  intros Hp. apply dseg_frame. intros l e _ He.
  assert (payload h' !! l = Some (set_next None e)) as Hl.
  { rewrite Hp. unfold payload. by rewrite lookup_fmap, He. }
  unfold payload in Hl. rewrite lookup_fmap in Hl. destruct (h' !! l) as [e'|]; [|done].
  apply (inj Some) in Hl. exists e'. split; [done|].
  split; [by apply (f_equal ce_lru_prev) in Hl|by apply (f_equal ce_lru_next) in Hl].
Qed.

Lemma lru_members_fresh h c ls m l : lru_ok h c ls m → h !! l = None → ∀ k, m !! k ≠ Some l.
Proof.
  intros Hok Hl k Hk. destruct (lru_lookup_live _ _ _ _ _ _ Hok Hk) as [_ (e & He & _)].
  by rewrite Hl in He.
Qed.

(** Allocating does not touch the cache. *)
Lemma lru_ok_alloc h c ls m l e : lru_ok h c ls m → h !! l = None → lru_ok (<[l := e]> h) c ls m.
Proof.
  intros Hok Hl. pose proof (lru_members_fresh _ _ _ _ _ Hok Hl) as Hf.
  destruct Hok as [Hr Hs Hnd Hh Ht Hm Hn Hc]. split; try done.
  - eapply tc_frame; [done|]. intros k l' Hk. apply same_node_other; [|apply same_node_refl].
    intros ->. by eapply Hf.
  - apply dseg_insert_other; [|done]. intros [k Hk]%Hm. by eapply Hf.
Qed.

Lemma lru_get_miss_ok h c ls m key now l :
  lru_ok h c ls m → m !! conn_key key = None → h !! l = None →
  lc_current_size c < lc_max_size c →
  ∃ h' c' e', lru_cache_get h c key now (Some l) = Ok (Some l, h', c') ∧
    lru_ok h' c' (l :: ls) (<[conn_key key := l]> m) ∧ lc_max_size c' = lc_max_size c ∧
    h' !! l = Some e' ∧ set_next None (strip_lru e') = new_entry key now ∧
    core <$> h' = <[l := new_entry key now]> (core <$> h).
Proof.
  intros Hok Hk Hl Hroom. unfold lru_cache_get.
  rewrite (tc_lookup _ _ _ key (lru_rep _ _ _ _ Hok)), Hk. cbn [rbind].
  rewrite (proj2 (Z.leb_gt _ _)) by done. cbn [rbind].
  pose proof (lru_members_fresh _ _ _ _ _ Hok Hl) as Hf.
  pose proof (lru_ok_alloc _ _ _ _ l (new_entry key now) Hok Hl) as Hok1.
  set (h1 := <[l := new_entry key now]> h) in *.
  destruct (tc_insert h1 (lc_table c) m key l (new_entry key now)) as (h2 & t2 & Hi & Hr2 & P2);
    [by destruct Hok1|done|apply lookup_insert_eq|done|done|].
  rewrite Hi. cbn [rbind snd].
  destruct Hok1 as [Hr Hs Hnd Hh Ht Hm Hn Hc].
  assert (l ∉ ls) as Hnl by (intros [k Hk']%Hm; by eapply Hf).
  assert (∃ e2, h2 !! l = Some e2 ∧ set_next None e2 = new_entry key now) as (e2 & He2 & Hnew).
  { assert (payload h2 !! l = Some (new_entry key now)) as Hl2.
    { rewrite P2. unfold payload, h1. by rewrite lookup_fmap, lookup_insert_eq. }
    unfold payload in Hl2. rewrite lookup_fmap in Hl2. destruct (h2 !! l) as [e2|]; [|done].
    apply (inj Some) in Hl2. eauto. }
  destruct (lru_push_head_ok h2 (with_table c t2 (lc_current_size c)) l ls e2) as (h3 & -> & D3 & P3);
    [done|done|by eapply dseg_payload|done|done|].
  cbn [rbind]. destruct (lru_payload_lookup h2 h3 l e2 P3 He2) as (e3 & He3 & Hs3).
  eexists _, _, e3. split; [done|]. split; [|split; [done|split; [done|split]]].
  - split; simpl; try done.
    + eapply tc_frame; [exact Hr2|]. intros k l' _. by apply same_node_lru.
    + by constructor.
    + rewrite Ht. destruct ls as [|a ls]; [done|].
      destruct (last_is_Some (a :: ls)) as [_ [z Hz]]; [done|]. simpl in Hz. by rewrite Hz.
    + intros l'. rewrite elem_of_cons, Hm. setoid_rewrite lookup_insert_Some. split.
      * intros [->|[k Hk']]; [by eauto|]. exists k. right. split; [|done]. intros <-.
        by rewrite Hk in Hk'.
      * intros (k & [[_ <-]|[_ Hk']]); eauto.
    + rewrite u32_small by lia. lia.
    + rewrite u32_small by lia. lia.
  - rewrite Hs3. change (set_next None (strip_lru e2)) with (strip_lru (set_next None e2)).
    by rewrite Hnew.
  - rewrite core_lru_payload, P3, <- core_lru_payload, core_payload, P2, <- core_payload.
    unfold h1. by rewrite fmap_insert.
Qed.

(** ** Dropping an entry

    [hashtable_remove] frees the entry, and its caller frees it again. *)
Lemma lru_drop_double_free h c ls1 l ls2 m key :
  lru_ok h c (ls1 ++ l :: ls2) m →
  (∀ e, h !! l = Some e → m !! conn_key (key e) = Some l) →
  lru_drop h c l key = Undef DoubleFree.
Proof.
  intros [Hr Hs Hnd Hh Ht Hm Hn Hc] Hkey.
  destruct (dseg_elem _ _ _ _ l Hs) as [e He]; [set_solver|].
  destruct (lru_unlink_ok h ls1 l ls2 e) as (h1 & Hu & D1 & P1 & E1 & _ & _); [done..|].
  unfold lru_drop. rewrite Hu. cbn [rbind]. unfold load. rewrite E1. cbn [rbind lc_table with_list].
  assert (rep h1 (lc_table c) m) as Hr1.
  { eapply tc_frame; [exact Hr|]. intros k l' _. by apply same_node_lru. }
  destruct (tc_remove h1 (lc_table c) m (key e) l Hr1 (Hkey _ He)) as (h2 & t2 & -> & _ & P2).
  cbn [rbind snd]. unfold free.
  assert (payload h2 !! l = None) as Hl by (rewrite P2; apply lookup_delete_eq).
  unfold payload in Hl. rewrite lookup_fmap in Hl. by destruct (h2 !! l).
Qed.

Lemma lru_elem_key h c ls m l e :
  lru_ok h c ls m → l ∈ ls → h !! l = Some e → m !! conn_key (ce_tuple e) = Some l.
Proof.
  intros Hok Hl He. apply (lru_members _ _ _ _ Hok) in Hl as [k Hk].
  destruct (lru_lookup_live _ _ _ _ _ _ Hok Hk) as [_ (e' & He' & <-)].
  rewrite He in He'. by apply (inj Some) in He' as <-.
Qed.

Lemma lru_evict_frees h c ls l m :
  lru_ok h c (ls ++ [l]) m →
  ∃ h' c', lru_evict_lru h c = Ok (Some l, h', c') ∧ h' !! l = None.
Proof.
  intros Hok. pose proof Hok as [Hr Hs Hnd Hh Ht Hm Hn Hc].
  unfold lru_evict_lru. rewrite Ht, last_snoc.
  destruct (dseg_elem _ _ _ _ l Hs) as [e He]; [set_solver|].
  unfold load. rewrite He. cbn [rbind].
  apply dseg_app in Hs as [H1 (e' & He' & Hp & _)].
  rewrite He in He'. apply (inj Some) in He' as <-.
  apply NoDup_app in Hnd as (Hnd1 & Hdis & _).
  assert (l ∉ ls) as Hnl by (intros ?%Hdis; set_solver).
  assert (∃ h1, store_opt h (ce_lru_prev e) (set_lru_next None) = Ok h1 ∧ h1 !! l = Some e ∧
    lru_payload h1 = lru_payload h) as (h1 & -> & E1 & P1).
  { rewrite Hp. unfold final. destruct ls as [|a ls _] using rev_ind; [eauto|].
    rewrite last_snoc. destruct (dseg_elem _ _ _ _ a H1) as [ea Hea]; [set_solver|].
    simpl. rewrite (store_Ok _ _ _ _ Hea). eexists. split; [done|].
    rewrite lookup_insert_ne by set_solver. split; [done|]. by eapply lru_payload_insert. }
  cbn [rbind]. rewrite E1. cbn [rbind lc_table with_list].
  assert (m !! conn_key (ce_tuple e) = Some l) as Hk.
  { eapply lru_elem_key; [done| |done]. set_solver. }
  destruct (tc_remove h1 (lc_table c) m (ce_tuple e) l) as (h2 & t2 & -> & _ & P2); [|done|].
  { eapply tc_frame; [exact Hr|]. intros k l' _. by apply same_node_lru. }
  eexists _, _. split; [done|]. cbn [snd].
  assert (payload h2 !! l = None) as Hl by (rewrite P2; apply lookup_delete_eq).
  unfold payload in Hl. rewrite lookup_fmap in Hl. by destruct (h2 !! l).
Qed.

(** The sweep over a prefix of the recency list, walked backwards. *)
Lemma cleanup_loop_spec fuel h c ls1 ls2 m now n :
  lru_ok h c (ls1 ++ ls2) m → (length ls1 <= fuel)%nat →
  cleanup_loop fuel h c now (last ls1) n
  = if existsb (λ l, match h !! l with Some e => conn_expired now e | None => false end) ls1
    then Undef DoubleFree else Ok (n, h, c).
Proof.
  intros Hok Hf. revert fuel ls2 Hok Hf.
  induction ls1 as [|l ls1 IH] using rev_ind; intros fuel ls2 Hok Hf; [by destruct fuel|].
  rewrite last_snoc. rewrite length_app in Hf. simpl in Hf. destruct fuel as [|fuel]; [lia|].
  rewrite <- app_assoc in Hok. simpl in Hok. pose proof Hok as [Hr Hs Hnd Hh Ht Hm Hn Hc].
  destruct (dseg_elem _ _ _ _ l Hs) as [e He]; [set_solver|].
  cbn [cleanup_loop]. unfold load. rewrite He. cbn [rbind].
  rewrite existsb_app. simpl. rewrite He, orb_false_r, orb_comm.
  destruct (conn_expired now e).
  - rewrite (lru_drop_double_free _ _ ls1 l ls2 m); [done|done|].
    intros e' He'. eapply lru_elem_key; [done|set_solver|done].
  - assert (ce_lru_prev e = last ls1) as ->.
    { apply dseg_app in Hs as [_ (e' & He' & Hp & _)]. rewrite He in He'.
      apply (inj Some) in He' as <-. rewrite Hp. unfold final. by destruct (last ls1). }
    apply (IH _ (l :: ls2)); [done|lia].
Qed.

Lemma dseg_chain h p ls : dseg h p ls None → chain ce_lru_next h (head ls) ls.
Proof.
  revert p. induction ls as [|l ls IH]; intros p; [done|].
  intros (e & He & _ & Hn & Hd). split; [done|]. exists e. split; [done|].
  replace (ce_lru_next e) with (head ls) by (rewrite Hn; by destruct ls). by eapply IH.
Qed.

(** ** Recency *)

(** A key used again moves to the front; a new one is put there. *)
Definition touch (ks : list conn_key_t) (k : conn_key_t) : list conn_key_t :=
  k :: filter (λ k', k' ≠ k) ks.

(** [ks] are the keys of the cache, most recently used first. *)
Definition lru_keys (h : heap) (c : lru_cache) (ks : list conn_key_t) : Prop :=
  ∃ ls m, lru_ok h c ls m ∧ Forall2 (λ l k, m !! k = Some l) ls ks.

Lemma filter_absent (ks : list conn_key_t) k : k ∉ ks → filter (λ k', k' ≠ k) ks = ks.
Proof.
  induction ks as [|k' ks IH]; [done|]. intros Hk. rewrite filter_cons, decide_True by set_solver.
  f_equal. apply IH. set_solver.
Qed.

Lemma filter_middle (ks1 ks2 : list conn_key_t) k :
  k ∉ ks1 → k ∉ ks2 → filter (λ k', k' ≠ k) (ks1 ++ k :: ks2) = ks1 ++ ks2.
Proof.
  intros H1 H2. rewrite filter_app, filter_cons, decide_False by (by intros []).
  by rewrite !filter_absent.
Qed.

Lemma lru_get_touch h c ks key now l :
  lru_keys h c ks → h !! l = None → Z.of_nat (length (touch ks (conn_key key))) <= lc_max_size c →
  ∃ l' h' c', lru_cache_get h c key now (Some l) = Ok (Some l', h', c') ∧
    lru_keys h' c' (touch ks (conn_key key)) ∧ lc_max_size c' = lc_max_size c.
Proof.
  intros (ls & m & Hok & Hks) Hl Hcap. destruct (m !! conn_key key) as [l0|] eqn:Hk.
  - assert (l0 ∈ ls) as Hin by (apply (lru_members _ _ _ _ Hok); eauto).
    apply list_elem_of_split in Hin as (ls1 & ls2 & ->).
    apply Forall2_app_inv_l in Hks as (ks1 & ks2' & Hks1 & Hks2 & ->).
    inversion Hks2 as [|? k0 ? ks2 Hk0 Hks2']; subst. 
    assert (k0 = conn_key key) as ->.
    { eapply key_at_fun; eapply lru_lookup_live; done. }
    destruct (lru_get_hit_ok _ _ _ _ _ _ key now (Some l) Hok Hk)
      as (h' & c' & e' & Hget & Hok' & Hmax & _).
    exists l0, h', c'. split; [done|]. split; [|done].
    assert (∀ ls ks, l0 ∉ ls → Forall2 (λ l k, m !! k = Some l) ls ks → conn_key key ∉ ks) as Hno.
    { intros ls ks Hnot Hf Hin. apply Hnot. apply list_elem_of_lookup in Hin as [i Hi].
      destruct (Forall2_lookup_r _ _ _ _ _ Hf Hi) as (l1 & Hl1 & Hm1). rewrite Hk in Hm1.
      apply (inj Some) in Hm1 as <-. by eapply list_elem_of_lookup_2. }
    destruct Hok as [_ _ Hnd _ _ _ _ _].
    apply NoDup_app in Hnd as (_ & Hd & [Hl2 _]%NoDup_cons).
    assert (l0 ∉ ls1) as Hl1 by (intros ?%Hd; set_solver).
    exists (l0 :: ls1 ++ ls2), m. split; [done|]. unfold touch.
    rewrite filter_middle by eauto. constructor; [done|]. by apply Forall2_app.
  - assert (conn_key key ∉ ks) as Hno.
    { intros [i Hi]%list_elem_of_lookup.
      destruct (Forall2_lookup_r _ _ _ _ _ Hks Hi) as (l1 & _ & Hm1). by rewrite Hk in Hm1. }
    unfold touch in *. rewrite filter_absent in * by done. simpl in Hcap.
    rewrite <- (Forall2_length _ _ _ Hks), <- (Nat2Z.id (length ls)) in Hcap.
    pose proof (lru_count _ _ _ _ Hok) as Hcount.
    destruct (lru_get_miss_ok h c ls m key now l) as (h' & c' & e' & Hget & Hok' & Hmax & _ & _ & _);
      [done..|lia|].
    exists l, h', c'. split; [done|]. split; [|done]. exists (l :: ls), (<[conn_key key := l]> m).
    split; [done|]. constructor; [by rewrite lookup_insert_eq|].
    eapply Forall2_impl; [done|]. intros l1 k1 Hm1. simpl.
    rewrite lookup_insert_ne; [done|]. intros <-. by rewrite Hk in Hm1.
Qed.
End cache.

(** A client looks up connections one after the other. [alloc] is the C
    library's allocator; it never returns an address in use. *)
Class Allocator (alloc : heap → loc) : Prop := alloc_fresh h : h !! alloc h = None.

#[export] Instance first_free_allocator : Allocator (λ h, fresh (dom h)).
Proof. intros h. apply not_elem_of_dom, is_fresh. Qed.

Fixpoint run_gets (alloc : heap → loc) (h : heap) (c : lru_cache) (es : list (conn_tuple * Z))
    : res (heap * lru_cache) :=
  match es with
  | [] => Ok (h, c)
  | (key, now) :: es' =>
      let* (r, c) := lru_cache_get h c key now (Some (alloc h)) in
      run_gets alloc r.2 c es'
  end.

Lemma touch_NoDup ks k : NoDup ks → NoDup (touch ks k).
Proof.
  intros Hnd. constructor; [by intros [? _]%list_elem_of_filter|]. by apply NoDup_filter.
Qed.

Lemma touch_length ks k : NoDup ks → (length ks <= length (touch ks k))%nat.
Proof.
  intros Hnd. destruct (decide (k ∈ ks)) as [(k1 & k2 & ->)%list_elem_of_split|Hk].
  - apply NoDup_app in Hnd as (_ & Hd & [Hk2 _]%NoDup_cons). unfold touch.
    rewrite filter_middle; [|intros ?%Hd; set_solver|done].
    rewrite length_app. simpl. rewrite length_app. lia.
  - unfold touch. rewrite filter_absent by done. simpl. lia.
Qed.

Lemma touch_all_length ks es :
  NoDup ks → (length ks <= length (foldl touch ks es))%nat.
Proof.
  revert ks. induction es as [|k es IH]; intros ks Hnd; simpl; [done|].
  etransitivity; [by apply (touch_length ks k)|]. apply IH. by apply touch_NoDup.
Qed.

Section runs.
Context {rep : heap → hashtable → gmap conn_key_t loc → Prop} {contract : TableContract rep}.
Context {alloc : heap → loc} {allocator : Allocator alloc}.

Lemma run_gets_touch h c ks es :
  lru_keys (rep := rep) h c ks → NoDup ks →
  Z.of_nat (length (foldl touch ks (conn_key <$> es.*1))) <= lc_max_size c →
  ∃ h' c', run_gets alloc h c es = Ok (h', c') ∧
    lru_keys (rep := rep) h' c' (foldl touch ks (conn_key <$> es.*1)).
Proof.
  revert h c ks. induction es as [|[key now] es IH]; intros h c ks Hks Hnd Hcap; [by exists h, c|].
  cbn [fmap list_fmap foldl fst] in *. pose proof (touch_NoDup ks (conn_key key) Hnd) as Hnd'.
  destruct (lru_get_touch h c ks key now (alloc h) Hks (alloc_fresh h))
    as (l & h1 & c1 & Hget & Hks1 & Hmax).
  { etransitivity; [|exact Hcap]. apply Nat2Z.inj_le, touch_all_length, Hnd'. }
  cbn [run_gets]. rewrite Hget. cbn [rbind snd]. apply IH; [done|done|by rewrite Hmax].
Qed.
End runs.

(** A new cache is empty. *)
Lemma lru_create_ok h max c :
  0 < max < 2 ^ 32 → lru_cache_create true true true max = Some c →
  lru_ok (rep := ht_ok) h c [] ∅ ∧ lc_max_size c = max ∧ lc_current_size c = 0.
Proof.
  intros Hmax Hc. apply (inj Some) in Hc as <-. split; [|done].
  split; simpl; try done; try lia.
  - by eapply create_ok.
  - constructor.
  - intros l. split; [by intros ?%not_elem_of_nil|]. intros [k Hk]. by rewrite lookup_empty in Hk.
Qed.

Lemma lru_create_keys h max c :
  0 < max < 2 ^ 32 → lru_cache_create true true true max = Some c →
  lru_keys (rep := ht_ok) h c [] ∧ lc_max_size c = max.
Proof.
  intros Hmax Hc. destruct (lru_create_ok h max c Hmax Hc) as (Hok & Hm & _).
  split; [|done]. exists [], ∅. split; [done|constructor].
Qed.

(** ** Properties *)

(** C10: From a new cache, any sequence of lookups over at most [max_size]
    different connections runs without undefined behaviour, and afterwards the
    list holds exactly the connections looked up, most recently used first,
    agreeing with the hash table. *)
Theorem lru_recency_refines alloc h max c es :
  Allocator alloc → 0 < max < 2 ^ 32 → lru_cache_create true true true max = Some c →
  Z.of_nat (length (foldl touch [] (conn_key <$> es.*1))) <= max →
  ∃ h' c' ls m, run_gets alloc h c es = Ok (h', c') ∧ lru_ok (rep := ht_ok) h' c' ls m ∧
    Forall2 (λ l k, m !! k = Some l) ls (foldl touch [] (conn_key <$> es.*1)).
Proof.
  intros Ha Hmax Hc Hcap. destruct (lru_create_keys h max c Hmax Hc) as [Hk Hm].
  destruct (run_gets_touch (alloc := alloc) h c [] es Hk) as (h' & c' & Hr & ls & m & Hok & Hls);
    [constructor|by rewrite Hm|].
  by exists h', c', ls, m.
Qed.

Lemma lru_recency_refines_witness :
  ∃ h' c' ls m,
    run_gets (λ h, fresh (dom h)) ∅
      (LruCache (Hashtable [None; None] 2 0) None None 2 0)
      [(example_tuple 1, 10); (example_tuple 2, 11); (example_tuple 1, 12)] = Ok (h', c') ∧
    lru_ok (rep := ht_ok) h' c' ls m ∧
    Forall2 (λ l k, m !! k = Some l) ls [conn_key (example_tuple 1); conn_key (example_tuple 2)].
Proof.
  apply (lru_recency_refines (λ h, fresh (dom h)) ∅ 2
    (LruCache (Hashtable [None; None] 2 0) None None 2 0)
    [(example_tuple 1, 10); (example_tuple 2, 11); (example_tuple 1, 12)]);
    [apply _|lia|reflexivity|by vm_compute].
Defined.

(** A lookup of a connection in the cache returns its entry, stamps it with
    the current time, moves it to the front and keeps the order of the rest;
    no other entry changes. *)
Theorem lru_get_hit_front h c ls1 l ls2 m key now alloc :
  lru_ok (rep := ht_ok) h c (ls1 ++ l :: ls2) m → m !! conn_key key = Some l →
  ∃ h' c' e', lru_cache_get h c key now alloc = Ok (Some l, h', c') ∧
    lru_ok (rep := ht_ok) h' c' (l :: ls1 ++ ls2) m ∧
    h' !! l = Some e' ∧ ce_last_seen e' = now ∧
    ∀ l', l' ≠ l → lru_payload h' !! l' = lru_payload h !! l'.
Proof.
  intros Hok Hl. destruct (lru_get_hit_ok _ _ _ _ _ _ _ now alloc Hok Hl)
    as (h' & c' & e' & H1 & H2 & _ & H3 & H4 & _ & H5). eauto 10.
Qed.

(** A full cache of two connections, the second used last. *)
Definition example_cache : heap * lru_cache :=
  match run_gets (λ h, fresh (dom h)) ∅ (LruCache (Hashtable [None; None] 2 0) None None 2 0)
          [(example_tuple 1, 10); (example_tuple 2, 11)] with
  | Ok s => s
  | _ => (∅, LruCache (Hashtable [] 0 0) None None 0 0)
  end.

Lemma table_value h t m key r :
  ht_ok h t m → hashtable_lookup h t key = Ok r → m !! conn_key key = r.
Proof. intros Hok Hl. rewrite (tc_lookup _ _ _ _ Hok) in Hl. by injection Hl. Qed.

Lemma example_cache_ok :
  ∃ m, lru_ok (rep := ht_ok) example_cache.1 example_cache.2 [2%positive; 1%positive] m ∧
    m !! conn_key (example_tuple 1) = Some 1%positive ∧
    m !! conn_key (example_tuple 2) = Some 2%positive ∧
    m !! conn_key (example_tuple 3) = None.
Proof.
  destruct (lru_create_keys ∅ 2 (LruCache (Hashtable [None; None] 2 0) None None 2 0))
    as [Hk Hm]; [lia|done|].
  destruct (run_gets_touch (alloc := λ h, fresh (dom h)) ∅ _ []
    [(example_tuple 1, 10); (example_tuple 2, 11)] Hk) as (h & c & Hr & ls & m & Hok & Hls);
    [constructor|by vm_compute|].
  assert ((h, c) = example_cache) as Heq by (unfold example_cache; by rewrite Hr).
  pose proof (lru_rep _ _ _ _ Hok) as Hrep.
  assert (h = example_cache.1) as -> by exact (f_equal fst Heq).
  assert (c = example_cache.2) as -> by exact (f_equal snd Heq).
  assert (m !! conn_key (example_tuple 1) = Some 1%positive) as M1
    by (eapply table_value; [exact Hrep|vm_compute; reflexivity]).
  assert (m !! conn_key (example_tuple 2) = Some 2%positive) as M2
    by (eapply table_value; [exact Hrep|vm_compute; reflexivity]).
  assert (m !! conn_key (example_tuple 3) = None) as M3
    by (eapply table_value; [exact Hrep|vm_compute; reflexivity]).
  exists m. split; [|exact (conj M1 (conj M2 M3))].
  replace (foldl touch _ _) with [conn_key (example_tuple 2); conn_key (example_tuple 1)] in Hls
    by (vm_compute; reflexivity).
  apply Forall2_cons_inv_r in Hls as (l1 & ls1 & Hl1 & Hls1 & ->).
  apply Forall2_cons_inv_r in Hls1 as (l2 & ls2 & Hl2 & Hls2 & ->).
  apply Forall2_nil_inv_r in Hls2 as ->.
  rewrite M2 in Hl1. injection Hl1 as <-. rewrite M1 in Hl2. injection Hl2 as <-. exact Hok.
Qed.

Lemma lru_get_hit_front_witness :
  ∃ m h' c' e', lru_cache_get example_cache.1 example_cache.2 (example_tuple 1) 20 None
      = Ok (Some 1%positive, h', c') ∧
    lru_ok (rep := ht_ok) h' c' [1%positive; 2%positive] m ∧
    h' !! 1%positive = Some e' ∧ ce_last_seen e' = 20.
Proof.
  destruct example_cache_ok as (m & Hok & M1 & _). exists m.
  destruct (lru_get_hit_front example_cache.1 example_cache.2 [2%positive] 1%positive [] m
    (example_tuple 1) 20 None Hok M1) as (h' & c' & e' & Hg & Hok' & He & Ht & _).
  exists h', c', e'. exact (conj Hg (conj Hok' (conj He Ht))).
Defined.

(** C38: When the cache is full, looking up a connection that is not in it evicts
    the least recently used entry, which [hashtable_remove] frees and
    [lru_cache_get] then frees a second time. *)
Theorem lru_get_full_double_free h c ls m key now l :
  lru_ok (rep := ht_ok) h c ls m → ls ≠ [] → lc_current_size c = lc_max_size c →
  m !! conn_key key = None → h !! l = None →
  lru_cache_get h c key now (Some l) = Undef DoubleFree.
Proof.
  intros Hok Hne Hfull Hk Hl. unfold lru_cache_get.
  rewrite (tc_lookup _ _ _ key (lru_rep _ _ _ _ Hok)), Hk. cbn [rbind].
  rewrite (proj2 (Z.leb_le _ _)) by lia.
  pose proof (lru_ok_alloc _ _ _ _ l (new_entry key now) Hok Hl) as Hok1.
  destruct ls as [|l0 ls _] using rev_ind; [done|].
  destruct (lru_evict_frees _ _ _ _ _ Hok1) as (h' & c' & -> & Hf). cbn [rbind fst snd].
  unfold free. by rewrite Hf.
Qed.

Lemma lru_get_full_double_free_witness :
  lru_cache_get example_cache.1 example_cache.2 (example_tuple 3) 20 (Some 9%positive)
  = Undef DoubleFree.
Proof.
  destruct example_cache_ok as (m & Hok & _ & _ & M3).
  apply (lru_get_full_double_free _ _ [2%positive; 1%positive] m); [exact Hok|discriminate| |exact M3|].
  - vm_compute. reflexivity.
  - vm_compute. reflexivity.
Defined.

(** Removing a connection answers -1 when it is not in the cache; when it is,
    the entry is freed twice. *)
Theorem lru_remove_frees_twice h c ls m key :
  lru_ok (rep := ht_ok) h c ls m →
  lru_cache_remove h c key
  = match m !! conn_key key with None => Ok (-1, h, c) | Some _ => Undef DoubleFree end.
Proof.
  intros Hok. unfold lru_cache_remove.
  rewrite (tc_lookup _ _ _ key (lru_rep _ _ _ _ Hok)). cbn [rbind].
  destruct (m !! conn_key key) as [l|] eqn:Hk; [|done].
  assert (l ∈ ls) as Hin by (apply (lru_members _ _ _ _ Hok); eauto).
  apply list_elem_of_split in Hin as (ls1 & ls2 & ->).
  by rewrite (lru_drop_double_free _ _ ls1 l ls2 m).
Qed.

Lemma lru_remove_frees_twice_witness :
  lru_cache_remove example_cache.1 example_cache.2 (example_tuple 1) = Undef DoubleFree ∧
  lru_cache_remove example_cache.1 example_cache.2 (example_tuple 3)
  = Ok (-1, example_cache.1, example_cache.2).
Proof.
  destruct example_cache_ok as (m & Hok & M1 & _ & M3).
  split; rewrite (lru_remove_frees_twice _ _ _ m _ Hok); [rewrite M1|rewrite M3]; reflexivity.
Defined.

(** The expiry sweep changes nothing as long as no connection has expired
    (it returns 0); the first expired connection is freed twice. *)
Theorem lru_cleanup_frees_twice h c ls m now :
  lru_ok (rep := ht_ok) h c ls m →
  lru_cache_cleanup_expired h c now
  = if existsb (λ l, match h !! l with Some e => conn_expired now e | None => false end) ls
    then Undef DoubleFree else Ok (0, h, c).
Proof.
  intros Hok. unfold lru_cache_cleanup_expired. rewrite (lru_tail _ _ _ _ Hok).
  apply (cleanup_loop_spec _ _ _ ls [] m).
  - by rewrite app_nil_r.
  - pose proof (chain_size _ _ _ _ (dseg_chain _ _ _ (lru_seg _ _ _ _ Hok))).
    unfold walk_fuel. lia.
Qed.

Lemma lru_cleanup_frees_twice_witness :
  lru_cache_cleanup_expired example_cache.1 example_cache.2 40
  = Ok (0, example_cache.1, example_cache.2) ∧
  lru_cache_cleanup_expired example_cache.1 example_cache.2 41 = Undef DoubleFree.
Proof.
  destruct example_cache_ok as (m & Hok & _).
  split; rewrite (lru_cleanup_frees_twice _ _ _ m _ Hok); vm_compute; reflexivity.
Defined.

(** Destroying a cache that holds a connection frees its entries through the
    list and then walks the freed entries through the table. *)
Theorem lru_destroy_use_after_free h c ls m :
  lru_ok (rep := ht_ok) h c ls m → ls ≠ [] → lru_cache_destroy h c = Undef UseAfterFree.
Proof.
  intros Hok Hne. pose proof Hok as [Hr Hs Hnd Hh Ht Hm Hn Hc]. unfold lru_cache_destroy.
  pose proof (dseg_chain _ _ _ Hs) as Hch. rewrite Hh.
  rewrite (free_list_chain _ _ _ _ ls) by
    (done || (pose proof (chain_size _ _ _ _ Hch); unfold walk_fuel; lia)).
  cbn [rbind]. apply (tc_destroy_freed h _ _ m); [done| |].
  - intros ->. destruct ls as [|l ls]; [done|]. destruct (proj1 (Hm l)) as [k Hk]; [left|].
    by rewrite lookup_empty in Hk.
  - intros k l Hk. rewrite foldl_delete_lookup, decide_True; [done|]. apply Hm. eauto.
Qed.

Lemma lru_destroy_use_after_free_witness :
  lru_cache_destroy example_cache.1 example_cache.2 = Undef UseAfterFree.
Proof.
  destruct example_cache_ok as (m & Hok & _).
  exact (lru_destroy_use_after_free _ _ _ m Hok ltac:(discriminate)).
Defined.
