(* ===== verification/Packet.v ===== *)
(** * Packets

    [packet_t] of [include/common.h] and the packet predicates of
    [src/packet/capture.c]. A packet owns a buffer; the header pointers are
    offsets into it, [None] for [NULL]. The fields of the struct [parsed] are
    grouped by the parser that writes them. *)

From S2P Require Import Prelude Common.

Record eth_part := EthPart { eth_header : option Z; eth_len : Z }.

Record ip_part := IpPart {
  ip_header : option Z;
  ip_len : Z;
  transport_header : option Z;
  transport_len : Z;          (* uint32_t *)
  is_ipv4 : bool;
  is_ipv6 : bool;
  pkt_protocol : Z;
  pkt_src_ip : ip_addr;
  pkt_dst_ip : ip_addr
}.

Record l4_part := L4Part {
  pkt_src_port : Z;
  pkt_dst_port : Z;
  payload : option Z;
  payload_len : Z;            (* uint32_t *)
  tcp_flags : Z;
  tcp_seq : Z;
  tcp_ack : Z
}.

(** The strings are heap copies, given by their bytes. *)
Record http_part := HttpPart {
  is_http : bool;
  http_method : option (list Z);
  http_uri : option (list Z);
  http_user_agent : option (list Z);
  http_content_length : Z     (* uint32_t *)
}.

Record packet := Packet {
  data : list Z;
  len : Z;                    (* uint32_t *)
  timestamp : Z;
  eth : eth_part;
  ip : ip_part;
  l4 : l4_part;
  http : http_part
}.

Definition with_eth (p : packet) (e : eth_part) : packet :=
  Packet (data p) (len p) (timestamp p) e (ip p) (l4 p) (http p).
Definition with_ip (p : packet) (i : ip_part) : packet :=
  Packet (data p) (len p) (timestamp p) (eth p) i (l4 p) (http p).
Definition with_l4 (p : packet) (t : l4_part) : packet :=
  Packet (data p) (len p) (timestamp p) (eth p) (ip p) t (http p).
Definition with_http (p : packet) (h : http_part) : packet :=
  Packet (data p) (len p) (timestamp p) (eth p) (ip p) (l4 p) h.

(** [calloc(1, sizeof(packet_t))]. *)
Definition ip_zero : ip_addr := IpAddr (replicate 16 0) 0.
Definition packet_zero : packet :=
  Packet [] 0 0 (EthPart None 0) (IpPart None 0 None 0 false false 0 ip_zero ip_zero)
    (L4Part 0 0 None 0 0 0 0) (HttpPart false None None None 0).

Definition TCP_FLAG_FIN : Z := 0x01.
Definition TCP_FLAG_SYN : Z := 0x02.
Definition TCP_FLAG_RST : Z := 0x04.
Definition TCP_FLAG_PSH : Z := 0x08.
Definition TCP_FLAG_ACK : Z := 0x10.
Definition TCP_FLAG_URG : Z := 0x20.

(** The sizes of the header structs. *)
Definition sizeof_ethhdr : Z := 14.
Definition sizeof_iphdr : Z := 20.
Definition sizeof_ip6_hdr : Z := 40.
Definition sizeof_tcphdr : Z := 20.
Definition sizeof_udphdr : Z := 8.
Definition sizeof_icmphdr : Z := 8.

(** Reads through the pointer [p], [off] bytes further. *)
Definition field8 (pk : packet) (p : option Z) (off : Z) : res Z :=
  match p with Some a => rd8 (data pk) (a + off) | None => Undef NullDeref end.
Definition field16 (pk : packet) (p : option Z) (off : Z) : res Z :=
  match p with Some a => rd_be16 (data pk) (a + off) | None => Undef NullDeref end.
Definition field32 (pk : packet) (p : option Z) (off : Z) : res Z :=
  match p with Some a => rd_be32 (data pk) (a + off) | None => Undef NullDeref end.
Definition field_bytes (pk : packet) (p : option Z) (off : Z) (n : nat) : res (list Z) :=
  match p with Some a => rd_bytes (data pk) (a + off) n | None => Undef NullDeref end.

Definition IP_MF : Z := 0x2000.
Definition IP_OFFMASK : Z := 0x1fff.

Definition packet_is_fragment (p : packet) : res bool :=
  match ip_header (ip p) with
  | None => Ok false
  | Some _ =>
      if is_ipv4 (ip p) then
        let* frag_off := field16 p (ip_header (ip p)) 6 in
        Ok (negb (Z.land frag_off IP_OFFMASK =? 0) || negb (Z.land frag_off IP_MF =? 0))
      else Ok false
  end.

Definition packet_is_malformed (p : packet) : res bool :=
  if len p <? sizeof_ethhdr then Ok true
  else if is_ipv4 (ip p) then
    if ip_len (ip p) <? sizeof_iphdr then Ok true
    else
      let* tot := field16 p (ip_header (ip p)) 2 in
      if tot <? sizeof_iphdr then Ok true
      else if len p -₃₂ eth_len (eth p) <? tot then Ok true
      else Ok false
  else Ok false.
