(* ===== verification/Parser.v ===== *)
(** * The packet parser

    [src/packet/parser.c], with the capture callback of
    [src/packet/capture.c] that feeds it. The parsers read the packet's buffer
    at the offsets the headers give; a read past its end is undefined. The
    second part relates them to a reference encoding of frames, the third shows
    which lengths they trust. The copies of strings succeed here; [PacketMem] lets
    each of them fail. *)

From S2P Require Import Prelude Bits Common CString Packet.

Definition parse_ethernet (p : packet) : Z * packet :=
  if len p <? sizeof_ethhdr then (-1, p)
  else (0, with_eth p (EthPart (Some 0) sizeof_ethhdr)).

(** [s_addr = ...]: the first four bytes of the union. *)
Definition store_v4 (a : ip_addr) (b : list Z) : ip_addr := IpAddr (b ++ drop 4 (addr a)) AF_INET.
(** [memcpy(&addr.v6, ..., 16)]. *)
Definition store_v6 (a : ip_addr) (b : list Z) : ip_addr := IpAddr (b ++ drop 16 (addr a)) AF_INET6.

Definition parse_ip (p : packet) : res (Z * packet) :=
  if len p <? eth_len (eth p) + sizeof_iphdr then Ok (-1, p)
  else
    let i := ip p in
    let hdr := Some (eth_len (eth p)) in
    let p := with_ip p (IpPart hdr (ip_len i) (transport_header i) (transport_len i)
               (is_ipv4 i) (is_ipv6 i) (pkt_protocol i) (pkt_src_ip i) (pkt_dst_ip i)) in
    let* b0 := field8 p hdr 0 in
    let version := Z.land (Z.shiftr b0 4) 0x0F in
    if version =? 4 then
      let* proto := field8 p hdr 9 in
      let hlen := Z.land b0 0x0F * 4 in
      let* saddr := field_bytes p hdr 12 4 in
      let* daddr := field_bytes p hdr 16 4 in
      let* tot_len := field16 p hdr 2 in
      Ok (0, with_ip p (IpPart hdr hlen (Some (eth_len (eth p) + hlen)) (tot_len -₃₂ hlen)
                          true false proto (store_v4 (pkt_src_ip i) saddr)
                          (store_v4 (pkt_dst_ip i) daddr)))
    else if version =? 6 then
      let* proto := field8 p hdr 6 in
      let* saddr := field_bytes p hdr 8 16 in
      let* daddr := field_bytes p hdr 24 16 in
      let* plen := field16 p hdr 4 in
      Ok (0, with_ip p (IpPart hdr sizeof_ip6_hdr (Some (eth_len (eth p) + sizeof_ip6_hdr)) plen
                          false true proto (store_v6 (pkt_src_ip i) saddr)
                          (store_v6 (pkt_dst_ip i) daddr)))
    else Ok (-1, p).

(** [if (tcp->bit) flags |= mask]. *)
Definition or_flag (b : Z) (bit : Z) (mask flags : Z) : Z :=
  if Z.testbit b bit then Z.lor flags mask else flags.

Definition parse_tcp (p : packet) : res (Z * packet) :=
  let tlen := transport_len (ip p) in
  let t := l4 p in
  if tlen <? sizeof_tcphdr then Ok (-1, p)
  else
    let tcp := transport_header (ip p) in
    let* sport := field16 p tcp 0 in
    let* dport := field16 p tcp 2 in
    let* seq := field32 p tcp 4 in
    let* ack := field32 p tcp 8 in
    let* b13 := field8 p tcp 13 in
    let flags := or_flag b13 0 TCP_FLAG_FIN 0 in
    let flags := or_flag b13 1 TCP_FLAG_SYN flags in
    let flags := or_flag b13 2 TCP_FLAG_RST flags in
    let flags := or_flag b13 3 TCP_FLAG_PSH flags in
    let flags := or_flag b13 4 TCP_FLAG_ACK flags in
    let flags := or_flag b13 5 TCP_FLAG_URG flags in
    let* b12 := field8 p tcp 12 in
    let tcp_header_len := Z.shiftr b12 4 * 4 in
    if tlen <? tcp_header_len then
      Ok (-1, with_l4 p (L4Part sport dport (payload t) (payload_len t) flags seq ack))
    else
      Ok (0, with_l4 p (L4Part sport dport ((λ a, a + tcp_header_len) <$> tcp)
                          (tlen -₃₂ tcp_header_len) flags seq ack)).

Definition parse_udp (p : packet) : res (Z * packet) :=
  let tlen := transport_len (ip p) in
  let t := l4 p in
  if tlen <? sizeof_udphdr then Ok (-1, p)
  else
    let udp := transport_header (ip p) in
    let* sport := field16 p udp 0 in
    let* dport := field16 p udp 2 in
    Ok (0, with_l4 p (L4Part sport dport ((λ a, a + sizeof_udphdr) <$> udp)
                        (tlen -₃₂ sizeof_udphdr) (tcp_flags t) (tcp_seq t) (tcp_ack t))).

Definition parse_icmp (p : packet) : res (Z * packet) :=
  let tlen := transport_len (ip p) in
  let t := l4 p in
  if tlen <? sizeof_icmphdr then Ok (-1, p)
  else
    let icmp := transport_header (ip p) in
    let* type := field8 p icmp 0 in
    let* code := field8 p icmp 1 in
    Ok (0, with_l4 p (L4Part type code ((λ a, a + sizeof_icmphdr) <$> icmp)
                        (tlen -₃₂ sizeof_icmphdr) (tcp_flags t) (tcp_seq t) (tcp_ack t))).

(** ** HTTP *)

Definition http_methods : list string := ["GET"; "POST"; "HEAD"; "PUT"; "DELETE"]%string.

(** The [strncmp] cascade: the method whose name and a space start the payload. *)
Fixpoint match_method (ms : list string) (m : list Z) : res (option (list Z)) :=
  match ms with
  | [] => Ok None
  | s :: ms' =>
      let* hit := starts_with (bytes_of s ++ [32]) m in
      if hit then Ok (Some (bytes_of s)) else match_method ms' m
  end.

Definition http_uri_of (m : list Z) (old : option (list Z)) : res (option (list Z)) :=
  let* start := strchr m 32 in
  match start with
  | None => Ok old
  | Some i =>
      let uri_start := drop (S i) m in
      let* uri_end := strchr uri_start 32 in
      match uri_end with
      | None => Ok old
      | Some n => if (0 <? Z.of_nat n) && (Z.of_nat n <? 2048)
                  then Ok (Some (take n uri_start)) else Ok old
      end
  end.

Definition http_user_agent_of (m : list Z) (old : option (list Z)) : res (option (list Z)) :=
  let* hdr := strstr (bytes_of "User-Agent:") m in
  match hdr with
  | None => Ok old
  | Some i =>
      let* ua_start := skip_while (λ b, b =? 32) (drop (i + 11) m) in
      let* ua_end := strstr [13; 10] ua_start in
      match ua_end with
      | None => Ok old
      | Some n => if (0 <? Z.of_nat n) && (Z.of_nat n <? 512)
                  then Ok (Some (take n ua_start)) else Ok old
      end
  end.

Definition http_content_length_of (m : list Z) (old : Z) : res Z :=
  let* hdr := strstr (bytes_of "Content-Length:") m in
  match hdr with
  | None => Ok old
  | Some i => let* n := atoi (drop (i + 15) m) in Ok (u32 n)
  end.

Definition parse_http (p : packet) : res (Z * packet) :=
  match payload (l4 p) with
  | None => Ok (-1, p)
  | Some off =>
      if payload_len (l4 p) <? 16 then Ok (-1, p)
      else
        let h := http p in
        let m := drop (Z.to_nat off) (data p) in
        let* method := match_method http_methods m in
        match method with
        | None => Ok (-1, p)
        | Some name =>
            let* uri := http_uri_of m (http_uri h) in
            let* ua := http_user_agent_of m (http_user_agent h) in
            let* cl := http_content_length_of m (http_content_length h) in
            Ok (0, with_http p (HttpPart true (Some name) uri ua cl))
        end
  end.

Definition http_port (p : packet) : bool :=
  (pkt_dst_port (l4 p) =? 80) || (pkt_dst_port (l4 p) =? 8080) ||
  (pkt_src_port (l4 p) =? 80) || (pkt_src_port (l4 p) =? 8080).

(** The switch on the protocol; the parsers' results are not looked at. *)
Definition parse_transport (p : packet) : res packet :=
  let proto := pkt_protocol (ip p) in
  if proto =? PROTO_TCP then
    let* (_, p) := parse_tcp p in
    if http_port p then let* (_, p) := parse_http p in Ok p else Ok p
  else if proto =? PROTO_UDP then let* (_, p) := parse_udp p in Ok p
  else if proto =? PROTO_ICMP then let* (_, p) := parse_icmp p in Ok p
  else Ok p.

Definition packet_parse (p : packet) (dat : list Z) (ln ts : Z) : res (Z * packet) :=
  if ln =? 0 then Ok (-1, p)
  else
    let p := Packet dat ln ts (eth p) (ip p) (l4 p) (http p) in
    let '(rc, p) := parse_ethernet p in
    if negb (rc =? 0) then Ok (-1, p)
    else
      let* (rc, p) := parse_ip p in
      if negb (rc =? 0) then Ok (-1, p)
      else
        let* p := parse_transport p in
        Ok (0, p).

(** [pcap_callback]: the packet handed to the user's callback, if any. *)
Definition pcap_callback (calloc_ok malloc_ok : bool) (frame : list Z) (caplen tv_sec : Z)
    : res (option packet) :=
  if calloc_ok then
    if malloc_ok then
      let* dat := rd_bytes frame 0 (Z.to_nat caplen) in
      let p := Packet dat caplen tv_sec (eth packet_zero) (ip packet_zero) (l4 packet_zero)
                 (http packet_zero) in
      let* (rc, p) := packet_parse p dat caplen tv_sec in
      Ok (if negb (rc =? 0) then None else Some p)
    else Ok None
  else Ok None.

(** ** Reading a buffer piecewise *)

Lemma rd8_app pre suf a k : Z.of_nat (length pre) = a → 0 <= k → rd8 (pre ++ suf) (a + k) = rd8 suf k.
Proof.
  intros <- Hk. unfold rd8. rewrite (proj2 (Z.leb_le 0 _)), (proj2 (Z.leb_le 0 k)) by lia.
  rewrite lookup_app_r by lia.
  by replace (Z.to_nat (Z.of_nat (length pre) + k) - length pre)%nat with (Z.to_nat k) by lia.
Qed.

Lemma rd_be16_app pre suf a k :
  Z.of_nat (length pre) = a → 0 <= k → rd_be16 (pre ++ suf) (a + k) = rd_be16 suf k.
Proof.
  intros Ha Hk. unfold rd_be16. rewrite rd8_app by done.
  by rewrite <- (Z.add_assoc a k 1), rd8_app by lia.
Qed.

Lemma rd_be32_app pre suf a k :
  Z.of_nat (length pre) = a → 0 <= k → rd_be32 (pre ++ suf) (a + k) = rd_be32 suf k.
Proof.
  intros Ha Hk. unfold rd_be32. rewrite rd_be16_app by done.
  by rewrite <- (Z.add_assoc a k 2), rd_be16_app by lia.
Qed.

Lemma rd_bytes_app pre suf a k n :
  Z.of_nat (length pre) = a → 0 <= k → rd_bytes (pre ++ suf) (a + k) n = rd_bytes suf k n.
Proof.
  intros Ha. revert k. induction n as [|n IH]; intros k Hk; [done|]. cbn [rd_bytes].
  rewrite rd8_app by done. by rewrite <- (Z.add_assoc a k 1), IH by lia.
Qed.

(** The bytes from the pointer on. *)
Definition points_at (p : packet) (q : option Z) (suf : list Z) : Prop :=
  ∃ pre, data p = pre ++ suf ∧ q = Some (Z.of_nat (length pre)).

Section fields.
Context {p : packet} {q : option Z} {suf : list Z} (Hq : points_at p q suf).

Lemma field8_at k : 0 <= k → field8 p q k = rd8 suf k.
Proof. destruct Hq as (pre & Hd & ->). simpl. rewrite Hd. by apply rd8_app. Qed.
Lemma field16_at k : 0 <= k → field16 p q k = rd_be16 suf k.
Proof. destruct Hq as (pre & Hd & ->). simpl. rewrite Hd. by apply rd_be16_app. Qed.
Lemma field32_at k : 0 <= k → field32 p q k = rd_be32 suf k.
Proof. destruct Hq as (pre & Hd & ->). simpl. rewrite Hd. by apply rd_be32_app. Qed.
Lemma field_bytes_at k n : 0 <= k → field_bytes p q k n = rd_bytes suf k n.
Proof. destruct Hq as (pre & Hd & ->). simpl. rewrite Hd. by apply rd_bytes_app. Qed.
End fields.

Lemma points_at_app p q s1 s2 n :
  points_at p q (s1 ++ s2) → n = Z.of_nat (length s1) →
  points_at p ((λ a, a + n) <$> q) s2.
Proof.
  intros (pre & Hd & ->) ->. exists (pre ++ s1). rewrite Hd, app_assoc. split; [done|].
  simpl. rewrite length_app. f_equal. lia.
Qed.

Lemma shiftr4_nibbles a b : 0 <= b < 16 → Z.shiftr (16 * a + b) 4 = a.
Proof. intros Hb. rewrite Z.shiftr_div_pow2 by lia. change (2 ^ 4) with 16. Z.div_mod_to_equations; lia. Qed.

Lemma land15_nibbles a b : 0 <= b < 16 → Z.land (16 * a + b) 15 = b.
Proof.
  intros Hb. change 15 with (Z.ones 4). rewrite Z.land_ones by lia. change (2 ^ 4) with 16.
  Z.div_mod_to_equations; lia.
Qed.

(** ** The reference encoding *)

Definition bytes16 (v : Z) : list Z := [v / 256; v mod 256].
Definition bytes32 (v : Z) : list Z := bytes16 (v / 65536) ++ bytes16 (v mod 65536).

Lemma rd_be16_bytes16 v rest : rd_be16 (bytes16 v ++ rest) 0 = Ok v.
Proof.
  change (Ok (v / 256 * 256 + v mod 256) = Ok v). f_equal. rewrite Z.mul_comm. symmetry.
  by apply Z.div_mod.
Qed.

Lemma rd_be32_bytes32 v rest : rd_be32 (bytes32 v ++ rest) 0 = Ok v.
Proof.
  change (Ok ((v / 65536 / 256 * 256 + (v / 65536) mod 256) * 65536
              + (v mod 65536 / 256 * 256 + (v mod 65536) mod 256)) = Ok v).
  f_equal. Z.div_mod_to_equations. lia.
Qed.

Record ip4_fields := Ip4Fields {
  f_tos : Z; f_id : Z; f_frag : Z; f_ttl : Z; f_proto : Z; f_sum : Z;
  f_src : list Z; f_dst : list Z; f_options : list Z
}.

Definition f_ihl (f : ip4_fields) : Z := 5 + Z.of_nat (length (f_options f)) / 4.

(** [n] is the number of bytes the header announces after itself. *)
Definition ip4_ok (f : ip4_fields) (n : nat) : Prop :=
  length (f_src f) = 4%nat ∧ length (f_dst f) = 4%nat ∧
  Z.of_nat (length (f_options f)) mod 4 = 0 ∧ (length (f_options f) <= 40)%nat ∧
  20 + Z.of_nat (length (f_options f)) + Z.of_nat n < 2 ^ 16.

Definition ip4_hdr (f : ip4_fields) (n : nat) : list Z :=
  [16 * 4 + f_ihl f; f_tos f] ++
  bytes16 (20 + Z.of_nat (length (f_options f)) + Z.of_nat n) ++
  bytes16 (f_id f) ++ bytes16 (f_frag f) ++ [f_ttl f; f_proto f] ++ bytes16 (f_sum f) ++
  f_src f ++ f_dst f ++ f_options f.
Definition encode_ip4 (f : ip4_fields) (body : list Z) : list Z :=
  ip4_hdr f (length body) ++ body.

(** An Ethernet frame: 14 header bytes, the datagram, and padding. *)
Definition frame (e : list Z) (f : ip4_fields) (body pad : list Z) : list Z :=
  e ++ encode_ip4 f body ++ pad.

Record tcp_fields := TcpFields {
  g_sport : Z; g_dport : Z; g_seq : Z; g_ack : Z; g_flags : Z; g_win : Z; g_sum : Z;
  g_urg : Z; g_options : list Z
}.

Definition tcp_ok (g : tcp_fields) : Prop :=
  Z.of_nat (length (g_options g)) mod 4 = 0 ∧ (length (g_options g) <= 40)%nat.

Definition tcp_hdr (g : tcp_fields) : list Z :=
  bytes16 (g_sport g) ++ bytes16 (g_dport g) ++ bytes32 (g_seq g) ++ bytes32 (g_ack g) ++
  [16 * (5 + Z.of_nat (length (g_options g)) / 4); g_flags g] ++ bytes16 (g_win g) ++
  bytes16 (g_sum g) ++ bytes16 (g_urg g) ++ g_options g.
Definition encode_tcp (g : tcp_fields) (body : list Z) : list Z := tcp_hdr g ++ body.

Definition udp_hdr (sport dport len sum : Z) : list Z :=
  bytes16 sport ++ bytes16 dport ++ bytes16 len ++ bytes16 sum.
Definition encode_udp (sport dport len sum : Z) (body : list Z) : list Z :=
  udp_hdr sport dport len sum ++ body.

Lemma length_ip4_hdr f n :
  ip4_ok f n → Z.of_nat (length (ip4_hdr f n)) = 20 + Z.of_nat (length (f_options f)).
Proof. intros (Hs & Hd & _). unfold ip4_hdr. rewrite !length_app. simpl. lia. Qed.

Lemma ihl_bounds f n :
  ip4_ok f n → 0 <= f_ihl f < 16 ∧ f_ihl f * 4 = 20 + Z.of_nat (length (f_options f)).
Proof. intros (_ & _ & Hm & Ho & _). unfold f_ihl. Z.div_mod_to_equations. lia. Qed.

Lemma rd_ip4 f n rest :
  ip4_ok f n →
  let buf := ip4_hdr f n ++ rest in
  rd8 buf 0 = Ok (16 * 4 + f_ihl f) ∧ rd8 buf 9 = Ok (f_proto f) ∧
  rd_bytes buf 12 4 = Ok (f_src f) ∧ rd_bytes buf 16 4 = Ok (f_dst f) ∧
  rd_be16 buf 2 = Ok (20 + Z.of_nat (length (f_options f)) + Z.of_nat n) ∧
  rd_be16 buf 6 = Ok (f_frag f).
Proof.
  intros (Hs & Hd & _). destruct f as [tos id frag ttl proto sum src dst opts]. simpl in Hs, Hd.
  destruct src as [|s0 [|s1 [|s2 [|s3 [|]]]]]; try done.
  destruct dst as [|d0 [|d1 [|d2 [|d3 [|]]]]]; try done.
  split_and!; try reflexivity; apply (rd_be16_bytes16 _ []).
Qed.

(** What [parse_ip] makes of a header and whatever follows it. *)
Lemma parse_ip_hdr p e f n rest :
  data p = e ++ ip4_hdr f n ++ rest → len p = Z.of_nat (length (data p)) → length e = 14%nat →
  eth_len (eth p) = 14 → ip4_ok f n →
  parse_ip p
  = Ok (0, with_ip p (IpPart (Some 14) (f_ihl f * 4) (Some (14 + f_ihl f * 4))
             (Z.of_nat n) true false (f_proto f)
             (store_v4 (pkt_src_ip (ip p)) (f_src f)) (store_v4 (pkt_dst_ip (ip p)) (f_dst f)))).
Proof.
  intros Hd Hlen He Heth Hok. pose proof (length_ip4_hdr _ _ Hok) as Henc.
  destruct (ihl_bounds _ _ Hok) as [Hihl Hhl].
  unfold parse_ip. rewrite Heth, Hlen, Hd, !length_app.
  rewrite (proj2 (Z.ltb_ge _ _)) by (unfold sizeof_iphdr; lia).
  set (p1 := with_ip p _).
  assert (points_at p1 (Some 14) (ip4_hdr f n ++ rest)) as Hq.
  { exists e. by rewrite He. }
  rewrite (field8_at Hq), (field8_at Hq), !(field_bytes_at Hq), (field16_at Hq) by lia.
  destruct (rd_ip4 f n rest Hok) as (R0 & R9 & R12 & R16 & R2 & _).
  rewrite R0, R9, R12, R16, R2. cbn [rbind].
  rewrite shiftr4_nibbles, land15_nibbles by lia. change (Z.land 4 0x0F =? 4) with true.
  cbv beta iota. destruct Hok as (_ & _ & _ & _ & Htot). do 4 f_equal.
  - change (eth p1) with (eth p). by rewrite Heth.
  - rewrite Hhl, u32_small by lia. lia.
Qed.

(** ** Transport headers *)

(** The cascade of flag tests keeps the six low bits. *)
Lemma or_flags_land b :
  or_flag b 5 TCP_FLAG_URG (or_flag b 4 TCP_FLAG_ACK (or_flag b 3 TCP_FLAG_PSH
    (or_flag b 2 TCP_FLAG_RST (or_flag b 1 TCP_FLAG_SYN (or_flag b 0 TCP_FLAG_FIN 0)))))
  = Z.land b 63.
Proof.
  apply Z.bits_inj'. intros i Hi. rewrite Z.land_spec.
  assert (i = 0 ∨ i = 1 ∨ i = 2 ∨ i = 3 ∨ i = 4 ∨ i = 5 ∨ 6 <= i) as Hcases by lia.
  unfold or_flag, TCP_FLAG_FIN, TCP_FLAG_SYN, TCP_FLAG_RST, TCP_FLAG_PSH, TCP_FLAG_ACK,
    TCP_FLAG_URG.
  destruct Hcases as [->|[->|[->|[->|[->|[->|Hbig]]]]]];
    try (repeat match goal with
      | |- context [if Z.testbit b ?k then _ else _] => destruct (Z.testbit b k)
      end; reflexivity).
  change 63 with (Z.ones 6). rewrite (Z.ones_spec_high 6 i), andb_false_r by lia.
  repeat match goal with
    | |- context [if Z.testbit b ?k then _ else _] => destruct (Z.testbit b k)
    end; match goal with |- Z.testbit ?x i = false =>
      let v := eval vm_compute in x in change x with v end;
    apply (testbit_high _ 6); lia.
Qed.

Lemma rd_tcp g body :
  let buf := encode_tcp g body in
  rd_be16 buf 0 = Ok (g_sport g) ∧ rd_be16 buf 2 = Ok (g_dport g) ∧
  rd_be32 buf 4 = Ok (g_seq g) ∧ rd_be32 buf 8 = Ok (g_ack g) ∧
  rd8 buf 13 = Ok (g_flags g) ∧
  rd8 buf 12 = Ok (16 * (5 + Z.of_nat (length (g_options g)) / 4)).
Proof.
  destruct g as [sp dp seq ack fl win sum urg opts]. simpl g_options.
  split_and!; try reflexivity; try apply (rd_be16_bytes16 _ []).
  - apply (rd_be32_bytes32 seq []).
  - apply (rd_be32_bytes32 ack []).
Qed.

Lemma length_encode_tcp g body :
  Z.of_nat (length (encode_tcp g body))
  = 20 + Z.of_nat (length (g_options g)) + Z.of_nat (length body).
Proof. unfold encode_tcp, tcp_hdr, bytes32. rewrite !length_app. simpl. lia. Qed.

Lemma parse_tcp_encode p g body pad :
  points_at p (transport_header (ip p)) (encode_tcp g body ++ pad) →
  transport_len (ip p) = Z.of_nat (length (encode_tcp g body)) →
  transport_len (ip p) < 2 ^ 32 → tcp_ok g →
  ∃ q, parse_tcp p
    = Ok (0, with_l4 p (L4Part (g_sport g) (g_dport g) q (Z.of_nat (length body))
               (Z.land (g_flags g) 63) (g_seq g) (g_ack g))) ∧
    points_at p q (body ++ pad).
Proof.
  intros Hq Hlen Hbig [Hm Ho]. rewrite length_encode_tcp in Hlen.
  set (hl := 20 + Z.of_nat (length (g_options g))).
  exists ((λ a, a + hl) <$> transport_header (ip p)). split.
  - unfold parse_tcp. rewrite (proj2 (Z.ltb_ge _ _)) by (unfold sizeof_tcphdr; lia).
    rewrite !(field16_at Hq), !(field32_at Hq), !(field8_at Hq) by lia.
    destruct (rd_tcp g (body ++ pad)) as (R0 & R2 & R4 & R8 & R13 & R12).
    unfold encode_tcp in *. rewrite <- !app_assoc.
    rewrite R0, R2, R4, R8, R13, R12. cbn [rbind]. rewrite or_flags_land.
    assert (Z.shiftr (16 * (5 + Z.of_nat (length (g_options g)) / 4)) 4 * 4 = hl) as ->.
    { rewrite Z.shiftr_div_pow2 by lia. unfold hl. change (2 ^ 4) with 16. Z.div_mod_to_equations. lia. }
    rewrite (proj2 (Z.ltb_ge _ _)) by (unfold hl; lia).
    rewrite u32_small by (unfold hl; lia). do 4 f_equal. unfold hl. lia.
  - unfold encode_tcp in Hq. rewrite <- app_assoc in Hq. apply (points_at_app _ _ _ _ _ Hq).
    pose proof (length_encode_tcp g []) as Hl. unfold encode_tcp in Hl. rewrite app_nil_r in Hl.
    rewrite Hl. unfold hl. simpl. lia.
Qed.

Lemma rd_udp sport dport len sum body :
  let buf := encode_udp sport dport len sum body in
  rd_be16 buf 0 = Ok sport ∧ rd_be16 buf 2 = Ok dport.
Proof. split; apply (rd_be16_bytes16 _ []). Qed.

Lemma parse_udp_encode p sport dport ulen sum body pad :
  points_at p (transport_header (ip p)) (encode_udp sport dport ulen sum body ++ pad) →
  transport_len (ip p) = 8 + Z.of_nat (length body) → transport_len (ip p) < 2 ^ 32 →
  ∃ q, parse_udp p
    = Ok (0, with_l4 p (L4Part sport dport q (Z.of_nat (length body)) (tcp_flags (l4 p))
               (tcp_seq (l4 p)) (tcp_ack (l4 p)))) ∧
    points_at p q (body ++ pad).
Proof.
  intros Hq Hlen Hbig. exists ((λ a, a + 8) <$> transport_header (ip p)). split.
  - unfold parse_udp, sizeof_udphdr. rewrite (proj2 (Z.ltb_ge _ _)) by lia.
    rewrite !(field16_at Hq) by lia. unfold encode_udp. rewrite <- !app_assoc.
    destruct (rd_udp sport dport ulen sum (body ++ pad)) as [R0 R2]. unfold encode_udp in R0, R2.
    rewrite R0, R2. cbn [rbind]. rewrite u32_small by lia. do 4 f_equal. lia.
  - unfold encode_udp in Hq. rewrite <- app_assoc in Hq. by apply (points_at_app _ _ _ _ _ Hq).
Qed.

Lemma parse_icmp_encode p type code rest pad :
  points_at p (transport_header (ip p)) (type :: code :: rest ++ pad) →
  (6 <= length rest)%nat →
  transport_len (ip p) = 2 + Z.of_nat (length rest) → transport_len (ip p) < 2 ^ 32 →
  ∃ q, parse_icmp p
    = Ok (0, with_l4 p (L4Part type code q (Z.of_nat (length rest) - 6) (tcp_flags (l4 p))
               (tcp_seq (l4 p)) (tcp_ack (l4 p)))).
Proof.
  intros Hq Hr Hlen Hbig. exists ((λ a, a + 8) <$> transport_header (ip p)).
  unfold parse_icmp, sizeof_icmphdr. rewrite (proj2 (Z.ltb_ge _ _)) by lia.
  rewrite !(field8_at Hq) by lia. change (rd8 (type :: code :: rest ++ pad) 0) with (Ok type).
  change (rd8 (type :: code :: rest ++ pad) 1) with (Ok code). cbn [rbind].
  rewrite u32_small by lia. do 4 f_equal. lia.
Qed.

(** ** Whole frames *)

(** The packet after the Ethernet and IP headers. *)
Definition ip4_packet (e : list Z) (f : ip4_fields) (n : nat) (rest : list Z) (ts : Z) : packet :=
  let dat := e ++ ip4_hdr f n ++ rest in
  Packet dat (Z.of_nat (length dat)) ts (EthPart (Some 0) 14)
    (IpPart (Some 14) (f_ihl f * 4) (Some (14 + f_ihl f * 4)) (Z.of_nat n) true false
       (f_proto f) (store_v4 ip_zero (f_src f)) (store_v4 ip_zero (f_dst f)))
    (l4 packet_zero) (http packet_zero).

Lemma packet_parse_ip4 e f n rest ts :
  length e = 14%nat → ip4_ok f n →
  let dat := e ++ ip4_hdr f n ++ rest in
  packet_parse packet_zero dat (Z.of_nat (length dat)) ts
  = (let* p := parse_transport (ip4_packet e f n rest ts) in Ok (0, p)) ∧
  points_at (ip4_packet e f n rest ts) (transport_header (ip (ip4_packet e f n rest ts))) rest.
Proof.
  intros He Hok dat. pose proof (length_ip4_hdr _ _ Hok) as Henc.
  assert (34 <= Z.of_nat (length dat)) as Hdat by (unfold dat; rewrite !length_app; lia).
  split.
  - unfold packet_parse. rewrite (proj2 (Z.eqb_neq _ _)) by lia. unfold parse_ethernet.
    cbn [len]. rewrite (proj2 (Z.ltb_ge _ _)) by (unfold sizeof_ethhdr; lia).
    cbn [negb Z.eqb].
    by erewrite (parse_ip_hdr _ e f n rest) by done.
  - exists (e ++ ip4_hdr f n). split; [unfold ip4_packet; cbn [data]; by rewrite <- app_assoc|].
    simpl. rewrite length_app, Nat2Z.inj_add, Henc.
    destruct (ihl_bounds _ _ Hok) as [_ Hhl]. f_equal. lia.
Qed.

Lemma frame_split e f body pad : frame e f body pad = e ++ ip4_hdr f (length body) ++ body ++ pad.
Proof. unfold frame, encode_ip4. by rewrite <- !app_assoc. Qed.

(** ** Properties *)

(** C18: Parsing the encoding of any IPv4/TCP segment off the HTTP ports, IP and
    TCP options and Ethernet padding included, succeeds and recovers the
    addresses, ports, sequence numbers, the six flags and the payload: its
    exact length and the bytes the payload pointer leads to. *)
Theorem packet_parse_tcp_roundtrip e f g body pad ts :
  length e = 14%nat → ip4_ok f (length (encode_tcp g body)) → tcp_ok g → f_proto f = PROTO_TCP →
  existsb (λ q, (q =? 80) || (q =? 8080)) [g_sport g; g_dport g] = false →
  let dat := frame e f (encode_tcp g body) pad in
  ∃ p, packet_parse packet_zero dat (Z.of_nat (length dat)) ts = Ok (0, p) ∧
    (v4_bytes (pkt_src_ip (ip p)) = f_src f ∧ v4_bytes (pkt_dst_ip (ip p)) = f_dst f) ∧
    (pkt_src_port (l4 p) = g_sport g ∧ pkt_dst_port (l4 p) = g_dport g) ∧
    (tcp_seq (l4 p) = g_seq g ∧ tcp_ack (l4 p) = g_ack g) ∧
    tcp_flags (l4 p) = Z.land (g_flags g) 63 ∧
    payload_len (l4 p) = Z.of_nat (length body) ∧ points_at p (payload (l4 p)) (body ++ pad).
Proof.
  intros He Hok Hg Hproto Hports dat.
  destruct (packet_parse_ip4 e f _ (encode_tcp g body ++ pad) ts He Hok) as [Hparse Hq].
  unfold dat. rewrite frame_split, Hparse. set (p := ip4_packet _ _ _ _ _) in *.
  destruct (parse_tcp_encode p g body pad) as (q & Htcp & Hpay); [exact Hq|done| |done|].
  { destruct Hok as (_ & _ & _ & _ & Htot).
    change (transport_len (ip p)) with (Z.of_nat (length (encode_tcp g body))). lia. }
  unfold parse_transport. replace (pkt_protocol (ip p)) with PROTO_TCP by done.
  cbn [Z.eqb PROTO_TCP]. rewrite Htcp. cbn [rbind Pos.eqb].
  replace (http_port _) with false.
  2: { unfold http_port. simpl in *.
       by destruct (g_sport g =? 80), (g_sport g =? 8080), (g_dport g =? 80), (g_dport g =? 8080). }
  eexists. split; [done|]. destruct Hok as (Hs & Hd & _). simpl. unfold v4_bytes. simpl.
  split_and!; try done; by rewrite take_app_length'.
Qed.

Definition example_ip (proto : Z) : ip4_fields :=
  Ip4Fields 0 1 0 64 proto 0 [10; 0; 0; 1] [10; 0; 0; 2] [].

Lemma packet_parse_tcp_roundtrip_witness :
  let dat := frame (replicate 14 0) (example_ip 6)
    (encode_tcp (TcpFields 1234 22 7 9 0x12 100 0 0 [1; 1; 1; 0]) [65; 66]) [0] in
  ∃ p, packet_parse packet_zero dat (Z.of_nat (length dat)) 5 = Ok (0, p) ∧
    tcp_flags (l4 p) = Z.lor TCP_FLAG_SYN TCP_FLAG_ACK ∧ payload_len (l4 p) = 2.
Proof.
  intros dat.
  destruct (packet_parse_tcp_roundtrip (replicate 14 0) (example_ip 6)
    (TcpFields 1234 22 7 9 0x12 100 0 0 [1; 1; 1; 0]) [65; 66] [0] 5) as (p & Hp & _ & _ & _ & Hf & Hl & _).
  - reflexivity.
  - unfold ip4_ok. split_and!; (reflexivity || (simpl; lia)).
  - unfold tcp_ok. split; (reflexivity || (simpl; lia)).
  - reflexivity.
  - reflexivity.
  - exists p. split; [exact Hp|]. split; [rewrite Hf|rewrite Hl]; reflexivity.
Defined.

(** Parsing the encoding of any IPv4/UDP datagram recovers addresses, ports,
    payload length and payload. *)
Theorem packet_parse_udp_roundtrip e f sport dport ulen sum body pad ts :
  length e = 14%nat → ip4_ok f (length (encode_udp sport dport ulen sum body)) → f_proto f = PROTO_UDP →
  let dat := frame e f (encode_udp sport dport ulen sum body) pad in
  ∃ p, packet_parse packet_zero dat (Z.of_nat (length dat)) ts = Ok (0, p) ∧
    (v4_bytes (pkt_src_ip (ip p)) = f_src f ∧ v4_bytes (pkt_dst_ip (ip p)) = f_dst f) ∧
    (pkt_src_port (l4 p) = sport ∧ pkt_dst_port (l4 p) = dport) ∧
    payload_len (l4 p) = Z.of_nat (length body) ∧ points_at p (payload (l4 p)) (body ++ pad).
Proof.
  intros He Hok Hproto dat.
  destruct (packet_parse_ip4 e f _ (encode_udp sport dport ulen sum body ++ pad) ts He Hok)
    as [Hparse Hq].
  unfold dat. rewrite frame_split, Hparse. set (p := ip4_packet _ _ _ _ _) in *.
  destruct (parse_udp_encode p sport dport ulen sum body pad) as (q & Hudp & Hpay);
    [exact Hq| | |].
  { subst p. cbn [ip ip4_packet transport_len]. unfold encode_udp. rewrite length_app. simpl. lia. }
  { destruct Hok as (_ & _ & _ & _ & Htot). subst p. cbn [ip ip4_packet transport_len]. lia. }
  unfold parse_transport. replace (pkt_protocol (ip p)) with PROTO_UDP by done.
  cbn [Z.eqb PROTO_TCP PROTO_UDP Pos.eqb]. rewrite Hudp. cbn [rbind].
  eexists. split; [done|]. destruct Hok as (Hs & Hd & _). simpl. unfold v4_bytes. simpl.
  split_and!; try done; by rewrite take_app_length'.
Qed.

Lemma packet_parse_udp_roundtrip_witness :
  let dat := frame (replicate 14 0) (example_ip 17) (encode_udp 53 4000 11 0 [1; 2; 3]) [] in
  ∃ p, packet_parse packet_zero dat (Z.of_nat (length dat)) 5 = Ok (0, p) ∧
    pkt_src_port (l4 p) = 53 ∧ payload_len (l4 p) = 3.
Proof.
  intros dat.
  destruct (packet_parse_udp_roundtrip (replicate 14 0) (example_ip 17) 53 4000 11 0 [1; 2; 3] [] 5)
    as (p & Hp & _ & [Hs _] & Hl & _).
  - reflexivity.
  - unfold ip4_ok. split_and!; (reflexivity || (simpl; lia)).
  - reflexivity.
  - exists p. split; [exact Hp|]. split; [exact Hs|exact Hl].
Defined.

(** ** Lengths the parser trusts *)

(** Every read either stays in the buffer or is out of bounds. *)
Lemma rd8_cases buf k : rd8 buf k = Undef OutOfBounds ∨ ∃ b, rd8 buf k = Ok b.
Proof. unfold rd8. destruct (0 <=? k); [destruct (_ !! _)|]; eauto. Qed.

Lemma rd_be16_cases buf k : rd_be16 buf k = Undef OutOfBounds ∨ ∃ v, rd_be16 buf k = Ok v.
Proof.
  unfold rd_be16. destruct (rd8_cases buf k) as [->|[b ->]]; [by left|]. cbn [rbind].
  destruct (rd8_cases buf (k + 1)) as [->|[b' ->]]; eauto.
Qed.

Lemma rd_be32_cases buf k : rd_be32 buf k = Undef OutOfBounds ∨ ∃ v, rd_be32 buf k = Ok v.
Proof.
  unfold rd_be32. destruct (rd_be16_cases buf k) as [->|[b ->]]; [by left|]. cbn [rbind].
  destruct (rd_be16_cases buf (k + 2)) as [->|[b' ->]]; eauto.
Qed.

Lemma rd_bytes_cases buf k n :
  0 <= k → rd_bytes buf k n
  = if decide (k + Z.of_nat n <= Z.of_nat (length buf)) then Ok (take n (drop (Z.to_nat k) buf))
    else if decide (n = 0%nat) then Ok [] else Undef OutOfBounds.
Proof.
  revert k. induction n as [|n IH]; intros k Hk; [by repeat case_decide|]. cbn [rd_bytes].
  destruct (decide (k < Z.of_nat (length buf))) as [Hlt|Hge].
  - destruct (rd8_in_range buf k) as (b & Hb & _); [lia|]. rewrite Hb. cbn [rbind].
    rewrite IH by lia. apply rd8_Ok in Hb as [_ Hb].
    rewrite (drop_S buf b (Z.to_nat k)) by done.
    replace (Z.to_nat (k + 1)) with (S (Z.to_nat k)) by lia.
    repeat case_decide; try lia; done.
  - rewrite rd8_oob by lia. repeat case_decide; try lia; done.
Qed.

(** A frame that announces IPv6 but is shorter than an IPv6 header passes the
    length check, made for an IPv4 header, and the addresses are read past the
    end of its buffer. *)
Theorem parse_ip6_short_overread e b0 rest ts :
  length e = 14%nat → Z.land (Z.shiftr b0 4) 15 = 6 →
  (20 <= length (b0 :: rest) < 40)%nat →
  let dat := e ++ b0 :: rest in
  packet_parse packet_zero dat (Z.of_nat (length dat)) ts = Undef OutOfBounds.
Proof.
  intros He Hv Hlen dat.
  assert (Z.of_nat (length dat) = 14 + Z.of_nat (length (b0 :: rest))) as Hdat
    by (unfold dat; rewrite length_app; lia).
  unfold packet_parse. rewrite (proj2 (Z.eqb_neq _ _)) by lia. unfold parse_ethernet.
  cbn [len]. rewrite (proj2 (Z.ltb_ge _ _)) by (unfold sizeof_ethhdr; lia).
  cbn [negb Z.eqb]. unfold parse_ip. cbn [len with_eth eth eth_len].
  rewrite (proj2 (Z.ltb_ge _ _)) by (unfold sizeof_ethhdr, sizeof_iphdr; lia).
  set (p1 := with_ip _ _).
  assert (points_at p1 (Some 14) (b0 :: rest)) as Hq by (exists e; by rewrite He).
  change (Some sizeof_ethhdr) with (Some 14).
  rewrite (field8_at Hq), (field8_at Hq), (field8_at Hq), !(field_bytes_at Hq) by lia.
  change (rd8 (b0 :: rest) 0) with (Ok b0). cbn [rbind]. rewrite Hv. cbn [Z.eqb Pos.eqb].
  destruct (rd8_in_range (b0 :: rest) 6) as (b6 & -> & _); [lia|]. cbn [rbind].
  rewrite !rd_bytes_cases by lia. repeat case_decide; try lia; done.
Qed.

Lemma parse_ip6_short_overread_witness :
  packet_parse packet_zero (replicate 14 0 ++ 0x60 :: replicate 25 0) 40 0 = Undef OutOfBounds.
Proof.
  apply (parse_ip6_short_overread (replicate 14 0) 0x60 (replicate 25 0) 0);
    [reflexivity|reflexivity|simpl; lia].
Defined.

(** The announced datagram length is never compared with the captured one: a
    TCP header that is announced but not captured is read past the end of the
    buffer. *)
Theorem parse_tcp_truncated_overread e f n rest ts :
  length e = 14%nat → ip4_ok f n → f_proto f = PROTO_TCP → (20 <= n)%nat →
  (length rest < 14)%nat →
  let dat := e ++ ip4_hdr f n ++ rest in
  packet_parse packet_zero dat (Z.of_nat (length dat)) ts = Undef OutOfBounds.
Proof.
  intros He Hok Hproto Hn Hrest dat.
  destruct (packet_parse_ip4 e f n rest ts He Hok) as [Hparse Hq].
  unfold dat. rewrite Hparse. set (p := ip4_packet _ _ _ _ _) in *.
  unfold parse_transport. replace (pkt_protocol (ip p)) with PROTO_TCP by done.
  cbn [Z.eqb PROTO_TCP Pos.eqb]. unfold parse_tcp.
  change (transport_len (ip p)) with (Z.of_nat n).
  rewrite (proj2 (Z.ltb_ge _ _)) by (unfold sizeof_tcphdr; lia).
  rewrite !(field16_at Hq), !(field32_at Hq), (field8_at Hq) by lia.
  destruct (rd_be16_cases rest 0) as [->|[? ->]]; [done|]. cbn [rbind].
  destruct (rd_be16_cases rest 2) as [->|[? ->]]; [done|]. cbn [rbind].
  destruct (rd_be32_cases rest 4) as [->|[? ->]]; [done|]. cbn [rbind].
  destruct (rd_be32_cases rest 8) as [->|[? ->]]; [done|]. cbn [rbind].
  by rewrite rd8_oob by lia.
Qed.

Lemma parse_tcp_truncated_overread_witness :
  let dat := replicate 14 0 ++ ip4_hdr (example_ip 6) 20 ++ [] in
  packet_parse packet_zero dat (Z.of_nat (length dat)) 0 = Undef OutOfBounds.
Proof.
  apply (parse_tcp_truncated_overread (replicate 14 0) (example_ip 6) 20 [] 0);
    [reflexivity| |reflexivity|lia|simpl; lia].
  unfold ip4_ok. split_and!; (reflexivity || (simpl; lia)).
Defined.

(** C35: On any frame, [packet_parse] succeeds only if the buffer holds an
    Ethernet and an IPv4 header and the version is 4 or 6, and it returns -1 in
    every other case. *)
Theorem packet_parse_rejects dat ts :
  let ln := Z.of_nat (length dat) in
  let version := match dat !! 14%nat with Some b => Z.land (Z.shiftr b 4) 15 | None => 0 end in
  ((ln < 34 ∨ version ≠ 4 ∧ version ≠ 6) →
   ∃ p, packet_parse packet_zero dat ln ts = Ok (-1, p)) ∧
  ((34 <= ln ∧ (version = 4 ∨ version = 6)) →
   ∀ rc p, packet_parse packet_zero dat ln ts = Ok (rc, p) → rc = 0).
Proof.
  intros ln version. unfold packet_parse. destruct (Z.eqb_spec ln 0) as [H0|H0].
  { split; [eauto|lia]. }
  unfold parse_ethernet. cbn [len]. destruct (Z.ltb_spec ln sizeof_ethhdr) as [H1|H1].
  { unfold sizeof_ethhdr in H1. split; [eexists; reflexivity|lia]. }
  cbn [negb Z.eqb]. unfold parse_ip at 1 2. cbn [len with_eth eth eth_len].
  destruct (Z.ltb_spec ln (sizeof_ethhdr + sizeof_iphdr)) as [H2|H2];
    unfold sizeof_ethhdr, sizeof_iphdr in H2.
  { split; [eexists; reflexivity|lia]. }
  set (p1 := with_ip _ _). destruct (rd8_in_range dat 14) as (b0 & Hb0 & _); [lia|].
  change (field8 p1 (Some sizeof_ethhdr) 0) with (rd8 dat 14). rewrite Hb0. cbn [rbind].
  apply rd8_Ok in Hb0 as [_ Hb0]. change (Z.to_nat 14) with 14%nat in Hb0.
  unfold version. rewrite Hb0. split.
  - intros [?|[Hn4 Hn6]]; [lia|].
    rewrite (proj2 (Z.eqb_neq _ 4)), (proj2 (Z.eqb_neq _ 6)) by done. eexists. reflexivity.
  - intros [_ Hv] rc p H. apply rbind_Ok in H as ([r q] & Hm & H).
    assert (r = 0) as ->.
    { destruct (Z.eqb_spec (Z.land (Z.shiftr b0 4) 15) 4), (Z.eqb_spec (Z.land (Z.shiftr b0 4) 15) 6);
        try lia; repeat (apply rbind_Ok in Hm as (? & _ & Hm)); by injection Hm. }
    cbn in H. apply rbind_Ok in H as (p' & _ & H). by injection H.
Qed.

Lemma packet_parse_rejects_witness :
  (∃ p, packet_parse packet_zero (replicate 33 0x45) 33 0 = Ok (-1, p)) ∧
  (∃ p, packet_parse packet_zero (replicate 34 0x55) 34 0 = Ok (-1, p)).
Proof.
  split.
  - apply (proj1 (packet_parse_rejects (replicate 33 0x45) 0)). left. reflexivity.
  - apply (proj1 (packet_parse_rejects (replicate 34 0x55) 0)). right. by vm_compute.
Defined.

(** ** HTTP requests *)






Lemma match_method_request name tail :
  name ∈ http_methods → match_method http_methods (bytes_of name ++ 32 :: tail) = Ok (Some (bytes_of name)).
Proof.
  unfold http_methods. intros Hn. repeat (apply elem_of_cons in Hn as [->|Hn]; [reflexivity|]).
  by apply not_elem_of_nil in Hn.
Qed.

Lemma method_plain name :
  name ∈ http_methods → 32 ∉ bytes_of name ∧ 0 ∉ bytes_of name ∧ 58 ∉ bytes_of name.
Proof.
  unfold http_methods. intros Hn.
  repeat (apply elem_of_cons in Hn as [->|Hn];
    [split_and!; (apply (bool_decide_unpack _); vm_compute; exact I)|]).
  by apply not_elem_of_nil in Hn.
Qed.






Definition http_packet (m : list Z) : packet :=
  Packet m (Z.of_nat (length m)) 0 (EthPart (Some 0) 14)
    (ip packet_zero) (L4Part 40000 80 (Some 0) (Z.of_nat (length m)) 0 0 0) (http packet_zero).


Lemma strchr_runs_off s c : c ∉ s → 0 ∉ s → strchr s c = Undef OutOfBounds.
Proof.
  induction s as [|b s IH]; intros Hc H0; [done|]. simpl.
  apply not_elem_of_cons in Hc as [? ?]. apply not_elem_of_cons in H0 as [? ?].
  destruct (Z.eqb_spec b c), (Z.eqb_spec b 0); try congruence. by rewrite IH.
Qed.

(** The payload is treated as a C string although nothing terminates it: a
    request whose URI fills the rest of the captured frame makes the parser
    read past the end of its buffer. *)
Theorem parse_http_unterminated_overread p name uri :
  name ∈ http_methods → points_at p (payload (l4 p)) (bytes_of name ++ 32 :: uri) →
  16 <= payload_len (l4 p) → 32 ∉ uri → 0 ∉ uri →
  parse_http p = Undef OutOfBounds.
Proof.
  intros Hn (pre & Hd & Hq) Hlen U32 U0. destruct (method_plain name Hn) as (M32 & M0 & _).
  unfold parse_http. rewrite Hq, (proj2 (Z.ltb_ge _ _)) by done.
  rewrite Hd, Nat2Z.id, drop_app_length, match_method_request by done. cbn [rbind].
  unfold http_uri_of. rewrite strchr_found by done. cbn [rbind].
  rewrite drop_app_ge, (Nat.sub_succ_l _ _ (Nat.le_refl _)), Nat.sub_diag by lia.
  cbn [drop]. rewrite drop_0. by rewrite strchr_runs_off.
Qed.

Lemma parse_http_unterminated_overread_witness :
  parse_http (http_packet (bytes_of "GET" ++ 32 :: replicate 20 65)) = Undef OutOfBounds.
Proof.
  apply (parse_http_unterminated_overread _ "GET" (replicate 20 65)).
  - left.
  - exists []. split; reflexivity.
  - vm_compute. discriminate.
  - apply (bool_decide_unpack _). vm_compute. exact I.
  - apply (bool_decide_unpack _). vm_compute. exact I.
Defined.

(** The transport parsers write the transport fields only. *)
Definition keeps (p q : packet) : Prop :=
  data q = data p ∧ len q = len p ∧ eth q = eth p ∧ ip q = ip p.

(** Takes apart a computation that has returned. *)
Ltac res_inv H :=
  repeat match type of H with
  | rbind _ _ = Ok _ => apply rbind_Ok in H as (? & ? & H)
  | match ?b with _ => _ end = Ok _ => destruct b
  | Undef _ = Ok _ => discriminate H
  end.

Lemma parse_tcp_keeps p rc q : parse_tcp p = Ok (rc, q) → keeps p q.
Proof. unfold parse_tcp. intros H. res_inv H; by injection H as _ <-. Qed.
Lemma parse_udp_keeps p rc q : parse_udp p = Ok (rc, q) → keeps p q.
Proof. unfold parse_udp. intros H. res_inv H; by injection H as _ <-. Qed.
Lemma parse_icmp_keeps p rc q : parse_icmp p = Ok (rc, q) → keeps p q.
Proof. unfold parse_icmp. intros H. res_inv H; by injection H as _ <-. Qed.
Lemma parse_http_keeps p rc q : parse_http p = Ok (rc, q) → keeps p q.
Proof. unfold parse_http. intros H. res_inv H; by injection H as _ <-. Qed.

Lemma parse_transport_keeps p q : parse_transport p = Ok q → keeps p q.
Proof.
  unfold parse_transport. intros H. destruct (_ =? PROTO_TCP); [|destruct (_ =? PROTO_UDP);
    [|destruct (_ =? PROTO_ICMP)]].
  - apply rbind_Ok in H as ([rc p1] & H1 & H). apply parse_tcp_keeps in H1 as (E1 & E2 & E3 & E4).
    destruct (http_port p1); [|by injection H as <-].
    apply rbind_Ok in H as ([rc' p2] & H2 & H). apply parse_http_keeps in H2 as (F1 & F2 & F3 & F4).
    injection H as <-. unfold keeps. by rewrite F1, F2, F3, F4.
  - apply rbind_Ok in H as ([rc p1] & H1 & H). injection H as <-. by eapply parse_udp_keeps.
  - apply rbind_Ok in H as ([rc p1] & H1 & H). injection H as <-. by eapply parse_icmp_keeps.
  - by injection H as <-.
Qed.

(** On a parsed IPv4 frame the predicates are exact: it is a fragment when
    the offset or the more-fragments bit is set, and it is malformed exactly
    when its header announces more bytes than were captured. *)
Theorem packet_predicates_exact e f n rest ts p :
  length e = 14%nat → ip4_ok f n →
  let dat := e ++ ip4_hdr f n ++ rest in
  Z.of_nat (length dat) < 2 ^ 32 →
  packet_parse packet_zero dat (Z.of_nat (length dat)) ts = Ok (0, p) →
  packet_is_fragment p
  = Ok (negb (Z.land (f_frag f) IP_OFFMASK =? 0) || negb (Z.land (f_frag f) IP_MF =? 0)) ∧
  packet_is_malformed p = Ok (Z.of_nat (length rest) <? Z.of_nat n).
Proof.
  intros He Hok dat Hbig Hp. destruct (packet_parse_ip4 e f n rest ts He Hok) as [Hparse _].
  unfold dat in Hp. rewrite Hparse in Hp. apply rbind_Ok in Hp as (q & Hq & Hp).
  injection Hp as <-. apply parse_transport_keeps in Hq as (Hd & Hl & He' & Hi).
  pose proof (length_ip4_hdr _ _ Hok) as Hh. destruct (ihl_bounds _ _ Hok) as [_ Hhl].
  destruct (rd_ip4 f n rest Hok) as (_ & _ & _ & _ & R2 & R6).
  assert (points_at q (Some 14) (ip4_hdr f n ++ rest)) as Hpt by (exists e; by rewrite Hd, He).
  assert (Z.of_nat (length dat) = 14 + (20 + Z.of_nat (length (f_options f))) + Z.of_nat (length rest))
    as Hdat by (unfold dat; rewrite !length_app; lia).
  split.
  - unfold packet_is_fragment. rewrite Hi. cbn [ip ip4_packet ip_header is_ipv4].
    rewrite (field16_at Hpt), R6 by lia. done.
  - unfold packet_is_malformed. rewrite Hi, Hl, He'.
    cbn [ip ip4_packet ip_header is_ipv4 ip_len len eth eth_len].
    fold dat. rewrite (proj2 (Z.ltb_ge _ sizeof_ethhdr)) by (unfold sizeof_ethhdr; lia).
    rewrite (proj2 (Z.ltb_ge _ sizeof_iphdr)) by (unfold sizeof_iphdr; lia).
    rewrite (field16_at Hpt), R2 by lia. cbn [rbind].
    rewrite (proj2 (Z.ltb_ge _ sizeof_iphdr)) by (unfold sizeof_iphdr; lia).
    rewrite u32_small by lia.
    destruct (Z.ltb_spec (Z.of_nat (length rest)) (Z.of_nat n)).
    + by rewrite (proj2 (Z.ltb_lt _ _)) by lia.
    + by rewrite (proj2 (Z.ltb_ge _ _)) by lia.
Qed.

Lemma packet_predicates_exact_witness :
  let f := Ip4Fields 0 1 0x2000 64 99 0 [10; 0; 0; 1] [10; 0; 0; 2] [] in
  let dat := replicate 14 0 ++ ip4_hdr f 3 ++ [1; 2] in
  ∃ p, packet_parse packet_zero dat (Z.of_nat (length dat)) 0 = Ok (0, p) ∧
    packet_is_fragment p = Ok true ∧ packet_is_malformed p = Ok true.
Proof.
  intros f dat. eexists. split; [vm_compute; reflexivity|].
  apply (packet_predicates_exact (replicate 14 0) f 3 [1; 2] 0).
  - reflexivity.
  - unfold ip4_ok. split_and!; (reflexivity || (simpl; lia)).
  - reflexivity.
  - vm_compute. reflexivity.
Defined.
