(* ===== verification/ParserTypes.v ===== *)
(** * The types of a parsed packet

    What the parser of [src/packet/parser.c] promises of the struct it fills: each
    field holds a value of its C type, the two addresses are of the family of the
    header, and the copied strings respect the limits the code puts on them. *)

From S2P Require Import Prelude Bits Common CString Packet Parser.

(** ** Values that are read *)

Lemma rd8_byte buf k v : bytes_ok buf → rd8 buf k = Ok v → 0 <= v < 2 ^ 8.
Proof. intros Hb [_ Hl]%rd8_Ok. exact (proj1 (Forall_lookup _ _) Hb _ _ Hl). Qed.

Lemma rd_be16_range buf k v : bytes_ok buf → rd_be16 buf k = Ok v → 0 <= v < 2 ^ 16.
Proof.
  intros Hb H. apply rbind_Ok in H as (a & Ha & H). apply rbind_Ok in H as (b & Hb' & [= <-]).
  apply (rd8_byte buf) in Ha, Hb'; [|done..]. lia.
Qed.

Lemma rd_be32_range buf k v : bytes_ok buf → rd_be32 buf k = Ok v → 0 <= v < 2 ^ 32.
Proof.
  intros Hb H. apply rbind_Ok in H as (a & Ha & H). apply rbind_Ok in H as (b & Hb' & [= <-]).
  apply (rd_be16_range buf) in Ha, Hb'; [|done..]. lia.
Qed.

Lemma rd_bytes_ok buf k n l : bytes_ok buf → rd_bytes buf k n = Ok l → length l = n ∧ bytes_ok l.
Proof.
  intros Hb. revert k l. induction n as [|n IH]; intros k l H; cbn [rd_bytes] in H; [injection H as <-; split; [done|constructor]|].
  apply rbind_Ok in H as (b & Hb' & H). apply rbind_Ok in H as (l' & Hl & [= <-]).
  apply IH in Hl as [<- Hl]. split; [done|].
  constructor; [exact (rd8_byte _ _ _ Hb Hb')|done].
Qed.

Section fields.
Variables (p : packet) (q : option Z).
Hypothesis Hdata : bytes_ok (data p).

Lemma field8_range k v : field8 p q k = Ok v → 0 <= v < 2 ^ 8.
Proof. destruct q; [|done]. by apply rd8_byte. Qed.
Lemma field16_range k v : field16 p q k = Ok v → 0 <= v < 2 ^ 16.
Proof. destruct q; [|done]. by apply rd_be16_range. Qed.
Lemma field32_range k v : field32 p q k = Ok v → 0 <= v < 2 ^ 32.
Proof. destruct q; [|done]. by apply rd_be32_range. Qed.
Lemma field_bytes_ok k n l : field_bytes p q k n = Ok l → length l = n ∧ bytes_ok l.
Proof. destruct q; [|done]. by apply rd_bytes_ok. Qed.
End fields.

(** ** The types *)

Record ip_part_ok (i : ip_part) : Prop := {
  it_len : 0 <= ip_len i <= 60;
  it_transport : 0 <= transport_len i < 2 ^ 32;
  it_protocol : 0 <= pkt_protocol i < 2 ^ 8;
  it_src : ip_ok (pkt_src_ip i);
  it_dst : ip_ok (pkt_dst_ip i)
}.

(** The header is of one family, and so are both addresses. *)
Definition one_family (i : ip_part) : Prop :=
  is_ipv6 i = negb (is_ipv4 i) ∧
  family (pkt_src_ip i) = (if is_ipv4 i then AF_INET else AF_INET6) ∧
  family (pkt_dst_ip i) = (if is_ipv4 i then AF_INET else AF_INET6).

Record l4_part_ok (t : l4_part) : Prop := {
  lt_src : 0 <= pkt_src_port t < 2 ^ 16;
  lt_dst : 0 <= pkt_dst_port t < 2 ^ 16;
  lt_payload : 0 <= payload_len t < 2 ^ 32;
  lt_flags : 0 <= tcp_flags t < 2 ^ 6;
  lt_seq : 0 <= tcp_seq t < 2 ^ 32;
  lt_ack : 0 <= tcp_ack t < 2 ^ 32
}.

Definition shorter (n : nat) (s : option (list Z)) : Prop :=
  match s with Some l => (0 < length l < n)%nat | None => True end.

Record http_part_ok (h : http_part) : Prop := {
  ht_method : is_http h = bool_decide (is_Some (http_method h));
  ht_name : ∀ m, http_method h = Some m → m ∈ bytes_of <$> http_methods;
  ht_uri : shorter 2048 (http_uri h);
  ht_agent : shorter 512 (http_user_agent h);
  ht_length : 0 <= http_content_length h < 2 ^ 32
}.

Record packet_ok (p : packet) : Prop := {
  pt_data : bytes_ok (data p);
  pt_ip : ip_part_ok (ip p);
  pt_l4 : l4_part_ok (l4 p);
  pt_http : http_part_ok (http p)
}.

Lemma packet_zero_parts : ip_part_ok (ip packet_zero) ∧ l4_part_ok (l4 packet_zero) ∧ http_part_ok (http packet_zero).
Proof.
  assert (ip_ok ip_zero) as Hz by by apply ip_okb_ok.
  split_and!; split; cbn; try done; lia.
Qed.

(** ** Each parser keeps them *)

Lemma store_v4_ok a b : ip_ok a → length b = 4%nat ∧ bytes_ok b → ip_ok (store_v4 a b).
Proof.
  intros (Hl & Hb & _) [Lb Bb]. unfold ip_ok. cbn [store_v4 addr family]. rewrite length_app, length_drop.
  split_and!; [lia|by apply Forall_app_2, Forall_drop|done..].
Qed.

Lemma store_v6_ok a b : ip_ok a → length b = 16%nat ∧ bytes_ok b → ip_ok (store_v6 a b).
Proof.
  intros (Hl & Hb & _) [Lb Bb]. unfold ip_ok. cbn [store_v6 addr family]. rewrite length_app, length_drop.
  split_and!; [lia|by apply Forall_app_2, Forall_drop|done..].
Qed.

Lemma land_low b : 0 <= Z.land b 0x0F < 16.
Proof. change 0x0F with (Z.ones 4). rewrite Z.land_ones by lia. by apply Z.mod_pos_bound. Qed.

Lemma parse_ip_types p rc p' :
  packet_ok p → parse_ip p = Ok (rc, p') → packet_ok p' ∧ (rc = 0 → one_family (ip p')).
Proof.
  intros [Hd Hi Ht Hh] H. unfold parse_ip in H.
  destruct (len p <? _); [injection H as <- <-; split; [by split|done]|].
  set (q := with_ip p _) in H. assert (packet_ok q) as Hq by (split; cbn; try done; by destruct Hi).
  assert (bytes_ok (data q)) as Hdq by done.
  apply rbind_Ok in H as (b0 & _ & H). pose proof (land_low b0) as Hlow.
  destruct (_ =? 4).
  - apply rbind_Ok in H as (proto & Hproto & H). apply rbind_Ok in H as (sa & Hsa & H).
    apply rbind_Ok in H as (da & Hda & H). apply rbind_Ok in H as (tot & Htot & [= <- <-]).
    apply field8_range in Hproto; [|done]. apply field_bytes_ok in Hsa, Hda; [|done..].
    destruct Hi as [_ _ _ Hs Hdst]. split; [split; try done|intros _; by repeat split].
    split; cbn; [lia|apply u32_range|done|by apply store_v4_ok..].
  - destruct (_ =? 6); [|injection H as <- <-; split; [exact Hq|discriminate]].
    apply rbind_Ok in H as (proto & Hproto & H). apply rbind_Ok in H as (sa & Hsa & H).
    apply rbind_Ok in H as (da & Hda & H). apply rbind_Ok in H as (plen & Hplen & [= <- <-]).
    apply field8_range in Hproto; [|done]. apply field_bytes_ok in Hsa, Hda; [|done..].
    apply field16_range in Hplen; [|done]. change (2 ^ 16) with 65536 in Hplen.
    destruct Hi as [_ _ _ Hs Hdst]. split; [split; try done|intros _; by repeat split].
    split; cbn; [unfold sizeof_ip6_hdr; lia|lia|done|by apply store_v6_ok..].
Qed.

Lemma or_flag_range b bit mask flags :
  0 <= mask < 2 ^ 6 → 0 <= flags < 2 ^ 6 → 0 <= or_flag b bit mask flags < 2 ^ 6.
Proof. intros Hm Hf. unfold or_flag. destruct (Z.testbit b bit); [by apply lor_range|done]. Qed.

(** The transport parsers write the fourth part only. *)
Definition l4_written (p p' : packet) : Prop :=
  data p' = data p ∧ ip p' = ip p ∧ http p' = http p ∧ l4_part_ok (l4 p').

Lemma l4_written_ok p p' : packet_ok p → l4_written p p' → packet_ok p'.
Proof. intros [Hd Hi Ht Hh] (E1 & E2 & E3 & Ht'). split; by rewrite ?E1, ?E2, ?E3. Qed.

Lemma parse_tcp_types p rc p' : packet_ok p → parse_tcp p = Ok (rc, p') → l4_written p p'.
Proof.
  intros [Hd Hi Ht Hh] H. unfold parse_tcp in H. cbv zeta in H.
  destruct (_ <? sizeof_tcphdr); [by injection H as <- <-|].
  apply rbind_Ok in H as (sp & Hsp & H). apply rbind_Ok in H as (dp & Hdp & H).
  apply rbind_Ok in H as (sq & Hsq & H). apply rbind_Ok in H as (ak & Hak & H).
  apply rbind_Ok in H as (b13 & _ & H). apply rbind_Ok in H as (b12 & _ & H).
  apply field16_range in Hsp, Hdp; [|done..]. apply field32_range in Hsq, Hak; [|done..].
  set (flags := or_flag b13 5 _ _) in H. assert (0 <= flags < 2 ^ 6) as Hf
    by (unfold flags; repeat (apply or_flag_range; [done|]); done).
  destruct (_ <? _); injection H as <- <-; split_and!; try done; split; cbn; try done;
    [apply Ht|apply u32_range].
Qed.

Lemma parse_udp_types p rc p' : packet_ok p → parse_udp p = Ok (rc, p') → l4_written p p'.
Proof.
  intros [Hd Hi Ht Hh] H. unfold parse_udp in H. cbv zeta in H.
  destruct (_ <? sizeof_udphdr); [by injection H as <- <-|].
  apply rbind_Ok in H as (sp & Hsp & H). apply rbind_Ok in H as (dp & Hdp & [= <- <-]).
  apply field16_range in Hsp, Hdp; [|done..].
  split_and!; try done; split; cbn; try done; try apply Ht. apply u32_range.
Qed.

Lemma parse_icmp_types p rc p' : packet_ok p → parse_icmp p = Ok (rc, p') → l4_written p p'.
Proof.
  intros [Hd Hi Ht Hh] H. unfold parse_icmp in H. cbv zeta in H.
  destruct (_ <? sizeof_icmphdr); [by injection H as <- <-|].
  apply rbind_Ok in H as (ty & Hty & H). apply rbind_Ok in H as (code & Hcode & [= <- <-]).
  apply field8_range in Hty, Hcode; [|done..]. change (2 ^ 8) with 256 in *.
  split_and!; try done; split; cbn; try apply Ht; try lia. apply u32_range.
Qed.

Lemma match_method_named ms m name :
  match_method ms m = Ok (Some name) → name ∈ bytes_of <$> ms.
Proof.
  induction ms as [|s ms IH]; [done|]. cbn [match_method]. intros H.
  apply rbind_Ok in H as (hit & _ & H). rewrite fmap_cons. destruct hit.
  - injection H as <-. by left.
  - right. by apply IH.
Qed.

Lemma strchr_length m c n : strchr m c = Ok (Some n) → (n < length m)%nat.
Proof.
  revert n. induction m as [|b m IH]; intros n; [done|]. cbn [strchr length].
  destruct (b =? c); [intros [= <-]; lia|]. destruct (b =? 0); [done|].
  intros H. apply rbind_Ok in H as ([k|] & Hk & H); [|done]. injection H as <-. apply IH in Hk. lia.
Qed.

Lemma shorter_take (m : list Z) n k :
  (0 <? Z.of_nat n) && (Z.of_nat n <? Z.of_nat k) = true → (n <= length m)%nat → shorter k (Some (take n m)).
Proof.
  intros [H1%Z.ltb_lt H2%Z.ltb_lt]%andb_true_iff Hl. unfold shorter. rewrite length_take. lia.
Qed.

Lemma http_uri_short m old r : shorter 2048 old → http_uri_of m old = Ok r → shorter 2048 r.
Proof.
  intros Hold H. unfold http_uri_of in H. apply rbind_Ok in H as ([i|] & _ & H); [|by injection H as <-].
  apply rbind_Ok in H as ([n|] & Hn & H); [|by injection H as <-].
  destruct (_ && _) eqn:E; [|by injection H as <-]. injection H as <-.
  apply shorter_take; [done|]. apply strchr_length in Hn. lia.
Qed.

Lemma strstr_length lit m n : strstr lit m = Ok (Some n) → (n <= length m)%nat.
Proof.
  revert n. induction m as [|b m IH]; intros n H; cbn [strstr] in H;
    apply rbind_Ok in H as (hit & _ & H); (destruct hit; [injection H as <-; lia|]); [done|].
  destruct (b =? 0); [done|]. apply rbind_Ok in H as ([k|] & Hk & H); [|done].
  injection H as <-. apply IH in Hk. cbn [length]. lia.
Qed.

Lemma http_agent_short m old r : shorter 512 old → http_user_agent_of m old = Ok r → shorter 512 r.
Proof.
  intros Hold H. unfold http_user_agent_of in H.
  apply rbind_Ok in H as ([i|] & _ & H); [|by injection H as <-].
  apply rbind_Ok in H as (ua & _ & H).
  apply rbind_Ok in H as ([n|] & Hn & H); [|by injection H as <-].
  destruct (_ && _) eqn:E; [|by injection H as <-]. injection H as <-.
  apply shorter_take; [done|]. by apply strstr_length in Hn.
Qed.

Lemma http_length_range m old r :
  0 <= old < 2 ^ 32 → http_content_length_of m old = Ok r → 0 <= r < 2 ^ 32.
Proof.
  intros Hold H. unfold http_content_length_of in H.
  apply rbind_Ok in H as ([i|] & _ & H); [|by injection H as <-].
  apply rbind_Ok in H as (n & _ & [= <-]). apply u32_range.
Qed.

Lemma parse_http_types p rc p' :
  packet_ok p → parse_http p = Ok (rc, p') → packet_ok p' ∧ ip p' = ip p.
Proof.
  intros Hp H. unfold parse_http in H. destruct (payload (l4 p)) as [off|]; [|by injection H as <- <-].
  destruct (_ <? 16); [by injection H as <- <-|]. cbv zeta in H.
  apply rbind_Ok in H as ([name|] & Hname & H); [|by injection H as <- <-].
  apply rbind_Ok in H as (uri & Huri & H). apply rbind_Ok in H as (ua & Hua & H).
  apply rbind_Ok in H as (cl & Hcl & [= <- <-]). split; [|done].
  destruct Hp as [Hd Hi Ht [_ _ Hu Ha Hl]]. split; try done. split; cbn.
  - done.
  - intros m [= <-]. by apply match_method_named in Hname.
  - by eapply http_uri_short.
  - by eapply http_agent_short.
  - by eapply http_length_range.
Qed.

Lemma parse_transport_types p p' :
  packet_ok p → parse_transport p = Ok p' → packet_ok p' ∧ ip p' = ip p.
Proof.
  intros Hp H. unfold parse_transport in H. destruct (_ =? PROTO_TCP).
  { apply rbind_Ok in H as ([rc q] & Hq & H). apply parse_tcp_types in Hq as Hw; [|done].
    pose proof (l4_written_ok _ _ Hp Hw) as Hqok. destruct Hw as (_ & Hip & _ & _).
    destruct (http_port q); [|by injection H as <-].
    apply rbind_Ok in H as ([rc' r] & Hr & [= <-]). apply parse_http_types in Hr as [Hrok Hrip]; [|done].
    split; [done|congruence]. }
  destruct (_ =? PROTO_UDP).
  { apply rbind_Ok in H as ([rc q] & Hq & [= <-]). apply parse_udp_types in Hq as Hw; [|done].
    split; [by eapply l4_written_ok|by destruct Hw as (_ & Hip & _ & _)]. }
  destruct (_ =? PROTO_ICMP); [|by injection H as <-].
  apply rbind_Ok in H as ([rc q] & Hq & [= <-]). apply parse_icmp_types in Hq as Hw; [|done].
  split; [by eapply l4_written_ok|by destruct Hw as (_ & Hip & _ & _)].
Qed.

(** C20: Every packet handed to the engine is well typed: its ports, sequence
    numbers, lengths and flags hold values of their C types, both addresses are of
    the one family of the IP header, and an HTTP request has one of the five
    methods, a target shorter than 2048 and a user agent shorter than 512. *)
Theorem pcap_callback_types calloc_ok malloc_ok frame caplen ts p :
  bytes_ok frame → pcap_callback calloc_ok malloc_ok frame caplen ts = Ok (Some p) →
  packet_ok p ∧ one_family (ip p).
Proof.
  intros Hb H. unfold pcap_callback in H. destruct calloc_ok, malloc_ok; try done.
  apply rbind_Ok in H as (dat & Hdat & H). apply rd_bytes_ok in Hdat as [_ Hdat]; [|done].
  apply rbind_Ok in H as ([rc q] & Hq & H). destruct (Z.eqb_spec rc 0) as [->|]; [|done].
  injection H as ->. unfold packet_parse in Hq. destruct (caplen =? 0); [done|].
  cbn [data len timestamp eth ip l4 http] in Hq. set (p0 := Packet dat caplen ts _ _ _ _) in Hq.
  assert (packet_ok p0) as Hp0 by (destruct packet_zero_parts as (? & ? & ?); by split).
  unfold parse_ethernet in Hq. destruct (len p0 <? sizeof_ethhdr); [done|].
  cbn [negb Z.eqb] in Hq. set (p1 := with_eth p0 _) in Hq.
  assert (packet_ok p1) as Hp1 by (destruct Hp0; by split).
  apply rbind_Ok in Hq as ([rc2 p2] & Hp2 & Hq).
  pose proof (parse_ip_types _ _ _ Hp1 Hp2) as [Hok2 Hfam2].
  destruct (Z.eqb_spec rc2 0) as [->|]; [|done]. cbn [negb] in Hq.
  apply rbind_Ok in Hq as (p3 & Hp3 & [= <-]).
  pose proof (parse_transport_types _ _ Hok2 Hp3) as [Hok3 Hip].
  split; [done|]. rewrite Hip. by apply Hfam2.
Qed.

(** A GRE datagram from 10.0.0.1 to 10.0.0.2. *)
Definition gre_packet : list Z :=
  replicate 12 0 ++ [8; 0; 0x45; 0; 0; 20; 0; 1; 0; 0; 64; 47; 0; 0; 10; 0; 0; 1; 10; 0; 0; 2].

Lemma pcap_callback_types_witness :
  ∃ p, pcap_callback true true gre_packet 34 7 = Ok (Some p) ∧ packet_ok p ∧ one_family (ip p).
Proof.
  assert (∃ p, pcap_callback true true gre_packet 34 7 = Ok (Some p)) as [p Hp].
  { eexists. vm_compute. reflexivity. }
  exists p. split; [exact Hp|]. apply (pcap_callback_types true true gre_packet 34 7 p); [|exact Hp].
  repeat constructor; unfold byte_ok; lia.
Defined.
