(* ===== verification/PacketMem.v ===== *)
(** * The memory of a packet

    Who owns what between [pcap_callback] and [packet_free] of
    [src/packet/capture.c]: the struct, its copy of the frame, and the strings that
    [parse_http] copies. The heap is the set of the blocks in use; a block's content
    is the packet of [Packet]. Freeing a block that is not in use is undefined. *)

From S2P Require Import Prelude Common CString Packet Parser.

Notation block := positive.
Notation blocks := (gset positive).

(** An allocator that answers with blocks not in use. *)
Class BlockAllocator (alloc : blocks → block) : Prop := block_fresh b : alloc b ∉ b.

(** The pointers of [packet_t] to blocks of its own, [None] for [NULL]. *)
Record packet_ptrs := PacketPtrs {
  pp_self : block;
  pp_data : option block;
  pp_method : option block;
  pp_uri : option block;
  pp_agent : option block
}.

(** What the five allocations answer. *)
Record callback_allocs := CallbackAllocs {
  al_packet : bool; al_data : bool; al_method : bool; al_uri : bool; al_agent : bool
}.

Section memory.
Context {alloc : blocks → block}.

Definition malloc (ok : bool) : st blocks (option block) := λ b,
  if ok then Ok (Some (alloc b), {[alloc b]} ∪ b) else Ok (None, b).

(** [free(NULL)] does nothing. *)
Definition free_block (p : option block) : st blocks unit := λ b,
  match p with
  | None => Ok ((), b)
  | Some l => if decide (l ∈ b) then Ok ((), b ∖ {[l]}) else Undef DoubleFree
  end.

(** [strdup] and [strndup] of a string the parser has found. *)
Definition dup (ok : bool) (s : option (list Z)) : st blocks (option block) :=
  match s with None => st_ret None | Some _ => malloc ok end.

(** The fields afterwards: [NULL] where the copy has failed. *)
Definition dup_field (ok : bool) (s : option (list Z)) : option (list Z) := if ok then s else None.
Definition strings_kept (o : callback_allocs) (p : packet) : packet :=
  let h := http p in
  with_http p (HttpPart (is_http h) (dup_field (al_method o) (http_method h))
                 (dup_field (al_uri o) (http_uri h)) (dup_field (al_agent o) (http_user_agent h))
                 (http_content_length h)).

Definition packet_free (p : packet_ptrs) : st blocks unit :=
  free_block (pp_data p) ;;
  free_block (pp_method p) ;;
  free_block (pp_uri p) ;;
  free_block (pp_agent p) ;;
  free_block (Some (pp_self p)).

(** [packet_parse] on the new struct: its result, the struct, and the copies that
    [parse_http] has made. *)
Definition parse_blocks (o : callback_allocs) (self : block) (dat : option block) (p : packet)
    (frame : list Z) (caplen tv_sec : Z) : st blocks (Z * packet * packet_ptrs) :=
  r <- st_lift (packet_parse p frame caplen tv_sec) ;;
  let '(rc, p) := r in
  let h := http p in
  method <- dup (al_method o) (http_method h) ;;
  uri <- dup (al_uri o) (http_uri h) ;;
  agent <- dup (al_agent o) (http_user_agent h) ;;
  st_ret (rc, strings_kept o p, PacketPtrs self dat method uri agent).

(** The callback of libpcap: the packet it hands to the user's callback, if any.
    The callback of the program keeps no pointer into it. *)
Definition pcap_callback_blocks (o : callback_allocs) (frame : list Z) (caplen tv_sec : Z)
    : st blocks (option packet) :=
  pkt <- malloc (al_packet o) ;;
  match pkt with
  | None => st_ret None
  | Some self =>
      dat <- malloc (al_data o) ;;
      match dat with
      | None => free_block (Some self) ;; st_ret None
      | Some _ =>
          copy <- st_lift (rd_bytes frame 0 (Z.to_nat caplen)) ;;
          let p := Packet copy caplen tv_sec (eth packet_zero) (ip packet_zero) (l4 packet_zero)
                     (http packet_zero) in
          r <- parse_blocks o self dat p copy caplen tv_sec ;;
          let '(rc, p, ptrs) := r in
          packet_free ptrs ;;
          st_ret (if negb (rc =? 0) then None else Some p)
      end
  end.

(** ** Ownership *)

Context {allocator : BlockAllocator alloc}.

Definition ptr_set (p : option block) : blocks := match p with Some l => {[l]} | None => ∅ end.

Lemma malloc_ptr ok b : ∃ p, malloc ok b = Ok (p, ptr_set p ∪ b) ∧ ptr_set p ## b ∧ if ok then is_Some p else p = None.
Proof.
  unfold malloc. destruct ok.
  - exists (Some (alloc b)). pose proof (block_fresh b). cbn. split; [done|]. split; [set_solver|by eexists].
  - exists None. cbn. split; [by rewrite union_empty_l_L|]. split; [set_solver|done].
Qed.

Lemma dup_ptr ok s b : ∃ p, dup ok s b = Ok (p, ptr_set p ∪ b) ∧ ptr_set p ## b.
Proof.
  destruct s as [s|].
  - destruct (malloc_ptr ok b) as (p & ? & ? & _). by exists p.
  - exists None. cbn. split; [by rewrite union_empty_l_L|set_solver].
Qed.

Lemma free_ptr p b : ptr_set p ⊆ b → free_block p b = Ok ((), b ∖ ptr_set p).
Proof.
  destruct p as [l|]; cbn; intros Hp.
  - rewrite decide_True by set_solver. done.
  - by rewrite difference_empty_L.
Qed.

(** The parser's copies, and their release together with the struct. *)
Lemma parse_and_free o self dat p frame caplen tv_sec r b :
  packet_parse p frame caplen tv_sec = Ok r → {[self]} ## ptr_set dat →
  {[self]} ## b → ptr_set dat ## b →
  ∃ ptrs b', parse_blocks o self dat p frame caplen tv_sec (ptr_set dat ∪ ({[self]} ∪ b))
      = Ok ((r.1, strings_kept o r.2, ptrs), b') ∧ packet_free ptrs b' = Ok ((), b).
Proof.
  intros Hr Hsd Hsb Hdb. destruct r as [rc q].
  unfold parse_blocks, st_bind at 1, st_lift. rewrite Hr. cbv beta iota.
  set (b2 := ptr_set dat ∪ ({[self]} ∪ b)). unfold st_bind at 1.
  destruct (dup_ptr (al_method o) (http_method (http q)) b2) as (pm & -> & Hm). cbv beta iota.
  unfold st_bind at 1. set (b3 := ptr_set pm ∪ b2) in *.
  destruct (dup_ptr (al_uri o) (http_uri (http q)) b3) as (pu & -> & Hu). cbv beta iota.
  unfold st_bind at 1. set (b4 := ptr_set pu ∪ b3) in *.
  destruct (dup_ptr (al_agent o) (http_user_agent (http q)) b4) as (pa & -> & Ha). cbv beta iota.
  eexists _, _. split; [reflexivity|].
  unfold packet_free, st_bind. cbn [pp_self pp_data pp_method pp_uri pp_agent].
  unfold b4, b3, b2 in *.
  rewrite !free_ptr by (cbn [ptr_set]; set_solver). f_equal. f_equal.
  cbn [ptr_set]. set_solver.
Qed.

(** C16: Whichever of its allocations fail, the packet callback frees every block it
    has allocated, each exactly once, and no other; nothing of a packet stays in
    use when it returns. It does what [Parser.pcap_callback] says: it fails where
    the parser reads outside the frame, and else hands over that packet, without
    the strings that could not be copied. *)
Theorem pcap_callback_frees_all o frame caplen tv_sec b :
  pcap_callback_blocks o frame caplen tv_sec b =
    match pcap_callback (al_packet o) (al_data o) frame caplen tv_sec with
    | Ok r => Ok (strings_kept o <$> r, b)
    | Undef u => Undef u
    | Diverges => Diverges
    end.
Proof.
  unfold pcap_callback_blocks, pcap_callback, st_bind at 1.
  destruct (malloc_ptr (al_packet o) b) as (pkt & -> & Hself & Hpkt). cbv beta iota.
  destruct (al_packet o); [destruct Hpkt as [self ->]|subst pkt; cbn; by rewrite union_empty_l_L].
  cbn [ptr_set] in *. unfold st_bind at 1.
  destruct (malloc_ptr (al_data o) ({[self]} ∪ b)) as (dat & -> & Hd & Hdat). cbv beta iota.
  destruct (al_data o); [destruct Hdat as [d ->]|subst dat].
  2: { cbn [ptr_set]. unfold st_bind. rewrite free_ptr by (cbn [ptr_set]; set_solver).
       cbn [ptr_set]. unfold st_ret. cbn. f_equal. f_equal. set_solver. }
  unfold st_bind at 1, st_lift at 1. destruct (rd_bytes _ _ _) as [copy| |]; [|done..]. cbn [rbind].
  set (p := Packet copy _ _ _ _ _ _). cbv zeta. unfold st_bind at 1.
  destruct (packet_parse p copy caplen tv_sec) as [r| |] eqn:Hr.
  2,3: unfold parse_blocks, st_bind, st_lift; by rewrite Hr.
  destruct (parse_and_free o self (Some d) p copy caplen tv_sec r b Hr) as (ptrs & b' & Hparse & Hfree);
    [set_solver..|].
  rewrite Hparse. destruct r as [rc q]. cbn [fst snd rbind].
  unfold st_bind. rewrite Hfree. unfold st_ret. by destruct (negb (rc =? 0)).
Qed.
End memory.

(** ** Witness *)

(** The block after those in use. *)
#[export] Instance fresh_block : BlockAllocator fresh.
Proof. intros b. apply is_fresh. Qed.

(** An HTTP request of which the URI cannot be copied. *)
Definition request_frame : list Z :=
  replicate 12 0 ++ [8; 0] ++
  [0x45; 0; 0; 63; 0; 1; 0; 0; 64; 6; 0; 0; 10; 0; 0; 1; 10; 0; 0; 2] ++
  [4; 0; 0; 80; 0; 0; 0; 1; 0; 0; 0; 2; 0x50; 0x18; 0; 0; 0; 0; 0; 0] ++
  bytes_of "GET /index.html HTTP/1" ++ [0].

Lemma pcap_callback_frees_all_witness :
  let o := CallbackAllocs true true true false true in
  let n := Z.of_nat (length request_frame) in
  ∃ p, pcap_callback_blocks (alloc := fresh) o request_frame n 0 {[7%positive]}
      = Ok (Some (strings_kept o p), {[7%positive]}) ∧
    http_method (http (strings_kept o p)) = Some (bytes_of "GET") ∧
    http_uri (http (strings_kept o p)) = None ∧ http_uri (http p) = Some (bytes_of "/index.html").
Proof.
  intros o n.
  assert (∃ p, pcap_callback true true request_frame n 0 = Ok (Some p) ∧
    http_method (http (strings_kept o p)) = Some (bytes_of "GET") ∧
    http_uri (http (strings_kept o p)) = None ∧ http_uri (http p) = Some (bytes_of "/index.html"))
    as (p & Hp & Hstr) by (eexists; vm_compute; by split_and!).
  exists p. split; [|exact Hstr].
  rewrite (pcap_callback_frees_all (alloc := fresh)). cbn [al_packet al_data o]. by rewrite Hp.
Defined.
