(* ===== verification/RateLimiter.v ===== *)
(** * The rate limiter

    [src/filter/ratelimit.c] above the sliding windows: per-address entries in
    65536 buckets. The chain of a bucket goes through the field [pps_window],
    which is also used as the pointer to the entry's packet window; the heap
    therefore holds two kinds of objects, and using one as the other is
    undefined. *)

From S2P Require Import Prelude Bits Common SlidingWindow.

Notation ptr := (option positive).

Record rate_limit_entry := RateLimitEntry {
  rl_ip : ip_addr;
  pps_window : ptr;
  bps_window : ptr;
  rl_last_update : Z;
  total_packets : Z;   (* uint64_t *)
  total_bytes : Z      (* uint64_t *)
}.

Inductive rl_obj :=
  | RlEntry (e : rate_limit_entry)
  | RlWindow (sw : sliding_window).

Notation rl_heap := (gmap positive rl_obj).

Definition RATE_LIMIT_BUCKETS : Z := 65536.

(** [rl_buckets] maps an index to the head of its chain, absent for [NULL]. *)
Record rate_limiter := RateLimiter {
  rl_buckets : gmap Z positive;
  rl_max_pps : Z;
  rl_max_bps : Z;
  rl_window_size : Z
}.

Definition rate_limiter_create (calloc1 calloc2 calloc3 : bool) (max_pps max_bps window_size : Z)
    : option rate_limiter :=
  if calloc1 then
    if calloc2 then
      if calloc3 then Some (RateLimiter ∅ max_pps max_bps window_size) else None
    else None
  else None.

(** ** Windows through pointers *)

Definition load_entry (h : rl_heap) (l : positive) : res rate_limit_entry :=
  match h !! l with
  | Some (RlEntry e) => Ok e
  | Some (RlWindow _) => Undef TypeConfusion
  | None => Undef UseAfterFree
  end.

Definition load_window (h : rl_heap) (l : positive) : res sliding_window :=
  match h !! l with
  | Some (RlWindow sw) => Ok sw
  | Some (RlEntry _) => Undef TypeConfusion
  | None => Undef UseAfterFree
  end.

Definition window_add (h : rl_heap) (p : ptr) (value now : Z) : res rl_heap :=
  match p with
  | None => Ok h
  | Some l =>
      let* sw := load_window h l in
      let* sw := sliding_window_add sw value now in
      Ok (<[l := RlWindow sw]> h)
  end.

Definition window_sum (h : rl_heap) (p : ptr) (now : Z) : res Z :=
  match p with
  | None => Ok 0
  | Some l => let* sw := load_window h l in sliding_window_sum sw now
  end.

Definition sliding_window_destroy (h : rl_heap) (p : ptr) : res rl_heap :=
  match p with
  | None => Ok h
  | Some l => let* _ := load_window h l in Ok (delete l h)
  end.

Definition ip_hash_simple (ip : ip_addr) : Z := ip_hash_raw ip mod RATE_LIMIT_BUCKETS.

(** ** Entries *)

(** Follows the chain; also returns the entry before the one found. *)
Fixpoint find_rl (fuel : nat) (h : rl_heap) (ip : ip_addr) (prev p : ptr)
    : res (option (ptr * positive * rate_limit_entry)) :=
  match p with
  | None => Ok None
  | Some l =>
      match fuel with
      | O => Diverges
      | S fuel' =>
          let* e := load_entry h l in
          if ip_addr_compare (rl_ip e) ip =? 0 then Ok (Some (prev, l, e))
          else find_rl fuel' h ip (Some l) (pps_window e)
      end
  end.

(** The outcomes of the five allocations: the entry, the two windows, and the
    bucket arrays of the windows. *)
Record rl_allocs := RlAllocs {
  a_entry : ptr; a_pps : ptr; a_pps_array : bool; a_bps : ptr; a_bps_array : bool
}.

(** The window object is in the heap only if both its allocations succeed. *)
Definition new_window (h : rl_heap) (p : ptr) (array_ok : bool) (size now : Z) : rl_heap * ptr :=
  match p, sliding_window_create (bool_decide (is_Some p)) array_ok size now with
  | Some l, Some sw => (<[l := RlWindow sw]> h, Some l)
  | _, _ => (h, None)
  end.

Definition get_or_create_entry (h : rl_heap) (rl : rate_limiter) (ip : ip_addr) (idx now : Z)
    (a : rl_allocs) : res (ptr * rl_heap * rate_limiter) :=
  let* found := find_rl (S (size h)) h ip None (rl_buckets rl !! idx) in
  match found with
  | Some (_, l, _) => Ok (Some l, h, rl)
  | None =>
      match a_entry a with
      | None => Ok (None, h, rl)
      | Some l =>
          let '(h, pps) := new_window h (a_pps a) (a_pps_array a) (rl_window_size rl) now in
          let '(h, bps) := new_window h (a_bps a) (a_bps_array a) (rl_window_size rl) now in
          match pps, bps with
          | Some _, Some _ =>
              let e := RateLimitEntry ip (rl_buckets rl !! idx) bps now 0 0 in
              Ok (Some l, <[l := RlEntry e]> h,
                  RateLimiter (<[idx := l]> (rl_buckets rl)) (rl_max_pps rl) (rl_max_bps rl)
                    (rl_window_size rl))
          | _, _ =>
              let* h := sliding_window_destroy h pps in
              let* h := sliding_window_destroy h bps in
              Ok (None, h, rl)
          end
      end
  end.

Definition div_u64 (a b : Z) : res Z := if b =? 0 then Undef DivByZero else Ok (a / b).

Definition rate_limiter_allow (h : rl_heap) (rl : rate_limiter) (ip : ip_addr)
    (packet_size now : Z) (a : rl_allocs) : res (bool * rl_heap * rate_limiter) :=
  let idx := ip_hash_simple ip in
  let* (r, rl) := get_or_create_entry h rl ip idx now a in
  let '(p, h) := r in
  match p with
  | None => Ok (true, h, rl)
  | Some l =>
      let* e := load_entry h l in
      let* h := window_add h (pps_window e) 1 now in
      let* h := window_add h (bps_window e) packet_size now in
      let e := RateLimitEntry (rl_ip e) (pps_window e) (bps_window e) now
                 (total_packets e +₆₄ 1) (total_bytes e +₆₄ packet_size) in
      let h := <[l := RlEntry e]> h in
      let* spps := window_sum h (pps_window e) now in
      let* current_pps := div_u64 spps (rl_window_size rl) in
      let* sbps := window_sum h (bps_window e) now in
      let* current_bps := div_u64 sbps (rl_window_size rl) in
      Ok ((current_pps <=? rl_max_pps rl) && (current_bps <=? rl_max_bps rl), h, rl)
  end.

Definition rate_limiter_update (h : rl_heap) (rl : rate_limiter) (now : Z)
    : rl_heap * rate_limiter := (h, rl).

Definition rate_limiter_get_pps (h : rl_heap) (rl : rate_limiter) (ip : ip_addr) (now : Z) : res Z :=
  let* found := find_rl (S (size h)) h ip None (rl_buckets rl !! ip_hash_simple ip) in
  match found with
  | Some (_, _, e) =>
      let* s := window_sum h (pps_window e) now in div_u64 s (rl_window_size rl)
  | None => Ok 0
  end.

Definition rate_limiter_get_bps (h : rl_heap) (rl : rate_limiter) (ip : ip_addr) (now : Z) : res Z :=
  let* found := find_rl (S (size h)) h ip None (rl_buckets rl !! ip_hash_simple ip) in
  match found with
  | Some (_, _, e) =>
      let* s := window_sum h (bps_window e) now in div_u64 s (rl_window_size rl)
  | None => Ok 0
  end.

Definition rate_limiter_reset (h : rl_heap) (rl : rate_limiter) (ip : ip_addr)
    : res (rl_heap * rate_limiter) :=
  let idx := ip_hash_simple ip in
  let* found := find_rl (S (size h)) h ip None (rl_buckets rl !! idx) in
  match found with
  | None => Ok (h, rl)
  | Some (prev, l, e) =>
      let* (h, bs) :=
        match prev with
        | Some q =>
            let* eq := load_entry h q in
            Ok (<[q := RlEntry (RateLimitEntry (rl_ip eq) (pps_window e) (bps_window eq)
                  (rl_last_update eq) (total_packets eq) (total_bytes eq))]> h, rl_buckets rl)
        | None =>
            Ok (h, match pps_window e with
                   | Some l' => <[idx := l']> (rl_buckets rl)
                   | None => delete idx (rl_buckets rl)
                   end)
        end in
      let* h := sliding_window_destroy h (pps_window e) in
      let* h := sliding_window_destroy h (bps_window e) in
      let* _ := load_entry h l in
      Ok (delete l h, RateLimiter bs (rl_max_pps rl) (rl_max_bps rl) (rl_window_size rl))
  end.

(** One bucket of [rate_limiter_destroy]: [next] is the entry itself. *)
Fixpoint destroy_bucket (fuel : nat) (h : rl_heap) (p : ptr) : res rl_heap :=
  match p with
  | None => Ok h
  | Some l =>
      match fuel with
      | O => Diverges
      | S fuel' =>
          let next := Some l in
          let* e := load_entry h l in
          let* h := sliding_window_destroy h (pps_window e) in
          let* h := sliding_window_destroy h (bps_window e) in
          let* _ := load_entry h l in
          destroy_bucket fuel' (delete l h) next
      end
  end.

Fixpoint destroy_buckets (n : nat) (i : Z) (h : rl_heap) (bs : gmap Z positive) : res rl_heap :=
  match n with
  | O => Ok h
  | S n' =>
      let* h := destroy_bucket (S (size h)) h (bs !! i) in
      destroy_buckets n' (i + 1) h bs
  end.

Definition rate_limiter_destroy (h : rl_heap) (rl : rate_limiter) : res rl_heap :=
  destroy_buckets (Z.to_nat RATE_LIMIT_BUCKETS) 0 h (rl_buckets rl).

(** ** One address *)

(** The bucket of [ip] holds one entry, for [ip], with no packet window and a
    byte window whose history is [es]. *)
Record one_entry (h : rl_heap) (rl : rate_limiter) (ip : ip_addr) (l w : positive)
    (es : list (Z * Z)) (start : Z) : Prop := {
  oe_bucket : rl_buckets rl !! ip_hash_simple ip = Some l;
  oe_entry : ∃ e, h !! l = Some (RlEntry e) ∧ ip_key (rl_ip e) = ip_key ip ∧
    pps_window e = None ∧ bps_window e = Some w;
  oe_window : ∃ sw, h !! w = Some (RlWindow sw) ∧ sw_rep sw es ∧
    sw_size sw = rl_window_size rl ∧ sw_window_start sw = start
}.

Lemma find_rl_first h ip p l e fuel :
  p = Some l → h !! l = Some (RlEntry e) → ip_key (rl_ip e) = ip_key ip →
  find_rl (S fuel) h ip None p = Ok (Some (None, l, e)).
Proof.
  intros -> He Hk. cbn [find_rl]. unfold load_entry. rewrite He. cbn [rbind].
  by rewrite (proj2 (Z.eqb_eq _ _) (proj2 (ip_compare_zero _ _) Hk)).
Qed.

(** The rest of [rate_limiter_allow], once the entry is there. *)
Lemma allow_one_entry h rl ip l w es start size now a :
  one_entry h rl ip l w es start → 0 < rl_window_size rl < 2 ^ 32 → 0 <= rl_max_pps rl →
  start <= now → 0 <= size < 2 ^ 32 →
  ∃ h', rate_limiter_allow h rl ip size now a
    = Ok (u64 (sum_after (es ++ [(now, size)]) (now - rl_window_size rl)) / rl_window_size rl
            <=? rl_max_bps rl, h', rl) ∧
    one_entry h' rl ip l w (es ++ [(now, size)]) now ∧
    ∀ x, x ≠ l → x ≠ w → h' !! x = h !! x.
Proof.
  intros [Hb (e & He & Hk & Hpps & Hbps) (sw & Hw & Hrep & Hsz & Hst)] HW Hmax Hnow Hsize.
  assert (l ≠ w) as Hlw by congruence.
  unfold rate_limiter_allow, get_or_create_entry.
  rewrite (find_rl_first h ip _ l e) by done. cbn [rbind].
  unfold load_entry at 1. rewrite He. cbn [rbind]. rewrite Hpps, Hbps. cbn [window_add rbind].
  unfold load_window at 1. rewrite Hw. cbn [rbind].
  destruct (sliding_window_add_rep sw es size now) as (sw' & -> & Hrep' & Hsz' & Hst');
    [done|lia|lia|].
  cbn [rbind window_sum pps_window bps_window]. unfold div_u64 at 1. rewrite (proj2 (Z.eqb_neq _ _)) by lia.
  cbn [rbind]. unfold load_window. rewrite lookup_insert_ne, lookup_insert_eq by done. cbn [rbind].
  rewrite (sliding_window_sum_rep _ _ _ Hrep'), Hst', Hsz', Hsz.
  rewrite (proj2 (Z.leb_gt _ _)) by lia. cbn [rbind]. unfold div_u64.
  rewrite (proj2 (Z.eqb_neq _ _)) by lia. cbn [rbind].
  rewrite Z.div_0_l, (proj2 (Z.leb_le 0 _)) by lia.
  eexists. split; [done|]. split; [split; [done| |]|].
  - eexists. rewrite lookup_insert_eq. split; [done|]. by simpl.
  - exists sw'. rewrite lookup_insert_ne, lookup_insert_eq by done. split_and!; try done. lia.
  - intros x Hxl Hxw. by rewrite !lookup_insert_ne by done.
Qed.

Definition allocs_ok (h : rl_heap) (a : rl_allocs) (l w1 w2 : positive) : Prop :=
  a = RlAllocs (Some l) (Some w1) true (Some w2) true ∧ NoDup [l; w1; w2] ∧
  h !! l = None ∧ h !! w1 = None ∧ h !! w2 = None.

(** Creating the entry of an empty bucket loses the packet window. *)
Lemma create_first_entry h rl ip now a l w1 w2 :
  rl_buckets rl !! ip_hash_simple ip = None → allocs_ok h a l w1 w2 →
  0 < rl_window_size rl < 2 ^ 32 →
  ∃ h' rl', get_or_create_entry h rl ip (ip_hash_simple ip) now a = Ok (Some l, h', rl') ∧
    rl' = RateLimiter (<[ip_hash_simple ip := l]> (rl_buckets rl)) (rl_max_pps rl)
            (rl_max_bps rl) (rl_window_size rl) ∧
    one_entry h' rl' ip l w2 [] now ∧ ∀ x, is_Some (h !! x) → h' !! x = h !! x.
Proof.
  intros Hb (-> & Hnd & Hl & Hw1 & Hw2) HW.
  unfold get_or_create_entry. rewrite Hb. cbn [find_rl rbind a_entry a_pps a_bps a_pps_array a_bps_array].
  unfold new_window. rewrite !bool_decide_eq_true_2 by eauto.
  destruct (sliding_window_create true true (rl_window_size rl) now) as [sw|] eqn:Hsw; [|done].
  destruct (sliding_window_create_rep _ _ _ HW Hsw) as (Hrep & Hsz & Hst).
  eexists _, _. split; [done|]. split; [done|].
  assert (l ≠ w2) as Hlw by (apply NoDup_cons in Hnd as [? _]; set_solver).
  split; [split; simpl|].
  - apply lookup_insert_eq.
  - eexists. rewrite lookup_insert_eq. split; [done|]. by simpl.
  - exists sw. by rewrite lookup_insert_ne, lookup_insert_eq.
  - intros x [o Hx]. by rewrite !lookup_insert_ne by congruence.
Qed.

(** Allocation is not used once the entry is there. *)
Lemma get_existing h rl ip now a l w es start :
  one_entry h rl ip l w es start →
  get_or_create_entry h rl ip (ip_hash_simple ip) now a = Ok (Some l, h, rl).
Proof.
  intros [Hb (e & He & Hk & _) _]. unfold get_or_create_entry.
  by rewrite (find_rl_first h ip _ l e).
Qed.

(** The first packet of an address in an empty bucket. *)
Lemma allow_first h rl ip size now a l w1 w2 :
  rl_buckets rl !! ip_hash_simple ip = None → allocs_ok h a l w1 w2 →
  0 < rl_window_size rl < 2 ^ 32 → 0 <= rl_max_pps rl → 0 <= size < 2 ^ 32 →
  ∃ h', let rl' := RateLimiter (<[ip_hash_simple ip := l]> (rl_buckets rl)) (rl_max_pps rl)
              (rl_max_bps rl) (rl_window_size rl) in
    rate_limiter_allow h rl ip size now a
    = Ok (u64 (sum_after [(now, size)] (now - rl_window_size rl)) / rl_window_size rl
            <=? rl_max_bps rl, h', rl') ∧
    one_entry h' rl' ip l w2 [(now, size)] now ∧ ∀ x, is_Some (h !! x) → h' !! x = h !! x.
Proof.
  intros Hb Ha HW Hmax Hsize.
  destruct (create_first_entry h rl ip now a l w1 w2 Hb Ha HW) as (h1 & rl1 & Hget & -> & Hone & Hframe).
  destruct (allow_one_entry h1 _ ip l w2 [] now size now a Hone) as (h' & Hal & Hone' & Hother);
    [done|done|lia|done|].
  exists h'. cbv zeta. split_and!; [|done|].
  - etransitivity; [|exact Hal].
    unfold rate_limiter_allow. by rewrite Hget, (get_existing _ _ _ _ _ _ _ _ _ Hone).
  - destruct Ha as (_ & _ & Hl & _ & Hw2). intros x Hx. destruct Hx as [o Ho].
    rewrite Hother by congruence. apply Hframe. by exists o.
Qed.

(** ** A stream of packets from one address *)

Fixpoint run_allow (h : rl_heap) (rl : rate_limiter) (ip : ip_addr) (a : rl_allocs)
    (es : list (Z * Z)) : res (list bool * rl_heap * rate_limiter) :=
  match es with
  | [] => Ok ([], h, rl)
  | (now, size) :: es' =>
      let* (r, rl) := rate_limiter_allow h rl ip size now a in
      let* (r', rl) := run_allow r.2 rl ip a es' in
      Ok (r.1 :: r'.1, r'.2, rl)
  end.

(** Allowed while the bytes of the last [W] seconds average at most [max_bps]. *)
Fixpoint bytes_verdicts (W max_bps : Z) (past es : list (Z * Z)) : list bool :=
  match es with
  | [] => []
  | (now, size) :: es' =>
      let past := past ++ [(now, size)] in
      (u64 (sum_after past (now - W)) / W <=? max_bps) :: bytes_verdicts W max_bps past es'
  end.

Lemma run_allow_one_entry h rl ip l w past start a es :
  one_entry h rl ip l w past start → 0 < rl_window_size rl < 2 ^ 32 → 0 <= rl_max_pps rl →
  nondecreasing start es → Forall (λ e, 0 <= e.2 < 2 ^ 32) es →
  ∃ h', run_allow h rl ip a es
    = Ok (bytes_verdicts (rl_window_size rl) (rl_max_bps rl) past es, h', rl).
Proof.
  revert h past start. induction es as [|[now size] es IH]; intros h past start Hone HW Hmax Hn Hs.
  { by exists h. }
  destruct Hn as [Hnow Hn]. apply Forall_cons in Hs as [Hsz Hs]. simpl in Hsz.
  destruct (allow_one_entry h rl ip l w past start size now a) as (h1 & Hal & Hone1 & _); [done..|].
  destruct (IH h1 _ now Hone1 HW Hmax Hn Hs) as (h' & Hrun). exists h'.
  cbn [run_allow bytes_verdicts]. rewrite Hal. cbn [rbind fst snd]. rewrite Hrun. done.
Qed.

(** ** Properties *)

(** For any stream of packets of one address at non-decreasing times, a new
    limiter allows exactly the packets at which the average of the bytes over
    the last [window_size] seconds is at most [max_bps]: nothing is undefined,
    and the packet limit [max_pps] plays no part, whatever its value. *)
Theorem rate_limiter_allow_bytes_only max_pps max_bps W rl ip a l w1 w2 now size es :
  rate_limiter_create true true true max_pps max_bps W = Some rl →
  0 < W < 2 ^ 32 → 0 <= max_pps → allocs_ok ∅ a l w1 w2 →
  nondecreasing now es → Forall (λ e, 0 <= e.2 < 2 ^ 32) ((now, size) :: es) →
  ∃ h' rl', run_allow ∅ rl ip a ((now, size) :: es)
    = Ok (bytes_verdicts W max_bps [] ((now, size) :: es), h', rl').
Proof.
  intros Hc HW Hmax Ha Hn [Hs Hss]%Forall_cons. apply (inj Some) in Hc as <-.
  destruct (allow_first ∅ (RateLimiter ∅ max_pps max_bps W) ip size now a l w1 w2)
    as (h1 & Hal & Hone & _); [apply lookup_empty|done|done|done|done|].
  destruct (run_allow_one_entry h1 _ ip l w2 [(now, size)] now a es Hone) as (h' & Hrun); [done..|].
  eexists h', _. cbn [run_allow]. rewrite Hal. cbn [rbind fst snd]. rewrite Hrun. done.
Qed.

Definition example_allocs : rl_allocs :=
  RlAllocs (Some 1%positive) (Some 2%positive) true (Some 3%positive) true.

Lemma example_allocs_ok : allocs_ok ∅ example_allocs 1 2 3.
Proof.
  split; [done|]. split; [|done]. apply (bool_decide_unpack _). vm_compute. exact I.
Qed.

(** A limit of no packet at all, and four packets allowed in one second. *)
Lemma rate_limiter_allow_bytes_only_witness :
  ∃ h' rl', run_allow ∅ (RateLimiter ∅ 0 1000 1) (ip4 10 0 0 1) example_allocs
    [(5, 100); (5, 100); (5, 100); (5, 100); (5, 900)]
  = Ok ([true; true; true; true; false], h', rl').
Proof.
  apply (rate_limiter_allow_bytes_only 0 1000 1 _ (ip4 10 0 0 1) example_allocs 1 2 3 5 100
           [(5, 100); (5, 100); (5, 100); (5, 900)]); [reflexivity|lia|lia|apply example_allocs_ok| |].
  - simpl. lia.
  - repeat constructor; simpl; lia.
Defined.

(** Once a bucket holds an entry, a packet of any other address that falls
    into it makes the code use that entry as a sliding window. *)
Theorem rate_limiter_collision_type_confusion h rl ip1 ip2 l w past start a l' w1 w2 sz now :
  one_entry h rl ip1 l w past start → ip_hash_simple ip2 = ip_hash_simple ip1 →
  ip_key ip1 ≠ ip_key ip2 → allocs_ok h a l' w1 w2 →
  rate_limiter_allow h rl ip2 sz now a = Undef TypeConfusion.
Proof.
  intros [Hb (e & He & Hk & Hpps & _) _] Hh Hne (-> & Hnd & Hl & Hw1 & Hw2).
  unfold rate_limiter_allow, get_or_create_entry. rewrite Hh, Hb.
  cbn [find_rl]. unfold load_entry at 1. rewrite He. cbn [rbind].
  rewrite (proj2 (Z.eqb_neq _ _)) by (rewrite ip_compare_zero; congruence).
  rewrite Hpps. destruct (size h) as [|n] eqn:Hsz;
    cbn [find_rl rbind a_entry a_pps a_bps a_pps_array a_bps_array];
    unfold new_window; rewrite !bool_decide_eq_true_2 by eauto; cbn [sliding_window_create rbind];
    unfold load_entry; rewrite lookup_insert_eq; cbn [rbind pps_window window_add];
    unfold load_window;
    (rewrite !lookup_insert_ne by congruence); by rewrite He.
Qed.

Lemma rate_limiter_collision_type_confusion_witness :
  let sw := SlidingWindow [100] 1 0 5 in
  let h := {[1%positive := RlEntry (RateLimitEntry (ip4 10 0 0 1) None (Some 3%positive) 5 1 100);
             3%positive := RlWindow sw]} in
  let rl := RateLimiter {[1 := 1%positive]} 10 1000 1 in
  rate_limiter_allow h rl (ip4 11 0 0 1) 60 6
    (RlAllocs (Some 4%positive) (Some 5%positive) true (Some 6%positive) true)
  = Undef TypeConfusion.
Proof.
  intros sw h rl.
  apply (rate_limiter_collision_type_confusion h rl (ip4 10 0 0 1) (ip4 11 0 0 1) 1 3 [(5, 100)] 5 _ 4 5 6).
  - split; [reflexivity| |].
    + eexists. split; [reflexivity|]. split_and!; reflexivity.
    + exists sw. split; [reflexivity|]. split; [|split; reflexivity].
      split; [split; simpl; lia|by repeat constructor|reflexivity].
  - reflexivity.
  - discriminate.
  - split; [reflexivity|]. split; [apply (bool_decide_unpack _); vm_compute; exact I|].
    split_and!; reflexivity.
Defined.

Lemma ip_hash_simple_range ip : 0 <= ip_hash_simple ip < RATE_LIMIT_BUCKETS.
Proof. by apply Z.mod_pos_bound. Qed.

Lemma destroy_buckets_single n i h idx l :
  i <= idx < i + Z.of_nat n →
  destroy_bucket (S (size h)) h (Some l) = Undef UseAfterFree →
  destroy_buckets n i h {[idx := l]} = Undef UseAfterFree.
Proof.
  revert i. induction n as [|n IH]; intros i Hi Hd; [lia|]. cbn [destroy_buckets].
  destruct (decide (i = idx)) as [->|Hne].
  - by rewrite lookup_singleton_eq, Hd.
  - rewrite lookup_singleton_ne by done. cbn [destroy_bucket rbind]. apply IH; [lia|done].
Qed.

(** Destroying a limiter that holds an entry frees it and then follows it
    again, because the saved [next] is the entry itself. *)
Theorem rate_limiter_destroy_use_after_free h rl ip l w past start :
  one_entry h rl ip l w past start → rl_buckets rl = {[ip_hash_simple ip := l]} →
  rate_limiter_destroy h rl = Undef UseAfterFree.
Proof.
  intros [_ (e & He & _ & Hpps & Hbps) (sw & Hw & _)] Hbs.
  assert (l ≠ w) as Hlw by congruence.
  unfold rate_limiter_destroy. rewrite Hbs. apply destroy_buckets_single.
  { pose proof (ip_hash_simple_range ip). lia. }
  assert (∃ n, size h = S n) as [n Hn].
  { destruct (size h) as [|n] eqn:E; [|eauto]. apply map_size_empty_inv in E.
    rewrite E in He. by rewrite lookup_empty in He. }
  cbn [destroy_bucket]. unfold load_entry at 1. rewrite He. cbn [rbind].
  rewrite Hpps, Hbps. cbn [sliding_window_destroy rbind]. unfold load_window. rewrite Hw.
  cbn [rbind]. unfold load_entry at 1. rewrite lookup_delete_ne, He by done. cbn [rbind].
  rewrite Hn. cbn [destroy_bucket]. unfold load_entry. by rewrite lookup_delete_eq.
Qed.

Lemma rate_limiter_destroy_use_after_free_witness :
  let sw := SlidingWindow [100] 1 0 5 in
  let h := {[1%positive := RlEntry (RateLimitEntry (ip4 10 0 0 1) None (Some 3%positive) 5 1 100);
             3%positive := RlWindow sw]} in
  rate_limiter_destroy h (RateLimiter {[1 := 1%positive]} 10 1000 1) = Undef UseAfterFree.
Proof.
  intros sw h. apply (rate_limiter_destroy_use_after_free _ _ (ip4 10 0 0 1) 1 3 [(5, 100)] 5).
  - split; [reflexivity| |].
    + eexists. split; [reflexivity|]. split_and!; reflexivity.
    + exists sw. split; [reflexivity|]. split; [|split; reflexivity].
      split; [split; simpl; lia|by repeat constructor|reflexivity].
  - reflexivity.
Defined.
