(* ===== verification/RateLimits.v ===== *)
(** * The rate limiter on many addresses

    What the limiter of [src/filter/ratelimit.c] does to a stream of packets of any
    addresses. [RateLimiter] describes one bucket; here the buckets are put
    together into a map from addresses to their histories, which holds up to the
    first packet whose address shares a bucket with another. *)

From S2P Require Import Prelude Bits Common SlidingWindow RateLimiter.

(** ** Streams *)

Record request := Request { rq_now : Z; rq_ip : ip_addr; rq_size : Z }.

(** The allocator answers with fresh blocks. *)
Class RlAllocator (alloc : rl_heap → rl_allocs) : Prop :=
  rl_alloc_fresh h : ∃ l w1 w2, allocs_ok h (alloc h) l w1 w2.

Fixpoint run_limiter (alloc : rl_heap → rl_allocs) (h : rl_heap) (rl : rate_limiter) (rs : list request)
    : res (list bool * rl_heap * rate_limiter) :=
  match rs with
  | [] => Ok ([], h, rl)
  | r :: rs' =>
      let* (x, rl) := rate_limiter_allow h rl (rq_ip r) (rq_size r) (rq_now r) (alloc h) in
      let* (y, rl) := run_limiter alloc x.2 rl rs' in
      Ok (x.1 :: y.1, y.2, rl)
  end.

(** ** The reference

    The packets of one address, as times and sizes. *)
Definition history (rs : list request) (k : ip_key_t) : list (Z * Z) :=
  omap (λ r, if decide (ip_key (rq_ip r) = k) then Some (rq_now r, rq_size r) else None) rs.

(** Each packet is judged by the bytes of its own address in the last [W] seconds. *)
Fixpoint limiter_verdicts (W max_bps : Z) (past rs : list request) : list bool :=
  match rs with
  | [] => []
  | r :: rs' =>
      let past := past ++ [r] in
      (u64 (sum_after (history past (ip_key (rq_ip r))) (rq_now r - W)) / W <=? max_bps)
        :: limiter_verdicts W max_bps past rs'
  end.

(** Two addresses in one bucket. *)
Definition clash (a b : ip_addr) : bool :=
  (ip_hash_simple a =? ip_hash_simple b) && negb (bool_decide (ip_key a = ip_key b)).

(** A packet of the stream meets another address in its bucket. *)
Fixpoint collides (past rs : list request) : bool :=
  match rs with
  | [] => false
  | r :: rs' => existsb (λ q, clash (rq_ip q) (rq_ip r)) past || collides (past ++ [r]) rs'
  end.

(** Time does not run backwards. *)
Fixpoint in_order (t : Z) (rs : list request) : Prop :=
  match rs with [] => True | r :: rs' => t <= rq_now r ∧ in_order (rq_now r) rs' end.

(** ** The table of addresses *)

Record slot := Slot { sl_ip : ip_addr; sl_entry : positive; sl_window : positive; sl_start : Z }.

(** [m] gives the occupied buckets; [past] is what the limiter has seen, up to the
    time [now]. *)
Record table_rep (h : rl_heap) (rl : rate_limiter) (m : gmap Z slot) (past : list request) (now : Z)
    : Prop := {
  tr_one i s : m !! i = Some s →
    ip_hash_simple (sl_ip s) = i ∧ sl_start s <= now ∧
    one_entry h rl (sl_ip s) (sl_entry s) (sl_window s) (history past (ip_key (sl_ip s))) (sl_start s);
  tr_free i : m !! i = None → rl_buckets rl !! i = None;
  tr_apart i j s t : i ≠ j → m !! i = Some s → m !! j = Some t →
    sl_entry s ≠ sl_entry t ∧ sl_window s ≠ sl_window t;
  tr_seen r : r ∈ past →
    ∃ s, m !! ip_hash_simple (rq_ip r) = Some s ∧ ip_key (sl_ip s) = ip_key (rq_ip r);
  tr_met i s : m !! i = Some s → ∃ r, r ∈ past ∧ ip_key (rq_ip r) = ip_key (sl_ip s)
}.

Lemma ip_hash_simple_key a b : ip_key a = ip_key b → ip_hash_simple a = ip_hash_simple b.
Proof. intros Hk. unfold ip_hash_simple. by rewrite (ip_hash_raw_key a b). Qed.

Lemma history_app rs r k :
  history (rs ++ [r]) k =
    history rs k ++ (if decide (ip_key (rq_ip r) = k) then [(rq_now r, rq_size r)] else []).
Proof. unfold history. rewrite omap_app. f_equal. cbn. by case_decide. Qed.

Lemma history_other rs k : (∀ r, r ∈ rs → ip_key (rq_ip r) ≠ k) → history rs k = [].
Proof.
  intros H. induction rs as [|r rs IH]; [done|]. unfold history. cbn [omap list_omap].
  rewrite decide_False by (apply H; left). apply IH. intros r' Hr'. apply H. by right.
Qed.

(** An entry survives changes elsewhere. *)
Lemma one_entry_frame h h' rl rl' ip l w es start :
  one_entry h rl ip l w es start → h' !! l = h !! l → h' !! w = h !! w →
  rl_buckets rl' !! ip_hash_simple ip = rl_buckets rl !! ip_hash_simple ip →
  rl_window_size rl' = rl_window_size rl → one_entry h' rl' ip l w es start.
Proof.
  intros [Hb He (sw & Hw & Hrep & Hsz & Hst)] Hl Hw' Hb' HW. split.
  - by rewrite Hb'.
  - by rewrite Hl.
  - exists sw. by rewrite Hw', HW.
Qed.

(** The entry is kept for one of the addresses with its key. *)
Lemma one_entry_key h rl ip ip' l w es start :
  one_entry h rl ip l w es start → ip_hash_simple ip = ip_hash_simple ip' → ip_key ip = ip_key ip' →
  one_entry h rl ip' l w es start.
Proof. intros [Hb He Hw] Hh Hk. split; [by rewrite <- Hh|by rewrite <- Hk|done]. Qed.

Lemma one_entry_apart h rl ip ip' l w es start l' w' es' start' :
  one_entry h rl ip l w es start → one_entry h rl ip' l' w' es' start' → l ≠ w' ∧ l' ≠ w.
Proof.
  intros [_ (e & He & _) (sw & Hw & _)] [_ (e' & He' & _) (sw' & Hw' & _)]. split; congruence.
Qed.

Lemma table_rep_empty max_pps max_bps W now : table_rep ∅ (RateLimiter ∅ max_pps max_bps W) ∅ [] now.
Proof.
  split; try (intros *; rewrite lookup_empty; done).
  intros r Hr. by apply not_elem_of_nil in Hr.
Qed.

(** ** One request *)

Lemma existsb_clash past r :
  existsb (λ q, clash (rq_ip q) (rq_ip r)) past = true ↔ ∃ q, q ∈ past ∧ clash (rq_ip q) (rq_ip r) = true.
Proof. rewrite existsb_exists. by setoid_rewrite list_elem_of_In. Qed.

Lemma clash_true a b : clash a b = true ↔ ip_hash_simple a = ip_hash_simple b ∧ ip_key a ≠ ip_key b.
Proof. unfold clash. rewrite andb_true_iff, Z.eqb_eq, negb_true_iff, bool_decide_eq_false. done. Qed.

Section table.
Context {h : rl_heap} {rl : rate_limiter} {m : gmap Z slot} {past : list request} {t : Z}.
Context (Hrep : table_rep h rl m past t).

(** Writing one bucket leaves the others as they are. *)
Lemma table_update h' rl' r s :
  let i := ip_hash_simple (rq_ip r) in
  t <= rq_now r → ip_key (sl_ip s) = ip_key (rq_ip r) → sl_start s = rq_now r →
  one_entry h' rl' (sl_ip s) (sl_entry s) (sl_window s)
    (history (past ++ [r]) (ip_key (rq_ip r))) (rq_now r) →
  rl_window_size rl' = rl_window_size rl →
  (∀ s', m !! i = Some s' → ip_key (sl_ip s') = ip_key (rq_ip r)) →
  (∀ j, j ≠ i → rl_buckets rl' !! j = rl_buckets rl !! j) →
  (∀ j s', j ≠ i → m !! j = Some s' →
     h' !! sl_entry s' = h !! sl_entry s' ∧ h' !! sl_window s' = h !! sl_window s' ∧
     sl_entry s ≠ sl_entry s' ∧ sl_window s ≠ sl_window s') →
  table_rep h' rl' (<[i := s]> m) (past ++ [r]) (rq_now r).
Proof.
  intros i Ht Hk Hstart Hone HW Hsame Hbs Hframe. pose proof (ip_hash_simple_key _ _ Hk) as Hi.
  destruct Hrep as [Hrone Hfree Hapart Hseen Hmet]. split.
  - intros j s' [[<- <-]|[Hj Hs']]%lookup_insert_Some.
    { rewrite Hstart, Hk. split; [done|]. split; [lia|done]. }
    destruct (Hrone j s' Hs') as (Hh & Hle & Hone'). destruct (Hframe j s') as (Hl & Hw & _); [done..|].
    split; [done|]. split; [lia|]. rewrite history_app, decide_False, app_nil_r.
    + eapply one_entry_frame; [exact Hone'|done..|apply Hbs; by rewrite Hh|done].
    + intros Hkr. apply Hj. unfold i. rewrite (ip_hash_simple_key _ _ Hkr). done.
  - intros j Hj%lookup_insert_None. destruct Hj as [Hj Hij]. rewrite Hbs by done. by apply Hfree.
  - intros j k sj sk Hjk Hj Hk'. apply lookup_insert_Some in Hj, Hk'.
    destruct Hj as [[<- <-]|[Hj Hsj]], Hk' as [[<- <-]|[Hk' Hsk]]; try done.
    + by destruct (Hframe k sk) as (_ & _ & ? & ?).
    + destruct (Hframe j sj) as (_ & _ & ? & ?); [done..|]. split; by apply not_eq_sym.
    + by apply (Hapart j k).
  - intros q [Hq|Hq%list_elem_of_singleton]%elem_of_app.
    + destruct (Hseen q Hq) as (s' & Hs' & Hks').
      destruct (decide (ip_hash_simple (rq_ip q) = i)) as [Hqi|Hne].
      * exists s. rewrite Hqi in *. split; [apply lookup_insert_eq|]. rewrite Hk, <- Hks'. symmetry. by apply Hsame.
      * exists s'. by rewrite lookup_insert_ne.
    + subst q. exists s. split; [apply lookup_insert_eq|done].
  - intros j s' [[<- <-]|[Hj Hs']]%lookup_insert_Some.
    + exists r. split; [apply elem_of_app; right; by left|done].
    + destruct (Hmet j s' Hs') as (q & Hq & Hkq). exists q. split; [apply elem_of_app; by left|done].
Qed.

(** A packet of a known address. *)
Lemma allow_known r s a :
  m !! ip_hash_simple (rq_ip r) = Some s → ip_key (sl_ip s) = ip_key (rq_ip r) →
  t <= rq_now r → 0 <= rq_size r < 2 ^ 32 → 0 < rl_window_size rl < 2 ^ 32 → 0 <= rl_max_pps rl →
  let W := rl_window_size rl in
  ∃ h' m', rate_limiter_allow h rl (rq_ip r) (rq_size r) (rq_now r) a
    = Ok (u64 (sum_after (history (past ++ [r]) (ip_key (rq_ip r))) (rq_now r - W)) / W <=? rl_max_bps rl,
          h', rl) ∧
    table_rep h' rl m' (past ++ [r]) (rq_now r).
Proof.
  intros Hs Hk Ht Hsize HW Hmax W. destruct (tr_one _ _ _ _ _ Hrep _ _ Hs) as (Hh & Hst & Hone).
  rewrite Hk in Hone.
  destruct (allow_one_entry h rl (rq_ip r) (sl_entry s) (sl_window s) (history past (ip_key (rq_ip r)))
    (sl_start s) (rq_size r) (rq_now r) a) as (h' & Hal & Hone' & Hother);
    [by eapply one_entry_key|done|done|lia|done|].
  rewrite history_app, decide_True by done. exists h'. eexists. split; [exact Hal|].
  apply (table_update h' rl r (Slot (rq_ip r) (sl_entry s) (sl_window s) (rq_now r))); try done.
  - cbn. by rewrite history_app, decide_True by done.
  - intros s' Hs'. rewrite Hs in Hs'. apply (inj Some) in Hs' as <-. exact Hk.
  - intros j s' Hj Hs'. cbn [sl_entry sl_window].
    destruct (tr_apart _ _ _ _ _ Hrep _ _ s s' (not_eq_sym Hj) Hs Hs') as [Hl Hw].
    destruct (tr_one _ _ _ _ _ Hrep _ _ Hs') as (_ & _ & Hone1).
    destruct (one_entry_apart _ _ _ _ _ _ _ _ _ _ _ _ Hone Hone1).
    split_and!; try apply Hother; congruence.
Qed.

(** A packet of a new address in a free bucket. *)
Lemma allow_new r a l w1 w2 :
  m !! ip_hash_simple (rq_ip r) = None → allocs_ok h a l w1 w2 →
  t <= rq_now r → 0 <= rq_size r < 2 ^ 32 → 0 < rl_window_size rl < 2 ^ 32 → 0 <= rl_max_pps rl →
  let W := rl_window_size rl in
  ∃ h' rl' m', rate_limiter_allow h rl (rq_ip r) (rq_size r) (rq_now r) a
    = Ok (u64 (sum_after (history (past ++ [r]) (ip_key (rq_ip r))) (rq_now r - W)) / W <=? rl_max_bps rl,
          h', rl') ∧
    rl_window_size rl' = W ∧ rl_max_bps rl' = rl_max_bps rl ∧ rl_max_pps rl' = rl_max_pps rl ∧
    table_rep h' rl' m' (past ++ [r]) (rq_now r).
Proof.
  intros Hnone Ha Ht Hsize HW Hmax W.
  assert (history past (ip_key (rq_ip r)) = []) as Hnil.
  { apply history_other. intros q Hq Hkq. destruct (tr_seen _ _ _ _ _ Hrep q Hq) as (s & Hs & _).
    rewrite (ip_hash_simple_key _ _ Hkq) in Hs. congruence. }
  destruct (allow_first h rl (rq_ip r) (rq_size r) (rq_now r) a l w1 w2)
    as (h' & Hal & Hone & Hother); [by apply (tr_free _ _ _ _ _ Hrep)|done..|].
  rewrite history_app, decide_True, Hnil by done. eexists h', _, _. split; [exact Hal|].
  do 3 (split; [done|]).
  apply (table_update h' _ r (Slot (rq_ip r) l w2 (rq_now r))); try done.
  - cbn. rewrite history_app, decide_True, Hnil by done. exact Hone.
  - intros s' Hs'. congruence.
  - intros j Hj. cbn [rl_buckets]. by rewrite lookup_insert_ne.
  - intros j s' Hj Hs'. destruct (tr_one _ _ _ _ _ Hrep _ _ Hs') as (_ & _ & [_ (e & He & _) (sw & Hw & _)]).
    destruct Ha as (_ & _ & Hl & _ & Hw2). cbn [sl_entry sl_window].
    split_and!; [apply Hother; by eexists|apply Hother; by eexists|congruence..].
Qed.

(** A packet that meets another address in its bucket. *)
Lemma allow_clash r q a l w1 w2 :
  q ∈ past → clash (rq_ip q) (rq_ip r) = true → allocs_ok h a l w1 w2 →
  rate_limiter_allow h rl (rq_ip r) (rq_size r) (rq_now r) a = Undef TypeConfusion.
Proof.
  intros Hq [Hh Hk]%clash_true Ha. destruct (tr_seen _ _ _ _ _ Hrep q Hq) as (s & Hs & Hks).
  destruct (tr_one _ _ _ _ _ Hrep _ _ Hs) as (Hi & _ & Hone).
  eapply (rate_limiter_collision_type_confusion h rl (sl_ip s) (rq_ip r)); [exact Hone| | |exact Ha];
    congruence.
Qed.
End table.

(** ** Streams through the limiter *)

Section streams.
Context {alloc : rl_heap → rl_allocs} {allocator : RlAllocator alloc}.

Lemma allow_request h rl m past t r :
  table_rep h rl m past t → t <= rq_now r → 0 <= rq_size r < 2 ^ 32 →
  0 < rl_window_size rl < 2 ^ 32 → 0 <= rl_max_pps rl →
  existsb (λ q, clash (rq_ip q) (rq_ip r)) past = false →
  let W := rl_window_size rl in
  ∃ h' rl' m', rate_limiter_allow h rl (rq_ip r) (rq_size r) (rq_now r) (alloc h)
    = Ok (u64 (sum_after (history (past ++ [r]) (ip_key (rq_ip r))) (rq_now r - W)) / W <=? rl_max_bps rl,
          h', rl') ∧
    rl_window_size rl' = W ∧ rl_max_bps rl' = rl_max_bps rl ∧ rl_max_pps rl' = rl_max_pps rl ∧
    table_rep h' rl' m' (past ++ [r]) (rq_now r).
Proof.
  intros Hrep Ht Hsize HW Hmax Hno W. destruct (m !! ip_hash_simple (rq_ip r)) as [s|] eqn:Hs.
  - destruct (tr_met _ _ _ _ _ Hrep _ _ Hs) as (q & Hq & Hkq).
    assert (ip_key (sl_ip s) = ip_key (rq_ip r)) as Hk.
    { destruct (decide (ip_key (sl_ip s) = ip_key (rq_ip r))) as [|Hne]; [done|]. exfalso.
      apply not_true_iff_false in Hno. apply Hno, existsb_clash. exists q. split; [done|].
      apply clash_true. destruct (tr_one _ _ _ _ _ Hrep _ _ Hs) as [Hi _].
      rewrite (ip_hash_simple_key _ _ Hkq), Hkq. done. }
    destruct (allow_known Hrep r s (alloc h) Hs Hk) as (h' & m' & Hal & Hrep'); [done..|].
    by exists h', rl, m'.
  - destruct (rl_alloc_fresh h) as (l & w1 & w2 & Ha).
    by destruct (allow_new Hrep r (alloc h) l w1 w2 Hs Ha) as (h' & rl' & m' & H); [done..|exists h', rl', m'].
Qed.

Lemma run_limiter_rep h rl m past t rs :
  table_rep h rl m past t → in_order t rs → Forall (λ r, 0 <= rq_size r < 2 ^ 32) rs →
  0 < rl_window_size rl < 2 ^ 32 → 0 <= rl_max_pps rl →
  if collides past rs then run_limiter alloc h rl rs = Undef TypeConfusion
  else ∃ h' rl', run_limiter alloc h rl rs
    = Ok (limiter_verdicts (rl_window_size rl) (rl_max_bps rl) past rs, h', rl').
Proof.
  revert h rl m past t. induction rs as [|r rs IH]; intros h rl m past t Hrep Hord Hs HW Hmax.
  { by exists h, rl. }
  destruct Hord as [Ht Hord]. apply Forall_cons in Hs as [Hsize Hs]. cbn [collides run_limiter limiter_verdicts].
  destruct (existsb _ past) eqn:Hc; cbn [orb].
  - apply existsb_clash in Hc as (q & Hq & Hc). destruct (rl_alloc_fresh h) as (l & w1 & w2 & Ha).
    by rewrite (allow_clash Hrep r q (alloc h) l w1 w2).
  - destruct (allow_request h rl m past t r) as (h1 & rl1 & m1 & -> & HW1 & Hb1 & Hp1 & Hrep1); [done..|].
    cbn [rbind fst snd]. specialize (IH h1 rl1 m1 (past ++ [r]) (rq_now r) Hrep1 Hord Hs).
    rewrite HW1, Hp1, Hb1 in IH. specialize (IH HW Hmax). destruct (collides _ rs).
    + by rewrite IH.
    + destruct IH as (h' & rl' & ->). by exists h', rl'.
Qed.

(** C13: For any stream of packets of any addresses at non-decreasing times, a new
    limiter either returns, for each packet, whether the bytes of its own address
    in the last [window_size] seconds average at most [max_bps], addresses not
    influencing each other and the packet limit [max_pps] not mattering; or, as
    soon as an address falls into the bucket of another one, uses an entry as a
    window, which is undefined. *)
Theorem rate_limiter_stream max_pps max_bps W rl t rs :
  rate_limiter_create true true true max_pps max_bps W = Some rl →
  0 < W < 2 ^ 32 → 0 <= max_pps → in_order t rs → Forall (λ r, 0 <= rq_size r < 2 ^ 32) rs →
  if collides [] rs then run_limiter alloc ∅ rl rs = Undef TypeConfusion
  else ∃ h' rl', run_limiter alloc ∅ rl rs = Ok (limiter_verdicts W max_bps [] rs, h', rl').
Proof.
  intros Hc HW Hmax Hord Hs. apply (inj Some) in Hc as <-.
  exact (run_limiter_rep ∅ _ ∅ [] t rs (table_rep_empty max_pps max_bps W t) Hord Hs HW Hmax).
Qed.
End streams.

(** ** Witness

    An allocator: the three blocks after the largest in use. *)
Definition next_allocs (h : rl_heap) : rl_allocs :=
  let l := fresh (dom h) in let w1 := fresh ({[l]} ∪ dom h) in
  RlAllocs (Some l) (Some w1) true (Some (fresh ({[w1; l]} ∪ dom h))) true.

#[export] Instance next_allocs_fresh : RlAllocator next_allocs.
Proof.
  intros h. unfold next_allocs. set (l := fresh (dom h)). set (w1 := fresh ({[l]} ∪ dom h)).
  set (w2 := fresh ({[w1; l]} ∪ dom h)). exists l, w1, w2.
  pose proof (is_fresh (dom h)) as H1. pose proof (is_fresh ({[l]} ∪ dom h)) as H2.
  pose proof (is_fresh ({[w1; l]} ∪ dom h)) as H3. fold l w1 w2 in H1, H2, H3.
  split; [done|]. split; [|rewrite <- !not_elem_of_dom; set_solver].
  rewrite !NoDup_cons, !not_elem_of_cons. split_and!; try apply not_elem_of_nil; [set_solver..|constructor].
Qed.

(** Two addresses in turn, the first over its limit; then an address in the bucket
    of the first. *)
Lemma rate_limiter_stream_witness :
  let a := ip4 10 0 0 1 in let b := ip4 10 0 0 2 in
  let rs := [Request 5 a 900; Request 5 b 100; Request 5 a 200; Request 6 b 100] in
  let rl := RateLimiter ∅ 0 1000 1 in
  (∃ h' rl', run_limiter next_allocs ∅ rl rs = Ok ([true; true; false; true], h', rl')) ∧
  run_limiter next_allocs ∅ rl (rs ++ [Request 7 (ip4 11 0 0 1) 10]) = Undef TypeConfusion.
Proof.
  intros a b rs rl. split.
  - apply (rate_limiter_stream (alloc := next_allocs) 0 1000 1 rl 5 rs);
      [reflexivity|lia|lia|cbn; lia|repeat constructor; cbn; lia].
  - apply (rate_limiter_stream (alloc := next_allocs) 0 1000 1 rl 5 (rs ++ [Request 7 (ip4 11 0 0 1) 10]));
      [reflexivity|lia|lia|cbn; lia|repeat constructor; cbn; lia].
Defined.
