(* ===== verification/State.v ===== *)
(** * Shared state of the detection modules

    The per-address statistics, global statistics and configuration of
    [include/common.h], and the state in which a protocol module runs: its own
    counters (a global pointer, [NULL] before initialisation), the global
    statistics and the statistics of the packet's source. Fields the program
    never reads ([country_code], [asn], [first_seen] of an address, the CPU and
    memory gauges) are left out; logging has no effect on this state. *)

From S2P Require Import Prelude Common.

Record ip_stats := IpStats {
  st_ip : ip_addr;
  st_packets : list Z;       (* uint64_t [ATTACK_MAX] *)
  st_bytes : list Z;         (* uint64_t [ATTACK_MAX] *)
  udp_pps : Z;
  tcp_syn_pps : Z;
  tcp_ack_pps : Z;
  icmp_pps : Z;
  http_rps : Z;
  last_update : Z;           (* time_t *)
  reputation_score : Z;      (* uint32_t *)
  is_blacklisted : bool;
  is_whitelisted : bool;
  blacklist_expires : Z
}.

Record global_stats := GlobalStats {
  total_packets : Z;
  total_bytes : Z;
  dropped_packets : Z;
  rate_limited_packets : Z;
  attacks_detected : list Z;  (* uint64_t [ATTACK_MAX] *)
  current_connections : Z
}.

(** [None] is a [NULL] string pointer. *)
Record config := Config {
  interface : option (list Z);
  promiscuous_mode : bool;
  snaplen : Z;
  num_workers : Z;
  cpu_affinity : bool;
  numa_aware : bool;
  udp_pps_threshold : Z;
  tcp_syn_pps_threshold : Z;
  tcp_ack_pps_threshold : Z;
  icmp_pps_threshold : Z;
  http_rps_threshold : Z;
  enable_rate_limiting : bool;
  rate_limit_pps : Z;
  rate_limit_bps : Z;
  auto_blacklist : bool;
  blacklist_duration : Z;
  whitelist_ips : list (list Z);
  blacklist_ips : list (list Z);
  enable_geoip : bool;
  blocked_countries : list (list Z);
  geoip_db_path : option (list Z);
  enable_xdp : bool;
  xdp_program_path : option (list Z);
  enable_http_protection : bool;
  enable_js_challenge : bool;
  enable_captcha : bool;
  user_agent_blacklist : list (list Z);
  log_file : option (list Z);
  log_level : Z;
  syslog_enabled : bool;
  enable_api : bool;
  api_bind_address : option (list Z);
  api_port : Z;
  api_auth_token : option (list Z);
  enable_dashboard : bool;
  dashboard_port : Z;
  enable_chroot : bool;
  chroot_dir : option (list Z);
  drop_user : option (list Z);
  drop_group : option (list Z);
  enable_seccomp : bool
}.

(** [calloc(1, sizeof(config_t))]. *)
Definition config_zero : config :=
  Config None false 0 0 false false 0 0 0 0 0 false 0 0 false 0 [] [] false [] None false None
    false false false [] None 0 false false None 0 None false 0 false None None None false.

(** ** Field updates *)

Definition bump (a : attack_type) (l : list Z) : list Z := alter (λ v, v +₆₄ 1) (attack_idx a) l.

Definition set_packets (f : list Z → list Z) (s : ip_stats) : ip_stats :=
  IpStats (st_ip s) (f (st_packets s)) (st_bytes s) (udp_pps s) (tcp_syn_pps s) (tcp_ack_pps s) (icmp_pps s)
    (http_rps s) (last_update s) (reputation_score s) (is_blacklisted s) (is_whitelisted s)
    (blacklist_expires s).
Definition set_udp_pps (v : Z) (s : ip_stats) : ip_stats :=
  IpStats (st_ip s) (st_packets s) (st_bytes s) v (tcp_syn_pps s) (tcp_ack_pps s) (icmp_pps s)
    (http_rps s) (last_update s) (reputation_score s) (is_blacklisted s) (is_whitelisted s)
    (blacklist_expires s).
Definition set_tcp_syn_pps (v : Z) (s : ip_stats) : ip_stats :=
  IpStats (st_ip s) (st_packets s) (st_bytes s) (udp_pps s) v (tcp_ack_pps s) (icmp_pps s)
    (http_rps s) (last_update s) (reputation_score s) (is_blacklisted s) (is_whitelisted s)
    (blacklist_expires s).
Definition set_tcp_ack_pps (v : Z) (s : ip_stats) : ip_stats :=
  IpStats (st_ip s) (st_packets s) (st_bytes s) (udp_pps s) (tcp_syn_pps s) v (icmp_pps s)
    (http_rps s) (last_update s) (reputation_score s) (is_blacklisted s) (is_whitelisted s)
    (blacklist_expires s).
Definition set_icmp_pps (v : Z) (s : ip_stats) : ip_stats :=
  IpStats (st_ip s) (st_packets s) (st_bytes s) (udp_pps s) (tcp_syn_pps s) (tcp_ack_pps s) v
    (http_rps s) (last_update s) (reputation_score s) (is_blacklisted s) (is_whitelisted s)
    (blacklist_expires s).
Definition set_http_rps (v : Z) (s : ip_stats) : ip_stats :=
  IpStats (st_ip s) (st_packets s) (st_bytes s) (udp_pps s) (tcp_syn_pps s) (tcp_ack_pps s) (icmp_pps s)
    v (last_update s) (reputation_score s) (is_blacklisted s) (is_whitelisted s)
    (blacklist_expires s).
Definition set_last_update (v : Z) (s : ip_stats) : ip_stats :=
  IpStats (st_ip s) (st_packets s) (st_bytes s) (udp_pps s) (tcp_syn_pps s) (tcp_ack_pps s) (icmp_pps s)
    (http_rps s) v (reputation_score s) (is_blacklisted s) (is_whitelisted s)
    (blacklist_expires s).
Definition set_reputation (v : Z) (s : ip_stats) : ip_stats :=
  IpStats (st_ip s) (st_packets s) (st_bytes s) (udp_pps s) (tcp_syn_pps s) (tcp_ack_pps s) (icmp_pps s)
    (http_rps s) (last_update s) v (is_blacklisted s) (is_whitelisted s) (blacklist_expires s).
Definition set_blacklisted (v : bool) (expires : Z) (s : ip_stats) : ip_stats :=
  IpStats (st_ip s) (st_packets s) (st_bytes s) (udp_pps s) (tcp_syn_pps s) (tcp_ack_pps s) (icmp_pps s)
    (http_rps s) (last_update s) (reputation_score s) v (is_whitelisted s) expires.
Definition set_whitelisted (v : bool) (s : ip_stats) : ip_stats :=
  IpStats (st_ip s) (st_packets s) (st_bytes s) (udp_pps s) (tcp_syn_pps s) (tcp_ack_pps s) (icmp_pps s)
    (http_rps s) (last_update s) (reputation_score s) (is_blacklisted s) v (blacklist_expires s).

Definition set_attacks (f : list Z → list Z) (g : global_stats) : global_stats :=
  GlobalStats (total_packets g) (total_bytes g) (dropped_packets g) (rate_limited_packets g)
    (f (attacks_detected g)) (current_connections g).

(** ** The state of a protocol module *)

Record pstate (C : Type) := PState {
  p_ctx : option C;
  p_global : global_stats;
  p_stats : ip_stats
}.
Arguments PState {C} _ _ _.
Arguments p_ctx {C} _.
Arguments p_global {C} _.
Arguments p_stats {C} _.

Section module_state.
Context {C : Type}.

(** [g_ctx->field = ...] through the module's global pointer. *)
Definition on_ctx (f : C → C) : st (pstate C) unit := λ s,
  match p_ctx s with
  | Some c => Ok ((), PState (Some (f c)) (p_global s) (p_stats s))
  | None => Undef NullDeref
  end.

Definition on_stats (f : ip_stats → ip_stats) : st (pstate C) unit :=
  st_modify (λ s, PState (p_ctx s) (p_global s) (f (p_stats s))).

Definition get_stats {A} (f : ip_stats → A) : st (pstate C) A := st_gets (λ s, f (p_stats s)).

(** [stats->packets[a]++], and the same under the lock of the global
    statistics. *)
Definition count_packet (a : attack_type) : st (pstate C) unit := on_stats (set_packets (bump a)).
Definition count_attack (a : attack_type) : st (pstate C) unit :=
  count_packet a ;;
  st_modify (λ s, PState (p_ctx s) (set_attacks (bump a) (p_global s)) (p_stats s)).
End module_state.

Definition bump_opt (a : option attack_type) (l : list Z) : list Z :=
  match a with Some a => bump a l | None => l end.

(** ** Initial values, and configurations for examples *)

Definition zero_counts : list Z := replicate ATTACK_MAX 0.
Definition zero_global : global_stats := GlobalStats 0 0 0 0 zero_counts 0.
Definition new_stats (ip : ip_addr) (now : Z) : ip_stats :=
  IpStats ip zero_counts zero_counts 0 0 0 0 0 now 50 false false 0.

Definition limits (udp syn ack icmp http : Z) : config :=
  Config None false 0 0 false false udp syn ack icmp http false 0 0 false 0 [] [] false [] None
    false None true false false [] None 0 false false None 0 None false 0 false None None None false.
