(* ===== verification/UdpProtect.v ===== *)
(** * UDP protection

    [src/detection/udp_protect.c]: amplification signatures, the per-second
    flood counter, fragments and malformed packets. *)

From S2P Require Import Prelude Common CString Packet State.

Definition DNS_PORT : Z := 53.
Definition NTP_PORT : Z := 123.
Definition SSDP_PORT : Z := 1900.
Definition MEMCACHED_PORT : Z := 11211.

Record udp_protect_ctx := UdpCtx {
  total_udp_packets : Z;
  udp_dropped_packets : Z;
  udp_last_update : Z
}.

(** The new value of the global pointer, and the result. *)
Definition udp_protect_init (calloc_ok : bool) (now : Z) : Z * option udp_protect_ctx :=
  if calloc_ok then (0, Some (UdpCtx 0 0 now)) else (-1, None).
Definition udp_protect_cleanup (c : option udp_protect_ctx) : option udp_protect_ctx := None.

Definition is_dns_amplification (p : packet) : res bool :=
  if negb (pkt_protocol (ip p) =? PROTO_UDP) then Ok false
  else if (pkt_src_port (l4 p) =? DNS_PORT) && (512 <? payload_len (l4 p)) then
    if 3 <=? payload_len (l4 p) then
      let* b := field8 p (payload (l4 p)) 2 in
      Ok (negb (Z.land b 0x80 =? 0))
    else Ok false
  else Ok false.

Definition is_ntp_amplification (p : packet) : res bool :=
  if negb (pkt_protocol (ip p) =? PROTO_UDP) then Ok false
  else if (pkt_src_port (l4 p) =? NTP_PORT) && (400 <? payload_len (l4 p)) then
    if 1 <=? payload_len (l4 p) then
      let* b := field8 p (payload (l4 p)) 0 in
      Ok (Z.land b 0x07 =? 6)
    else Ok false
  else Ok false.

(** [memcmp(pkt->parsed.payload, lit, n) == 0]. *)
Definition payload_is (p : packet) (lit : list Z) : res bool :=
  let* bs := field_bytes p (payload (l4 p)) 0 (length lit) in Ok (bool_decide (bs = lit)).

Definition is_ssdp_reflection (p : packet) : res bool :=
  if negb (pkt_protocol (ip p) =? PROTO_UDP) then Ok false
  else if (pkt_src_port (l4 p) =? SSDP_PORT) && (200 <? payload_len (l4 p)) then
    if 12 <=? payload_len (l4 p) then payload_is p (bytes_of "HTTP/1.1 200") else Ok false
  else Ok false.

Definition is_memcached_amplification (p : packet) : res bool :=
  if negb (pkt_protocol (ip p) =? PROTO_UDP) then Ok false
  else if (pkt_src_port (l4 p) =? MEMCACHED_PORT) && (1000 <? payload_len (l4 p)) then
    if 5 <=? payload_len (l4 p) then
      let* v := payload_is p (bytes_of "VALUE") in
      if v then Ok true else payload_is p (bytes_of "STAT")
    else Ok false
  else Ok false.

Definition udp_amplification (p : packet) : res attack_type :=
  let* b := is_dns_amplification p in
  if b then Ok ATTACK_DNS_AMPLIFICATION
  else
    let* b := is_ntp_amplification p in
    if b then Ok ATTACK_NTP_AMPLIFICATION
    else
      let* b := is_ssdp_reflection p in
      if b then Ok ATTACK_SSDP_REFLECTION
      else
        let* b := is_memcached_amplification p in
        Ok (if b then ATTACK_MEMCACHED_AMPLIFICATION else ATTACK_NONE).

Definition udp_count : st (pstate udp_protect_ctx) unit :=
  on_ctx (λ c, UdpCtx (total_udp_packets c +₆₄ 1) (udp_dropped_packets c) (udp_last_update c)).
Definition udp_drop : st (pstate udp_protect_ctx) verdict :=
  on_ctx (λ c, UdpCtx (total_udp_packets c) (udp_dropped_packets c +₆₄ 1) (udp_last_update c)) ;;
  st_ret VERDICT_DROP.

(** After the flood check: fragments, then malformed packets. *)
Definition udp_checks (p : packet) : st (pstate udp_protect_ctx) verdict :=
  frag <- st_lift (packet_is_fragment p) ;;
  if frag && (payload_len (l4 p) <? 8) then
    count_attack ATTACK_UDP_FRAGMENTATION ;; udp_drop
  else
    bad <- st_lift (packet_is_malformed p) ;;
    if bad then udp_drop else st_ret VERDICT_ACCEPT.

Definition udp_protect_analyze (cfg : config) (now : Z) (p : packet)
    : st (pstate udp_protect_ctx) verdict :=
  if negb (pkt_protocol (ip p) =? PROTO_UDP) then st_ret VERDICT_ACCEPT
  else
    udp_count ;;
    attack <- st_lift (udp_amplification p) ;;
    if decide (attack = ATTACK_NONE) then
      pps <- get_stats udp_pps ;;
      on_stats (set_udp_pps (pps +₆₄ 1)) ;;
      updated <- get_stats last_update ;;
      if 1 <=? now - updated then
        pps <- get_stats udp_pps ;;
        if udp_pps_threshold cfg <? pps then
          count_attack ATTACK_UDP_FLOOD ;; udp_drop
        else
          on_stats (set_udp_pps 0) ;; on_stats (set_last_update now) ;; udp_checks p
      else udp_checks p
    else
      count_attack attack ;; udp_drop.

(** ** The decision table *)

(** The verdict and the attack recorded, from the packet's signature, whether
    it is a fragment, whether it is malformed, and the flood counter. *)
Definition udp_decision (cfg : config) (now : Z) (p : packet) (s : ip_stats)
    (attack : attack_type) (frag bad : bool) : verdict * option attack_type :=
  if negb (bool_decide (attack = ATTACK_NONE)) then (VERDICT_DROP, Some attack)
  else if (1 <=? now - last_update s) && (udp_pps_threshold cfg <? udp_pps s +₆₄ 1) then
    (VERDICT_DROP, Some ATTACK_UDP_FLOOD)
  else if frag && (payload_len (l4 p) <? 8) then (VERDICT_DROP, Some ATTACK_UDP_FRAGMENTATION)
  else if bad then (VERDICT_DROP, None)
  else (VERDICT_ACCEPT, None).

(** C30: On a UDP packet whose reads stay in its buffer the module gives the
    verdict of the decision table; it counts the packet, counts a drop exactly
    when it drops, and records the attack, in the global and the per-address
    statistics, that the table names and no other. *)
Theorem udp_analyze_decision cfg now p c g s attack frag bad :
  pkt_protocol (ip p) = PROTO_UDP → udp_amplification p = Ok attack →
  packet_is_fragment p = Ok frag → packet_is_malformed p = Ok bad →
  ∃ s', udp_protect_analyze cfg now p (PState (Some c) g s) = Ok (s'.1, s'.2) ∧
    let '(v, a) := udp_decision cfg now p s attack frag bad in
    s'.1 = v ∧
    p_ctx s'.2 = Some (UdpCtx (total_udp_packets c +₆₄ 1)
      (if decide (v = VERDICT_DROP) then udp_dropped_packets c +₆₄ 1 else udp_dropped_packets c)
      (udp_last_update c)) ∧
    p_global s'.2 = set_attacks (bump_opt a) g ∧
    st_packets (p_stats s'.2) = bump_opt a (st_packets s) ∧
    st_ip (p_stats s'.2) = st_ip s ∧ reputation_score (p_stats s'.2) = reputation_score s.
Proof.
  intros Hp Ha Hf Hb. unfold udp_protect_analyze. rewrite Hp, Z.eqb_refl. cbn [negb].
  unfold st_bind at 1, udp_count, on_ctx at 1. cbn [p_ctx p_global p_stats].
  unfold st_bind at 1, st_lift at 1. rewrite Ha.
  unfold udp_decision. destruct (decide (attack = ATTACK_NONE)) as [->|Hne]; cbn [negb].
  2: { rewrite bool_decide_eq_false_2 by done. cbn [negb]. eexists (_, _). split; [reflexivity|].
       by destruct g, s. }
  rewrite bool_decide_eq_true_2 by done. cbn [negb].
  unfold udp_checks, st_bind, st_lift, get_stats, st_gets, on_stats, st_modify, st_ret.
  cbn [p_stats p_ctx p_global last_update set_udp_pps udp_pps].
  rewrite Hf. destruct (1 <=? now - last_update s); cbn [andb p_stats set_udp_pps udp_pps last_update];
    [destruct (udp_pps_threshold cfg <? _)|];
    try destruct (frag && (payload_len (l4 p) <? 8)); rewrite ?Hb; try destruct bad;
    (eexists (_, _); split; [reflexivity|]; by destruct g, s).
Qed.

(** A small datagram from 10.0.0.1 port 5000. *)
Definition example_udp : packet :=
  let dat := replicate 14 0 ++
    [0x45; 0; 0; 30; 0; 1; 0; 0; 64; 17; 0; 0; 10; 0; 0; 1; 10; 0; 0; 2] ++
    [0x13; 0x88; 0; 53; 0; 10; 0; 0; 7; 7] in
  Packet dat 44 0 (EthPart (Some 0) 14)
    (IpPart (Some 14) 20 (Some 34) 10 true false PROTO_UDP (ip4 10 0 0 1) (ip4 10 0 0 2))
    (L4Part 5000 53 (Some 42) 2 0 0 0) (http packet_zero).

Lemma udp_analyze_decision_witness :
  ∃ s', udp_protect_analyze (limits 0 0 0 0 0) 7 example_udp
      (PState (Some (UdpCtx 4 2 0)) zero_global (new_stats (ip4 10 0 0 1) 5)) = Ok (s'.1, s'.2) ∧
    s'.1 = VERDICT_DROP ∧ p_ctx s'.2 = Some (UdpCtx 5 3 0) ∧
    attacks_detected (p_global s'.2) !! attack_idx ATTACK_UDP_FLOOD = Some 1.
Proof.
  destruct (udp_analyze_decision (limits 0 0 0 0 0) 7 example_udp (UdpCtx 4 2 0) zero_global
    (new_stats (ip4 10 0 0 1) 5) ATTACK_NONE false false) as (s' & Hr & H);
    [reflexivity..|].
  exists s'. split; [exact Hr|].
  change (udp_decision _ _ _ _ _ _ _) with (VERDICT_DROP, Some ATTACK_UDP_FLOOD) in H.
  destruct H as (Hv & Hc & Hg & _). split; [exact Hv|]. split; [exact Hc|].
  rewrite Hg. reflexivity.
Defined.

(** ** A flood never ends *)

Fixpoint run_udp (cfg : config) (ps : list (Z * packet)) : st (pstate udp_protect_ctx) (list verdict) :=
  match ps with
  | [] => st_ret []
  | (now, p) :: ps' =>
      v <- udp_protect_analyze cfg now p ;;
      vs <- run_udp cfg ps' ;;
      st_ret (v :: vs)
  end.

(** Once an address has exceeded its threshold, every later UDP packet it
    sends is dropped, at whatever later time and however slowly they come: the
    branch that drops resets neither the counter nor the time stamp. *)
Theorem udp_flood_never_ends cfg c g s ps :
  udp_pps_threshold cfg <= udp_pps s → 0 <= udp_pps s →
  udp_pps s + Z.of_nat (length ps) < 2 ^ 64 →
  Forall (λ np, last_update s + 1 <= np.1 ∧ pkt_protocol (ip np.2) = PROTO_UDP ∧
                is_ok (udp_amplification np.2) = true) ps →
  ∃ vs s', run_udp cfg ps (PState (Some c) g s) = Ok (vs, s') ∧
    length vs = length ps ∧ Forall (λ v, v = VERDICT_DROP) vs.
Proof.
  intros Hthr Hpos Hlen Hps. revert c g s Hthr Hpos Hlen Hps.
  induction ps as [|[now p] ps IH]; intros c g s Hthr Hpos Hlen Hps.
  { eexists [], _. by repeat split. }
  apply Forall_cons in Hps as [(Hnow & Hp & Ha) Hps]. simpl in Hnow, Hp, Ha.
  assert (∃ c' g' s', udp_protect_analyze cfg now p (PState (Some c) g s)
    = Ok (VERDICT_DROP, PState (Some c') g' s') ∧
      (udp_pps s <= udp_pps s' <= udp_pps s + 1) ∧ last_update s' = last_update s)
    as (c' & g' & s' & Hrun & Hpps & Hlu).
  { assert (udp_pps s +₆₄ 1 = udp_pps s + 1) as Hplus
      by (apply u64_small; cbn [length] in Hlen; lia).
    destruct (udp_amplification p) as [attack| |] eqn:Hattack; try done.
    unfold udp_protect_analyze. rewrite Hp, Z.eqb_refl. cbn [negb].
    unfold st_bind, udp_count, on_ctx, st_lift. cbn [p_ctx p_global p_stats]. rewrite Hattack.
    destruct (decide (attack = ATTACK_NONE)).
    - unfold get_stats, st_gets, on_stats, st_modify. cbn [p_stats p_ctx p_global last_update set_udp_pps udp_pps].
      rewrite Hplus, (proj2 (Z.leb_le 1 _)) by lia.
      cbn [p_stats set_udp_pps udp_pps]. rewrite (proj2 (Z.ltb_lt _ _)) by lia.
      eexists _, _, _. split; [reflexivity|]. simpl. lia.
    - eexists _, _, _. split; [reflexivity|]. simpl. lia. }
  destruct (IH c' g' s') as (vs & s'' & Hvs & Hl & Hd); [lia|lia|simpl in Hlen; lia|by rewrite Hlu|].
  exists (VERDICT_DROP :: vs), s''. cbn [run_udp]. unfold st_bind. rewrite Hrun, Hvs.
  split; [done|]. split; [simpl; lia|]. by constructor.
Qed.

Lemma udp_flood_never_ends_witness :
  ∃ vs s', run_udp (limits 3 0 0 0 0) [(10, example_udp); (1000, example_udp); (90000, example_udp)]
      (PState (Some (UdpCtx 4 0 0)) zero_global (set_udp_pps 3 (new_stats (ip4 10 0 0 1) 5))) = Ok (vs, s') ∧
    length vs = 3%nat ∧ Forall (λ v, v = VERDICT_DROP) vs.
Proof.
  apply (udp_flood_never_ends (limits 3 0 0 0 0)).
  - simpl. lia.
  - simpl. lia.
  - simpl. lia.
  - repeat constructor; simpl; lia.
Defined.
