(* ===== verification/TcpProtect.v ===== *)
(** * TCP protection

    [src/detection/tcp_protect.c]: connection tracking through the LRU cache,
    SYN, ACK, RST and FIN floods, Slowloris, connection exhaustion, malformed
    packets and invalid flag combinations. [now] is the reading of the clock
    for the packet. *)

From S2P Require Import Prelude Common Hash ConnHeap HashTable LruCache Packet State.

Record tcp_protect_ctx := TcpCtx {
  total_tcp_packets : Z;
  syn_packets : Z;
  ack_packets : Z;
  rst_packets : Z;
  fin_packets : Z;
  tcp_dropped_packets : Z;
  tcp_last_update : Z
}.

Definition tcp_protect_init (calloc_ok : bool) (now : Z) : Z * option tcp_protect_ctx :=
  if calloc_ok then (0, Some (TcpCtx 0 0 0 0 0 0 now)) else (-1, None).
Definition tcp_protect_cleanup (c : option tcp_protect_ctx) : option tcp_protect_ctx := None.

(** The module's state and the connection cache. *)
Record tstate := TState {
  t_heap : heap;
  t_cache : lru_cache;
  t_p : pstate tcp_protect_ctx
}.

Definition on_p {A} (m : st (pstate tcp_protect_ctx) A) : st tstate A :=
  st_zoom t_p (λ q s, TState (t_heap s) (t_cache s) q) m.

(** Reading and writing the fields of a connection entry. *)
Definition get_conn (l : loc) : st tstate conn_entry := λ s,
  match load (t_heap s) l with
  | Ok e => Ok (e, s) | Undef u => Undef u | Diverges => Diverges
  end.
Definition set_conn (l : loc) (f : conn_entry → conn_entry) : st tstate unit := λ s,
  match store (t_heap s) l f with
  | Ok h => Ok ((), TState h (t_cache s) (t_p s)) | Undef u => Undef u | Diverges => Diverges
  end.

Definition count_conn (n : Z) (e : conn_entry) : conn_entry :=
  ConnEntry (ce_tuple e) (ce_state e) (ce_first_seen e) (ce_last_seen e) (ce_packets e +₆₄ 1)
    (ce_bytes e +₆₄ n) (ce_flags e) (ce_next e) (ce_lru_prev e) (ce_lru_next e).

Definition cache_get (key : conn_tuple) (now : Z) (alloc : option loc) : st tstate (option loc) := λ s,
  match lru_cache_get (t_heap s) (t_cache s) key now alloc with
  | Ok (r, h, c) => Ok (r, TState h c (t_p s)) | Undef u => Undef u | Diverges => Diverges
  end.
Definition cache_remove (key : conn_tuple) : st tstate Z := λ s,
  match lru_cache_remove (t_heap s) (t_cache s) key with
  | Ok (r, h, c) => Ok (r, TState h c (t_p s)) | Undef u => Undef u | Diverges => Diverges
  end.

Definition is_slowloris_attack (now : Z) (e : conn_entry) : bool :=
  match ce_state e with
  | TCP_STATE_SYN_RECEIVED | TCP_STATE_ESTABLISHED =>
      ((60 <? now - ce_first_seen e) && (ce_packets e <? 10)) ||
      ((30 <? now - ce_first_seen e) && (ce_bytes e <? 100))
  | _ => false
  end.

Definition tcp_on (f : tcp_protect_ctx → tcp_protect_ctx) : st tstate unit := on_p (on_ctx f).
Definition tcp_count : tcp_protect_ctx → tcp_protect_ctx := λ c,
  TcpCtx (total_tcp_packets c +₆₄ 1) (syn_packets c) (ack_packets c) (rst_packets c)
    (fin_packets c) (tcp_dropped_packets c) (tcp_last_update c).
Definition tcp_count_syn : tcp_protect_ctx → tcp_protect_ctx := λ c,
  TcpCtx (total_tcp_packets c) (syn_packets c +₆₄ 1) (ack_packets c) (rst_packets c)
    (fin_packets c) (tcp_dropped_packets c) (tcp_last_update c).
Definition tcp_count_ack : tcp_protect_ctx → tcp_protect_ctx := λ c,
  TcpCtx (total_tcp_packets c) (syn_packets c) (ack_packets c +₆₄ 1) (rst_packets c)
    (fin_packets c) (tcp_dropped_packets c) (tcp_last_update c).
Definition tcp_count_rst : tcp_protect_ctx → tcp_protect_ctx := λ c,
  TcpCtx (total_tcp_packets c) (syn_packets c) (ack_packets c) (rst_packets c +₆₄ 1)
    (fin_packets c) (tcp_dropped_packets c) (tcp_last_update c).
Definition tcp_count_fin : tcp_protect_ctx → tcp_protect_ctx := λ c,
  TcpCtx (total_tcp_packets c) (syn_packets c) (ack_packets c) (rst_packets c)
    (fin_packets c +₆₄ 1) (tcp_dropped_packets c) (tcp_last_update c).
Definition tcp_count_drop : tcp_protect_ctx → tcp_protect_ctx := λ c,
  TcpCtx (total_tcp_packets c) (syn_packets c) (ack_packets c) (rst_packets c)
    (fin_packets c) (tcp_dropped_packets c +₆₄ 1) (tcp_last_update c).

Definition tcp_drop : st tstate verdict := tcp_on tcp_count_drop ;; st_ret VERDICT_DROP.

(** [flags & m == m]. *)
Definition has (flags m : Z) : bool := Z.land flags m =? m.

Definition move_state (from to : tcp_state) (e : conn_entry) : conn_entry :=
  if decide (ce_state e = from) then set_state to e else e.

(** The flood checks of the four branches; [Some v] is an early return. *)
Definition syn_flood_check (cfg : config) (now : Z) : st tstate (option verdict) :=
  updated <- on_p (get_stats last_update) ;;
  if 1 <=? now - updated then
    pps <- on_p (get_stats tcp_syn_pps) ;;
    if tcp_syn_pps_threshold cfg <? pps then
      on_p (count_attack ATTACK_TCP_SYN_FLOOD) ;; v <- tcp_drop ;; st_ret (Some v)
    else
      on_p (on_stats (set_tcp_syn_pps 0)) ;; on_p (on_stats (set_last_update now)) ;;
      st_ret None
  else st_ret None.

Definition psh_flood_check (flags : Z) : st tstate (option verdict) :=
  seen <- on_p (get_stats (λ s, default 0 (st_packets s !! attack_idx ATTACK_TCP_PSH_ACK_FLOOD))) ;;
  if (flags =? Z.lor TCP_FLAG_ACK TCP_FLAG_PSH) && (1000 <? seen) then
    on_p (count_attack ATTACK_TCP_PSH_ACK_FLOOD) ;; v <- tcp_drop ;; st_ret (Some v)
  else st_ret None.

(** The time stamp is not updated here. *)
Definition ack_flood_check (cfg : config) (now flags : Z) : st tstate (option verdict) :=
  updated <- on_p (get_stats last_update) ;;
  if 1 <=? now - updated then
    pps <- on_p (get_stats tcp_ack_pps) ;;
    if tcp_ack_pps_threshold cfg <? pps then
      on_p (count_attack ATTACK_TCP_ACK_FLOOD) ;; v <- tcp_drop ;; st_ret (Some v)
    else on_p (on_stats (set_tcp_ack_pps 0)) ;; psh_flood_check flags
  else psh_flood_check flags.

(** RST and FIN packets are counted without a time window. *)
Definition counted_flood_check (a : attack_type) : st tstate (option verdict) :=
  on_p (count_packet a) ;;
  seen <- on_p (get_stats (λ s, default 0 (st_packets s !! attack_idx a))) ;;
  if 5000 <? seen then
    on_p (st_modify (λ s, PState (p_ctx s) (set_attacks (bump a) (p_global s)) (p_stats s))) ;;
    v <- tcp_drop ;; st_ret (Some v)
  else st_ret None.

(** The branch on the flags. *)
Definition tcp_flag_branch (cfg : config) (now flags : Z) (conn : loc) : st tstate (option verdict) :=
  if flags =? TCP_FLAG_SYN then
    tcp_on tcp_count_syn ;;
    pps <- on_p (get_stats tcp_syn_pps) ;;
    on_p (on_stats (set_tcp_syn_pps (pps +₆₄ 1))) ;;
    set_conn conn (set_state TCP_STATE_SYN_SENT) ;;
    syn_flood_check cfg now
  else if has flags (Z.lor TCP_FLAG_SYN TCP_FLAG_ACK) then
    set_conn conn (move_state TCP_STATE_SYN_SENT TCP_STATE_SYN_RECEIVED) ;; st_ret None
  else if (flags =? TCP_FLAG_ACK) || (flags =? Z.lor TCP_FLAG_ACK TCP_FLAG_PSH) then
    tcp_on tcp_count_ack ;;
    pps <- on_p (get_stats tcp_ack_pps) ;;
    on_p (on_stats (set_tcp_ack_pps (pps +₆₄ 1))) ;;
    set_conn conn (move_state TCP_STATE_SYN_RECEIVED TCP_STATE_ESTABLISHED) ;;
    ack_flood_check cfg now flags
  else if negb (Z.land flags TCP_FLAG_RST =? 0) then
    tcp_on tcp_count_rst ;;
    set_conn conn (set_state TCP_STATE_CLOSED) ;;
    counted_flood_check ATTACK_TCP_RST_FLOOD
  else if negb (Z.land flags TCP_FLAG_FIN =? 0) then
    tcp_on tcp_count_fin ;;
    set_conn conn (move_state TCP_STATE_ESTABLISHED TCP_STATE_FIN_WAIT) ;;
    counted_flood_check ATTACK_TCP_FIN_FLOOD
  else st_ret None.

(** SYN+FIN, SYN+RST, no flag, FIN+PSH+URG. *)
Definition invalid_flags (flags : Z) : bool :=
  has flags (Z.lor TCP_FLAG_SYN TCP_FLAG_FIN) || has flags (Z.lor TCP_FLAG_SYN TCP_FLAG_RST) ||
  (flags =? 0) || has flags (Z.lor (Z.lor TCP_FLAG_FIN TCP_FLAG_PSH) TCP_FLAG_URG).

Definition LRU_CACHE_SIZE : Z := 524288.

(** The checks after the branch. [n > LRU_CACHE_SIZE * 0.9] is a comparison of
    doubles, exact at these sizes. *)
Definition tcp_checks (cfg : config) (now flags : Z) (tuple : conn_tuple) (conn : loc) (p : packet)
    : st tstate verdict :=
  e <- get_conn conn ;;
  if is_slowloris_attack now e then
    on_p (count_attack ATTACK_SLOWLORIS) ;;
    tcp_on tcp_count_drop ;;
    cache_remove tuple ;;
    st_ret VERDICT_DROP
  else
    n <- st_gets (λ s, lru_cache_size (t_cache s)) ;;
    score <- on_p (get_stats reputation_score) ;;
    if (9 * LRU_CACHE_SIZE <? 10 * n) && (flags =? TCP_FLAG_SYN) && (score <? 50) then tcp_drop
    else
      bad <- st_lift (packet_is_malformed p) ;;
      if bad then tcp_drop
      else if invalid_flags flags then tcp_drop
      else st_ret VERDICT_ACCEPT.

Definition packet_tuple (p : packet) : conn_tuple :=
  ConnTuple (pkt_src_ip (ip p)) (pkt_dst_ip (ip p)) (pkt_src_port (l4 p)) (pkt_dst_port (l4 p))
    PROTO_TCP.

Definition tcp_protect_analyze (cfg : config) (now : Z) (alloc : option loc) (p : packet)
    : st tstate verdict :=
  if negb (pkt_protocol (ip p) =? PROTO_TCP) then st_ret VERDICT_ACCEPT
  else
    tcp_on tcp_count ;;
    let tuple := packet_tuple p in
    r <- cache_get tuple now alloc ;;
    match r with
    | None => st_ret VERDICT_ACCEPT
    | Some conn =>
        set_conn conn (count_conn (len p)) ;;
        set_conn conn (set_last_seen now) ;;
        let flags := tcp_flags (l4 p) in
        r <- tcp_flag_branch cfg now flags conn ;;
        match r with
        | Some v => st_ret v
        | None => tcp_checks cfg now flags tuple conn p
        end
    end.

(** ** The connections in the cache

    [conns h m]: what is recorded of each connection, links apart. *)
Definition conns (h : heap) (m : gmap conn_key_t loc) : gmap conn_key_t conn_entry :=
  omap (λ l, core <$> (h !! l)) m.

Lemma conns_lookup h m k : conns h m !! k = (m !! k ≫= λ l, core <$> (h !! l)).
Proof. apply lookup_omap. Qed.

Section tracking.
Context {rep : heap → hashtable → gmap conn_key_t loc → Prop} {contract : TableContract rep}.

Definition lru_inj (h : heap) (m : gmap conn_key_t loc) : Prop :=
  ∀ k l, m !! k = Some l → key_at h l k.

Lemma conns_update h m k l e :
  lru_inj h m → m !! k = Some l → conns (<[l := e]> h) m = <[k := core e]> (conns h m).
Proof.
  intros Hinj Hk. apply map_eq. intros k'. rewrite conns_lookup.
  destruct (decide (k' = k)) as [->|Hne].
  - rewrite lookup_insert_eq, Hk. cbn [mbind option_bind]. by rewrite lookup_insert_eq.
  - rewrite lookup_insert_ne, conns_lookup by done.
    destruct (m !! k') as [l'|] eqn:Hk'; [|done]. cbn [mbind option_bind].
    rewrite lookup_insert_ne; [done|]. intros ->. apply Hne.
    eapply key_at_fun; [by apply Hinj|by apply Hinj].
Qed.

Lemma lru_ok_inj h c ls m : lru_ok (rep := rep) h c ls m → lru_inj h m.
Proof. intros Hok k l Hk. by eapply lru_lookup_live. Qed.

(** The entry a lookup finds or makes. *)
Definition found_or_new (cs : gmap conn_key_t conn_entry) (key : conn_tuple) (now : Z) : conn_entry :=
  set_last_seen now (default (new_entry key now) (cs !! conn_key key)).

Lemma lru_get_conns h c ls m key now l :
  lru_ok (rep := rep) h c ls m → h !! l = None → lc_current_size c < lc_max_size c →
  ∃ l' h' c' ls' m', lru_cache_get h c key now (Some l) = Ok (Some l', h', c') ∧
    lru_ok (rep := rep) h' c' ls' m' ∧ m' !! conn_key key = Some l' ∧
    lc_max_size c' = lc_max_size c ∧ lc_current_size c' <= lc_current_size c + 1 ∧
    conns h' m' = <[conn_key key := found_or_new (conns h m) key now]> (conns h m).
Proof.
  intros Hok Hl Hroom. pose proof (lru_ok_inj _ _ _ _ Hok) as Hinj.
  destruct (m !! conn_key key) as [l0|] eqn:Hk.
  - assert (l0 ∈ ls) as Hin by (apply (lru_members _ _ _ _ Hok); eauto).
    apply list_elem_of_split in Hin as (ls1 & ls2 & ->).
    destruct (lru_get_hit_ok _ _ _ _ _ _ key now (Some l) Hok Hk)
      as (h' & c' & e' & Hget & Hok' & Hmax & He' & _ & Hcore & Hother).
    exists l0, h', c', (l0 :: ls1 ++ ls2), m. split_and!; try done.
    { rewrite (lru_count _ _ _ _ Hok'), (lru_count _ _ _ _ Hok). simpl. rewrite !length_app. simpl. lia. }
    destruct (Hinj _ _ Hk) as (e & He & _).
    unfold found_or_new. rewrite conns_lookup, Hk. cbn [mbind option_bind]. rewrite He. simpl.
    apply map_eq. intros k'. rewrite conns_lookup.
    destruct (decide (k' = conn_key key)) as [->|Hne].
    + rewrite lookup_insert_eq, Hk. cbn [mbind option_bind]. rewrite He'. simpl.
      by rewrite (Hcore e He).
    + rewrite lookup_insert_ne, conns_lookup by done.
      destruct (m !! k') as [l'|] eqn:Hk'; [|done]. cbn [mbind option_bind].
      assert (l' ≠ l0) as Hll by (intros ->; apply Hne; eapply key_at_fun; by apply Hinj).
      pose proof (Hother l' Hll) as Ho. unfold lru_payload in Ho. rewrite !lookup_fmap in Ho.
      apply (f_equal (fmap (set_next None))) in Ho.
      by destruct (h' !! l'), (h !! l').
  - destruct (lru_get_miss_ok h c ls m key now l) as (h' & c' & e' & Hget & Hok' & Hmax & _ & _ & Hcore);
      [done..|].
    exists l, h', c', (l :: ls), (<[conn_key key := l]> m).
    split_and!; try done; [by rewrite lookup_insert_eq| |].
    { rewrite (lru_count _ _ _ _ Hok'), (lru_count _ _ _ _ Hok). simpl. lia. }
    unfold found_or_new. rewrite conns_lookup, Hk. simpl.
    apply map_eq. intros k'. rewrite conns_lookup.
    assert (∀ x, core <$> (h' !! x) = <[l := new_entry key now]> (core <$> h) !! x) as Hx.
    { intros x. by rewrite <- Hcore, lookup_fmap. }
    destruct (decide (k' = conn_key key)) as [->|Hne].
    + rewrite !lookup_insert_eq. cbn [mbind option_bind]. by rewrite Hx, lookup_insert_eq.
    + rewrite !lookup_insert_ne, conns_lookup by done.
      destruct (m !! k') as [l'|] eqn:Hk'; [|done]. cbn [mbind option_bind].
      rewrite Hx, lookup_insert_ne, lookup_fmap; [done|]. intros <-.
      destruct (Hinj _ _ Hk') as (e & He & _). by rewrite Hl in He.
Qed.
End tracking.

(** ** The state of a connection *)

Definition next_state (flags : Z) (s : tcp_state) : tcp_state :=
  let move from to := if decide (s = from) then to else s in
  if flags =? TCP_FLAG_SYN then TCP_STATE_SYN_SENT
  else if has flags (Z.lor TCP_FLAG_SYN TCP_FLAG_ACK) then
    move TCP_STATE_SYN_SENT TCP_STATE_SYN_RECEIVED
  else if (flags =? TCP_FLAG_ACK) || (flags =? Z.lor TCP_FLAG_ACK TCP_FLAG_PSH) then
    move TCP_STATE_SYN_RECEIVED TCP_STATE_ESTABLISHED
  else if negb (Z.land flags TCP_FLAG_RST =? 0) then TCP_STATE_CLOSED
  else if negb (Z.land flags TCP_FLAG_FIN =? 0) then
    move TCP_STATE_ESTABLISHED TCP_STATE_FIN_WAIT
  else s.

Definition next_entry (now flags n : Z) (e : conn_entry) : conn_entry :=
  set_state (next_state flags (ce_state e)) (set_last_seen now (count_conn n e)).

(** Runs the straight-line part of a module's code. *)
Ltac tcp_run :=
  cbn [st_bind st_ret on_p st_zoom tcp_on on_ctx get_stats st_gets on_stats count_attack
       count_packet st_modify tcp_drop t_p t_heap t_cache p_ctx p_global p_stats].

Lemma set_conn_run l f e s :
  t_heap s !! l = Some e →
  set_conn l f s = Ok ((), TState (<[l := f e]> (t_heap s)) (t_cache s) (t_p s)).
Proof. intros He. unfold set_conn, store, load. by rewrite He. Qed.

Lemma move_state_set s1 s2 e :
  move_state s1 s2 e = set_state (if decide (ce_state e = s1) then s2 else ce_state e) e.
Proof. unfold move_state. case_decide; [done|]. by destruct e. Qed.

(** Code that leaves connections and cache alone, and what it returns. *)
Definition counts_only {A} (P : A → Prop) (m : st tstate A) : Prop :=
  ∀ h c ctx g s, ∃ r ctx' g' s',
    m (TState h c (PState (Some ctx) g s)) = Ok (r, TState h c (PState (Some ctx') g' s')) ∧
    P r ∧ reputation_score s' = reputation_score s.

Lemma counts_ret {A} (P : A → Prop) a : P a → counts_only P (st_ret a).
Proof. intros HP h c ctx g s. by eexists _, _, _, _. Qed.

Lemma counts_bind {A B} (P : A → Prop) (Q : B → Prop) m (f : A → st tstate B) :
  counts_only P m → (∀ a, P a → counts_only Q (f a)) → counts_only Q (st_bind m f).
Proof.
  intros Hm Hf h c ctx g s. destruct (Hm h c ctx g s) as (r & ctx1 & g1 & s1 & Hr & HP & Hs1).
  destruct (Hf r HP h c ctx1 g1 s1) as (r' & ctx2 & g2 & s2 & Hr' & HQ & Hs2).
  exists r', ctx2, g2, s2. unfold st_bind. rewrite Hr. by rewrite Hs2, Hs1.
Qed.

Lemma counts_if {A} (P : A → Prop) (b : bool) m1 m2 :
  counts_only P m1 → counts_only P m2 → counts_only P (if b then m1 else m2).
Proof. by destruct b. Qed.

Lemma counts_on f : counts_only (λ _, True) (tcp_on f).
Proof. intros h c ctx g s. by eexists _, _, _, _. Qed.
Lemma counts_get {A} (f : ip_stats → A) : counts_only (λ _, True) (on_p (get_stats f)).
Proof. intros h c ctx g s. by eexists _, _, _, _. Qed.
Lemma counts_stats f :
  (∀ s, reputation_score (f s) = reputation_score s) → counts_only (λ _, True) (on_p (on_stats f)).
Proof. intros Hf h c ctx g s. eexists _, _, _, _. split; [reflexivity|]. by rewrite Hf. Qed.
Lemma counts_attack a : counts_only (λ _, True) (on_p (count_attack a)).
Proof. intros h c ctx g s. by eexists _, _, _, _. Qed.
Lemma counts_packet a : counts_only (λ _, True) (on_p (count_packet a)).
Proof. intros h c ctx g s. by eexists _, _, _, _. Qed.
Lemma counts_global f :
  counts_only (λ _, True)
    (on_p (st_modify (λ s, PState (p_ctx s) (set_attacks f (p_global s)) (p_stats s)))).
Proof. intros h c ctx g s. by eexists _, _, _, _. Qed.

Lemma counts_drop : counts_only (λ v, v = VERDICT_DROP) tcp_drop.
Proof. eapply counts_bind; [apply counts_on|]. intros _ _. by apply counts_ret. Qed.

(** An optional early return, which is a drop. *)
Definition early (r : option verdict) : Prop := r = None ∨ r = Some VERDICT_DROP.

Ltac counts :=
  repeat first
    [ apply counts_drop | apply counts_on | apply counts_get
    | apply counts_stats; intros []; reflexivity
    | apply counts_attack | apply counts_packet | apply counts_global
    | apply counts_ret; unfold early; naive_solver
    | apply counts_if
    | eapply counts_bind; [|intros ? ?] ].

Lemma counts_syn_check cfg now : counts_only early (syn_flood_check cfg now).
Proof. unfold syn_flood_check. counts. Qed.
Lemma counts_psh_check flags : counts_only early (psh_flood_check flags).
Proof. unfold psh_flood_check. counts. Qed.
Lemma counts_ack_check cfg now flags : counts_only early (ack_flood_check cfg now flags).
Proof.
  pose proof (counts_psh_check flags). unfold ack_flood_check.
  eapply counts_bind; [counts|intros updated _]. apply counts_if; [|done].
  eapply counts_bind; [counts|intros pps _]. apply counts_if; [counts|].
  eapply counts_bind; [counts|done].
Qed.
Lemma counts_counted_check a : counts_only early (counted_flood_check a).
Proof. unfold counted_flood_check. counts. Qed.

(** Counting, one write to the connection, counting. *)
Lemma counts_around {A} (P : A → Prop) (m1 : st tstate A) l f m2 e h c ctx g s :
  h !! l = Some e → counts_only P m1 → counts_only early m2 →
  ∃ r ctx' g' s', (m1 ;; set_conn l f ;; m2) (TState h c (PState (Some ctx) g s))
    = Ok (r, TState (<[l := f e]> h) c (PState (Some ctx') g' s')) ∧
    early r ∧ reputation_score s' = reputation_score s.
Proof.
  intros He H1 H2. destruct (H1 h c ctx g s) as (a & ctx1 & g1 & s1 & R1 & _ & Hs1).
  destruct (H2 (<[l := f e]> h) c ctx1 g1 s1) as (r & ctx2 & g2 & s2 & R2 & Hr & Hs2).
  exists r, ctx2, g2, s2. unfold st_bind. rewrite R1, (set_conn_run _ _ e) by done.
  cbn [t_heap t_cache t_p]. rewrite R2. by rewrite Hs2, Hs1.
Qed.

(** The branch writes the connection's state and the counters, and returns early
    only to drop. *)
Lemma tcp_flag_branch_spec cfg now flags l e h c ctx g s :
  h !! l = Some e →
  ∃ r ctx' g' s', tcp_flag_branch cfg now flags l (TState h c (PState (Some ctx) g s))
    = Ok (r, TState (<[l := set_state (next_state flags (ce_state e)) e]> h) c
               (PState (Some ctx') g' s')) ∧
    early r ∧ reputation_score s' = reputation_score s.
Proof.
  intros He. unfold tcp_flag_branch, next_state. cbv zeta.
  destruct (flags =? TCP_FLAG_SYN).
  { apply (counts_around (λ _, True) (tcp_on tcp_count_syn ;; pps <- on_p (get_stats tcp_syn_pps) ;;
      on_p (on_stats (set_tcp_syn_pps (pps +₆₄ 1)))) l (set_state TCP_STATE_SYN_SENT)
      (syn_flood_check cfg now) e); [done|counts|apply counts_syn_check]. }
  destruct (has flags _).
  { rewrite <- move_state_set.
    apply (counts_around (λ _, True) (st_ret ()) l _ (st_ret None) e); [done|counts|counts]. }
  destruct (_ || _).
  { rewrite <- move_state_set.
    apply (counts_around (λ _, True) (tcp_on tcp_count_ack ;; pps <- on_p (get_stats tcp_ack_pps) ;;
      on_p (on_stats (set_tcp_ack_pps (pps +₆₄ 1)))) l _ (ack_flood_check cfg now flags) e);
      [done|counts|apply counts_ack_check]. }
  destruct (negb _).
  { apply (counts_around (λ _, True) (tcp_on tcp_count_rst) l _ _ e);
      [done|counts|apply counts_counted_check]. }
  destruct (negb _).
  { rewrite <- move_state_set. apply (counts_around (λ _, True) (tcp_on tcp_count_fin) l _ _ e);
      [done|counts|apply counts_counted_check]. }
  eexists None, _, _, _. split; [|split; [by left|reflexivity]].
  rewrite insert_id; [reflexivity|]. rewrite He. by destruct e.
Qed.

Lemma counts_checks cfg now flags tuple l p e bad h c ctx g s :
  h !! l = Some e → is_slowloris_attack now e = false → packet_is_malformed p = Ok bad →
  ∃ v ctx' g' s', tcp_checks cfg now flags tuple l p (TState h c (PState (Some ctx) g s))
    = Ok (v, TState h c (PState (Some ctx') g' s')) ∧
    (v = VERDICT_DROP ∨ v = VERDICT_ACCEPT) ∧
    (bad = true ∨ invalid_flags flags = true → v = VERDICT_DROP).
Proof.
  intros He Hs Hb. unfold tcp_checks, st_bind at 1, get_conn, load. cbn [t_heap]. rewrite He, Hs.
  unfold st_bind at 1, st_gets at 1. unfold st_bind at 1, on_p at 1, st_zoom, get_stats, st_gets.
  cbn [t_p t_heap t_cache p_stats].
  assert (∃ v ctx' g' s', tcp_drop (TState h c (PState (Some ctx) g s))
    = Ok (v, TState h c (PState (Some ctx') g' s')) ∧ v = VERDICT_DROP)
    as (v & ctx' & g' & s' & Hd & ->).
  { destruct (counts_drop h c ctx g s) as (v & ctx' & g' & s' & ? & ? & _). by exists v, ctx', g', s'. }
  destruct (_ && _ && _).
  { exists VERDICT_DROP, ctx', g', s'. rewrite Hd. naive_solver. }
  unfold st_bind, st_lift. rewrite Hb. destruct bad.
  { exists VERDICT_DROP, ctx', g', s'. rewrite Hd. naive_solver. }
  destruct (invalid_flags flags).
  { exists VERDICT_DROP, ctx', g', s'. rewrite Hd. naive_solver. }
  exists VERDICT_ACCEPT, ctx, g, s. naive_solver.
Qed.

Section analysis.
Context {rep : heap → hashtable → gmap conn_key_t loc → Prop} {contract : TableContract rep}.

(** With room in the cache the analysis reaches the branch on the flags, with a
    connection entry at hand. *)
Lemma tcp_analyze_head cfg now l p h c ls m ctx g s :
  lru_ok (rep := rep) h c ls m → h !! l = None → lc_current_size c < lc_max_size c →
  pkt_protocol (ip p) = PROTO_TCP →
  ∃ l' e h' c', h' !! l' = Some e ∧
    tcp_protect_analyze cfg now (Some l) p (TState h c (PState (Some ctx) g s)) =
      (r <- tcp_flag_branch cfg now (tcp_flags (l4 p)) l' ;;
       match r with
       | Some v => st_ret v
       | None => tcp_checks cfg now (tcp_flags (l4 p)) (packet_tuple p) l' p
       end) (TState h' c' (PState (Some (tcp_count ctx)) g s)).
Proof.
  intros Hok Hl Hroom Hp. unfold tcp_protect_analyze. rewrite Hp, Z.eqb_refl. cbn [negb].
  unfold st_bind at 1, tcp_on, on_p at 1, st_zoom, on_ctx. cbn [t_p t_heap t_cache p_ctx p_global p_stats].
  destruct (lru_get_conns h c ls m (packet_tuple p) now l Hok Hl Hroom)
    as (l' & h1 & c1 & ls' & m' & Hget & Hok1 & Hk & _).
  unfold st_bind at 1, cache_get. cbn [t_heap t_cache t_p]. rewrite Hget.
  destruct (lru_ok_inj _ _ _ _ Hok1 _ _ Hk) as (e1 & He1 & _).
  unfold st_bind at 1. rewrite (set_conn_run _ _ e1) by done. cbn [t_heap t_cache t_p].
  unfold st_bind at 1. erewrite set_conn_run by apply lookup_insert_eq. cbn [t_heap t_cache t_p].
  eexists l', _, _, c1. split; [|reflexivity]. apply lookup_insert_eq.
Qed.

(** An ACK after the second of the last update is dropped when the limit is 0. *)
Lemma tcp_ack_limit_zero cfg now l p h c ls m ctx g s :
  lru_ok (rep := rep) h c ls m → h !! l = None → lc_current_size c < lc_max_size c →
  pkt_protocol (ip p) = PROTO_TCP → tcp_ack_pps_threshold cfg = 0 →
  tcp_flags (l4 p) = TCP_FLAG_ACK ∨ tcp_flags (l4 p) = Z.lor TCP_FLAG_ACK TCP_FLAG_PSH →
  1 <= now - last_update s → 0 <= tcp_ack_pps s < 2 ^ 64 - 1 →
  ∃ t, tcp_protect_analyze cfg now (Some l) p (TState h c (PState (Some ctx) g s)) = Ok (VERDICT_DROP, t) ∧
    p_global (t_p t) = set_attacks (bump ATTACK_TCP_ACK_FLOOD) g.
Proof.
  intros Hok Hl Hroom Hp Hlimit Hflags Hnow Hpps.
  destruct (tcp_analyze_head cfg now l p h c ls m ctx g s Hok Hl Hroom Hp) as (l' & e & h' & c' & He & ->).
  unfold st_bind at 1, tcp_flag_branch.
  replace (tcp_flags (l4 p) =? TCP_FLAG_SYN) with false by by destruct Hflags as [-> | ->].
  replace (has (tcp_flags (l4 p)) (Z.lor TCP_FLAG_SYN TCP_FLAG_ACK)) with false
    by by destruct Hflags as [-> | ->].
  replace ((_ =? TCP_FLAG_ACK) || _) with true by by destruct Hflags as [-> | ->].
  cbv iota. tcp_run. unfold st_bind, on_p, tcp_on, on_p, st_zoom, on_ctx, get_stats, st_gets, on_stats,
    st_modify. cbn [t_p t_heap t_cache p_ctx p_global p_stats].
  rewrite (set_conn_run _ _ e) by done. cbn [t_p t_heap t_cache p_ctx p_global p_stats].
  unfold ack_flood_check, st_bind, on_p, st_zoom, get_stats, st_gets.
  cbn [t_p t_heap t_cache p_ctx p_global p_stats last_update tcp_ack_pps set_tcp_ack_pps].
  rewrite (proj2 (Z.leb_le 1 _)) by done. rewrite Hlimit.
  cbn [t_p p_stats tcp_ack_pps set_tcp_ack_pps].
  rewrite (proj2 (Z.ltb_lt 0 _)) by (rewrite u64_small; lia).
  eexists. split; reflexivity.
Qed.

(** One TCP packet, while the cache has room: its own connection takes the next
    step and no other connection changes. *)
Lemma tcp_analyze_step cfg now l p bad h c ls m ctx g s :
  lru_ok (rep := rep) h c ls m → h !! l = None → lc_current_size c < lc_max_size c →
  pkt_protocol (ip p) = PROTO_TCP → packet_is_malformed p = Ok bad →
  let key := packet_tuple p in
  let e' := next_entry now (tcp_flags (l4 p)) (len p) (found_or_new (conns h m) key now) in
  is_slowloris_attack now e' = false →
  ∃ v h' c' ctx' g' s' ls' m',
    tcp_protect_analyze cfg now (Some l) p (TState h c (PState (Some ctx) g s))
    = Ok (v, TState h' c' (PState (Some ctx') g' s')) ∧
    lru_ok (rep := rep) h' c' ls' m' ∧ conns h' m' = <[conn_key key := e']> (conns h m) ∧
    lc_max_size c' = lc_max_size c ∧ lc_current_size c' <= lc_current_size c + 1 ∧
    (v = VERDICT_DROP ∨ v = VERDICT_ACCEPT) ∧
    (bad = true ∨ invalid_flags (tcp_flags (l4 p)) = true → v = VERDICT_DROP).
Proof.
  intros Hok Hl Hroom Hp Hbad key e' Hslow. unfold tcp_protect_analyze.
  rewrite Hp, Z.eqb_refl. cbn [negb]. unfold st_bind at 1, tcp_on, on_p at 1, st_zoom, on_ctx.
  cbn [t_p t_heap t_cache p_ctx p_global p_stats]. fold key.
  destruct (lru_get_conns h c ls m key now l Hok Hl Hroom)
    as (l' & h1 & c1 & ls' & m' & Hget & Hok1 & Hk & Hmax & Hsize & Hconns).
  unfold st_bind at 1, cache_get. cbn [t_heap t_cache t_p]. rewrite Hget.
  pose proof (lru_ok_inj _ _ _ _ Hok1) as Hinj1. destruct (Hinj1 _ _ Hk) as (e1 & He1 & _).
  assert (core e1 = found_or_new (conns h m) key now) as Hcore.
  { apply (f_equal (λ M, M !! conn_key key)) in Hconns.
    rewrite lookup_insert_eq, conns_lookup, Hk in Hconns. cbn [mbind option_bind] in Hconns.
    rewrite He1 in Hconns. by apply (inj Some) in Hconns. }
  unfold st_bind at 1. rewrite (set_conn_run _ _ e1) by done. cbn [t_heap t_cache t_p].
  unfold st_bind at 1. erewrite set_conn_run by apply lookup_insert_eq. cbn [t_heap t_cache t_p].
  rewrite insert_insert_eq. set (e2 := set_last_seen now _). set (h2 := <[l' := e2]> h1).
  unfold st_bind at 1.
  destruct (tcp_flag_branch_spec cfg now (tcp_flags (l4 p)) l' e2 h2 c1 (tcp_count ctx) g s)
    as (r & ctx2 & g2 & s2 & Hbr & Hr & _); [apply lookup_insert_eq|].
  rewrite Hbr.
  set (e3 := set_state _ e2) in *. unfold h2. rewrite insert_insert_eq.
  assert (core e3 = e') as He3.
  { unfold e'. rewrite <- Hcore. by destruct e1. }
  assert (lru_ok (rep := rep) (<[l' := e3]> h1) c1 ls' m') as Hok3.
  { eapply lru_ok_update; [done|exact He1|done]. }
  assert (conns (<[l' := e3]> h1) m' = <[conn_key key := e']> (conns h m)) as Hconns3.
  { rewrite (conns_update _ _ (conn_key key)) by done. by rewrite Hconns, insert_insert_eq, He3. }
  destruct Hr as [->| ->].
  2: { eexists VERDICT_DROP, _, _, _, _, _, ls', m'. split; [reflexivity|]. naive_solver. }
  destruct (counts_checks cfg now (tcp_flags (l4 p)) key l' p e3 bad (<[l' := e3]> h1) c1 ctx2 g2 s2)
    as (v & ctx3 & g3 & s3 & Hck & Hv & Hbadv); [apply lookup_insert_eq| |done|].
  { rewrite <- Hslow, <- He3. by destruct e3. }
  eexists v, _, _, _, _, _, ls', m'. split; [exact Hck|]. naive_solver.
Qed.
End analysis.

(** ** Streams of packets *)

(** Packets with the clock and the statistics of their source, over one cache. *)
Fixpoint run_tcp (cfg : config) (alloc : heap → loc) (h : heap) (c : lru_cache)
    (ctx : option tcp_protect_ctx) (g : global_stats) (es : list (Z * ip_stats * packet))
    : res (heap * lru_cache) :=
  match es with
  | [] => Ok (h, c)
  | (now, s, p) :: es' =>
      let* (v, t) := tcp_protect_analyze cfg now (Some (alloc h)) p (TState h c (PState ctx g s)) in
      run_tcp cfg alloc (t_heap t) (t_cache t) (p_ctx (t_p t)) (p_global (t_p t)) es'
  end.

Definition track (cs : gmap conn_key_t conn_entry) (now : Z) (p : packet) : conn_entry :=
  next_entry now (tcp_flags (l4 p)) (len p) (found_or_new cs (packet_tuple p) now).

(** No packet of the stream meets a connection that counts as Slowloris. *)
Fixpoint tracked (cs : gmap conn_key_t conn_entry) (es : list (Z * ip_stats * packet))
    (final : gmap conn_key_t conn_entry) : Prop :=
  match es with
  | [] => final = cs
  | (now, _, p) :: es' =>
      pkt_protocol (ip p) = PROTO_TCP ∧ is_ok (packet_is_malformed p) = true ∧
      is_slowloris_attack now (track cs now p) = false ∧
      tracked (<[conn_key (packet_tuple p) := track cs now p]> cs) es' final
  end.

Section streams.
Context {rep : heap → hashtable → gmap conn_key_t loc → Prop} {contract : TableContract rep}.
Context {alloc : heap → loc} {allocator : Allocator alloc}.

Lemma run_tcp_tracked cfg h c ls m ctx g es final :
  lru_ok (rep := rep) h c ls m →
  lc_current_size c + Z.of_nat (length es) <= lc_max_size c →
  tracked (conns h m) es final →
  ∃ h' c' ls' m', run_tcp cfg alloc h c (Some ctx) g es = Ok (h', c') ∧
    lru_ok (rep := rep) h' c' ls' m' ∧ conns h' m' = final.
Proof.
  revert h c ls m ctx g. induction es as [|[[now s] p] es IH]; intros h c ls m ctx g Hok Hroom Htr.
  { exists h, c, ls, m. by simpl in Htr. }
  destruct Htr as (Hp & Hmal & Hslow & Htr). cbn [length] in Hroom.
  destruct (packet_is_malformed p) as [bad| |] eqn:Hbad; try done.
  destruct (tcp_analyze_step cfg now (alloc h) p bad h c ls m ctx g s)
    as (v & h1 & c1 & ctx1 & g1 & s1 & ls1 & m1 & Hrun & Hok1 & Hconns & Hmax & Hsz & _);
    [done|apply alloc_fresh|lia|done|done|exact Hslow|].
  cbn [run_tcp]. rewrite Hrun. cbn [rbind t_heap t_cache t_p p_ctx p_global].
  apply (IH h1 c1 ls1 m1); [done|lia|]. by rewrite Hconns.
Qed.
End streams.

(** ** Properties *)

(** C32: While the cache has room, a TCP packet whose flags are SYN+FIN, SYN+RST,
    none, or FIN+PSH+URG (with any others) is dropped, whatever the statistics
    and limits, unless its connection counts as Slowloris. *)
Theorem tcp_invalid_flags_dropped cfg now l p bad h c ls m ctx g s :
  lru_ok (rep := ht_ok) h c ls m → h !! l = None → lc_current_size c < lc_max_size c →
  pkt_protocol (ip p) = PROTO_TCP → packet_is_malformed p = Ok bad →
  is_slowloris_attack now (track (conns h m) now p) = false →
  invalid_flags (tcp_flags (l4 p)) = true →
  ∃ t, tcp_protect_analyze cfg now (Some l) p (TState h c (PState (Some ctx) g s))
       = Ok (VERDICT_DROP, t).
Proof.
  intros Hok Hl Hroom Hp Hbad Hslow Hflags.
  destruct (tcp_analyze_step cfg now l p bad h c ls m ctx g s Hok Hl Hroom Hp Hbad Hslow)
    as (v & h1 & c1 & ctx1 & g1 & s1 & ls1 & m1 & Hrun & _ & _ & _ & _ & _ & Hv).
  rewrite Hv in Hrun by auto. eauto.
Qed.

Definition tcp_example_packet (src dst : ip_addr) (sport dport flags : Z) : packet :=
  Packet (replicate 14 0 ++ [0x45; 0; 0; 40] ++ replicate 36 0) 54 0 (EthPart (Some 0) 14)
    (IpPart (Some 14) 20 (Some 34) 20 true false PROTO_TCP src dst)
    (L4Part sport dport (Some 54) 0 flags 0 0) (http packet_zero).

Definition tcp_example_stats (now : Z) : ip_stats :=
  new_stats (ip4 1 2 3 4) now.
Definition tcp_example_cache : lru_cache :=
  LruCache (Hashtable (replicate 4 None) 4 0) None None 4 0.

Lemma tcp_example_cache_ok : lru_ok (rep := ht_ok) ∅ tcp_example_cache [] ∅.
Proof. by apply (lru_create_ok ∅ 4). Qed.

Lemma tcp_invalid_flags_dropped_witness :
  ∃ t, tcp_protect_analyze config_zero 9 (Some 1%positive)
         (tcp_example_packet (ip4 10 0 0 1) (ip4 10 0 0 2) 5000 80 0x29)
         (TState ∅ tcp_example_cache (PState (Some (TcpCtx 0 0 0 0 0 0 0))
            zero_global (tcp_example_stats 9)))
       = Ok (VERDICT_DROP, t).
Proof.
  apply (tcp_invalid_flags_dropped _ _ _ _ false _ _ [] ∅); [apply tcp_example_cache_ok|..].
  - reflexivity.
  - reflexivity.
  - reflexivity.
  - vm_compute. reflexivity.
  - vm_compute. reflexivity.
  - reflexivity.
Defined.

(** The tuple of the packets in the other direction. *)
Definition tuple_swap (t : conn_tuple) : conn_tuple :=
  ConnTuple (dst_ip t) (src_ip t) (dst_port t) (src_port t) (protocol t).

(** The three-way handshake is not recognised: connections are tracked per
    direction, so after SYN, SYN+ACK from the peer, and ACK, the client's entry
    is still in SYN_SENT and the server's in CLOSED; neither is ever a candidate
    for the Slowloris check. *)
Theorem tcp_handshake_not_established cfg alloc c ctx g max t1 t2 t3 s1 s2 s3 p1 p2 p3 h :
  Allocator alloc → lru_cache_create true true true max = Some c → 3 <= max < 2 ^ 32 →
  tcp_flags (l4 p1) = TCP_FLAG_SYN → tcp_flags (l4 p2) = Z.lor TCP_FLAG_SYN TCP_FLAG_ACK →
  tcp_flags (l4 p3) = TCP_FLAG_ACK →
  packet_tuple p2 = tuple_swap (packet_tuple p1) → packet_tuple p3 = packet_tuple p1 →
  conn_key (tuple_swap (packet_tuple p1)) ≠ conn_key (packet_tuple p1) →
  Forall (λ p, pkt_protocol (ip p) = PROTO_TCP ∧ is_ok (packet_is_malformed p) = true) [p1; p2; p3] →
  ∃ h' c' ls m e1 e2,
    run_tcp cfg alloc h c (Some ctx) g [(t1, s1, p1); (t2, s2, p2); (t3, s3, p3)] = Ok (h', c') ∧
    lru_ok (rep := ht_ok) h' c' ls m ∧
    conns h' m !! conn_key (packet_tuple p1) = Some e1 ∧ ce_state e1 = TCP_STATE_SYN_SENT ∧
    conns h' m !! conn_key (packet_tuple p2) = Some e2 ∧ ce_state e2 = TCP_STATE_CLOSED.
Proof.
  intros Ha Hc Hmax F1 F2 F3 T2 T3 Hne Hps.
  rewrite !Forall_cons in Hps. destruct Hps as ((P1 & M1) & (P2 & M2) & (P3 & M3) & _).
  destruct (lru_create_ok h max c) as (Hok & Hm0 & Hs0); [lia|done|].
  set (k1 := conn_key (packet_tuple p1)) in *. set (k2 := conn_key (tuple_swap (packet_tuple p1))) in *.
  set (e1 := track ∅ t1 p1). set (cs1 := <[k1 := e1]> (∅ : gmap conn_key_t conn_entry)).
  set (e2 := track cs1 t2 p2). set (cs2 := <[k2 := e2]> cs1).
  set (e3 := track cs2 t3 p3). set (cs3 := <[k1 := e3]> cs2).
  assert (ce_state e1 = TCP_STATE_SYN_SENT) as S1 by (unfold e1, track; simpl; by rewrite F1).
  assert (ce_state e2 = TCP_STATE_CLOSED) as S2.
  { unfold e2, track, found_or_new. rewrite T2. fold k2. unfold cs1.
    rewrite lookup_insert_ne, lookup_empty by done. simpl. by rewrite F2. }
  assert (ce_state e3 = TCP_STATE_SYN_SENT) as S3.
  { unfold e3, track, found_or_new. rewrite T3. fold k1. unfold cs2.
    rewrite lookup_insert_ne by done. unfold cs1. rewrite lookup_insert_eq.
    unfold next_entry. cbn [default from_option ce_state set_state count_conn set_last_seen].
    unfold id. rewrite F3, S1. reflexivity. }
  destruct (run_tcp_tracked (alloc := alloc) cfg h c [] ∅ ctx g
    [(t1, s1, p1); (t2, s2, p2); (t3, s3, p3)] cs3 Hok) as (h' & c' & ls' & m' & Hrun & Hok' & Hcs).
  { rewrite Hs0, Hm0. simpl. lia. }
  { cbn [tracked]. replace (conns h ∅) with (∅ : gmap conn_key_t conn_entry) by (symmetry; apply omap_empty).
    rewrite T2, T3. fold k1 k2 e1 cs1 e2 cs2 e3 cs3. unfold is_slowloris_attack. rewrite S1, S2, S3. done. }
  exists h', c', ls', m', e3, e2. split; [done|]. split; [done|]. rewrite Hcs, T2. fold k2. unfold cs3.
  rewrite lookup_insert_eq, lookup_insert_ne by done. unfold cs2. by rewrite lookup_insert_eq.
Qed.

Lemma tcp_handshake_not_established_witness :
  let c := ip4 10 0 0 1 in let s := ip4 10 0 0 2 in
  let stats := tcp_example_stats 9 in
  ∃ h' c' ls m e1 e2,
    run_tcp config_zero (λ h, fresh (dom h)) ∅ tcp_example_cache (Some (TcpCtx 0 0 0 0 0 0 0))
      zero_global
      [(9, stats, tcp_example_packet c s 5000 80 TCP_FLAG_SYN);
       (9, stats, tcp_example_packet s c 80 5000 (Z.lor TCP_FLAG_SYN TCP_FLAG_ACK));
       (9, stats, tcp_example_packet c s 5000 80 TCP_FLAG_ACK)] = Ok (h', c') ∧
    lru_ok (rep := ht_ok) h' c' ls m ∧
    conns h' m !! conn_key (ConnTuple c s 5000 80 PROTO_TCP) = Some e1 ∧
    ce_state e1 = TCP_STATE_SYN_SENT ∧
    conns h' m !! conn_key (ConnTuple s c 80 5000 PROTO_TCP) = Some e2 ∧
    ce_state e2 = TCP_STATE_CLOSED.
Proof.
  intros c s stats.
  apply (tcp_handshake_not_established config_zero (λ h, fresh (dom h)) tcp_example_cache
    (TcpCtx 0 0 0 0 0 0 0) zero_global 4 9 9 9 stats stats stats
    (tcp_example_packet c s 5000 80 TCP_FLAG_SYN)
    (tcp_example_packet s c 80 5000 (Z.lor TCP_FLAG_SYN TCP_FLAG_ACK))
    (tcp_example_packet c s 5000 80 TCP_FLAG_ACK) ∅); try reflexivity.
  - apply _.
  - lia.
  - discriminate.
  - repeat constructor.
Defined.
