(* ===== verification/TcpStates.v ===== *)
(** * What connection tracking can see

    The states that the entries of [src/detection/tcp_protect.c] go through on a
    stream of packets of any connections. An entry stands for one direction of a
    connection, and the two halves of a handshake travel in different ones. *)

From S2P Require Import Prelude Common Hash ConnHeap HashTable LruCache Packet State TcpProtect.

Notation stream := (list (Z * ip_stats * packet)).

Definition flags_of (x : Z * ip_stats * packet) : Z := tcp_flags (l4 x.2).
Definition key_of (x : Z * ip_stats * packet) : conn_key_t := conn_key (packet_tuple x.2).

(** Of the two ends of a connection one opens it and the other answers: no end
    sends both a SYN and a SYN+ACK to the other. *)
Definition one_opener (es : stream) : Prop :=
  ∀ x y, x ∈ es → y ∈ es → key_of x = key_of y → flags_of x = TCP_FLAG_SYN →
    has (flags_of y) (Z.lor TCP_FLAG_SYN TCP_FLAG_ACK) = false.

(** The packets of one direction. *)
Definition of_key (k : conn_key_t) (es : stream) : stream := filter (λ x, key_of x = k) es.

(** What the entries are after the stream [past]. *)
Record seen (past : stream) (cs : gmap conn_key_t conn_entry) : Prop := {
  seen_key k : is_Some (cs !! k) ↔ of_key k past ≠ [];
  seen_packets k e : cs !! k = Some e → ce_packets e = u64 (Z.of_nat (length (of_key k past)));
  seen_state k e : cs !! k = Some e →
    ce_state e = TCP_STATE_CLOSED ∨
    ce_state e = TCP_STATE_SYN_SENT ∧ ∃ x, x ∈ of_key k past ∧ flags_of x = TCP_FLAG_SYN
}.

Lemma of_key_snoc k past x :
  of_key k (past ++ [x]) = of_key k past ++ (if decide (key_of x = k) then [x] else []).
Proof. unfold of_key. rewrite filter_app, filter_cons, filter_nil. done. Qed.

Lemma half_open_no_slowloris now e :
  ce_state e = TCP_STATE_CLOSED ∨ ce_state e = TCP_STATE_SYN_SENT → is_slowloris_attack now e = false.
Proof. unfold is_slowloris_attack. by intros [-> | ->]. Qed.

(** A flag byte that is neither a SYN nor a SYN+ACK does not open a connection. *)
Lemma next_state_half_open flags s :
  s = TCP_STATE_CLOSED ∨ s = TCP_STATE_SYN_SENT →
  (s = TCP_STATE_SYN_SENT → has flags (Z.lor TCP_FLAG_SYN TCP_FLAG_ACK) = false) →
  next_state flags s = TCP_STATE_CLOSED ∨
  next_state flags s = TCP_STATE_SYN_SENT ∧ (flags = TCP_FLAG_SYN ∨ s = TCP_STATE_SYN_SENT).
Proof.
  unfold next_state. intros Hs Hno. destruct (Z.eqb_spec flags TCP_FLAG_SYN) as [->|Hne]; [naive_solver|].
  destruct Hs as [->| ->].
  - repeat case_match; naive_solver.
  - rewrite Hno by done. repeat case_match; naive_solver.
Qed.

(** One packet. *)
Lemma seen_step past cs now s p :
  one_opener (past ++ [(now, s, p)]) → seen past cs →
  let k := conn_key (packet_tuple p) in
  is_slowloris_attack now (track cs now p) = false ∧
  seen (past ++ [(now, s, p)]) (<[k := track cs now p]> cs).
Proof.
  intros Hone [Hkey Hpk Hst] k. set (x := (now, s, p)).
  set (e0 := found_or_new cs (packet_tuple p) now).
  assert (ce_packets e0 = u64 (Z.of_nat (length (of_key k past)))) as Hn.
  { unfold e0, found_or_new. fold k. destruct (cs !! k) as [e|] eqn:He; [by apply (Hpk k e)|].
    assert (of_key k past = []) as ->; [|done].
    destruct (of_key k past) eqn:Ho; [done|]. exfalso. apply (is_Some_None (A := conn_entry)).
    rewrite <- He. apply Hkey. by rewrite Ho. }
  assert (ce_state e0 = TCP_STATE_CLOSED ∨
    ce_state e0 = TCP_STATE_SYN_SENT ∧ ∃ y, y ∈ of_key k past ∧ flags_of y = TCP_FLAG_SYN) as Hs0.
  { unfold e0, found_or_new. fold k. destruct (cs !! k) as [e|] eqn:He; [by apply (Hst k e)|by left]. }
  assert (of_key k (past ++ [x]) = of_key k past ++ [x]) as Hkx by by rewrite of_key_snoc, decide_True.
  assert (ce_state (track cs now p) = TCP_STATE_CLOSED ∨ ce_state (track cs now p) = TCP_STATE_SYN_SENT ∧
    ∃ y, y ∈ of_key k (past ++ [x]) ∧ flags_of y = TCP_FLAG_SYN) as Hs1.
  { change (ce_state (track cs now p)) with (next_state (flags_of x) (ce_state e0)). rewrite Hkx.
    destruct (next_state_half_open (flags_of x) (ce_state e0)) as [Hc|[Hc Hor]]; [naive_solver| |by left|].
    - intros Hss. destruct Hs0 as [Hs0|(_ & y & [Hyk Hy]%list_elem_of_filter & Hyf)]; [congruence|].
      apply (Hone y x); [apply elem_of_app; by left|apply elem_of_app; right; by left|done..].
    - right. split; [done|]. destruct Hor as [Hf|Hss].
      + exists x. split; [apply elem_of_app; right; by left|done].
      + destruct Hs0 as [Hs0|(_ & y & Hy & Hyf)]; [congruence|].
        exists y. split; [apply elem_of_app; by left|done]. }
  split; [apply half_open_no_slowloris; naive_solver|]. split.
  - intros k'. rewrite of_key_snoc. destruct (decide (k' = k)) as [->|Hne].
    + rewrite lookup_insert_eq, decide_True by done. split; [|by eauto]. intros _. by destruct (of_key k past).
    + rewrite lookup_insert_ne, decide_False, app_nil_r by (try apply not_eq_sym; done). apply Hkey.
  - intros k' e [[<- <-]|[Hne He]]%lookup_insert_Some.
    + rewrite Hkx, length_app. change (ce_packets (track cs now p)) with (ce_packets e0 +₆₄ 1).
      rewrite Hn. cbn [length]. unfold u64. rewrite Zplus_mod_idemp_l. f_equal. lia.
    + rewrite of_key_snoc, decide_False, app_nil_r by done. by apply Hpk.
  - intros k' e [[<- <-]|[Hne He]]%lookup_insert_Some; [done|].
    rewrite of_key_snoc, decide_False, app_nil_r by done. by apply Hst.
Qed.

(** ** Streams *)

Lemma one_opener_app es1 es2 : one_opener (es1 ++ es2) → one_opener es1.
Proof. intros H x y Hx Hy. apply H; apply elem_of_app; by left. Qed.

Definition tcp_packet_ok (x : Z * ip_stats * packet) : Prop :=
  pkt_protocol (ip x.2) = PROTO_TCP ∧ is_ok (packet_is_malformed x.2) = true.

Lemma seen_tracked past cs es :
  one_opener (past ++ es) → Forall tcp_packet_ok es → seen past cs →
  ∃ final, tracked cs es final ∧ seen (past ++ es) final.
Proof.
  revert past cs. induction es as [|[[now s] p] es IH]; intros past cs Hone Hes Hseen.
  { exists cs. by rewrite app_nil_r. }
  apply Forall_cons in Hes as [[Hp Hm] Hes]. rewrite cons_middle, app_assoc in Hone |- *.
  destruct (seen_step past cs now s p) as [Hslow Hstep]; [by apply one_opener_app in Hone|done|].
  destruct (IH _ _ Hone Hes Hstep) as (final & Htr & Hfinal). exists final. by split.
Qed.

Lemma seen_nothing : seen [] ∅.
Proof.
  split; intros k; [|intros e; by rewrite lookup_empty..].
  rewrite lookup_empty. split; [by intros []|done].
Qed.

(** C14: On a stream of well-formed TCP packets of any connections in which no direction
    of a connection carries both a plain SYN and a SYN+ACK, as none does in a
    handshake, and while the cache has room: the code runs without undefined behaviour and
    keeps one entry per direction, with the number of its packets; every entry stays in
    CLOSED or SYN_SENT, so that no connection is ever established, and the Slowloris
    check, which looks at established ones, finds none at any time. *)
Theorem tcp_none_established cfg alloc c ctx g max es h :
  Allocator alloc → lru_cache_create true true true max = Some c →
  Z.of_nat (length es) <= max < 2 ^ 32 → 0 < max → Forall tcp_packet_ok es → one_opener es →
  ∃ h' c' ls m, run_tcp cfg alloc h c (Some ctx) g es = Ok (h', c') ∧
    lru_ok (rep := ht_ok) h' c' ls m ∧
    ∀ k, match conns h' m !! k with
         | None => of_key k es = []
         | Some e =>
             of_key k es ≠ [] ∧ ce_packets e = Z.of_nat (length (of_key k es)) ∧
             (ce_state e = TCP_STATE_CLOSED ∨ ce_state e = TCP_STATE_SYN_SENT) ∧
             ∀ now, is_slowloris_attack now e = false
         end.
Proof.
  intros Ha Hc Hmax Hpos Hes Hone. destruct (lru_create_ok h max c) as (Hok & Hm & Hsz); [lia|done|].
  destruct (seen_tracked [] ∅ es Hone Hes seen_nothing) as (final & Htr & [Hkey Hpk Hst]).
  assert (conns h (∅ : gmap conn_key_t loc) = ∅) as Hempty by apply omap_empty.
  destruct (run_tcp_tracked (alloc := alloc) cfg h c [] ∅ ctx g es final) as (h' & c' & ls & m & Hrun & Hok' & Hcs);
    [done|lia|by rewrite Hempty|].
  exists h', c', ls, m. split; [done|]. split; [done|]. intros k. rewrite Hcs.
  destruct (final !! k) as [e|] eqn:He.
  - assert (of_key k es ≠ []) as Hne by (apply Hkey; by rewrite He).
    assert (ce_state e = TCP_STATE_CLOSED ∨ ce_state e = TCP_STATE_SYN_SENT) as Hs
      by (destruct (Hst k e He) as [?|[? _]]; auto).
    split; [done|]. split; [|split; [done|]; intros now; by apply half_open_no_slowloris].
    rewrite (Hpk k e He). apply u64_small. pose proof (length_filter (λ x, key_of x = k) es) as Hle.
    unfold of_key. cbn [app]. lia.
  - destruct (of_key k es) eqn:Ho; [done|]. exfalso.
    apply (is_Some_None (A := conn_entry)). rewrite <- He. apply Hkey. cbn [app]. by rewrite Ho.
Qed.

(** A client that sends SYN, ACK and data, and a server that answers. *)
Lemma tcp_none_established_witness :
  let c := ip4 10 0 0 1 in let s := ip4 10 0 0 2 in
  let stats := tcp_example_stats 9 in
  let es := [(9, stats, tcp_example_packet c s 5000 80 TCP_FLAG_SYN);
             (9, stats, tcp_example_packet s c 80 5000 (Z.lor TCP_FLAG_SYN TCP_FLAG_ACK));
             (9, stats, tcp_example_packet c s 5000 80 TCP_FLAG_ACK);
             (9, stats, tcp_example_packet c s 5000 80 (Z.lor TCP_FLAG_ACK TCP_FLAG_PSH))] in
  ∃ h' c' ls m e,
    run_tcp config_zero (λ h, fresh (dom h)) ∅ tcp_example_cache (Some (TcpCtx 0 0 0 0 0 0 0))
      zero_global es = Ok (h', c') ∧
    lru_ok (rep := ht_ok) h' c' ls m ∧
    conns h' m !! conn_key (ConnTuple c s 5000 80 PROTO_TCP) = Some e ∧ ce_packets e = 3 ∧
    (ce_state e = TCP_STATE_CLOSED ∨ ce_state e = TCP_STATE_SYN_SENT).
Proof.
  intros c s stats es.
  destruct (tcp_none_established config_zero (λ h, fresh (dom h)) tcp_example_cache
    (TcpCtx 0 0 0 0 0 0 0) zero_global 4 es ∅) as (h' & c' & ls & m & Hrun & Hok & Hk);
    [apply _|reflexivity|cbn; lia|lia|by repeat constructor| |].
  { intros x y Hx Hy. unfold es in *. rewrite !elem_of_cons, elem_of_nil in Hx, Hy.
    destruct_or!; subst; try done; try (intros; vm_compute in *; congruence). }
  specialize (Hk (conn_key (ConnTuple c s 5000 80 PROTO_TCP))).
  exists h', c', ls, m. destruct (conns h' m !! _) as [e|]; [|vm_compute in Hk; discriminate].
  exists e. destruct Hk as (_ & Hn & Hst & _). by split_and!.
Defined.
