(* ===== verification/IcmpProtect.v ===== *)
(** * ICMP protection

    [src/detection/icmp_protect.c]: the flood counter, oversized packets,
    fragments, redirects, Smurf replies, and the lower limit for types other
    than ping. *)

From S2P Require Import Prelude Bits Common Packet Parser State.

Record icmp_protect_ctx := IcmpCtx {
  total_icmp_packets : Z;
  icmp_dropped_packets : Z;
  icmp_last_update : Z
}.

Definition icmp_protect_init (calloc_ok : bool) (now : Z) : Z * option icmp_protect_ctx :=
  if calloc_ok then (0, Some (IcmpCtx 0 0 now)) else (-1, None).
Definition icmp_protect_cleanup (c : option icmp_protect_ctx) : option icmp_protect_ctx := None.

Definition ICMP_ECHOREPLY : Z := 0.
Definition ICMP_REDIRECT : Z := 5.
Definition ICMP_ECHO : Z := 8.

Definition icmp_count : st (pstate icmp_protect_ctx) unit :=
  on_ctx (λ c, IcmpCtx (total_icmp_packets c +₆₄ 1) (icmp_dropped_packets c) (icmp_last_update c)).
Definition icmp_drop (v : verdict) : st (pstate icmp_protect_ctx) verdict :=
  on_ctx (λ c, IcmpCtx (total_icmp_packets c) (icmp_dropped_packets c +₆₄ 1) (icmp_last_update c)) ;;
  st_ret v.
Definition icmp_attack (a : attack_type) : st (pstate icmp_protect_ctx) verdict :=
  count_attack a ;; icmp_drop VERDICT_DROP.

(** The destination is a directed or limited broadcast address. *)
Definition broadcast_dst (p : packet) : bool :=
  if family (pkt_dst_ip (ip p)) =? AF_INET then
    let dst := bswap32 (s_addr (pkt_dst_ip (ip p))) in
    (Z.land dst 0xFF =? 0xFF) || (dst =? 0xFFFFFFFF)
  else false.

(** The header fields are read where the code reads [icmp->type]. *)
Definition icmp_type_checks (cfg : config) (p : packet) : st (pstate icmp_protect_ctx) verdict :=
  type <- st_lift (field8 p (transport_header (ip p)) 0) ;;
  if type =? ICMP_REDIRECT then icmp_drop VERDICT_DROP
  else if (type =? ICMP_ECHOREPLY) && broadcast_dst p then icmp_attack ATTACK_SMURF
  else
    pps <- get_stats icmp_pps ;;
    if negb (type =? ICMP_ECHO) && negb (type =? ICMP_ECHOREPLY) &&
       (icmp_pps_threshold cfg / 10 <? pps)
    then icmp_drop VERDICT_RATE_LIMIT
    else st_ret VERDICT_ACCEPT.

Definition icmp_checks (cfg : config) (p : packet) : st (pstate icmp_protect_ctx) verdict :=
  if (65535 <? len p) || (65500 <? payload_len (l4 p)) then icmp_attack ATTACK_PING_OF_DEATH
  else
    frag <- st_lift (packet_is_fragment p) ;;
    if frag then icmp_attack ATTACK_ICMP_FRAGMENTATION
    else icmp_type_checks cfg p.

Definition icmp_protect_analyze (cfg : config) (now : Z) (p : packet)
    : st (pstate icmp_protect_ctx) verdict :=
  if negb (pkt_protocol (ip p) =? PROTO_ICMP) then st_ret VERDICT_ACCEPT
  else
    icmp_count ;;
    pps <- get_stats icmp_pps ;;
    on_stats (set_icmp_pps (pps +₆₄ 1)) ;;
    updated <- get_stats last_update ;;
    if 1 <=? now - updated then
      pps <- get_stats icmp_pps ;;
      if icmp_pps_threshold cfg <? pps then icmp_attack ATTACK_ICMP_FLOOD
      else
        on_stats (set_icmp_pps 0) ;; on_stats (set_last_update now) ;; icmp_checks cfg p
    else icmp_checks cfg p.

(** ** The decision table *)

Definition icmp_decision (cfg : config) (now : Z) (p : packet) (s : ip_stats) (frag : bool) (type : Z)
    : verdict * option attack_type :=
  let fresh_second := 1 <=? now - last_update s in
  let pps := if fresh_second then 0 else icmp_pps s +₆₄ 1 in
  if fresh_second && (icmp_pps_threshold cfg <? icmp_pps s +₆₄ 1) then
    (VERDICT_DROP, Some ATTACK_ICMP_FLOOD)
  else if (65535 <? len p) || (65500 <? payload_len (l4 p)) then
    (VERDICT_DROP, Some ATTACK_PING_OF_DEATH)
  else if frag then (VERDICT_DROP, Some ATTACK_ICMP_FRAGMENTATION)
  else if type =? ICMP_REDIRECT then (VERDICT_DROP, None)
  else if (type =? ICMP_ECHOREPLY) && broadcast_dst p then (VERDICT_DROP, Some ATTACK_SMURF)
  else if negb (type =? ICMP_ECHO) && negb (type =? ICMP_ECHOREPLY) &&
          (icmp_pps_threshold cfg / 10 <? pps) then (VERDICT_RATE_LIMIT, None)
  else (VERDICT_ACCEPT, None).

(** C31: On an ICMP packet whose type is in its buffer the module gives the
    verdict of the decision table, counts the packet, counts a drop for every
    verdict but ACCEPT (a rate-limited packet included), and records the attack
    the table names and no other. *)
Theorem icmp_analyze_decision cfg now p c g s frag type :
  pkt_protocol (ip p) = PROTO_ICMP → packet_is_fragment p = Ok frag →
  field8 p (transport_header (ip p)) 0 = Ok type →
  ∃ v s', icmp_protect_analyze cfg now p (PState (Some c) g s) = Ok (v, s') ∧
    let '(v0, a) := icmp_decision cfg now p s frag type in
    v = v0 ∧
    p_ctx s' = Some (IcmpCtx (total_icmp_packets c +₆₄ 1)
      (if decide (v = VERDICT_ACCEPT) then icmp_dropped_packets c else icmp_dropped_packets c +₆₄ 1)
      (icmp_last_update c)) ∧
    p_global s' = set_attacks (bump_opt a) g ∧
    st_packets (p_stats s') = bump_opt a (st_packets s).
Proof.
  intros Hp Hf Ht. unfold icmp_protect_analyze. rewrite Hp, Z.eqb_refl. cbn [negb].
  unfold icmp_count, icmp_checks, icmp_type_checks, icmp_attack, icmp_drop, st_bind, st_lift,
    get_stats, st_gets, on_stats, st_modify, st_ret, on_ctx.
  cbn [p_stats p_ctx p_global last_update set_icmp_pps icmp_pps]. rewrite Hf, Ht.
  unfold icmp_decision.
  destruct (1 <=? now - last_update s);
    cbn [andb p_stats p_ctx p_global last_update set_icmp_pps icmp_pps];
    [destruct (icmp_pps_threshold cfg <? icmp_pps s +₆₄ 1)|];
    cbn [andb p_stats p_ctx p_global last_update set_icmp_pps set_last_update icmp_pps];
    try (eexists _, _; split; [reflexivity|]; by destruct g, s);
    (destruct (_ || _); [|destruct frag; [|destruct (type =? ICMP_REDIRECT);
      [|destruct (_ && broadcast_dst p);
        [|cbn [p_stats set_last_update set_icmp_pps icmp_pps]; destruct (_ && _ && _)]]]]);
    (eexists _, _; split; [reflexivity|]; by destruct g, s).
Qed.

(** An ICMP packet of the given type to 10.0.0.255. *)
Definition example_icmp (type : Z) : packet :=
  let dat := replicate 14 0 ++
    [0x45; 0; 0; 28; 0; 1; 0; 0; 64; 1; 0; 0; 10; 0; 0; 1; 10; 0; 0; 255] ++ type :: replicate 7 0 in
  Packet dat 42 0 (EthPart (Some 0) 14)
    (IpPart (Some 14) 20 (Some 34) 8 true false PROTO_ICMP (ip4 10 0 0 1) (ip4 10 0 0 255))
    (L4Part type 0 (Some 42) 0 0 0 0) (http packet_zero).

Lemma icmp_analyze_decision_witness :
  ∃ v s', icmp_protect_analyze (limits 0 0 0 100 0) 5 (example_icmp 0)
      (PState (Some (IcmpCtx 4 2 0)) zero_global (new_stats (ip4 10 0 0 1) 5)) = Ok (v, s') ∧
    v = VERDICT_DROP ∧ p_ctx s' = Some (IcmpCtx 5 3 0) ∧
    p_global s' = set_attacks (bump ATTACK_SMURF) zero_global.
Proof.
  destruct (icmp_analyze_decision (limits 0 0 0 100 0) 5 (example_icmp 0) (IcmpCtx 4 2 0)
    zero_global (new_stats (ip4 10 0 0 1) 5) false 0) as (v & s' & Hr & H); [reflexivity..|].
  exists v, s'. split; [exact Hr|].
  change (icmp_decision _ _ _ _ _ _) with (VERDICT_DROP, Some ATTACK_SMURF) in H.
  destruct H as (-> & Hc & Hg & _). split; [reflexivity|]. split; [exact Hc|exact Hg].
Defined.

(** A frame that is only an IP header announcing an ICMP message shorter than
    its header is parsed successfully, and the module then reads the type past
    the end of the frame's buffer. *)
Theorem icmp_headerless_overread e f n ts cfg now c g s :
  length e = 14%nat → ip4_ok f n → f_proto f = PROTO_ICMP → (n < 8)%nat →
  Z.land (f_frag f) IP_OFFMASK = 0 → Z.land (f_frag f) IP_MF = 0 →
  icmp_pps s +₆₄ 1 <= icmp_pps_threshold cfg →
  let dat := e ++ ip4_hdr f n ++ [] in
  Z.of_nat (length dat) <= 65535 →
  ∃ p, packet_parse packet_zero dat (Z.of_nat (length dat)) ts = Ok (0, p) ∧
    icmp_protect_analyze cfg now p (PState (Some c) g s) = Undef OutOfBounds.
Proof.
  intros He Hok Hproto Hn Hoff Hmf Hpps dat Hlen.
  destruct (packet_parse_ip4 e f n [] ts He Hok) as [Hparse Hq].
  set (p := ip4_packet e f n [] ts) in *. exists p.
  assert (parse_transport p = Ok p) as Htr.
  { unfold parse_transport. replace (pkt_protocol (ip p)) with PROTO_ICMP by done.
    cbn [Z.eqb PROTO_TCP PROTO_UDP PROTO_ICMP Pos.eqb]. unfold parse_icmp.
    change (transport_len (ip p)) with (Z.of_nat n).
    rewrite (proj2 (Z.ltb_lt _ _)) by (unfold sizeof_icmphdr; lia). done. }
  unfold dat. rewrite Hparse, Htr. split; [done|].
  assert (packet_is_fragment p = Ok false) as Hfrag.
  { assert (points_at p (Some 14) (ip4_hdr f n ++ [])) as Hpt by (exists e; by rewrite He).
    destruct (rd_ip4 f n [] Hok) as (_ & _ & _ & _ & _ & R6).
    unfold packet_is_fragment. change (ip_header (ip p)) with (Some 14).
    change (is_ipv4 (ip p)) with true. rewrite (field16_at Hpt), R6 by lia. cbn [rbind].
    by rewrite Hoff, Hmf. }
  assert (field8 p (transport_header (ip p)) 0 = Undef OutOfBounds) as Hread.
  { rewrite (field8_at Hq) by lia. done. }
  assert (((65535 <? len p) || (65500 <? payload_len (l4 p))) = false) as Hsize.
  { apply orb_false_iff. split; [apply Z.ltb_ge; exact Hlen|done]. }
  unfold icmp_protect_analyze. replace (pkt_protocol (ip p)) with PROTO_ICMP by done.
  unfold icmp_count, icmp_checks, icmp_type_checks, st_bind, st_lift, get_stats, st_gets,
    on_stats, st_modify, on_ctx. cbn [negb Z.eqb PROTO_ICMP Pos.eqb].
  cbn [p_stats p_ctx p_global last_update set_icmp_pps icmp_pps].
  destruct (1 <=? now - last_update s);
    cbn [p_stats p_ctx p_global set_icmp_pps icmp_pps set_last_update];
    [rewrite (proj2 (Z.ltb_ge (icmp_pps_threshold cfg) _)) by lia|];
    by rewrite Hsize, Hfrag, Hread.
Qed.

Lemma icmp_headerless_overread_witness :
  let dat := replicate 14 0 ++ ip4_hdr (example_ip 1) 0 ++ [] in
  ∃ p, packet_parse packet_zero dat (Z.of_nat (length dat)) 3 = Ok (0, p) ∧
    icmp_protect_analyze (limits 0 0 0 100 0) 5 p
      (PState (Some (IcmpCtx 4 2 0)) zero_global (new_stats (ip4 10 0 0 1) 5)) = Undef OutOfBounds.
Proof.
  apply (icmp_headerless_overread (replicate 14 0) (example_ip 1) 0 3 (limits 0 0 0 100 0));
    try reflexivity.
  - unfold ip4_ok. split_and!; (reflexivity || (simpl; lia)).
  - lia.
  - vm_compute. discriminate.
  - vm_compute. discriminate.
Defined.
