(* ===== verification/HttpProtect.v ===== *)
(** * HTTP protection

    [src/detection/http_protect.c]: request floods, the user-agent blacklist,
    header anomalies, slow POST and the reputation filter. The user agent is a
    terminated heap copy; the payload is the memory from its offset to the end
    of the packet's buffer, without a terminator. *)

From S2P Require Import Prelude Common CString Packet Parser State.

Record http_protect_ctx := HttpCtx {
  total_http_requests : Z;
  dropped_requests : Z;
  agent_blacklist : list (list Z);  (* the pointer and its count *)
  http_last_update : Z
}.

Definition http_protect_init (calloc_ok : bool) (cfg : config) (now : Z) : Z * option http_protect_ctx :=
  if calloc_ok then (0, Some (HttpCtx 0 0 (user_agent_blacklist cfg) now)) else (-1, None).
Definition http_protect_cleanup (c : option http_protect_ctx) : option http_protect_ctx := None.

(** ** User agents *)

Definition bot_patterns : list string :=
  ["bot"; "crawler"; "spider"; "scraper"; "python-requests"; "curl"; "wget"]%string.

(** A loop that stops at the first pattern found. *)
Fixpoint any_found (search : list Z → res (option nat)) (patterns : list (list Z)) : res bool :=
  match patterns with
  | [] => Ok false
  | pat :: rest =>
      let* r := search pat in
      match r with Some _ => Ok true | None => any_found search rest end
  end.

(** [user_agent] is the string with its terminator. *)
Definition is_user_agent_blacklisted (c : option http_protect_ctx) (user_agent : option (list Z))
    : res bool :=
  match user_agent, c with
  | Some m, Some c =>
      let* hit := any_found (λ pat, strstr pat m) (agent_blacklist c) in
      if hit then Ok true
      else any_found (λ pat, strcasestr pat m) (bytes_of <$> bot_patterns)
  | _, _ => Ok false
  end.

(** ** Headers *)

Fixpoint has_nul (n : nat) (m : list Z) : res bool :=
  match n, m with
  | O, _ => Ok false
  | S _, [] => Undef OutOfBounds
  | S n', b :: m' => if b =? 0 then Ok true else has_nul n' m'
  end.

Definition CRLF2 : list Z := [13; 10; 13; 10].

Definition is_http_header_anomaly (p : packet) : res bool :=
  if negb (is_http (http p)) then Ok false
  else
    match payload (l4 p) with
    | None => Undef NullDeref
    | Some off =>
        let m := drop (Z.to_nat off) (data p) in
        let* host := strstr (bytes_of "Host:") m in
        match host with
        | None => Ok true
        | Some _ =>
            let* header_end := strstr CRLF2 m in
            if match header_end with Some n => 8192 <? Z.of_nat n | None => false end then Ok true
            else
              let* nul := has_nul (Z.to_nat (Z.min (payload_len (l4 p)) 2048)) m in
              if nul then Ok true
              else
                let* version := any_found (λ pat, strstr pat m)
                                  [bytes_of "HTTP/1.0"; bytes_of "HTTP/1.1"; bytes_of "HTTP/2"] in
                Ok (negb version)
        end
    end.

Definition method_is (name : string) (p : packet) : bool :=
  match http_method (http p) with Some m => strcmp_eq m (bytes_of name) | None => false end.

Definition is_slow_post_attack (p : packet) : bool :=
  is_http (http p) && method_is "POST" p &&
  (10000 <? http_content_length (http p)) && (payload_len (l4 p) <? 500).

(** ** The analysis *)

Definition http_count : st (pstate http_protect_ctx) unit :=
  on_ctx (λ c, HttpCtx (total_http_requests c +₆₄ 1) (dropped_requests c) (agent_blacklist c)
                 (http_last_update c)).
Definition http_count_drop : st (pstate http_protect_ctx) unit :=
  on_ctx (λ c, HttpCtx (total_http_requests c) (dropped_requests c +₆₄ 1) (agent_blacklist c)
                 (http_last_update c)).

Definition MAX_u32 (a b : Z) : Z := if b <? a then a else b.
Definition MIN_u32 (a b : Z) : Z := if a <? b then a else b.

(** [MAX(0, score - n)], in unsigned arithmetic. *)
Definition lower_reputation (n : Z) : st (pstate http_protect_ctx) unit :=
  score <- get_stats reputation_score ;;
  on_stats (set_reputation (MAX_u32 0 (score -₃₂ n))).

Definition flood_attack (p : packet) : attack_type :=
  if method_is "GET" p then ATTACK_HTTP_GET_FLOOD
  else if method_is "POST" p then ATTACK_HTTP_POST_FLOOD
  else ATTACK_NONE.

Definition reputation_filter (cfg : config) : st (pstate http_protect_ctx) verdict :=
  score <- get_stats reputation_score ;;
  if score <? 20 then
    st_ret (if enable_captcha cfg then VERDICT_CHALLENGE else VERDICT_DROP)
  else
    (if score <? 100 then on_stats (set_reputation (MIN_u32 100 (score +₃₂ 1))) else st_ret ()) ;;
    st_ret VERDICT_ACCEPT.

(** From the header check on. *)
Definition content_checks (cfg : config) (p : packet) : st (pstate http_protect_ctx) verdict :=
  bad <- st_lift (is_http_header_anomaly p) ;;
  if bad then
    count_attack ATTACK_HTTP_HEADER_ANOMALY ;; http_count_drop ;; st_ret VERDICT_DROP
  else if is_slow_post_attack p then
    count_attack ATTACK_SLOW_POST ;; http_count_drop ;; st_ret VERDICT_DROP
  else reputation_filter cfg.

(** From the user-agent check on. *)
Definition http_checks (cfg : config) (p : packet) : st (pstate http_protect_ctx) verdict :=
  match http_user_agent (http p) with
  | Some ua =>
      c <- st_gets p_ctx ;;
      bad <- st_lift (is_user_agent_blacklisted c (Some (ua ++ [0]))) ;;
      if bad then
        count_packet ATTACK_HTTP_GET_FLOOD ;; http_count_drop ;;
        lower_reputation 10 ;; st_ret VERDICT_DROP
      else content_checks cfg p
  | None => lower_reputation 5 ;; content_checks cfg p
  end.

Definition http_protect_analyze (cfg : config) (now : Z) (p : packet)
    : st (pstate http_protect_ctx) verdict :=
  if negb (is_http (http p)) then st_ret VERDICT_ACCEPT
  else if negb (enable_http_protection cfg) then st_ret VERDICT_ACCEPT
  else
    http_count ;;
    rps <- get_stats http_rps ;;
    on_stats (set_http_rps (rps +₆₄ 1)) ;;
    updated <- get_stats last_update ;;
    if 1 <=? now - updated then
      rps <- get_stats http_rps ;;
      let attack := flood_attack p in
      if (http_rps_threshold cfg <? rps) && negb (bool_decide (attack = ATTACK_NONE)) then
        count_attack attack ;; http_count_drop ;;
        st_ret (if enable_js_challenge cfg then VERDICT_CHALLENGE else VERDICT_DROP)
      else
        on_stats (set_http_rps 0) ;; on_stats (set_last_update now) ;; http_checks cfg p
    else http_checks cfg p.

(** ** Which user agents are refused *)

Lemma any_found_spec (search : list Z → res (option nat)) (P : list Z → Prop) pats :
  (∀ pat, pat ∈ pats → ∃ o, search pat = Ok o ∧ (is_Some o ↔ P pat)) →
  ∃ b, any_found search pats = Ok b ∧ (b = true ↔ ∃ pat, pat ∈ pats ∧ P pat).
Proof.
  induction pats as [|pat pats IH]; intros H.
  { exists false. split; [done|]. split; [done|]. intros (? & Hin & _). by apply not_elem_of_nil in Hin. }
  destruct (H pat) as (o & Ho & Hiff); [left|]. cbn [any_found]. rewrite Ho. cbn [rbind].
  destruct o as [n|].
  - exists true. split; [done|]. split; [|done]. intros _. exists pat. split; [left|]. by apply Hiff.
  - destruct IH as (b & Hb & HP); [intros q Hq; apply H; by right|].
    exists b. split; [done|]. rewrite HP. split.
    + intros (q & Hq & HPq). exists q. split; [by right|done].
    + intros (q & [->|Hq]%elem_of_cons & HPq); [by apply Hiff in HPq as [? ?]|eauto].
Qed.

Lemma bot_patterns_plain pat : pat ∈ bytes_of <$> bot_patterns → 0 ∉ pat.
Proof.
  intros (s & -> & Hs)%list_elem_of_fmap. unfold bot_patterns in Hs.
  repeat (apply elem_of_cons in Hs as [->|Hs]; [apply (bool_decide_unpack _); vm_compute; exact I|]).
  by apply not_elem_of_nil in Hs.
Qed.

(** On the user agents the parser stores, strings without a zero byte, the
    check terminates inside the string and refuses exactly those in which a
    configured string occurs as it is, or one of the seven bot names occurs in
    any letter case. *)
Theorem user_agent_blacklisted_exact c ua :
  0 ∉ ua → Forall (λ pat, 0 ∉ pat) (agent_blacklist c) →
  ∃ b, is_user_agent_blacklisted (Some c) (Some (ua ++ [0])) = Ok b ∧
    (b = true ↔
      (∃ pat, pat ∈ agent_blacklist c ∧ occurs pat ua) ∨
      (∃ name, name ∈ bot_patterns ∧ occurs (bytes_of name) (tolower <$> ua))).
Proof.
  intros Hua Hbl. rewrite Forall_forall in Hbl. cbn [is_user_agent_blacklisted].
  destruct (any_found_spec (λ pat, strstr pat (ua ++ [0])) (λ pat, occurs pat ua)
    (agent_blacklist c)) as (b1 & Hb1 & H1).
  { intros pat Hpat. apply strstr_cstr; [by apply Hbl|done]. }
  destruct (any_found_spec (λ pat, strcasestr pat (ua ++ [0]))
    (λ pat, occurs pat (tolower <$> ua)) (bytes_of <$> bot_patterns)) as (b2 & Hb2 & H2).
  { intros pat Hpat. unfold strcasestr. rewrite fmap_app.
    apply strstr_cstr; [by apply bot_patterns_plain|by apply tolower_zero]. }
  rewrite Hb1. cbn [rbind].
  assert ((∃ pat, pat ∈ bytes_of <$> bot_patterns ∧ occurs pat (tolower <$> ua)) ↔
          (∃ name, name ∈ bot_patterns ∧ occurs (bytes_of name) (tolower <$> ua))) as Hnames.
  { split.
    - intros (? & (s & -> & Hs)%list_elem_of_fmap & Ho). eauto.
    - intros (s & Hs & Ho). exists (bytes_of s). split; [|done]. apply list_elem_of_fmap. eauto. }
  rewrite Hnames in H2. destruct b1.
  - exists true. split; [done|]. split; [|done]. intros _. left. by apply H1.
  - exists b2. split; [done|]. rewrite H2. split; [by right|].
    intros [H|H]; [|done]. by apply H1 in H.
Qed.

(** Googlebot, against an empty configured list. *)
Lemma user_agent_blacklisted_exact_witness :
  let ua := bytes_of "GoogleBot/2.1" in
  ∃ b, is_user_agent_blacklisted (Some (HttpCtx 0 0 [] 0)) (Some (ua ++ [0])) = Ok b ∧
    (b = true ↔
      (∃ pat, pat ∈ agent_blacklist (HttpCtx 0 0 [] 0) ∧ occurs pat ua) ∨
      (∃ name, name ∈ bot_patterns ∧ occurs (bytes_of name) (tolower <$> ua))).
Proof.
  intros ua. apply (user_agent_blacklisted_exact (HttpCtx 0 0 [] 0)); [|by constructor].
  apply (bool_decide_unpack _). vm_compute. exact I.
Defined.

(** ** The decision table

    [agent]: the user agent is refused; [anomaly]: the header check fires. The
    attack for the address, the attack for the global statistics, and whether
    the request is counted as dropped, are separate columns: the user-agent row
    fills only the first and the reputation row neither. *)

Record http_outcome := HttpOutcome {
  o_verdict : verdict;
  o_local : option attack_type;
  o_global : option attack_type;
  o_counted : bool;
  o_reputation : Z
}.

Definition content_decision (cfg : config) (p : packet) (score : Z) (anomaly : bool) : http_outcome :=
  if anomaly then
    HttpOutcome VERDICT_DROP (Some ATTACK_HTTP_HEADER_ANOMALY) (Some ATTACK_HTTP_HEADER_ANOMALY)
      true score
  else if is_slow_post_attack p then
    HttpOutcome VERDICT_DROP (Some ATTACK_SLOW_POST) (Some ATTACK_SLOW_POST) true score
  else if score <? 20 then
    HttpOutcome (if enable_captcha cfg then VERDICT_CHALLENGE else VERDICT_DROP)
      None None false score
  else HttpOutcome VERDICT_ACCEPT None None false (if score <? 100 then score + 1 else score).

Definition http_decision (cfg : config) (now : Z) (p : packet) (s : ip_stats) (agent anomaly : bool)
    : http_outcome :=
  let score := reputation_score s in
  if (1 <=? now - last_update s) && (http_rps_threshold cfg <? http_rps s +₆₄ 1) &&
     (method_is "GET" p || method_is "POST" p)
  then
    HttpOutcome (if enable_js_challenge cfg then VERDICT_CHALLENGE else VERDICT_DROP)
      (Some (flood_attack p)) (Some (flood_attack p)) true score
  else if agent then
    HttpOutcome VERDICT_DROP (Some ATTACK_HTTP_GET_FLOOD) None true (score -₃₂ 10)
  else
    content_decision cfg p
      (match http_user_agent (http p) with Some _ => score | None => score -₃₂ 5 end) anomaly.

(** What the user-agent check gives on the packet. *)
Definition agent_refused (c : http_protect_ctx) (p : packet) : res bool :=
  match http_user_agent (http p) with
  | Some ua => is_user_agent_blacklisted (Some c) (Some (ua ++ [0]))
  | None => Ok false
  end.

(** The state after a request with the given outcome. *)
Definition http_final (c : http_protect_ctx) (g : global_stats) (s : ip_stats) (o : http_outcome)
    : pstate http_protect_ctx :=
  PState
    (Some (HttpCtx (total_http_requests c)
       (if o_counted o then dropped_requests c +₆₄ 1 else dropped_requests c)
       (agent_blacklist c) (http_last_update c)))
    (set_attacks (bump_opt (o_global o)) g)
    (set_packets (bump_opt (o_local o)) (set_reputation (o_reputation o) s)).

(** The counters a request has gone through before the checks. *)
Definition http_counted (c : http_protect_ctx) : http_protect_ctx :=
  HttpCtx (total_http_requests c +₆₄ 1) (dropped_requests c) (agent_blacklist c) (http_last_update c).
Definition http_clocked (cfg : config) (now : Z) (p : packet) (s : ip_stats) : ip_stats :=
  let rps := http_rps s +₆₄ 1 in
  if (1 <=? now - last_update s) &&
     negb ((http_rps_threshold cfg <? rps) && (method_is "GET" p || method_is "POST" p))
  then set_last_update now (set_http_rps 0 s)
  else set_http_rps rps s.

Lemma lower_reputation_value score n : MAX_u32 0 (score -₃₂ n) = score -₃₂ n.
Proof.
  unfold MAX_u32. pose proof (u32_range (score - n)).
  by destruct (Z.ltb_spec (score -₃₂ n) 0); [lia|].
Qed.

Lemma raise_reputation_value score : 0 <= score < 100 → MIN_u32 100 (score +₃₂ 1) = score + 1.
Proof.
  intros H. unfold MIN_u32. rewrite u32_small by lia. by destruct (Z.ltb_spec 100 (score + 1)); [lia|].
Qed.

Lemma flood_attack_none p :
  negb (bool_decide (flood_attack p = ATTACK_NONE)) = method_is "GET" p || method_is "POST" p.
Proof. unfold flood_attack. by destruct (method_is "GET" p), (method_is "POST" p). Qed.

Lemma content_checks_spec cfg p c g s anomaly :
  0 <= reputation_score s → is_http_header_anomaly p = Ok anomaly →
  content_checks cfg p (PState (Some c) g s) =
    let o := content_decision cfg p (reputation_score s) anomaly in
    Ok (o_verdict o, http_final c g s o).
Proof.
  intros Hs Ha. unfold content_checks, reputation_filter, content_decision, count_attack, count_packet,
    http_count_drop, st_bind, st_lift, get_stats, st_gets, on_stats, st_modify, st_ret, on_ctx.
  rewrite Ha. cbn [p_stats p_ctx p_global].
  destruct anomaly; [by destruct g, s, c|]. destruct (is_slow_post_attack p); [by destruct g, s, c|].
  cbn [p_stats]. destruct (Z.ltb_spec (reputation_score s) 20); [by destruct g, s, c|].
  destruct (Z.ltb_spec (reputation_score s) 100); cbn [p_stats p_ctx p_global];
    rewrite ?raise_reputation_value by lia; by destruct g, s, c.
Qed.

Lemma http_checks_spec cfg p c g s agent anomaly :
  0 <= reputation_score s → agent_refused c p = Ok agent → is_http_header_anomaly p = Ok anomaly →
  http_checks cfg p (PState (Some c) g s) =
    let o :=
      if agent then
        HttpOutcome VERDICT_DROP (Some ATTACK_HTTP_GET_FLOOD) None true (reputation_score s -₃₂ 10)
      else
        content_decision cfg p
          (match http_user_agent (http p) with
           | Some _ => reputation_score s | None => reputation_score s -₃₂ 5 end) anomaly in
    Ok (o_verdict o, http_final c g s o).
Proof.
  intros Hs Hagent Ha. unfold http_checks, agent_refused in *.
  destruct (http_user_agent (http p)) as [ua|].
  - unfold st_bind at 1 2, st_gets, st_lift. cbn [p_ctx]. rewrite Hagent.
    destruct agent; [|by apply content_checks_spec].
    unfold count_packet, http_count_drop, lower_reputation, st_bind, st_lift, get_stats, st_gets,
      on_stats, st_modify, st_ret, on_ctx. cbn [p_stats p_ctx p_global].
    rewrite lower_reputation_value. by destruct g, s, c.
  - injection Hagent as <-. unfold lower_reputation, st_bind, get_stats, st_gets, on_stats, st_modify.
    cbn [p_stats p_ctx p_global]. rewrite lower_reputation_value.
    rewrite (content_checks_spec _ _ _ _ _ anomaly); [by destruct s|apply u32_range|done].
Qed.

(** Within the second of the last update only the counters change before the
    checks. *)
Lemma http_same_second cfg now p c g s :
  is_http (http p) = true → enable_http_protection cfg = true → now <= last_update s →
  http_protect_analyze cfg now p (PState (Some c) g s) =
    http_checks cfg p (PState (Some (http_counted c)) g (set_http_rps (http_rps s +₆₄ 1) s)).
Proof.
  intros Hh He Hnow. unfold http_protect_analyze. rewrite Hh, He. cbn [negb].
  unfold http_count, st_bind at 1 2 3 4, get_stats at 1 2, st_gets at 1 2, on_stats at 1, st_modify at 1,
    on_ctx at 1. cbn [p_stats p_ctx p_global].
  change (last_update (set_http_rps _ s)) with (last_update s).
  by rewrite (proj2 (Z.leb_gt 1 _)) by lia.
Qed.

(** C19: On an HTTP request with protection enabled the module gives the verdict of
    the decision table, counts the request, counts it as dropped and records
    attacks for the address and globally as the table says, and leaves the
    reputation of the table; the rate counter starts again exactly when a
    second has passed and the request is not refused as part of a flood. *)
Theorem http_analyze_decision cfg now p c g s agent anomaly :
  is_http (http p) = true → enable_http_protection cfg = true → 0 <= reputation_score s →
  agent_refused c p = Ok agent → is_http_header_anomaly p = Ok anomaly →
  http_protect_analyze cfg now p (PState (Some c) g s) =
    let o := http_decision cfg now p s agent anomaly in
    Ok (o_verdict o, http_final (http_counted c) g (http_clocked cfg now p s) o).
Proof.
  intros Hh He Hs Hagent Ha. unfold http_protect_analyze. rewrite Hh, He. cbn [negb].
  unfold http_count, st_bind at 1 2 3 4, get_stats at 1 2, st_gets at 1 2, on_stats at 1, st_modify at 1,
    on_ctx at 1. cbn [p_stats p_ctx p_global]. fold (http_counted c).
  change (last_update (set_http_rps _ s)) with (last_update s).
  unfold http_decision, http_clocked. cbv zeta.
  destruct (1 <=? now - last_update s); cbn [andb].
  2: { rewrite (http_checks_spec _ _ _ _ _ agent anomaly) by done. by destruct s. }
  unfold st_bind at 1, get_stats, st_gets. cbn [p_stats]. rewrite flood_attack_none.
  change (http_rps (set_http_rps _ s)) with (http_rps s +₆₄ 1).
  destruct (_ && _); cbn [negb].
  - unfold count_attack, count_packet, http_count_drop, st_bind, on_stats, st_modify, st_ret, on_ctx.
    by destruct g, s, c.
  - unfold st_bind, on_stats, st_modify. cbn [p_stats p_ctx p_global].
    rewrite (http_checks_spec _ _ _ _ _ agent anomaly) by done. by destruct s.
Qed.

(** A request of 35 bytes, followed by a zero byte, with the given user agent. *)
Definition example_request (agent : option string) : packet :=
  let m := bytes_of "GET / HTTP/1.1" ++ [13; 10] ++ bytes_of "Host: a.example" ++ CRLF2 ++ [0] in
  Packet m 36 0 (EthPart None 0) (IpPart None 0 None 36 true false PROTO_TCP ip_zero ip_zero)
    (L4Part 0 0 (Some 0) 35 0 0 0)
    (HttpPart true (Some (bytes_of "GET")) (Some (bytes_of "/")) (bytes_of <$> agent) 0).

Definition example_http_ctx : http_protect_ctx := HttpCtx 0 0 [bytes_of "nmap"] 0.

(** A request without a user agent, whose source is left with score 45 before
    the increment. *)
Lemma http_analyze_decision_witness :
  let p := example_request None in
  let s := new_stats (ip4 10 0 0 1) 5 in
  http_protect_analyze (limits 0 0 0 0 100) 7 p (PState (Some example_http_ctx) zero_global s) =
    Ok (VERDICT_ACCEPT,
        http_final (http_counted example_http_ctx) zero_global
          (http_clocked (limits 0 0 0 0 100) 7 p s) (HttpOutcome VERDICT_ACCEPT None None false 46)).
Proof.
  intros p s. etransitivity;
    [apply (http_analyze_decision (limits 0 0 0 0 100) 7 p example_http_ctx zero_global s false false);
       vm_compute; (reflexivity || discriminate)|].
  vm_compute. reflexivity.
Defined.

(** A source whose reputation is below 10 gets, by the next request with a
    refused user agent, a reputation just below 2^32: the subtraction is
    unsigned and [MAX(0, ...)] has no effect. From then on the reputation
    filter lets its requests pass, while a source with a better reputation,
    10 to 19, has the same request refused. *)
Theorem http_low_reputation_escapes cfg now p1 p2 c g s1 s2 a1 :
  is_http (http p1) = true → is_http (http p2) = true → enable_http_protection cfg = true →
  now <= last_update s1 → now <= last_update s2 →
  0 <= reputation_score s1 < 10 → 10 <= reputation_score s2 < 20 →
  agent_refused c p1 = Ok true → is_http_header_anomaly p1 = Ok a1 →
  agent_refused c p2 = Ok false → is_http_header_anomaly p2 = Ok false →
  is_slow_post_attack p2 = false → http_user_agent (http p2) ≠ None →
  (∃ c' g' s' t, http_protect_analyze cfg now p1 (PState (Some c) g s1) =
      Ok (VERDICT_DROP, PState (Some c') g' s') ∧
    reputation_score s' = 2 ^ 32 - 10 + reputation_score s1 ∧
    http_protect_analyze cfg now p2 (PState (Some c') g' s') = Ok (VERDICT_ACCEPT, t)) ∧
  (∃ v t, http_protect_analyze cfg now p2 (PState (Some c) g s2) = Ok (v, t) ∧ v ≠ VERDICT_ACCEPT).
Proof.
  intros Hh1 Hh2 He Hn1 Hn2 Hs1 Hs2 Hr1 Ha1 Hr2 Ha2 Hslow Hua.
  assert (reputation_score s1 -₃₂ 10 = 2 ^ 32 - 10 + reputation_score s1) as Hwrap by cint.
  split.
  - rewrite http_same_second by done.
    rewrite (http_checks_spec _ _ _ _ _ true a1) by (done || (simpl; lia)).
    eexists _, _, _, _. split; [reflexivity|]. split; [exact Hwrap|].
    rewrite http_same_second by done.
    rewrite (http_checks_spec _ _ _ _ _ false false);
      [|cbn -[u32]; rewrite Hwrap; lia|done..].
    unfold content_decision. rewrite Hslow. destruct (http_user_agent (http p2)); [|done].
    cbn [reputation_score set_http_rps set_packets set_reputation o_reputation]. rewrite Hwrap.
    by rewrite (proj2 (Z.ltb_ge _ 20)) by lia.
  - rewrite http_same_second by done.
    rewrite (http_checks_spec _ _ _ _ _ false false) by (done || (simpl; lia)).
    eexists _, _. split; [reflexivity|].
    unfold content_decision. rewrite Hslow. destruct (http_user_agent (http p2)); [|done].
    cbn [reputation_score set_http_rps]. rewrite (proj2 (Z.ltb_lt _ 20)) by lia.
    cbn [o_verdict]. by destruct (enable_captcha cfg).
Qed.

Lemma http_low_reputation_escapes_witness :
  let s1 := set_reputation 3 (new_stats (ip4 10 0 0 1) 5) in
  let s2 := set_reputation 15 (new_stats (ip4 10 0 0 2) 5) in
  let p1 := example_request (Some "nmap scripting engine"%string) in
  let p2 := example_request (Some "Mozilla/5.0"%string) in
  (∃ c' g' s' t, http_protect_analyze (limits 0 0 0 0 100) 5 p1
      (PState (Some example_http_ctx) zero_global s1) = Ok (VERDICT_DROP, PState (Some c') g' s') ∧
    reputation_score s' = 2 ^ 32 - 10 + 3 ∧
    http_protect_analyze (limits 0 0 0 0 100) 5 p2 (PState (Some c') g' s') = Ok (VERDICT_ACCEPT, t)) ∧
  (∃ v t, http_protect_analyze (limits 0 0 0 0 100) 5 p2
      (PState (Some example_http_ctx) zero_global s2) = Ok (v, t) ∧ v ≠ VERDICT_ACCEPT).
Proof.
  intros s1 s2 p1 p2.
  apply (http_low_reputation_escapes (limits 0 0 0 0 100) 5 p1 p2 example_http_ctx zero_global s1 s2 false);
    vm_compute; try split; (reflexivity || discriminate).
Defined.
