(* ===== verification/Config.v ===== *)
(** * Configuration

    [src/core/config.c]: from a JSON tree to [config_t], validation and reload.
    The JSON library is a parameter: a type of trees with the accessors the
    parser uses. Each field of the record is written with the expression the
    parser assigns to it, in the order of its sections; a section that is absent
    leaves the zero of [calloc]. *)

From S2P Require Import Prelude Common CString Hash ConnHeap HashTable LruCache Packet State TcpProtect.

(** jansson: [json_object_get] gives [NULL] on a missing key and on a value that
    is not an object; the other accessors give [None], [false] on a value of
    another type. *)
Class Jansson := {
  json : Type;
  json_object_get : json → string → option json;
  json_is_true : json → bool;
  json_integer : json → option Z;
  json_string : json → option (list Z)
}.

Definition DEFAULT_UDP_PPS_THRESHOLD : Z := 10000.
Definition DEFAULT_TCP_SYN_PPS_THRESHOLD : Z := 5000.
Definition DEFAULT_ICMP_PPS_THRESHOLD : Z := 1000.
Definition DEFAULT_HTTP_RPS_THRESHOLD : Z := 100.
Definition MAX_WORKERS : Z := 64.

Definition LOG_LEVEL_DEBUG : Z := 0.
Definition LOG_LEVEL_INFO : Z := 1.
Definition LOG_LEVEL_WARN : Z := 2.
Definition LOG_LEVEL_ERROR : Z := 3.

Section parser.
Context {js : Jansson}.
(** [strdup]: a copy, or [NULL] when memory runs out. *)
Variable strdup : list Z → option (list Z).

(** [json_object_get] through a pointer that may be [NULL]. *)
Definition get (o : option json) (key : string) : option json := o ≫= λ j, json_object_get j key.

Definition field_true (section : option json) (key : string) : bool :=
  match get section key with Some j => json_is_true j | None => false end.

(** [json_is_integer(v) ? json_integer_value(v) : def], in a section. *)
Definition field_int (section : option json) (key : string) (def : Z) : Z :=
  match section with
  | None => 0
  | Some _ => default def (get section key ≫= json_integer)
  end.

Definition field_string (section : option json) (key : string) : option (list Z) :=
  (get section key ≫= json_string) ≫= strdup.

Definition level_of (s : list Z) : Z :=
  if strcmp_eq s (bytes_of "debug") then LOG_LEVEL_DEBUG
  else if strcmp_eq s (bytes_of "info") then LOG_LEVEL_INFO
  else if strcmp_eq s (bytes_of "warn") then LOG_LEVEL_WARN
  else if strcmp_eq s (bytes_of "error") then LOG_LEVEL_ERROR
  else LOG_LEVEL_INFO.

Definition field_level (section : option json) (key : string) : Z :=
  match get section key ≫= json_string with Some s => level_of s | None => 0 end.

Definition parse_workers (root : json) : Z :=
  match json_object_get root "workers" ≫= json_integer with Some n => u32 n | None => 4 end.

Definition parse_config_json (calloc_ok : bool) (root : json) : option config :=
  if negb calloc_ok then None
  else
    let network := json_object_get root "network" in
    let thresholds := json_object_get root "thresholds" in
    let ratelimit := json_object_get root "ratelimit" in
    let blacklist_obj := json_object_get root "auto_blacklist" in
    let geoip := json_object_get root "geoip" in
    let xdp := json_object_get root "xdp" in
    let http_protect := json_object_get root "http_protection" in
    let logging := json_object_get root "logging" in
    let api := json_object_get root "api" in
    let dashboard := json_object_get root "dashboard" in
    let security := json_object_get root "security" in
    Some {|
      interface := field_string network "interface";
      promiscuous_mode := field_true network "promiscuous";
      snaplen := i32 (field_int network "snaplen" 65535);
      num_workers := parse_workers root;
      cpu_affinity := field_true (Some root) "cpu_affinity";
      numa_aware := false;
      udp_pps_threshold := u32 (field_int thresholds "udp_pps" DEFAULT_UDP_PPS_THRESHOLD);
      tcp_syn_pps_threshold := u32 (field_int thresholds "tcp_syn_pps" DEFAULT_TCP_SYN_PPS_THRESHOLD);
      tcp_ack_pps_threshold := 0;
      icmp_pps_threshold := u32 (field_int thresholds "icmp_pps" DEFAULT_ICMP_PPS_THRESHOLD);
      http_rps_threshold := u32 (field_int thresholds "http_rps" DEFAULT_HTTP_RPS_THRESHOLD);
      enable_rate_limiting := field_true ratelimit "enabled";
      rate_limit_pps := u32 (field_int ratelimit "pps" 1000);
      rate_limit_bps := u32 (field_int ratelimit "bps" 10000000);
      auto_blacklist := field_true blacklist_obj "enabled";
      blacklist_duration := u32 (field_int blacklist_obj "duration" 3600);
      whitelist_ips := [];
      blacklist_ips := [];
      enable_geoip := field_true geoip "enabled";
      blocked_countries := [];
      geoip_db_path := field_string geoip "database";
      enable_xdp := field_true xdp "enabled";
      xdp_program_path := field_string xdp "program";
      enable_http_protection := field_true http_protect "enabled";
      enable_js_challenge := field_true http_protect "js_challenge";
      enable_captcha := field_true http_protect "captcha";
      user_agent_blacklist := [];
      log_file := field_string logging "file";
      log_level := field_level logging "level";
      syslog_enabled := field_true logging "syslog";
      enable_api := field_true api "enabled";
      api_bind_address := field_string api "bind_address";
      api_port := u16 (field_int api "port" 8080);
      api_auth_token := field_string api "auth_token";
      enable_dashboard := field_true dashboard "enabled";
      dashboard_port := u16 (field_int dashboard "port" 8081);
      enable_chroot := field_true security "chroot";
      chroot_dir := field_string security "chroot_dir";
      drop_user := field_string security "drop_user";
      drop_group := field_string security "drop_group";
      enable_seccomp := field_true security "seccomp"
    |}.

(** [loaded] is the result of [json_load_file]. *)
Definition config_load (calloc_ok : bool) (loaded : option json) : option config :=
  loaded ≫= parse_config_json calloc_ok.

(** Every level the parser answers is one of [log_level_t]. *)
Lemma config_load_level calloc_ok loaded cfg :
  config_load calloc_ok loaded = Some cfg → LOG_LEVEL_DEBUG <= log_level cfg <= LOG_LEVEL_ERROR.
Proof.
  assert (∀ section key, LOG_LEVEL_DEBUG <= field_level section key <= LOG_LEVEL_ERROR) as Hlevel.
  { intros section key. unfold field_level, level_of, LOG_LEVEL_DEBUG, LOG_LEVEL_INFO, LOG_LEVEL_WARN, LOG_LEVEL_ERROR.
    repeat case_match; lia. }
  destruct loaded as [root|]; [|done]. cbn [config_load mbind option_bind]. unfold parse_config_json.
  destruct (negb calloc_ok); [done|]. intros H. apply (inj Some) in H as <-. apply Hlevel.
Qed.

(** ** The object

    [config_t] with its lock. *)
Inductive rwlock := Unlocked | WriteLocked.
Record config_obj := ConfigObj { co_config : config; co_lock : rwlock }.

(** One thread takes and releases it; [LockNotHeld], [LockInUse]: releasing a lock
    that is not held, and destroying one that is, are undefined. *)
Definition rwlock_wrlock (l : rwlock) : res rwlock :=
  match l with Unlocked => Ok WriteLocked | WriteLocked => Undef SelfDeadlock end.
Definition rwlock_unlock (l : rwlock) : res rwlock :=
  match l with WriteLocked => Ok Unlocked | Unlocked => Undef LockNotHeld end.
Definition rwlock_destroy (l : rwlock) : res unit :=
  match l with Unlocked => Ok () | WriteLocked => Undef LockInUse end.

(** The strings that are freed, in order. *)
Definition config_free (c : config_obj) : res (list (list Z)) :=
  let cfg := co_config c in
  let strings := omap id [interface cfg; log_file cfg; geoip_db_path cfg; xdp_program_path cfg;
                          api_bind_address cfg; api_auth_token cfg; chroot_dir cfg; drop_user cfg;
                          drop_group cfg] in
  let* _ := rwlock_destroy (co_lock c) in
  Ok strings.

(** The two structs are exchanged as a whole, locks included. *)
Definition config_reload (calloc_ok : bool) (c : config_obj) (loaded : option json) : res (Z * config_obj) :=
  match config_load calloc_ok loaded with
  | None => Ok (-1, c)
  | Some cfg =>
      let new_config := ConfigObj cfg Unlocked in
      let* l := rwlock_wrlock (co_lock c) in
      let temp := ConfigObj (co_config c) l in
      let c := new_config in
      let new_config := temp in
      let* l := rwlock_unlock (co_lock c) in
      let c := ConfigObj (co_config c) l in
      let* _ := config_free new_config in
      Ok (0, c)
  end.

(** Reloading never succeeds: once the file has been loaded, the lock that is
    released is the new struct's, which nobody holds. *)
Lemma config_reload_releases_other_lock calloc_ok cfg loaded :
  config_reload calloc_ok (ConfigObj cfg Unlocked) loaded =
    match config_load calloc_ok loaded with
    | None => Ok (-1, ConfigObj cfg Unlocked)
    | Some _ => Undef LockNotHeld
    end.
Proof. unfold config_reload. by destruct (config_load _ _). Qed.
End parser.

Definition config_validate (cfg : config) : Z :=
  match interface cfg with
  | None => -1
  | Some _ => if (num_workers cfg =? 0) || (MAX_WORKERS <? num_workers cfg) then -1 else 0
  end.

(** ** Writing a configuration

    A reference for the parser: the tree in which a configuration would be
    written, with the library's constructors. *)

Class JanssonPack {js : Jansson} := {
  json_object : list (string * json) → json;
  json_boolean : bool → json;
  json_of_int : Z → json;
  json_of_string : list Z → json
}.
Arguments JanssonPack _ : clear implicits.

(** The value of a key in a list of members. *)
Definition member {A} (k : string) (l : list (string * A)) : option A :=
  snd <$> find_first (λ kv, String.eqb kv.1 k) l.

(** The strings that [json_string] takes: UTF-8 without a zero byte, overlong forms,
    surrogates and code points above 0x10FFFF excluded. *)
Definition within (lo hi b : Z) : bool := (lo <=? b) && (b <=? hi).
Fixpoint utf8_ok (s : list Z) : bool :=
  match s with
  | [] => true
  | b :: r =>
      if within 0x01 0x7F b then utf8_ok r
      else
        match r with
        | [] => false
        | c1 :: r1 =>
            if within 0xC2 0xDF b then within 0x80 0xBF c1 && utf8_ok r1
            else
              match r1 with
              | [] => false
              | c2 :: r2 =>
                  if within 0xE0 0xEF b then
                    within (if b =? 0xE0 then 0xA0 else 0x80) (if b =? 0xED then 0x9F else 0xBF) c1 &&
                    within 0x80 0xBF c2 && utf8_ok r2
                  else
                    match r2 with
                    | [] => false
                    | c3 :: r3 =>
                        within 0xF0 0xF4 b &&
                        within (if b =? 0xF0 then 0x90 else 0x80) (if b =? 0xF4 then 0x8F else 0xBF) c1 &&
                        within 0x80 0xBF c2 && within 0x80 0xBF c3 && utf8_ok r3
                    end
              end
        end
  end.

(** What is promised of [json_of_string] is for such strings; of others the library
    makes no value. *)
Class JanssonLaws (js : Jansson) (pack : JanssonPack js) : Prop := {
  get_object l k : NoDup l.*1 → json_object_get (json_object l) k = member k l;
  is_true_boolean b : json_is_true (json_boolean b) = b;
  integer_of_int n : - 2 ^ 63 <= n < 2 ^ 63 → json_integer (json_of_int n) = Some n;
  string_of_string s : utf8_ok s = true → json_string (json_of_string s) = Some s
}.

Section roundtrip.
Context {js : Jansson} {pack : JanssonPack js} {laws : JanssonLaws js pack}.

(** An object without the members that have no value. *)
Definition present (l : list (string * option json)) : list (string * json) :=
  omap (λ kv, pair kv.1 <$> kv.2) l.
Definition obj (l : list (string * option json)) : json := json_object (present l).

Definition boolean (b : bool) : option json := Some (json_boolean b).
Definition int (n : Z) : option json := Some (json_of_int n).
Definition text (s : option (list Z)) : option json := json_of_string <$> s.

Definition level_name (level : Z) : list Z :=
  if level =? LOG_LEVEL_DEBUG then bytes_of "debug"
  else if level =? LOG_LEVEL_INFO then bytes_of "info"
  else if level =? LOG_LEVEL_WARN then bytes_of "warn"
  else bytes_of "error".

Definition encode (c : config) : json :=
  obj [
    ("network", Some (obj [("interface", text (interface c));
       ("promiscuous", boolean (promiscuous_mode c)); ("snaplen", int (snaplen c))]));
    ("workers", int (num_workers c));
    ("cpu_affinity", boolean (cpu_affinity c));
    ("thresholds", Some (obj [("udp_pps", int (udp_pps_threshold c));
       ("tcp_syn_pps", int (tcp_syn_pps_threshold c)); ("icmp_pps", int (icmp_pps_threshold c));
       ("http_rps", int (http_rps_threshold c))]));
    ("ratelimit", Some (obj [("enabled", boolean (enable_rate_limiting c));
       ("pps", int (rate_limit_pps c)); ("bps", int (rate_limit_bps c))]));
    ("auto_blacklist", Some (obj [("enabled", boolean (auto_blacklist c));
       ("duration", int (blacklist_duration c))]));
    ("geoip", Some (obj [("enabled", boolean (enable_geoip c)); ("database", text (geoip_db_path c))]));
    ("xdp", Some (obj [("enabled", boolean (enable_xdp c)); ("program", text (xdp_program_path c))]));
    ("http_protection", Some (obj [("enabled", boolean (enable_http_protection c));
       ("js_challenge", boolean (enable_js_challenge c)); ("captcha", boolean (enable_captcha c))]));
    ("logging", Some (obj [("file", text (log_file c)); ("level", text (Some (level_name (log_level c))));
       ("syslog", boolean (syslog_enabled c))]));
    ("api", Some (obj [("enabled", boolean (enable_api c)); ("bind_address", text (api_bind_address c));
       ("port", int (api_port c)); ("auth_token", text (api_auth_token c))]));
    ("dashboard", Some (obj [("enabled", boolean (enable_dashboard c)); ("port", int (dashboard_port c))]));
    ("security", Some (obj [("chroot", boolean (enable_chroot c)); ("chroot_dir", text (chroot_dir c));
       ("drop_user", text (drop_user c)); ("drop_group", text (drop_group c));
       ("seccomp", boolean (enable_seccomp c))]))
  ]%string.

Definition strings_of (c : config) : list (option (list Z)) :=
  [interface c; geoip_db_path c; xdp_program_path c; log_file c; api_bind_address c; api_auth_token c;
   chroot_dir c; drop_user c; drop_group c].

(** The fields the parser sets, within their types, with a level the parser has a
    word for; the others as [calloc] leaves them. *)
Record representable (c : config) : Prop := {
  rep_snaplen : - 2 ^ 31 <= snaplen c < 2 ^ 31;
  rep_workers : 0 <= num_workers c < 2 ^ 32;
  rep_udp : 0 <= udp_pps_threshold c < 2 ^ 32;
  rep_syn : 0 <= tcp_syn_pps_threshold c < 2 ^ 32;
  rep_icmp : 0 <= icmp_pps_threshold c < 2 ^ 32;
  rep_http : 0 <= http_rps_threshold c < 2 ^ 32;
  rep_pps : 0 <= rate_limit_pps c < 2 ^ 32;
  rep_bps : 0 <= rate_limit_bps c < 2 ^ 32;
  rep_duration : 0 <= blacklist_duration c < 2 ^ 32;
  rep_api : 0 <= api_port c < 2 ^ 16;
  rep_dashboard : 0 <= dashboard_port c < 2 ^ 16;
  rep_level : LOG_LEVEL_DEBUG <= log_level c <= LOG_LEVEL_ERROR;
  rep_strings : Forall (λ o, from_option utf8_ok true o = true) (strings_of c);
  rep_unread : numa_aware c = false ∧ tcp_ack_pps_threshold c = 0 ∧ whitelist_ips c = [] ∧
    blacklist_ips c = [] ∧ blocked_countries c = [] ∧ user_agent_blacklist c = []
}.

Lemma present_keys l : (present l).*1 `sublist_of` l.*1.
Proof.
  induction l as [|[k [v|]] l IH]; [done| |]; cbn; by constructor.
Qed.

Lemma member_present l k :
  NoDup l.*1 → member k (present l) = member k l ≫= id.
Proof.
  induction l as [|[k' v] l IH]; intros Hnd; [done|].
  cbn [fmap list_fmap fst] in Hnd. apply NoDup_cons in Hnd as [Hk' Hnd].
  unfold member, present in *. cbn [omap list_omap find_first fst snd fmap option_fmap option_map] in *.
  destruct v as [v|];
    [change (pair k' <$> Some v) with (Some (k', v))|change (pair k' <$> None) with (@None (string * json))];
    cbn [find_first fst].
  - destruct (String.eqb k' k) eqn:E; [done|]. by apply IH.
  - rewrite IH by done. destruct (String.eqb k' k) eqn:E; [|done].
    apply String.eqb_eq in E as <-. cbn.
    destruct (find_first _ l) as [[k2 v2]|] eqn:Hf; [|done].
    apply find_first_Some in Hf as [Hin Hk2]. cbn in Hk2. apply String.eqb_eq in Hk2 as ->.
    destruct Hk'. apply list_elem_of_fmap. by exists (k', v2).
Qed.

Lemma get_obj l k : NoDup l.*1 → json_object_get (obj l) k = member k l ≫= id.
Proof.
  intros Hnd. unfold obj. rewrite get_object; [by apply member_present|].
  eapply sublist_NoDup; [exact Hnd|apply present_keys].
Qed.

(** Reading a member of an object with distinct keys. *)
Lemma get_member l k v : NoDup l.*1 → member k l = Some v → get (Some (obj l)) k = v.
Proof. intros Hnd Hm. unfold get. cbn [mbind option_bind]. by rewrite get_obj, Hm. Qed.

Lemma true_member l k b : NoDup l.*1 → member k l = Some (boolean b) → field_true (Some (obj l)) k = b.
Proof.
  intros Hnd Hm. unfold field_true. rewrite (get_member _ _ _ Hnd Hm). apply is_true_boolean.
Qed.

Lemma int_member l k n d :
  NoDup l.*1 → member k l = Some (int n) → - 2 ^ 63 <= n < 2 ^ 63 → field_int (Some (obj l)) k d = n.
Proof.
  intros Hnd Hm Hn. unfold field_int. rewrite (get_member _ _ _ Hnd Hm). cbn [int mbind option_bind].
  by rewrite integer_of_int.
Qed.

Lemma string_member strdup l k v :
  (∀ s, strdup s = Some s) → NoDup l.*1 → member k l = Some (text v) → from_option utf8_ok true v = true →
  field_string strdup (Some (obj l)) k = v.
Proof.
  intros Hdup Hnd Hm Hv. unfold field_string. rewrite (get_member _ _ _ Hnd Hm). unfold text.
  destruct v as [v|]; [|done]. cbn. rewrite string_of_string by done. cbn. apply Hdup.
Qed.

Lemma level_member l k level :
  NoDup l.*1 → member k l = Some (text (Some (level_name level))) →
  LOG_LEVEL_DEBUG <= level <= LOG_LEVEL_ERROR →
  field_level (Some (obj l)) k = level.
Proof.
  intros Hnd Hm Hl. unfold field_level. rewrite (get_member _ _ _ Hnd Hm). cbn [text fmap option_fmap
    option_map mbind option_bind]. unfold LOG_LEVEL_DEBUG, LOG_LEVEL_ERROR in Hl.
  assert (level = 0 ∨ level = 1 ∨ level = 2 ∨ level = 3) as [->|[->|[->| ->]]] by lia;
    by rewrite string_of_string.
Qed.

Ltac distinct_keys := apply (bool_decide_unpack _); vm_compute; exact I.

(** C34: A configuration whose numbers fit their fields and whose strings are valid
    UTF-8, written as a JSON tree, is parsed back field by field. The fields the
    parser never reads have to be zero for this: the ACK threshold, NUMA awareness,
    the address lists, the blocked countries and the user-agent blacklist; and the
    log level one of the four the parser has a word for: it has none for the fifth,
    critical. *)
Theorem config_roundtrip strdup cfg :
  (∀ s, strdup s = Some s) → representable cfg →
  parse_config_json strdup true (encode cfg) = Some cfg.
Proof.
  intros Hdup [].
  destruct rep_unread0 as (Hnuma & Hack & Hwl & Hbl & Hbc & Hua).
  unfold strings_of in rep_strings0. rewrite !Forall_cons in rep_strings0.
  destruct rep_strings0 as (? & ? & ? & ? & ? & ? & ? & ? & ? & _).
  assert (∀ n, 0 <= n < 2 ^ 32 → - 2 ^ 63 <= n < 2 ^ 63) as H32 by (intros n Hn; cint).
  assert (∀ n, 0 <= n < 2 ^ 16 → - 2 ^ 63 <= n < 2 ^ 63) as H16 by (intros n Hn; cint).
  assert (- 2 ^ 63 <= snaplen cfg < 2 ^ 63) as H31 by cint.
  unfold parse_config_json, parse_workers, encode. cbv zeta. cbn [negb].
  rewrite !get_obj by distinct_keys. cbn -[obj text boolean int u32 u16 i32 field_int field_true
    field_string field_level DEFAULT_UDP_PPS_THRESHOLD].
  change (int (num_workers cfg) ≫= json_integer) with (json_integer (json_of_int (num_workers cfg))).
  rewrite integer_of_int by auto. f_equal. destruct cfg.
  cbn -[obj text boolean int u32 u16 i32 field_int field_true field_string field_level Z.pow] in *.
  subst. f_equal;
    try (apply string_member; [done|distinct_keys|reflexivity|done]);
    try (apply true_member; [distinct_keys|reflexivity]);
    try (erewrite int_member; [by apply u32_small|distinct_keys|reflexivity|by apply H32]);
    try (erewrite int_member; [by apply u16_small|distinct_keys|reflexivity|by apply H16]).
  - erewrite int_member; [|distinct_keys|reflexivity|done]. cint.
  - by apply u32_small.
  - by apply level_member; [distinct_keys|reflexivity|].
Qed.
End roundtrip.

(** ** The ACK threshold *)

(** Whatever the configuration file says, a loaded configuration has an ACK
    threshold of 0; so a plain ACK, with or without PSH, that is the first packet
    of its source in a new second is dropped and recorded as an ACK flood. *)
Theorem loaded_config_drops_acks {js : Jansson} strdup root cfg now l p h c ls m ctx g s :
  config_load strdup true (Some root) = Some cfg →
  lru_ok (rep := ht_ok) h c ls m → h !! l = None → lc_current_size c < lc_max_size c →
  pkt_protocol (ip p) = PROTO_TCP →
  tcp_flags (l4 p) = TCP_FLAG_ACK ∨ tcp_flags (l4 p) = Z.lor TCP_FLAG_ACK TCP_FLAG_PSH →
  1 <= now - last_update s → 0 <= tcp_ack_pps s < 2 ^ 64 - 1 →
  ∃ t, tcp_protect_analyze cfg now (Some l) p (TState h c (PState (Some ctx) g s)) = Ok (VERDICT_DROP, t) ∧
    p_global (t_p t) = set_attacks (bump ATTACK_TCP_ACK_FLOOD) g.
Proof.
  intros Hload Hok Hl Hroom Hp Hflags Hnow Hpps. eapply tcp_ack_limit_zero; try done.
  apply (inj Some) in Hload as <-. done.
Qed.

(** ** A JSON library for the examples *)

Inductive tree :=
  | TObject (l : list (string * tree))
  | TBool (b : bool)
  | TInt (n : Z)
  | TString (s : list Z).

#[local] Instance tree_jansson : Jansson := {|
  json := tree;
  json_object_get j k := match j with TObject l => member k l | _ => None end;
  json_is_true j := match j with TBool b => b | _ => false end;
  json_integer j := match j with TInt n => Some n | _ => None end;
  json_string j := match j with TString s => Some s | _ => None end
|}.
#[local] Instance tree_pack : JanssonPack tree_jansson := {|
  json_object := TObject; json_boolean := TBool; json_of_int := TInt; json_of_string := TString
|}.
#[local] Instance tree_laws : JanssonLaws tree_jansson tree_pack.
Proof. by split. Qed.

Definition example_config : config :=
  Config (Some (bytes_of "eth0")) true 65535 4 true false 10000 5000 0 1000 100 true 1000 10000000
    true 3600 [] [] false [] (Some (bytes_of "GeoLite2-Country.mmdb")) false None true false false []
    (Some (bytes_of "ddos-protect.log")) 1 true true (Some (bytes_of "127.0.0.1")) 8080 None
    true 8081 false None (Some (bytes_of "nobody")) (Some (bytes_of "nogroup")) false.

Lemma config_roundtrip_witness :
  parse_config_json Some true (encode (js := tree_jansson) example_config) = Some example_config.
Proof.
  apply (config_roundtrip (js := tree_jansson) Some example_config); [done|].
  split; [cbn; unfold LOG_LEVEL_DEBUG, LOG_LEVEL_ERROR; lia..| |done].
  apply (bool_decide_unpack _). vm_compute. exact I.
Defined.

(** The thresholds of [config/default.conf], its [tcp_ack_pps] of 8000 included. *)
Lemma loaded_config_drops_acks_witness :
  let root := TObject [("thresholds", TObject [("udp_pps", TInt 10000); ("tcp_ack_pps", TInt 8000)])]%string in
  ∃ cfg t, config_load (js := tree_jansson) Some true (Some root) = Some cfg ∧ udp_pps_threshold cfg = 10000 ∧
    tcp_protect_analyze cfg 10 (Some 1%positive)
      (tcp_example_packet (ip4 10 0 0 1) (ip4 10 0 0 2) 5000 80 TCP_FLAG_ACK)
      (TState ∅ tcp_example_cache (PState (Some (TcpCtx 0 0 0 0 0 0 0))
         zero_global (tcp_example_stats 9))) =
    Ok (VERDICT_DROP, t).
Proof.
  intros root. eexists.
  destruct (loaded_config_drops_acks (js := tree_jansson) Some root _ 10 1%positive
    (tcp_example_packet (ip4 10 0 0 1) (ip4 10 0 0 2) 5000 80 TCP_FLAG_ACK) ∅ tcp_example_cache [] ∅
    (TcpCtx 0 0 0 0 0 0 0) zero_global (tcp_example_stats 9)
    eq_refl tcp_example_cache_ok) as (t & Ht & _);
    [reflexivity|reflexivity|reflexivity|by left|simpl; lia|simpl; lia|].
  exists t. split; [reflexivity|]. split; [reflexivity|exact Ht].
Defined.
