(* ===== verification/Geoip.v ===== *)
(** * Country lookup

    [src/geoip/geoip.c]: a handle that holds the path of a database, and look-ups
    that do not open it. A pointer argument that the code tests is an option; a
    buffer is the list of its bytes. *)

From S2P Require Import Prelude Common CString State Config.

(** [strdup] of the path may have failed. *)
Record geoip_db := GeoipDb { db_path : option (list Z) }.

Definition geoip_init (calloc_ok : bool) (strdup : list Z → option (list Z)) (path : option (list Z))
    : option geoip_db :=
  match path with
  | None => None
  | Some p => if calloc_ok then Some (GeoipDb (strdup p)) else None
  end.

(** Nothing but the handle is released. *)
Definition geoip_cleanup (db : option geoip_db) : option geoip_db := None.

(** [strncpy(dst, src, n)] into an object of [length dst] bytes. *)
Definition strncpy (dst src : list Z) (n : nat) : res (list Z) :=
  if (length dst <? n)%nat then Undef OutOfBounds
  else Ok (take n (src ++ replicate n 0) ++ drop n dst).

Definition geoip_lookup_country (db : option geoip_db) (ip : option ip_addr)
    (country_code : option (list Z)) (len : nat) : res (Z * option (list Z)) :=
  match db, ip, country_code with
  | Some _, Some _, Some buf =>
      if (len <? 3)%nat then Ok (-1, country_code)
      else let* buf := strncpy buf (bytes_of "XX") len in Ok (0, Some buf)
  | _, _, _ => Ok (-1, country_code)
  end.

Definition geoip_lookup_asn (db : option geoip_db) (ip : option ip_addr) : Z := 0.

(** [strcmp(a, b) == 0] for two buffers. *)
Fixpoint strcmp_mem (a b : list Z) : res bool :=
  match a, b with
  | x :: a', y :: b' => if x =? y then if x =? 0 then Ok true else strcmp_mem a' b' else Ok false
  | _, _ => Undef OutOfBounds
  end.

Fixpoint country_listed (country_code : list Z) (countries : list (list Z)) (count : nat) : res bool :=
  match count with
  | O => Ok false
  | S count' =>
      match countries with
      | [] => Undef OutOfBounds
      | c :: countries' =>
          let* hit := strcmp_mem country_code c in
          if hit then Ok true else country_listed country_code countries' count'
      end
  end.

(** The list is the array [blocked_countries] of terminated strings. *)
Definition geoip_is_blocked_country (db : option geoip_db) (ip : option ip_addr)
    (blocked_countries : option (list (list Z))) (count : nat) : res bool :=
  match db, ip, blocked_countries with
  | Some _, Some _, Some countries =>
      if (count =? 0)%nat then Ok false
      else
        let* (rc, code) := geoip_lookup_country db ip (Some [0; 0; 0]) 3 in
        if negb (rc =? 0) then Ok false
        else match code with
             | Some code => country_listed code countries count
             | None => Undef NullDeref
             end
  | _, _, _ => Ok false
  end.

(** ** What it decides *)

(** A code as the array holds it. *)
Definition terminated (s : list Z) : list Z := s ++ [0].

Lemma strcmp_mem_cstr a b :
  0 ∉ a → 0 ∉ b → strcmp_mem (terminated a) (terminated b) = Ok (bool_decide (a = b)).
Proof.
  unfold terminated. revert b. induction a as [|x a IH]; intros [|y b] Ha Hb; cbn [app strcmp_mem].
  - done.
  - apply not_elem_of_cons in Hb as [Hy _]. by rewrite (proj2 (Z.eqb_neq 0 y)).
  - apply not_elem_of_cons in Ha as [Hx _]. rewrite (proj2 (Z.eqb_neq x 0)) by done. done.
  - apply not_elem_of_cons in Ha as [Hx Ha], Hb as [Hy Hb].
    destruct (Z.eqb_spec x y) as [->|Hne].
    + rewrite (proj2 (Z.eqb_neq y 0)), IH by done. f_equal. apply bool_decide_ext. naive_solver.
    + by rewrite bool_decide_eq_false_2 by congruence.
Qed.

Lemma country_listed_spec code countries count :
  0 ∉ code → Forall (λ c, 0 ∉ c) countries → (count <= length countries)%nat →
  country_listed (terminated code) (terminated <$> countries) count =
    Ok (bool_decide (code ∈ take count countries)).
Proof.
  intros Hcode Hc. revert count. induction Hc as [|c countries Hc0 Hc IH]; intros [|count] Hn;
    cbn [length] in Hn; try lia; cbn [fmap list_fmap country_listed take]; try done.
  rewrite strcmp_mem_cstr by done. cbn [rbind]. case_bool_decide as Hd.
  - by rewrite bool_decide_eq_true_2 by (rewrite Hd; left).
  - rewrite IH by lia. f_equal. apply bool_decide_ext. rewrite elem_of_cons. naive_solver.
Qed.

(** Whether an address is in a blocked country does not depend on the
    address: every address is when the list has the placeholder code, and none is
    otherwise. A configuration that has been loaded blocks no country at all,
    whatever its file says. *)
Theorem geoip_blocks_placeholder {js : Jansson} db ip countries strdup root cfg :
  Forall (λ c, 0 ∉ c) countries →
  geoip_is_blocked_country (Some db) (Some ip) (Some (terminated <$> countries)) (length countries) =
    Ok (bool_decide (bytes_of "XX" ∈ countries)) ∧
  (config_load strdup true root = Some cfg →
   geoip_is_blocked_country (Some db) (Some ip) (Some (terminated <$> blocked_countries cfg))
     (length (blocked_countries cfg)) = Ok false).
Proof.
  intros Hc. split.
  - unfold geoip_is_blocked_country. destruct (Nat.eqb_spec (length countries) 0) as [Hl|Hl].
    { apply nil_length_inv in Hl as ->. done. }
    change (let* (rc, code) := geoip_lookup_country (Some db) (Some ip) (Some [0; 0; 0]) 3 in
            if negb (rc =? 0) then Ok false
            else match code with
                 | Some code => country_listed code (terminated <$> countries) (length countries)
                 | None => Undef NullDeref
                 end)
      with (country_listed (terminated (bytes_of "XX")) (terminated <$> countries) (length countries)).
    rewrite country_listed_spec; [|by apply (bool_decide_unpack _)|done|done]. by rewrite take_ge.
  - unfold config_load. destruct root as [r|]; [|done]. cbn. intros [= <-]. done.
Qed.

Lemma geoip_blocks_placeholder_witness :
  let db := GeoipDb (Some (bytes_of "/usr/share/GeoIP/GeoLite2-Country.mmdb")) in
  geoip_is_blocked_country (Some db) (Some (ip4 10 1 2 3))
    (Some (terminated <$> [bytes_of "CN"; bytes_of "RU"])) 2 = Ok false ∧
  ∃ cfg, config_load (js := tree_jansson) Some true (Some (TObject [])) = Some cfg ∧
    geoip_is_blocked_country (Some db) (Some (ip4 10 1 2 3)) (Some (terminated <$> blocked_countries cfg))
      (length (blocked_countries cfg)) = Ok false.
Proof.
  intros db.
  assert (∃ cfg, config_load (js := tree_jansson) Some true (Some (TObject [])) = Some cfg) as [cfg Hcfg] by by eexists.
  destruct (geoip_blocks_placeholder (js := tree_jansson) db (ip4 10 1 2 3) [bytes_of "CN"; bytes_of "RU"] Some
    (Some (TObject [])) cfg) as [H1 H2]; [by apply (bool_decide_unpack _)|].
  split; [exact H1|]. exists cfg. split; [exact Hcfg|]. by apply H2.
Defined.
