(* ===== verification/Services.v ===== *)
(** * The management servers

    [src/api/rest_server.c] and [src/api/websocket.c]: two servers of the same
    shape, a flag and a thread that runs while it is set. A call of
    [pthread_join] ends the caller's step; the callers of [Main] go on when the
    thread has returned. The first part is the interface the two share, with what
    follows from it; the dashboard's messages come last. The servers' log messages
    other than broadcasts are in [ProcessLog] and [Main]. *)

From S2P Require Import Prelude Common CString Inet State Config.

(** ** Threads *)

(** Where a thread is in its function: a first message, [while (condition)
    { sleep(n); work }], and a last message. *)
Inductive thread := NotCreated | Created | AtTest | Asleep | Returned.

#[global] Instance thread_eq_dec : EqDecision thread.
Proof. solve_decision. Defined.

(** One step, for the value of the condition. *)
Definition thread_step (cond : bool) (t : thread) : thread :=
  match t with
  | Created => AtTest
  | AtTest => if cond then Asleep else Returned
  | Asleep => AtTest
  | NotCreated | Returned => t
  end.

(** The steps a thread still takes once its condition is false. *)
Definition thread_rank (t : thread) : nat :=
  match t with Created | Asleep => 2 | AtTest => 1 | NotCreated | Returned => 0 end.

Definition alive (t : thread) : bool := match t with Created | AtTest | Asleep => true | _ => false end.

Lemma thread_rank_step t : alive t = true → thread_rank (thread_step false t) = pred (thread_rank t).
Proof. by destruct t. Qed.

Lemma thread_rank_zero t : t ≠ NotCreated → thread_rank t = 0%nat → t = Returned.
Proof. by destruct t. Qed.

(** ** The interface of a server *)

Class Service (T : Type) := {
  sv_running : T → bool;
  sv_thread : T → thread;
  sv_start : bool → T → Z * T;     (* the outcome of pthread_create *)
  sv_request_stop : T → T;         (* the part of stop before pthread_join *)
  sv_step : T → T                  (* the thread *)
}.

Class ServiceLaws (T : Type) `{Service T} : Prop := {
  start_running ok s : sv_running s = true → sv_start ok s = (-1, s);
  start_idle s : sv_running s = false →
    (sv_start true s).1 = 0 ∧ sv_running (sv_start true s).2 = true ∧ sv_thread (sv_start true s).2 = Created;
  start_failed s : sv_running s = false → sv_start false s = (-1, s);
  stop_running s : sv_running (sv_request_stop s) = false;
  stop_thread s : sv_thread (sv_request_stop s) = sv_thread s;
  step_running s : sv_running (sv_step s) = sv_running s;
  step_thread s : sv_thread (sv_step s) = thread_step (sv_running s) (sv_thread s)
}.

Section service.
Context {T : Type} `{ServiceLaws T}.

(** The thread runs [n] steps. *)
Fixpoint steps (n : nat) (s : T) : T :=
  match n with O => s | S n' => sv_step (steps n' s) end.

(** [stop] as its caller sees it: nothing on a server that is not running, else
    the request, and the return of the thread. *)
Definition sv_stop (fuel : nat) (s : T) : res T :=
  if negb (sv_running s) then Ok s
  else
    let s := steps fuel (sv_request_stop s) in
    if decide (sv_thread s = Returned) then Ok s else Diverges.

(** What can happen to a server. *)
Inductive service_step : T → T → Prop :=
  | step_start ok s : service_step s (sv_start ok s).2
  | step_thread_runs s : service_step s (sv_step s)
  | step_stop fuel s s' : sv_stop fuel s = Ok s' → service_step s s'.

(** The flag is set exactly while the thread is there to see it. *)
Definition service_ok (s : T) : Prop := sv_running s = alive (sv_thread s).

Lemma step_ok s : service_ok s → service_ok (sv_step s).
Proof.
  unfold service_ok. rewrite step_running, step_thread. intros ->. by destruct (sv_thread s).
Qed.

Lemma start_ok ok s : service_ok s → service_ok (sv_start ok s).2.
Proof.
  unfold service_ok. intros Hok. destruct (sv_running s) eqn:Hr.
  { rewrite start_running by done. cbn [snd]. by rewrite Hr. }
  destruct ok; [|rewrite start_failed by done; cbn [snd]; by rewrite Hr].
  destruct (start_idle s Hr) as (_ & -> & ->). done.
Qed.

Lemma steps_running n s : sv_running (steps n s) = sv_running s.
Proof. induction n as [|n IH]; [done|]. cbn [steps]. by rewrite step_running. Qed.

Lemma steps_add n m s : steps (n + m) s = steps n (steps m s).
Proof. induction n as [|n IH]; [done|]. cbn [steps Nat.add]. by rewrite IH. Qed.

Lemma stop_returns s :
  service_ok s → sv_running s = true → sv_thread (steps 2 (sv_request_stop s)) = Returned.
Proof.
  unfold service_ok. intros Hok Hr. cbn [steps].
  rewrite !step_thread, !step_running, stop_running, stop_thread.
  rewrite Hr in Hok. by destruct (sv_thread s).
Qed.

Lemma steps_returned n s : sv_thread s = Returned → sv_thread (steps n s) = Returned.
Proof.
  intros Hs. induction n as [|n IH]; [done|]. cbn [steps].
  by rewrite step_thread, IH.
Qed.

Lemma stop_ok fuel s s' : service_ok s → sv_stop fuel s = Ok s' → service_ok s'.
Proof.
  unfold sv_stop. intros Hok. destruct (sv_running s) eqn:Hr; cbn [negb]; [|by intros [= <-]].
  case_decide as Ht; [|done]. intros [= <-]. unfold service_ok.
  by rewrite steps_running, stop_running, Ht.
Qed.

(** What a lifecycle of starts, stops and thread steps keeps, and that stopping
    returns: two steps of the thread are enough, after which the server can be
    started again. *)
Lemma service_lifecycle s0 s :
  service_ok s0 → rtc service_step s0 s →
  service_ok s ∧
  (∀ fuel, (2 <= fuel)%nat → ∃ s', sv_stop fuel s = Ok s' ∧ sv_running s' = false ∧ alive (sv_thread s') = false).
Proof.
  intros Hinit Hr. assert (service_ok s) as Hok.
  { induction Hr as [|s1 s2 s3 Hs _ IH]; [done|]. apply IH. destruct Hs as [ok s|s|fuel s s' Hs].
    - by apply start_ok.
    - by apply step_ok.
    - by eapply stop_ok. }
  split; [done|]. intros fuel Hf. unfold sv_stop. unfold service_ok in Hok.
  destruct (sv_running s) eqn:Hrun; cbn [negb].
  - assert (sv_thread (steps fuel (sv_request_stop s)) = Returned) as Ht.
    { replace fuel with (fuel - 2 + 2)%nat by lia. rewrite steps_add.
      apply steps_returned. apply stop_returns; [|done]. unfold service_ok. by rewrite Hrun. }
    rewrite decide_True by done. eexists. split; [done|]. by rewrite steps_running, stop_running, Ht.
  - exists s. split; [done|]. by rewrite <- Hok.
Qed.
End service.

(** ** The REST server *)

Record api_server := ApiServer {
  as_bind_addr : option (list Z);   (* strdup may have failed *)
  as_port : Z;
  as_auth_token : option (list Z);
  as_running : bool;
  as_thread : thread
}.

Definition api_with (running : bool) (t : thread) (s : api_server) : api_server :=
  ApiServer (as_bind_addr s) (as_port s) (as_auth_token s) running t.

Definition api_server_init (calloc_ok : bool) (strdup : list Z → option (list Z))
    (bind_addr : option (list Z)) (port : Z) (auth_token : option (list Z)) : option api_server :=
  if calloc_ok then
    Some (ApiServer (strdup (default (bytes_of "0.0.0.0") bind_addr)) port (auth_token ≫= strdup)
            false NotCreated)
  else None.

(** [created]: [pthread_create] returns 0. *)
Definition api_server_start (created : bool) (s : api_server) : Z * api_server :=
  if as_running s then (-1, s)
  else
    let s := api_with true (as_thread s) s in
    if negb created then (-1, api_with false (as_thread s) s)
    else (0, api_with (as_running s) Created s).

Definition api_server_thread (s : api_server) : api_server :=
  api_with (as_running s) (thread_step (as_running s) (as_thread s)) s.

#[export] Instance api_service : Service api_server := {|
  sv_running := as_running;
  sv_thread := as_thread;
  sv_start := api_server_start;
  sv_request_stop s := api_with false (as_thread s) s;
  sv_step := api_server_thread
|}.

#[export] Instance api_service_laws : ServiceLaws api_server.
Proof.
  split; intros; cbn in *; unfold api_server_start; repeat (case_match; try done);
    by destruct s; simplify_eq/=.
Qed.

Definition api_server_stop (fuel : nat) (s : api_server) : res api_server := sv_stop fuel s.

(** Freed at the end. *)
Definition api_server_cleanup (fuel : nat) (s : api_server) : res unit :=
  let* s := (if as_running s then api_server_stop fuel s else Ok s) in Ok ().

(** ** The WebSocket server *)

Record websocket_server := WebsocketServer {
  ws_port : Z;
  ws_ctx : bool;                    (* ctx is not NULL *)
  ws_running : bool;
  ws_thread : thread
}.

Definition ws_with (running : bool) (t : thread) (s : websocket_server) : websocket_server :=
  WebsocketServer (ws_port s) (ws_ctx s) running t.

Definition websocket_server_init (calloc_ok : bool) (port : Z) (ctx : bool) : option websocket_server :=
  if calloc_ok then Some (WebsocketServer port ctx false NotCreated) else None.

Definition websocket_server_start (created : bool) (s : websocket_server) : Z * websocket_server :=
  if ws_running s then (-1, s)
  else
    let s := ws_with true (ws_thread s) s in
    if negb created then (-1, ws_with false (ws_thread s) s)
    else (0, ws_with (ws_running s) Created s).

Definition websocket_server_thread (s : websocket_server) : websocket_server :=
  ws_with (ws_running s) (thread_step (ws_running s) (ws_thread s)) s.

#[export] Instance ws_service : Service websocket_server := {|
  sv_running := ws_running;
  sv_thread := ws_thread;
  sv_start := websocket_server_start;
  sv_request_stop s := ws_with false (ws_thread s) s;
  sv_step := websocket_server_thread
|}.

#[export] Instance ws_service_laws : ServiceLaws websocket_server.
Proof.
  split; intros; cbn in *; unfold websocket_server_start; repeat (case_match; try done);
    by destruct s; simplify_eq/=.
Qed.

Definition websocket_server_stop (fuel : nat) (s : websocket_server) : res websocket_server :=
  sv_stop fuel s.

Definition websocket_server_cleanup (fuel : nat) (s : websocket_server) : res unit :=
  let* s := (if ws_running s then websocket_server_stop fuel s else Ok s) in Ok ().

(** C29: A management server keeps its flag and its thread together: in every
    state that starts, stops and the thread's own steps lead to from [init], the
    flag is set exactly while the thread is in its loop. Stopping always returns,
    after at most two more steps of the thread, and leaves a server that can be
    cleaned up or started again. *)
Theorem servers_lifecycle calloc_ok strdup bind_addr port auth_token ctx :
  (∀ s0 s : api_server,
    api_server_init calloc_ok strdup bind_addr port auth_token = Some s0 → rtc service_step s0 s →
    as_running s = alive (as_thread s) ∧
    ∃ s', api_server_stop 2 s = Ok s' ∧ as_running s' = false ∧
      (api_server_start true s').1 = 0 ∧ api_server_cleanup 2 s = Ok ()) ∧
  (∀ s0 s : websocket_server,
    websocket_server_init calloc_ok port ctx = Some s0 → rtc service_step s0 s →
    ws_running s = alive (ws_thread s) ∧
    ∃ s', websocket_server_stop 2 s = Ok s' ∧ ws_running s' = false ∧
      (websocket_server_start true s').1 = 0 ∧ websocket_server_cleanup 2 s = Ok ()).
Proof.
  unfold api_server_init, websocket_server_init. split; intros s0 s Hinit Hr;
    (destruct calloc_ok; [|done]); injection Hinit as <-.
  - apply service_lifecycle in Hr as [Hok Hstop]; [|exact eq_refl]. split; [exact Hok|].
    destruct (Hstop 2%nat) as (s' & Hs & Hrun & _); [lia|]. exists s'. split; [exact Hs|].
    split; [done|]. split; [by apply (start_idle (T := api_server) s' Hrun)|].
    unfold api_server_cleanup, api_server_stop. destruct (as_running s); [by rewrite Hs|done].
  - apply service_lifecycle in Hr as [Hok Hstop]; [|exact eq_refl]. split; [exact Hok|].
    destruct (Hstop 2%nat) as (s' & Hs & Hrun & _); [lia|]. exists s'. split; [exact Hs|].
    split; [done|]. split; [by apply (start_idle (T := websocket_server) s' Hrun)|].
    unfold websocket_server_cleanup, websocket_server_stop. destruct (ws_running s); [by rewrite Hs|done].
Qed.

(** ** The dashboard's messages *)

(** [json_dumps]: the text, or [NULL]. *)
Class JanssonDump (js : Jansson) := { json_dumps : json → option (list Z) }.

Section broadcast.
Context {js : Jansson} {pack : JanssonPack js} {dump : JanssonDump js} {ntop : InetNtop}.

(** The result, and the message logged. *)
Definition websocket_broadcast (message : option (list Z)) : Z * list (list Z) :=
  match message with
  | None => (-1, [])
  | Some m => (0, [bytes_of "WebSocket broadcast: " ++ m])
  end.

(** [json_integer] of a [uint64_t] converts it to a signed integer. *)
Definition stats_message (stats : global_stats) : json :=
  json_object
    [("total_packets"%string, json_of_int (i64 (total_packets stats)));
     ("total_bytes"%string, json_of_int (i64 (total_bytes stats)));
     ("dropped_packets"%string, json_of_int (i64 (dropped_packets stats)));
     ("current_connections"%string, json_of_int (i64 (current_connections stats)))].

Definition websocket_broadcast_stats (stats : option global_stats) : Z * list (list Z) :=
  match stats with
  | None => (-1, [])
  | Some g => (0, (websocket_broadcast (json_dumps (stats_message g))).2)
  end.

(** [json_string] takes a terminated string; [attack_type_to_string] never
    returns [NULL]. *)
Definition attack_message (type : attack_type) (src_ip : ip_addr) (now : Z) : json :=
  json_object
    [("type"%string, json_of_string (bytes_of "attack"));
     ("attack_type"%string, json_of_string (bytes_of (attack_type_to_string (attack_idx type))));
     ("source_ip"%string, json_of_string (ip_addr_to_string src_ip));
     ("timestamp"%string, json_of_int now)].

Definition websocket_broadcast_attack (now : Z) (type : attack_type) (src_ip : option ip_addr)
    : Z * list (list Z) :=
  match src_ip with
  | None => (-1, [])
  | Some ip => (0, (websocket_broadcast (json_dumps (attack_message type ip now))).2)
  end.

(** The body of the thread's loop after [sleep]. *)
Definition websocket_tick (stats : option global_stats) (s : websocket_server) : list (list Z) :=
  if ws_ctx s then
    match stats with Some g => (websocket_broadcast_stats (Some g)).2 | None => [] end
  else [].

(** The counter a reader of a message finds under a key. *)
Definition reported (msg : json) (key : string) : option Z :=
  json_object_get msg key ≫= json_integer.

Lemma i64_range z : - 2 ^ 63 <= i64 z < 2 ^ 63.
Proof. unfold i64. pose proof (Z.mod_pos_bound (z + 2 ^ 63) (2 ^ 64) ltac:(lia)). lia. Qed.

Lemma i64_u64 z : u64 (i64 z) = u64 z.
Proof. cint. Qed.
Lemma i64_small z : 0 <= z < 2 ^ 63 → i64 z = z.
Proof. intros H. cint. Qed.

(** The dashboard receives the four counters, under their names, as signed
    64-bit numbers: each is the counter itself while it is below 2^63, and it
    determines the counter in any case. *)
Theorem broadcast_stats_reports {laws : JanssonLaws js pack} g key v :
  (key, v) ∈ [("total_packets", total_packets g); ("total_bytes", total_bytes g);
              ("dropped_packets", dropped_packets g);
              ("current_connections", current_connections g)]%string →
  0 <= v < 2 ^ 64 →
  websocket_broadcast_stats (Some g) = (0, (websocket_broadcast (json_dumps (stats_message g))).2) ∧
  ∃ n, reported (stats_message g) key = Some n ∧ u64 n = v ∧ (v < 2 ^ 63 → n = v).
Proof.
  intros Hin Hv. split; [done|]. exists (i64 v). split.
  - unfold reported, stats_message. rewrite get_object by (apply (bool_decide_unpack _); vm_compute; exact I).
    rewrite !elem_of_cons in Hin. unfold member, find_first, fst, snd.
    destruct Hin as [[= -> ->]|[[= -> ->]|[[= -> ->]|[[= -> ->]|[]%elem_of_nil]]]]; cbn;
      apply integer_of_int, i64_range.
  - split; [rewrite i64_u64; by apply u64_small|]. intros H. apply i64_small. lia.
Qed.
End broadcast.

(** ** Witnesses *)

Lemma servers_lifecycle_witness :
  let s0 := ApiServer (Some (bytes_of "0.0.0.0")) 8080 None false NotCreated in
  let s := api_server_thread (api_server_thread (api_server_start true s0).2) in
  as_running s = alive (as_thread s) ∧ as_thread s = Asleep ∧ ∃ s', api_server_stop 2 s = Ok s'.
Proof.
  intros s0 s.
  destruct (proj1 (servers_lifecycle true Some None 8080 None true) s0 s) as [H (s' & Hs & _)].
  - reflexivity.
  - eapply rtc_l; [apply (step_start true s0)|]. do 2 (eapply rtc_l; [apply step_thread_runs|]). apply rtc_refl.
  - split; [exact H|]. split; [reflexivity|]. exists s'. exact Hs.
Defined.

#[local] Existing Instances tree_jansson tree_pack tree_laws.
#[local] Instance sample_dump : JanssonDump tree_jansson := {| json_dumps j := Some (bytes_of "{}") |}.

Lemma broadcast_stats_reports_witness :
  let g := GlobalStats 7 2048 1 0 zero_counts 0 in
  ∃ n, reported (stats_message g) "total_bytes" = Some n ∧ u64 n = 2048 ∧ (2048 < 2 ^ 63 → n = 2048).
Proof.
  intros g. apply (broadcast_stats_reports g "total_bytes" 2048); [|lia].
  right. left.
Defined.
