(* ===== verification/Logger.v ===== *)
(** * The logger

    [src/core/logger.c] (its address helpers are in [Common] and [Inet]): the
    global logger, its lock, the files it writes and renames, and the lines on
    them. A message is its text after formatting. The clock's reading in local
    time and what the file system answers are arguments; the texts of the file
    system's errors are left out. Taking a lock the thread already holds never
    returns. *)

From S2P Require Import Prelude Common CString Inet Config.

Definition MAX_LOG_LINE : nat := 4096.
Definition MAX_LOG_SIZE : Z := 100 * 1024 * 1024.

Definition LOG_LEVEL_CRITICAL : Z := 4.

(** The two arrays that a level indexes; the priorities are those of [syslog.h]. *)
Definition level_strings : list (list Z) :=
  bytes_of <$> ["DEBUG"; "INFO"; "WARN"; "ERROR"; "CRITICAL"]%string.
Definition level_to_syslog : list Z := [7; 6; 4; 3; 2].

Definition at_level {A} (l : list A) (level : Z) : res A :=
  if level <? 0 then Undef OutOfBounds
  else match l !! Z.to_nat level with Some a => Ok a | None => Undef OutOfBounds end.

(** *** Time *)

(** [struct tm]: the year counts from 1900, the month from 0. *)
Record tm := Tm { tm_year : Z; tm_mon : Z; tm_mday : Z; tm_hour : Z; tm_min : Z; tm_sec : Z }.

(** [%0nd] of a value that is not negative. *)
Definition print_pad (n : nat) (z : Z) : list Z :=
  let d := print_u z in replicate (n - length d) 48 ++ d.

(** [strftime] with ["%Y-%m-%d %H:%M:%S"]. *)
Definition timestamp (t : tm) : list Z :=
  print_u (tm_year t + 1900) ++ bytes_of "-" ++ print_pad 2 (tm_mon t + 1) ++ bytes_of "-" ++
  print_pad 2 (tm_mday t) ++ bytes_of " " ++ print_pad 2 (tm_hour t) ++ bytes_of ":" ++
  print_pad 2 (tm_min t) ++ bytes_of ":" ++ print_pad 2 (tm_sec t).

(** *** Files *)

(** The files by name; a file is the list of its bytes. *)
Notation files := (gmap (list Z) (list Z)).

(** [rename]; [ok]: the system permits it. *)
Definition rename_file (ok : bool) (old new : list Z) (fs : files) : files :=
  match fs !! old with
  | Some content => if ok then <[new := content]> (delete old fs) else fs
  | None => fs
  end.

(** The name a log file gets when it is rotated. *)
Definition rotated_name (file : list Z) (t : tm) : list Z :=
  snprintf 512 (file ++ bytes_of "." ++ print_pad 4 (tm_year t + 1900) ++ print_pad 2 (tm_mon t + 1) ++
                print_pad 2 (tm_mday t) ++ bytes_of "_" ++ print_pad 2 (tm_hour t) ++
                print_pad 2 (tm_min t) ++ print_pad 2 (tm_sec t)).

(** *** The logger *)

(** [lg_fp] is the name of the open file; [lg_syslog_lines] and [lg_stderr]: what
    has been handed over, oldest first. *)
Record logger := Logger {
  lg_fp : option (list Z);
  lg_log_file : option (list Z);
  lg_level : Z;
  lg_use_syslog : bool;
  lg_locked : bool;
  lg_bytes_written : Z;             (* uint64_t *)
  lg_files : files;
  lg_syslog_lines : list (Z * list Z);
  lg_stderr : list (list Z)
}.

Definition logger_start (fs : files) : logger := Logger None None LOG_LEVEL_INFO false false 0 fs [] [].

Definition set_fp (fp : option (list Z)) (g : logger) : logger :=
  Logger fp (lg_log_file g) (lg_level g) (lg_use_syslog g) (lg_locked g) (lg_bytes_written g)
    (lg_files g) (lg_syslog_lines g) (lg_stderr g).
Definition set_log_file (f : option (list Z)) (g : logger) : logger :=
  Logger (lg_fp g) f (lg_level g) (lg_use_syslog g) (lg_locked g) (lg_bytes_written g)
    (lg_files g) (lg_syslog_lines g) (lg_stderr g).
Definition set_mode (level : Z) (use_syslog : bool) (g : logger) : logger :=
  Logger (lg_fp g) (lg_log_file g) level use_syslog (lg_locked g) (lg_bytes_written g)
    (lg_files g) (lg_syslog_lines g) (lg_stderr g).
Definition set_locked (b : bool) (g : logger) : logger :=
  Logger (lg_fp g) (lg_log_file g) (lg_level g) (lg_use_syslog g) b (lg_bytes_written g)
    (lg_files g) (lg_syslog_lines g) (lg_stderr g).
Definition set_bytes (n : Z) (g : logger) : logger :=
  Logger (lg_fp g) (lg_log_file g) (lg_level g) (lg_use_syslog g) (lg_locked g) n
    (lg_files g) (lg_syslog_lines g) (lg_stderr g).
Definition on_files (h : files → files) (g : logger) : logger :=
  Logger (lg_fp g) (lg_log_file g) (lg_level g) (lg_use_syslog g) (lg_locked g) (lg_bytes_written g)
    (h (lg_files g)) (lg_syslog_lines g) (lg_stderr g).
Definition write_syslog (priority : Z) (m : list Z) (g : logger) : logger :=
  Logger (lg_fp g) (lg_log_file g) (lg_level g) (lg_use_syslog g) (lg_locked g) (lg_bytes_written g)
    (lg_files g) (lg_syslog_lines g ++ [(priority, m)]) (lg_stderr g).
Definition write_stderr (line : list Z) (g : logger) : logger :=
  Logger (lg_fp g) (lg_log_file g) (lg_level g) (lg_use_syslog g) (lg_locked g) (lg_bytes_written g)
    (lg_files g) (lg_syslog_lines g) (lg_stderr g ++ [line]).

(** [pthread_mutex_lock] on a mutex of the default kind. *)
Definition mutex_lock : st logger unit := λ g,
  if lg_locked g then Undef SelfDeadlock else Ok ((), set_locked true g).
Definition mutex_unlock : st logger unit := st_modify (set_locked false).

(** [g_logger.fp = fopen(file, "a")]: a file that is not there is created. *)
Definition open_append (ok : bool) (file : list Z) : st logger unit :=
  if ok
  then st_modify (set_fp (Some file)) ;; st_modify (on_files (partial_alter (λ c, Some (default [] c)) file))
  else st_modify (set_fp None).

(** [fprintf] on the open file. *)
Definition file_write (file line : list Z) : st logger unit := st_modify (on_files (alter (.++ line) file)).

(** "[%s] [%s] %s\n". *)
Definition log_line (stamp name message : list Z) : list Z :=
  bytes_of "[" ++ stamp ++ bytes_of "] [" ++ name ++ bytes_of "] " ++ message ++ [10].

(** What a message meets: the clock when it is written and when its file is rotated,
    and whether [rename] and the second [fopen] succeed. *)
Record log_env := LogEnv { le_now : tm; le_rotated : tm; le_renamed : bool; le_reopened : bool }.

(** [log] is [log_message]. *)
Definition logger_rotate (log : Z → list Z → st logger unit) (env : log_env) : st logger Z :=
  g <- st_get ;;
  match lg_fp g, lg_log_file g with
  | Some _, Some file =>
      st_modify (set_fp None) ;;
      st_modify (on_files (rename_file (le_renamed env) (snprintf 512 file) (rotated_name file (le_rotated env)))) ;;
      open_append (le_reopened env) file ;;
      fp <- st_gets lg_fp ;;
      match fp with
      | None => st_ret (-1)
      | Some _ =>
          st_modify (set_bytes 0) ;;
          log LOG_LEVEL_INFO (bytes_of "[INFO] Log file rotated") ;;
          st_ret 0
      end
  | _, _ => st_ret (-1)
  end.

(** The calls nest: a message may rotate the file, and a rotation logs one. *)
Fixpoint log_message (fuel : nat) (env : log_env) (level : Z) (text : list Z) : st logger unit :=
  match fuel with
  | O => st_diverges
  | S fuel' =>
      g <- st_get ;;
      if level <? lg_level g then st_ret ()
      else
        let message := snprintf MAX_LOG_LINE text in
        let stamp := timestamp (le_now env) in
        mutex_lock ;;
        fp <- st_gets lg_fp ;;
        (match fp with
         | Some file =>
             name <- st_lift (at_level level_strings level) ;;
             file_write file (log_line stamp name message) ;;
             bytes <- st_gets lg_bytes_written ;;
             st_modify (set_bytes (bytes +₆₄ (Z.of_nat (length message) + 64))) ;;
             bytes <- st_gets lg_bytes_written ;;
             if MAX_LOG_SIZE <? bytes
             then _ <- logger_rotate (log_message fuel' env) env ;; st_ret ()
             else st_ret ()
         | None => st_ret ()
         end) ;;
        use_syslog <- st_gets lg_use_syslog ;;
        (if use_syslog
         then priority <- st_lift (at_level level_to_syslog level) ;; st_modify (write_syslog priority message)
         else st_ret ()) ;;
        (if LOG_LEVEL_ERROR <=? level
         then name <- st_lift (at_level level_strings level) ;;
              st_modify (write_stderr (log_line stamp name message))
         else st_ret ()) ;;
        mutex_unlock
  end.

(** A message of a message. *)
Definition LOG_DEPTH : nat := 2.

(** The two helpers for events; [details] may be [NULL]. *)
Definition log_attack {ntop : InetNtop} (env : log_env) (type : nat) (src_ip : ip_addr)
    (details : option (list Z)) : st logger unit :=
  log_message LOG_DEPTH env LOG_LEVEL_WARN
    (bytes_of "ATTACK DETECTED: " ++ bytes_of (attack_type_to_string type) ++ bytes_of " from " ++
     ip_addr_to_string src_ip ++ bytes_of " - " ++ default [] details).

Definition log_packet_drop {ntop : InetNtop} (env : log_env) (src_ip : ip_addr) (reason : list Z)
    : st logger unit :=
  log_message LOG_DEPTH env LOG_LEVEL_DEBUG
    (bytes_of "Dropped packet from " ++ ip_addr_to_string src_ip ++ bytes_of ": " ++ reason).

Definition logger_init (strdup_ok fopen_ok : bool) (env : log_env) (log_file : option (list Z)) (level : Z)
    (use_syslog : bool) : st logger Z :=
  mutex_lock ;;
  st_modify (set_mode level use_syslog) ;;
  failed <- (match log_file with
     | None => st_ret false
     | Some f =>
         if negb strdup_ok then st_modify (set_log_file None) ;; st_ret true
         else
           st_modify (set_log_file (Some f)) ;;
           open_append fopen_ok f ;;
           if negb fopen_ok then st_modify (set_log_file None) ;; st_ret true else st_ret false
     end) ;;
  mutex_unlock ;;
  if failed then st_ret (-1)
  else
    name <- st_lift (at_level level_strings level) ;;
    log_message LOG_DEPTH env LOG_LEVEL_INFO
      (bytes_of "[INFO] Logger initialized (level=" ++ name ++ bytes_of ", syslog=" ++
       bytes_of (if use_syslog then "yes" else "no") ++ bytes_of ")") ;;
    st_ret 0.

Definition logger_cleanup : st logger unit :=
  mutex_lock ;;
  st_modify (set_fp None) ;;
  st_modify (set_log_file None) ;;
  st_modify (λ g, set_mode (lg_level g) false g) ;;
  mutex_unlock.

(** ** What one message does *)

Definition kept (text : list Z) : list Z := snprintf MAX_LOG_LINE text.

Lemma kept_length text : Z.of_nat (length (kept text)) <= 4095.
Proof. unfold kept, snprintf, MAX_LOG_LINE. rewrite length_take. lia. Qed.

(** A call of [log_message]. *)
Record log_event := LogEvent { ev_env : log_env; ev_level : Z; ev_text : list Z }.

Definition level_name (level : Z) : list Z := default [] (level_strings !! Z.to_nat level).
Definition priority (level : Z) : Z := default 0 (level_to_syslog !! Z.to_nat level).

Definition ev_line (e : log_event) : list Z :=
  log_line (timestamp (le_now (ev_env e))) (level_name (ev_level e)) (kept (ev_text e)).

(** What the logger adds to the size of the file for it. *)
Definition ev_cost (e : log_event) : Z := Z.of_nat (length (kept (ev_text e))) + 64.

(** A reading of the clock in a year of four digits. *)
Record tm_ok (t : tm) : Prop := {
  ok_year : 1000 <= tm_year t + 1900 <= 9999;
  ok_mon : 0 <= tm_mon t <= 11;
  ok_mday : 1 <= tm_mday t <= 31;
  ok_hour : 0 <= tm_hour t <= 23;
  ok_min : 0 <= tm_min t <= 59;
  ok_sec : 0 <= tm_sec t <= 60
}.

(** A level of [log_level_t], and a file system that lets a log be rotated. *)
Record ev_ok (e : log_event) : Prop := {
  ok_level : LOG_LEVEL_DEBUG <= ev_level e <= LOG_LEVEL_CRITICAL;
  ok_renamed : le_renamed (ev_env e) = true;
  ok_reopened : le_reopened (ev_env e) = true;
  ok_now : tm_ok (le_now (ev_env e));
  ok_rotated : tm_ok (le_rotated (ev_env e))
}.

Lemma at_level_strings level :
  LOG_LEVEL_DEBUG <= level <= LOG_LEVEL_CRITICAL → at_level level_strings level = Ok (level_name level).
Proof.
  intros [H1 H2]. unfold LOG_LEVEL_DEBUG, LOG_LEVEL_CRITICAL, at_level, level_name in *.
  rewrite (proj2 (Z.ltb_ge _ _)) by done.
  by destruct (lookup_lt_is_Some_2 level_strings (Z.to_nat level)) as [s ->]; [cbn; lia|].
Qed.

Lemma at_level_syslog level :
  LOG_LEVEL_DEBUG <= level <= LOG_LEVEL_CRITICAL → at_level level_to_syslog level = Ok (priority level).
Proof.
  intros [H1 H2]. unfold LOG_LEVEL_DEBUG, LOG_LEVEL_CRITICAL, at_level, priority in *.
  rewrite (proj2 (Z.ltb_ge _ _)) by done.
  by destruct (lookup_lt_is_Some_2 level_to_syslog (Z.to_nat level)) as [s ->]; [cbn; lia|].
Qed.

(** The logger after an event: the sinks other than the file, and the lock. *)
Definition logged (e : log_event) (fs : files) (bytes : Z) (g : logger) : logger :=
  Logger (lg_fp g) (lg_log_file g) (lg_level g) (lg_use_syslog g) false bytes fs
    (lg_syslog_lines g ++ if lg_use_syslog g then [(priority (ev_level e), kept (ev_text e))] else [])
    (lg_stderr g ++ if LOG_LEVEL_ERROR <=? ev_level e then [ev_line e] else []).

(** The files once [file] has been renamed and created anew. *)
Definition rotate_files (file : list Z) (t : tm) (fs : files) : files :=
  partial_alter (λ c, Some (default [] c)) file
    (rename_file true (snprintf 512 file) (rotated_name file t) fs).

(** Depth 2 is enough: a nested message either returns before the lock or does
    not return. *)
Lemma nested_message n env level text g :
  lg_locked g = true →
  log_message (S n) env level text g =
    if level <? lg_level g then Ok ((), g) else Undef SelfDeadlock.
Proof.
  intros Hl. cbn [log_message]. unfold st_bind at 1, st_get. destruct (level <? lg_level g); [done|].
  unfold st_bind at 1, mutex_lock. by rewrite Hl.
Qed.

Lemma log_message_skipped n env level text g :
  level < lg_level g → log_message (S n) env level text g = Ok ((), g).
Proof.
  intros Hl. cbn [log_message]. unfold st_bind at 1, st_get. by rewrite (proj2 (Z.ltb_lt _ _)).
Qed.

(** The end of a message: the lock is held and the file has been dealt with. *)
Definition log_sinks (level : Z) (stamp message : list Z) : st logger unit :=
  use_syslog <- st_gets lg_use_syslog ;;
  (if use_syslog
   then priority <- st_lift (at_level level_to_syslog level) ;; st_modify (write_syslog priority message)
   else st_ret ()) ;;
  (if LOG_LEVEL_ERROR <=? level
   then name <- st_lift (at_level level_strings level) ;;
        st_modify (write_stderr (log_line stamp name message))
   else st_ret ()) ;;
  mutex_unlock.

(** The part before it. *)
Definition log_to_file (fuel : nat) (env : log_env) (level : Z) (text : list Z) : st logger unit :=
  let message := snprintf MAX_LOG_LINE text in
  fp <- st_gets lg_fp ;;
  match fp with
  | Some file =>
      name <- st_lift (at_level level_strings level) ;;
      file_write file (log_line (timestamp (le_now env)) name message) ;;
      bytes <- st_gets lg_bytes_written ;;
      st_modify (set_bytes (bytes +₆₄ (Z.of_nat (length message) + 64))) ;;
      bytes <- st_gets lg_bytes_written ;;
      if MAX_LOG_SIZE <? bytes
      then _ <- logger_rotate (log_message fuel env) env ;; st_ret ()
      else st_ret ()
  | None => st_ret ()
  end.

(** Evaluates the fields of a logger, and what its operations do next. *)
Ltac lg_fields :=
  cbv beta iota;
  cbn [lg_bytes_written lg_fp lg_log_file lg_level lg_use_syslog lg_locked lg_files lg_syslog_lines lg_stderr].

Lemma log_sinks_logged e g :
  LOG_LEVEL_DEBUG <= ev_level e <= LOG_LEVEL_CRITICAL →
  log_sinks (ev_level e) (timestamp (le_now (ev_env e))) (kept (ev_text e)) g =
    Ok ((), logged e (lg_files g) (lg_bytes_written g) g).
Proof.
  intros Hl. unfold log_sinks. rewrite at_level_syslog, at_level_strings by done.
  destruct g as [fp file lv sy lk by_ fs sl er].
  unfold st_bind, st_gets, st_lift, st_modify, st_ret, mutex_unlock, logged, ev_line.
  lg_fields.
  destruct sy, (LOG_LEVEL_ERROR <=? ev_level e); rewrite ?app_nil_r; reflexivity.
Qed.

(** A message that is logged, in its two parts. *)
Lemma log_message_parts n env level text g :
  lg_locked g = false → lg_level g <= level →
  log_message (S n) env level text g =
    match log_to_file n env level text (set_locked true g) with
    | Ok (_, g1) => log_sinks level (timestamp (le_now env)) (snprintf MAX_LOG_LINE text) g1
    | Undef u => Undef u
    | Diverges => Diverges
    end.
Proof.
  intros Hlock Hlevel. cbn [log_message]. unfold st_bind at 1, st_get. rewrite (proj2 (Z.ltb_ge _ _)) by done.
  unfold st_bind at 1, mutex_lock. rewrite Hlock. reflexivity.
Qed.

(** The logger with the line in its file. *)
Definition appended (f : list Z) (e : log_event) (g : logger) : files := alter (.++ ev_line e) f (lg_files g).

Lemma log_message_step n f e g :
  lg_fp g = Some f → lg_log_file g = Some f → lg_locked g = false →
  0 <= lg_bytes_written g <= MAX_LOG_SIZE → lg_level g <= ev_level e → ev_ok e →
  log_message (S (S n)) (ev_env e) (ev_level e) (ev_text e) g =
    if lg_bytes_written g + ev_cost e <=? MAX_LOG_SIZE
    then Ok ((), logged e (appended f e g) (lg_bytes_written g + ev_cost e) g)
    else if lg_level g <=? LOG_LEVEL_INFO then Undef SelfDeadlock
    else Ok ((), logged e (rotate_files f (le_rotated (ev_env e)) (appended f e g)) 0 g).
Proof.
  intros Hfp Hfile Hlock Hbytes Hlevel [Hl Hren Hre _ _].
  pose proof (kept_length (ev_text e)) as Hk. remember (S n) as m eqn:Hm. cbn [log_message].
  unfold st_bind at 1, st_get. rewrite (proj2 (Z.ltb_ge _ _)) by done.
  fold (kept (ev_text e)).
  change (use_syslog <- st_gets lg_use_syslog ;; _) with
    (log_sinks (ev_level e) (timestamp (le_now (ev_env e))) (kept (ev_text e))).
  rewrite at_level_strings by done.
  destruct g as [fp file lv sy lk by_ fs sl er]. cbn in Hfp, Hfile, Hlock, Hbytes, Hlevel. subst fp file lk.
  unfold mutex_lock, file_write, st_lift, st_bind, st_modify, st_gets, st_ret, set_bytes, set_locked, on_files.
  lg_fields.
  change (Z.of_nat (length (kept (ev_text e))) + 64) with (ev_cost e).
  rewrite u64_small by (unfold ev_cost, MAX_LOG_SIZE in *; lia).
  destruct (Z.ltb_spec MAX_LOG_SIZE (by_ + ev_cost e)) as [Hgt|Hle].
  - rewrite (proj2 (Z.leb_gt _ MAX_LOG_SIZE)) by done.
    unfold logger_rotate, open_append, st_bind, st_get, st_modify, st_gets, st_ret, set_fp, set_bytes, on_files.
    lg_fields.
    rewrite Hre, Hren. do 2 lg_fields. rewrite Hm, nested_message by done. lg_fields. rewrite Z.ltb_antisym. destruct (lv <=? LOG_LEVEL_INFO); cbn [negb]; [done|].
    rewrite log_sinks_logged by done. reflexivity.
  - rewrite (proj2 (Z.leb_le _ MAX_LOG_SIZE)) by done. rewrite log_sinks_logged by done. reflexivity.
Qed.

(** ** The names of rotated files *)

Lemma dec_digits_length fuel n k :
  0 <= n < 10 ^ Z.of_nat (S k) → (length (dec_digits fuel n []) <= S k)%nat.
Proof.
  revert n k. induction fuel as [|fuel IH]; intros n k Hn; cbn [dec_digits]; [cbn; lia|].
  destruct (Z.ltb_spec n 10); [cbn; lia|]. rewrite dec_digits_app, length_app. cbn [length].
  destruct k as [|k]; [change (10 ^ Z.of_nat 1) with 10 in Hn; lia|].
  rewrite Nat2Z.inj_succ, Z.pow_succ_r in Hn by lia.
  specialize (IH (n / 10) k). enough (0 <= n / 10 < 10 ^ Z.of_nat (S k)) by (specialize (IH ltac:(done)); lia).
  split; [apply Z.div_pos; lia|]. apply Z.div_lt_upper_bound; lia.
Qed.

Lemma print_pad_length k z : 0 <= z < 10 ^ Z.of_nat (S k) → length (print_pad (S k) z) = S k.
Proof.
  intros Hz. unfold print_pad. rewrite length_app, length_replicate.
  pose proof (dec_digits_length 20 z k Hz). unfold print_u. lia.
Qed.

(** A name that leaves room for the suffix in the buffer of 512 bytes. *)
Definition name_fits (f : list Z) : Prop := (length f <= 495)%nat.

Lemma rotated_name_length f t : name_fits f → tm_ok t → length (rotated_name f t) = (length f + 16)%nat.
Proof.
  unfold name_fits. intros Hf [].
  assert (∀ z, 0 <= z <= 99 → length (print_pad 2 z) = 2%nat) as H2
    by (intros; apply (print_pad_length 1); change (10 ^ Z.of_nat 2) with 100; lia).
  unfold rotated_name, snprintf. rewrite length_take, !length_app, !H2 by lia.
  rewrite print_pad_length by (change (10 ^ Z.of_nat 4) with 10000; lia). change (length (bytes_of _)) with 1%nat. lia.
Qed.

Lemma rotated_name_ne f t : name_fits f → tm_ok t → rotated_name f t ≠ f.
Proof. intros Hf Ht Heq. pose proof (rotated_name_length f t Hf Ht) as H. rewrite Heq in H. lia. Qed.

Lemma rotate_files_eq f t content fs :
  name_fits f → tm_ok t → fs !! f = Some content →
  rotate_files f t fs = <[f := []]> (<[rotated_name f t := content]> fs).
Proof.
  intros Hf Ht Hfs. pose proof (rotated_name_ne f t Hf Ht) as Hne.
  unfold rotate_files, rename_file.
  rewrite snprintf_fits by (unfold name_fits in Hf; lia). rewrite Hfs.
  apply map_eq. intros k. destruct (decide (k = f)) as [->|Hk].
  - by rewrite lookup_partial_alter_eq, lookup_insert_eq, lookup_insert_ne, lookup_delete_eq by done.
  - rewrite lookup_partial_alter_ne, (lookup_insert_ne _ f) by congruence.
    destruct (decide (k = rotated_name f t)) as [->|]; [by rewrite !lookup_insert_eq|].
    by rewrite !lookup_insert_ne, lookup_delete_ne by congruence.
Qed.

Lemma timestamp_length t : tm_ok t → (length (timestamp t) <= 19)%nat.
Proof.
  intros []. 
  assert (∀ z, 0 <= z <= 99 → length (print_pad 2 z) = 2%nat) as H2
    by (intros; apply (print_pad_length 1); change (10 ^ Z.of_nat 2) with 100; lia).
  unfold timestamp. rewrite !length_app, !H2 by lia.
  pose proof (dec_digits_length 20 (tm_year t + 1900) 3) as H4.
  specialize (H4 ltac:(change (10 ^ Z.of_nat 4) with 10000; lia)). unfold print_u. change (length (bytes_of _)) with 1%nat. lia.
Qed.

(** A line is not longer than what is counted for it. *)
Lemma ev_line_length e : ev_ok e → Z.of_nat (length (ev_line e)) <= ev_cost e.
Proof.
  intros [[H1 H2] _ _ Ht _]. pose proof (timestamp_length _ Ht).
  assert (length (level_name (ev_level e)) <= 8)%nat as Hn.
  { unfold LOG_LEVEL_DEBUG, LOG_LEVEL_CRITICAL, level_name in *.
    destruct (level_strings !! _) as [s|] eqn:Hs; cbn [default]; [|cbn; lia].
    apply list_elem_of_lookup_2 in Hs.
    assert (Forall (λ s, length s <= 8)%nat level_strings) as Hall by (repeat constructor; cbn; lia).
    rewrite Forall_forall in Hall. by apply Hall. }
  unfold ev_line, ev_cost, log_line. rewrite !length_app. simpl. lia.
Qed.

(** ** Any number of messages *)

Fixpoint log_run (evs : list log_event) : st logger unit :=
  match evs with
  | [] => st_ret ()
  | e :: evs => log_message LOG_DEPTH (ev_env e) (ev_level e) (ev_text e) ;; log_run evs
  end.

(** A logger that writes to the file [f], of which [content] is there so far. *)
Record writing (f content : list Z) (g : logger) : Prop := {
  wr_fp : lg_fp g = Some f;
  wr_log_file : lg_log_file g = Some f;
  wr_unlocked : lg_locked g = false;
  wr_content : lg_files g !! f = Some content;
  wr_bytes : 0 <= lg_bytes_written g <= MAX_LOG_SIZE;
  wr_name : name_fits f
}.

(** The messages of a level that is logged, and what is counted for them. *)
Definition shown (level : Z) (evs : list log_event) : list log_event :=
  filter (λ e, level <= ev_level e) evs.
Definition total_cost (evs : list log_event) : Z := sumZ (ev_cost <$> evs).

(** What the run leaves: the files rotated, each under the name of its time, in
    order, and the current one. A later file of the same name replaces the earlier. *)
Definition archive (parts : list (list Z * list Z)) (fs : files) : files :=
  foldl (λ fs p, <[p.1 := p.2]> fs) fs parts.

Lemma archive_insert f c parts fs :
  Forall (λ p, p.1 ≠ f) parts → archive parts (<[f := c]> fs) = <[f := c]> (archive parts fs).
Proof.
  revert fs. induction parts as [|[k x] parts IH]; intros fs Hp; [done|].
  apply Forall_cons in Hp as [Hk Hp]. cbn [fst] in Hk. unfold archive in *. cbn [foldl fst snd].
  rewrite insert_insert_ne by congruence. by apply IH.
Qed.

(** Under names of their own all of them are found again. *)
Lemma archive_lookup_other k parts fs : k ∉ parts.*1 → archive parts fs !! k = fs !! k.
Proof.
  revert fs. induction parts as [|[k' x] parts IH]; intros fs Hk; [done|].
  rewrite fmap_cons, not_elem_of_cons in Hk. destruct Hk as [Hne Hk]. unfold archive in *. cbn [foldl fst snd].
  rewrite IH by done. by rewrite lookup_insert_ne.
Qed.

Lemma archive_lookup parts fs :
  NoDup parts.*1 → Forall (λ p, archive parts fs !! p.1 = Some p.2) parts.
Proof.
  revert fs. induction parts as [|[k x] parts IH]; intros fs Hnd; [constructor|].
  rewrite fmap_cons in Hnd. apply NoDup_cons in Hnd as [Hk Hnd]. constructor; [|by apply IH].
  change (archive ((k, x) :: parts) fs) with (archive parts (<[k := x]> fs)).
  cbn [fst snd] in *. by rewrite archive_lookup_other, lookup_insert_eq.
Qed.

(** Everything but the files after a list of messages that are logged. *)
Record sinks_after (l : list log_event) (g g' : logger) : Prop := {
  sa_level : lg_level g' = lg_level g;
  sa_use : lg_use_syslog g' = lg_use_syslog g;
  sa_syslog : lg_syslog_lines g' = lg_syslog_lines g ++
    if lg_use_syslog g then (λ e, (priority (ev_level e), kept (ev_text e))) <$> l else [];
  sa_stderr : lg_stderr g' = lg_stderr g ++
    (ev_line <$> filter (λ e, LOG_LEVEL_ERROR <= ev_level e) l)
}.

Lemma sinks_after_nil g : sinks_after [] g g.
Proof. constructor; try done; destruct (lg_use_syslog g); by rewrite ?app_nil_r. Qed.

Lemma sinks_after_cons e l fs bytes g g' :
  sinks_after l (logged e fs bytes g) g' → sinks_after (e :: l) g g'.
Proof.
  intros [H1 H2 H3 H4]. unfold logged in *.
  cbn [lg_level lg_use_syslog lg_syslog_lines lg_stderr] in *. constructor; [done..| |].
  - rewrite H3. destruct (lg_use_syslog g); [by rewrite <- app_assoc|by rewrite !app_nil_r].
  - rewrite H4. rewrite filter_cons. destruct (Z.leb_spec LOG_LEVEL_ERROR (ev_level e)).
    + rewrite decide_True by done. by rewrite <- app_assoc.
    + rewrite decide_False by lia. by rewrite app_nil_r.
Qed.

Lemma writing_logged e f content content' fs bytes g :
  writing f content g → fs !! f = Some content' → 0 <= bytes <= MAX_LOG_SIZE →
  writing f content' (logged e fs bytes g).
Proof. by intros [] ? ?. Qed.

Lemma appended_content f content e g :
  lg_files g !! f = Some content → appended f e g = <[f := content ++ ev_line e]> (lg_files g).
Proof.
  intros H. unfold appended. apply map_eq. intros k. destruct (decide (k = f)) as [->|].
  - by rewrite lookup_alter_eq, lookup_insert_eq, H.
  - by rewrite lookup_alter_ne, lookup_insert_ne by done.
Qed.

(** What a run leaves of the logged messages [l]: [parts] have been rotated, [cur] is
    the current file. *)
Record run_result (f content : list Z) (l : list log_event) (g g' : logger)
    (parts : list (list Z * list Z)) (cur : list Z) : Prop := {
  rr_writing : writing f cur g';
  rr_lines : content ++ concat (ev_line <$> l) = concat (parts.*2) ++ cur;
  rr_files : lg_files g' = <[f := cur]> (archive parts (lg_files g));
  rr_names : Forall (λ p, ∃ e, e ∈ l ∧ p.1 = rotated_name f (le_rotated (ev_env e))) parts;
  rr_rotated : parts = [] ↔ lg_bytes_written g + total_cost l <= MAX_LOG_SIZE;
  rr_sizes : Z.of_nat (length content) <= lg_bytes_written g →
    Forall (λ p, Z.of_nat (length p.2) <= MAX_LOG_SIZE + 4159) parts ∧
    Z.of_nat (length cur) <= lg_bytes_written g';
  rr_sinks : sinks_after l g g'
}.

Lemma ev_cost_range e : 64 <= ev_cost e <= 4159.
Proof. unfold ev_cost. pose proof (kept_length (ev_text e)). lia. Qed.

Lemma total_cost_cons e l : total_cost (e :: l) = ev_cost e + total_cost l.
Proof. done. Qed.

Lemma total_cost_nonneg l : 0 <= total_cost l.
Proof. induction l as [|e l IH]; [done|]. rewrite total_cost_cons. pose proof (ev_cost_range e). lia. Qed.

Lemma parts_ne f (l : list log_event) (parts : list (list Z * list Z)) :
  name_fits f → Forall ev_ok l →
  Forall (λ p, ∃ e, e ∈ l ∧ p.1 = rotated_name f (le_rotated (ev_env e))) parts →
  Forall (λ p, p.1 ≠ f) parts.
Proof.
  intros Hf Hl Hp. eapply Forall_impl; [exact Hp|]. intros p (e & He & ->).
  rewrite Forall_forall in Hl. by apply rotated_name_ne; [|apply Hl].
Qed.

Lemma run_result_nil f content g : writing f content g → run_result f content [] g g [] content.
Proof.
  intros Hw. constructor; try done.
  - cbn. by rewrite app_nil_r.
  - cbn. symmetry. apply insert_id, wr_content, Hw.
  - unfold total_cost. cbn. rewrite Z.add_0_r. pose proof (wr_bytes _ _ _ Hw). naive_solver.
  - apply sinks_after_nil.
Qed.

Lemma run_result_cons f content e l g g' parts cur :
  writing f content g → ev_ok e → Forall ev_ok l →
  run_result f (content ++ ev_line e) l
    (logged e (appended f e g) (lg_bytes_written g + ev_cost e) g) g' parts cur →
  run_result f content (e :: l) g g' parts cur.
Proof.
  intros Hw He Hl []. pose proof (ev_line_length e He). constructor; try done.
  - cbn [fmap list_fmap concat]. by rewrite app_assoc, rr_lines0.
  - rewrite rr_files0. cbn [logged lg_files]. erewrite appended_content by apply Hw.
    rewrite archive_insert; [by rewrite insert_insert_eq|]. eapply parts_ne; [apply Hw|done..].
  - eapply Forall_impl; [exact rr_names0|]. intros p (e' & ? & ?). exists e'. split; [by right|done].
  - rewrite rr_rotated0. cbn [logged lg_bytes_written]. by rewrite total_cost_cons, Z.add_assoc.
  - intros Hlen. apply rr_sizes0. cbn [logged lg_bytes_written]. rewrite length_app. lia.
  - by eapply sinks_after_cons.
Qed.

Lemma run_result_rotated f content e l g g' parts cur :
  let name := rotated_name f (le_rotated (ev_env e)) in
  writing f content g → ev_ok e → Forall ev_ok l → MAX_LOG_SIZE < lg_bytes_written g + ev_cost e →
  run_result f [] l
    (logged e (rotate_files f (le_rotated (ev_env e)) (appended f e g)) 0 g) g' parts cur →
  run_result f content (e :: l) g g' ((name, content ++ ev_line e) :: parts) cur.
Proof.
  intros name Hw He Hl Hgt []. pose proof (ev_line_length e He). pose proof (ev_cost_range e).
  assert (Hf : name_fits f) by apply Hw. constructor; try done.
  - cbn [fmap list_fmap concat snd]. rewrite <- app_assoc, <- rr_lines0. by rewrite app_assoc.
  - rewrite rr_files0. cbn [logged lg_files]. erewrite appended_content by apply Hw.
    rewrite (rotate_files_eq _ _ (content ++ ev_line e)); [|done|apply He|by rewrite lookup_insert_eq].
    assert (name ≠ f) by (apply rotated_name_ne; [done|apply He]).
    fold name. rewrite (insert_insert_ne _ name f) by done.
    pose proof (parts_ne _ _ _ Hf Hl rr_names0).
    rewrite !archive_insert by done. rewrite !insert_insert_eq. done.
  - constructor; [exists e; split; [by left|done]|].
    eapply Forall_impl; [exact rr_names0|]. intros p (e' & ? & ?). exists e'. split; [by right|done].
  - rewrite total_cost_cons. pose proof (total_cost_nonneg l). split; [done|lia].
  - intros Hlen. destruct rr_sizes0 as [Hparts Hcur]; [done|]. split; [|done].
    constructor; [|done]. cbn [snd]. rewrite length_app. pose proof (wr_bytes _ _ _ Hw). lia.
  - by eapply sinks_after_cons.
Qed.

Lemma run_result_kept f content l g g' parts cur :
  Forall ev_ok l → run_result f content l g g' parts cur → NoDup parts.*1 →
  Forall (λ p, lg_files g' !! p.1 = Some p.2) parts.
Proof.
  intros Hl Hres Hnd. rewrite (rr_files _ _ _ _ _ _ _ Hres).
  pose proof (parts_ne f l parts (wr_name _ _ _ (rr_writing _ _ _ _ _ _ _ Hres)) Hl (rr_names _ _ _ _ _ _ _ Hres)) as Hne.
  pose proof (archive_lookup parts (lg_files g) Hnd) as Hlook.
  rewrite Forall_forall in *. intros p Hp. rewrite lookup_insert_ne by (intros ->; by apply (Hne p)). by apply Hlook.
Qed.

Lemma shown_ok level evs : Forall ev_ok evs → Forall ev_ok (shown level evs).
Proof. rewrite !Forall_forall. intros H e He. apply list_elem_of_filter in He as [_ He]. by apply H. Qed.

(** By induction on the messages. *)
Lemma log_stream_split f content evs g :
  writing f content g → Forall ev_ok evs →
  let l := shown (lg_level g) evs in
  if (lg_level g <=? LOG_LEVEL_INFO) && (MAX_LOG_SIZE <? lg_bytes_written g + total_cost l)
  then log_run evs g = Undef SelfDeadlock
  else ∃ g' parts cur, log_run evs g = Ok ((), g') ∧ run_result f content l g g' parts cur.
Proof.
  revert content g. induction evs as [|e evs IH]; intros content g Hw Hok; cbv zeta.
  { cbn [shown filter list_filter total_cost]. destruct (_ && _) eqn:E.
    - apply andb_true_iff in E as [_ E%Z.ltb_lt]. pose proof (wr_bytes _ _ _ Hw).
      unfold total_cost in E. cbn in E. lia.
    - exists g, [], content. split; [done|]. by apply run_result_nil. }
  apply Forall_cons in Hok as [He Hok]. cbn [log_run]. unfold LOG_DEPTH, st_bind, shown. rewrite filter_cons.
  destruct (decide (lg_level g <= ev_level e)) as [Hlevel|Hlevel].
  2: { rewrite log_message_skipped by lia. by apply IH. }
  pose proof (shown_ok (lg_level g) evs Hok) as Hl. fold (shown (lg_level g) evs) in *.
  rewrite total_cost_cons. pose proof (total_cost_nonneg (shown (lg_level g) evs)).
  rewrite (log_message_step 0 f) by (done || apply Hw).
  destruct (Z.leb_spec (lg_bytes_written g + ev_cost e) MAX_LOG_SIZE) as [Hle|Hgt].
  - pose proof (ev_cost_range e). pose proof (wr_bytes _ _ _ Hw).
    set (g1 := logged _ _ _ _). specialize (IH (content ++ ev_line e) g1). cbv zeta in IH.
    cbn [g1 logged lg_level lg_bytes_written] in IH. rewrite <- Z.add_assoc in IH.
    assert (writing f (content ++ ev_line e) g1) as Hw1.
    { eapply writing_logged; [done| |lia]. erewrite appended_content by apply Hw. apply lookup_insert_eq. }
    specialize (IH Hw1 Hok). destruct (_ && _); [done|]. destruct IH as (g' & parts & cur & Hrun & Hres).
    exists g', parts, cur. split; [done|]. by apply run_result_cons.
  - rewrite (proj2 (Z.ltb_lt MAX_LOG_SIZE _)) by lia. rewrite andb_true_r.
    destruct (Z.leb_spec (lg_level g) LOG_LEVEL_INFO) as [|Hhigh]; [done|].
    set (g1 := logged _ _ _ _). specialize (IH [] g1). cbv zeta in IH.
    cbn [g1 logged lg_level lg_bytes_written] in IH.
    assert (writing f [] g1) as Hw1.
    { eapply writing_logged; [done| |by vm_compute]. erewrite appended_content by apply Hw.
      erewrite rotate_files_eq; [apply lookup_insert_eq|apply Hw|apply He|apply lookup_insert_eq]. }
    rewrite (proj2 (Z.leb_gt _ _)) in IH by done. cbn [andb] in IH.
    destruct (IH Hw1 Hok) as (g' & parts & cur & Hrun & Hres).
    eexists g', _, cur. split; [done|]. by apply run_result_rotated.
Qed.

(** C37: A logger with its file open, whose name has at most 495 bytes, on any
    sequence of messages, where the file can always be renamed and opened again. If
    informational messages are logged, as by default, it writes them all until the
    counted size passes the limit of 100 MiB, and then waits for ever for the lock it
    holds: renaming the file logs such a message. With a higher level set it returns
    on every sequence: what it has renamed, in order, and the current file are the
    lines of the messages of a level that is logged, each with the time and cut to
    4095 bytes, all of them and in order, after what was there before. The renamed
    files are all there if no two were renamed in the same second; a second one of the
    same name takes the place of the first. A file is renamed as soon as the counted
    size passes the limit: none is larger than the limit and one message, provided
    the file held no more at the start than had been counted; the log of an earlier
    run, which is appended to and not counted, may. Syslog gets the same messages, if it is enabled, and the
    standard error stream the lines of errors and critical messages; the lock is free
    again. *)
Theorem log_stream_rotates f content evs g :
  writing f content g → Forall ev_ok evs →
  let l := shown (lg_level g) evs in
  if (lg_level g <=? LOG_LEVEL_INFO) && (MAX_LOG_SIZE <? lg_bytes_written g + total_cost l)
  then log_run evs g = Undef SelfDeadlock
  else ∃ g' parts cur, log_run evs g = Ok ((), g') ∧ run_result f content l g g' parts cur ∧
    (NoDup parts.*1 → Forall (λ p, lg_files g' !! p.1 = Some p.2) parts).
Proof.
  intros Hw Hok l. pose proof (log_stream_split f content evs g Hw Hok) as H. cbv zeta in H. fold l in H.
  destruct (_ && _); [done|]. destruct H as (g' & parts & cur & Hrun & Hres). exists g', parts, cur.
  split; [done|]. split; [done|]. eapply run_result_kept; [|done]. by apply shown_ok.
Qed.

(** ** Opening the log *)

(** Far from the limit a message is written, whatever is open. *)
Lemma log_message_small n env level text g :
  lg_locked g = false → 0 <= lg_bytes_written g <= MAX_LOG_SIZE - 4159 →
  LOG_LEVEL_DEBUG <= level <= LOG_LEVEL_CRITICAL →
  log_message (S n) env level text g =
    let e := LogEvent env level text in
    if level <? lg_level g then Ok ((), g)
    else match lg_fp g with
         | Some f => Ok ((), logged e (appended f e g) (lg_bytes_written g + ev_cost e) g)
         | None => Ok ((), logged e (lg_files g) (lg_bytes_written g) g)
         end.
Proof.
  intros Hlock Hbytes Hl. cbv zeta. pose proof (ev_cost_range (LogEvent env level text)) as Hk.
  cbn [log_message]. unfold st_bind at 1, st_get. destruct (level <? lg_level g); [done|].
  fold (kept text).
  change (use_syslog <- st_gets lg_use_syslog ;; _) with
    (log_sinks level (timestamp (le_now env)) (kept text)).
  rewrite at_level_strings by done.
  destruct g as [fp file lv sy lk by_ fs sl er]. cbn in Hlock, Hbytes. subst lk.
  unfold mutex_lock, file_write, st_lift, st_bind, st_modify, st_gets, st_ret, set_bytes, set_locked, on_files.
  lg_fields. change (log_sinks level (timestamp (le_now env)) (kept text)) with
    (let e := LogEvent env level text in
     log_sinks (ev_level e) (timestamp (le_now (ev_env e))) (kept (ev_text e))).
  cbv zeta. destruct fp as [f|].
  - lg_fields. change (Z.of_nat (length (kept text)) + 64) with (ev_cost (LogEvent env level text)).
    rewrite u64_small by (unfold MAX_LOG_SIZE in *; lia).
    rewrite (proj2 (Z.ltb_ge _ _)) by lia. rewrite log_sinks_logged by done. reflexivity.
  - rewrite log_sinks_logged by done. reflexivity.
Qed.

(** The result of [logger_init] at the start of the program. *)
Lemma logger_init_Ok strdup_ok fopen_ok env file level use_syslog fs :
  LOG_LEVEL_DEBUG <= level <= LOG_LEVEL_CRITICAL →
  ∃ g, logger_init strdup_ok fopen_ok env file level use_syslog (logger_start fs) =
    Ok (match file with Some _ => if strdup_ok && fopen_ok then 0 else -1 | None => 0 end, g).
Proof.
  intros Hl. unfold logger_init, logger_start, mutex_lock, mutex_unlock, open_append, set_mode, set_locked,
    set_log_file, set_fp, on_files, st_lift, st_bind, st_modify, st_ret.
  rewrite at_level_strings by done. unfold LOG_DEPTH.
  destruct file as [f|]; [destruct strdup_ok, fopen_ok|]; lg_fields; cbn [andb negb]; lg_fields;
    first [by eexists | rewrite log_message_small by (done || by vm_compute); lg_fields;
                        destruct (_ <? _); by eexists].
Qed.

(** ** Witness *)

(** A warning, a message below the level, and an error, to a file 10 bytes below the
    limit. *)
Definition example_env : log_env :=
  LogEnv (Tm 126 0 31 23 59 59) (Tm 126 1 1 0 0 0) true true.
Definition example_events : list log_event :=
  [LogEvent example_env LOG_LEVEL_WARN (bytes_of "full");
   LogEvent example_env LOG_LEVEL_DEBUG (bytes_of "not logged");
   LogEvent example_env LOG_LEVEL_ERROR (bytes_of "next")].
Definition example_logger (level : Z) : logger :=
  Logger (Some (bytes_of "log")) (Some (bytes_of "log")) level false false (MAX_LOG_SIZE - 10)
    {[bytes_of "log" := bytes_of "before"]} [] [].

(** The lines of the example, and the name of its rotated file. *)
Example example_lines :
  ev_line <$> shown LOG_LEVEL_WARN example_events =
    [bytes_of "[2026-01-31 23:59:59] [WARN] full" ++ [10]; bytes_of "[2026-01-31 23:59:59] [ERROR] next" ++ [10]] ∧
  rotated_name (bytes_of "log") (le_rotated example_env) = bytes_of "log.20260201_000000".
Proof. by split; vm_compute. Qed.

Lemma log_stream_rotates_witness :
  (∃ g' parts cur, log_run example_events (example_logger LOG_LEVEL_WARN) = Ok ((), g') ∧
     parts ≠ [] ∧
     run_result (bytes_of "log") (bytes_of "before") (shown LOG_LEVEL_WARN example_events)
       (example_logger LOG_LEVEL_WARN) g' parts cur ∧
     (NoDup parts.*1 → Forall (λ p, lg_files g' !! p.1 = Some p.2) parts)) ∧
  log_run example_events (example_logger LOG_LEVEL_INFO) = Undef SelfDeadlock.
Proof.
  assert (∀ level, writing (bytes_of "log") (bytes_of "before") (example_logger level)) as Hw.
  { intros level. constructor; cbn [example_logger lg_fp lg_log_file lg_locked lg_files lg_bytes_written];
      [done..|apply lookup_singleton_eq|by vm_compute|unfold name_fits; cbn; lia]. }
  assert (Forall ev_ok example_events) as Hok.
  { repeat constructor; cbn; unfold LOG_LEVEL_CRITICAL, LOG_LEVEL_DEBUG, LOG_LEVEL_WARN, LOG_LEVEL_ERROR; lia. }
  split.
  - destruct (log_stream_rotates (bytes_of "log") (bytes_of "before") example_events
      (example_logger LOG_LEVEL_WARN) (Hw _) Hok) as (g' & parts & cur & Hrun & Hres & Hkept).
    exists g', parts, cur. split; [exact Hrun|]. split; [|split; [exact Hres|exact Hkept]].
    intros Hp. apply (rr_rotated _ _ _ _ _ _ _ Hres) in Hp. revert Hp. by vm_compute.
  - exact (log_stream_rotates (bytes_of "log") (bytes_of "before") example_events
      (example_logger LOG_LEVEL_INFO) (Hw _) Hok).
Defined.
