(* ===== verification/Xdp.v ===== *)
(** * The kernel filter

    [ebpf/xdp_filter.c]: one run of the XDP program on a frame. A frame is the
    list of its bytes, so that [data_end] is its length and the pointer
    comparisons are comparisons of offsets; a load outside it is undefined. The
    two hash maps hold the addresses user space has put in them; the per-CPU
    array is the current CPU's. The first part is the program, the second the
    decision it implements and what a sequence of frames leaves in the maps. *)

From S2P Require Import Prelude.

Record xdp_maps := XdpMaps {
  blacklist : gmap Z Z;      (* IPv4 address -> timestamp *)
  whitelist : gmap Z Z;      (* IPv4 address -> dummy *)
  xstats : list Z            (* uint64_t, a slot per key *)
}.

(** [max_entries] of the array [stats]; six of them are used. *)
Definition XDP_STATS_ENTRIES : nat := 256.
Definition no_stats : list Z := replicate XDP_STATS_ENTRIES 0.

Inductive xdp_action := XDP_DROP | XDP_PASS.

#[global] Instance xdp_action_eq_dec : EqDecision xdp_action.
Proof. solve_decision. Defined.

Definition STAT_TOTAL_PACKETS : nat := 0.
Definition STAT_DROPPED_PACKETS : nat := 1.
Definition STAT_PASSED_PACKETS : nat := 2.
Definition STAT_SYN_PACKETS : nat := 3.
Definition STAT_UDP_PACKETS : nat := 4.
Definition STAT_ICMP_PACKETS : nat := 5.

Definition ETH_P_IP : Z := 0x0800.
Definition IPPROTO_ICMP : Z := 1.
Definition IPPROTO_TCP : Z := 6.
Definition IPPROTO_UDP : Z := 17.
Definition XDP_ICMP_REDIRECT : Z := 5.

(** The sizes of the kernel's header structs. *)
Definition ethhdr_size : Z := 14.
Definition iphdr_size : Z := 20.
Definition tcphdr_size : Z := 20.
Definition udphdr_size : Z := 8.
Definition icmphdr_size : Z := 8.

Definition add_stat (key : nat) (delta : Z) (s : list Z) : list Z := alter (λ v, v +₆₄ delta) key s.

(** A key without a slot is left alone. *)
Definition update_stat (key : nat) (delta : Z) : st xdp_maps unit :=
  st_modify (λ m, XdpMaps (blacklist m) (whitelist m) (add_stat key delta (xstats m))).

(** [p + 1 > data_end] for a struct of [n] bytes at [p]. *)
Definition beyond (frame : list Z) (p n : Z) : bool := Z.of_nat (length frame) <? p + n.

Definition parse_eth (frame : list Z) : Z :=
  if beyond frame 0 ethhdr_size then -1 else 0.

Definition parse_ipv4 (frame : list Z) : res Z :=
  if beyond frame ethhdr_size iphdr_size then Ok (-1)
  else
    let* b := rd8 frame ethhdr_size in
    Ok (if Z.land b 0x0F <? 5 then -1 else 0).

Definition xdp_pass : st xdp_maps xdp_action :=
  update_stat STAT_PASSED_PACKETS 1 ;; st_ret XDP_PASS.
Definition xdp_drop : st xdp_maps xdp_action :=
  update_stat STAT_DROPPED_PACKETS 1 ;; st_ret XDP_DROP.

(** The fragment field is read and nothing is done with it. *)
Definition fragment_checks (frame : list Z) : st xdp_maps xdp_action :=
  _ <- st_lift (rd_be16 frame (ethhdr_size + 6)) ;; xdp_pass.

Definition filter_tcp (frame : list Z) (tcp : Z) : st xdp_maps xdp_action :=
  if beyond frame tcp tcphdr_size then xdp_drop
  else
    b <- st_lift (rd8 frame (tcp + 13)) ;;
    let fin := Z.testbit b 0 in let syn := Z.testbit b 1 in let rst := Z.testbit b 2 in
    let psh := Z.testbit b 3 in let ack := Z.testbit b 4 in let urg := Z.testbit b 5 in
    (if syn && negb ack then update_stat STAT_SYN_PACKETS 1 else st_ret ()) ;;
    if syn && fin then xdp_drop
    else if syn && rst then xdp_drop
    else if negb syn && negb ack && negb fin && negb rst && negb psh && negb urg then xdp_drop
    else fragment_checks frame.

Definition filter_udp (frame : list Z) (udp : Z) : st xdp_maps xdp_action :=
  if beyond frame udp udphdr_size then xdp_drop
  else
    update_stat STAT_UDP_PACKETS 1 ;;
    sport <- st_lift (rd_be16 frame udp) ;;
    if (sport =? 53) || (sport =? 123) || (sport =? 1900) || (sport =? 11211) then
      ulen <- st_lift (rd_be16 frame (udp + 4)) ;;
      let payload_len := u16 (ulen - udphdr_size) in
      if 512 <? payload_len then xdp_drop else fragment_checks frame
    else fragment_checks frame.

Definition filter_icmp (frame : list Z) (icmp : Z) : st xdp_maps xdp_action :=
  if beyond frame icmp icmphdr_size then xdp_drop
  else
    update_stat STAT_ICMP_PACKETS 1 ;;
    type <- st_lift (rd8 frame icmp) ;;
    if type =? XDP_ICMP_REDIRECT then xdp_drop
    else
      tot <- st_lift (rd_be16 frame (ethhdr_size + 2)) ;;
      if 1500 <? tot then xdp_drop else fragment_checks frame.

(** [iph->saddr], as the little-endian machine loads it. *)
Definition saddr (frame : list Z) : res Z :=
  let* b := rd_bytes frame (ethhdr_size + 12) 4 in Ok (le32 b).

Definition filter_protocol (frame : list Z) : st xdp_maps xdp_action :=
  proto <- st_lift (rd8 frame (ethhdr_size + 9)) ;;
  b0 <- st_lift (rd8 frame ethhdr_size) ;;
  let transport := ethhdr_size + Z.land b0 0x0F * 4 in
  if proto =? IPPROTO_TCP then filter_tcp frame transport
  else if proto =? IPPROTO_UDP then filter_udp frame transport
  else if proto =? IPPROTO_ICMP then filter_icmp frame transport
  else fragment_checks frame.

Definition xdp_ddos_filter (frame : list Z) : st xdp_maps xdp_action :=
  update_stat STAT_TOTAL_PACKETS 1 ;;
  if parse_eth frame <? 0 then xdp_pass
  else
    h_proto <- st_lift (rd_be16 frame 12) ;;
    if negb (h_proto =? ETH_P_IP) then xdp_pass
    else
      rc <- st_lift (parse_ipv4 frame) ;;
      if rc <? 0 then xdp_drop
      else
        src_ip <- st_lift (saddr frame) ;;
        white <- st_gets (λ m, whitelist m !! src_ip) ;;
        match white with
        | Some _ => xdp_pass
        | None =>
            blocked_time <- st_gets (λ m, blacklist m !! src_ip) ;;
            match blocked_time with
            | Some _ => update_stat STAT_DROPPED_PACKETS 1 ;; xdp_drop
            | None => filter_protocol frame
            end
        end.

(** ** The decision

    A reference for the program: the fields of a frame as functions of its
    bytes, the action, and how often each counter is incremented. *)

Definition byte_at (frame : list Z) (k : Z) : Z := default 0 (frame !! Z.to_nat k).
Definition be16_at (frame : list Z) (k : Z) : Z := byte_at frame k * 256 + byte_at frame (k + 1).

Definition ihl (frame : list Z) : Z := Z.land (byte_at frame 14) 0x0F.
Definition source (frame : list Z) : Z := le32 (take 4 (drop 26 frame)).
Definition transport_at (frame : list Z) : Z := 14 + 4 * ihl frame.
(** The frame has [n] bytes of transport header. *)
Definition has_transport (frame : list Z) (n : Z) : bool :=
  transport_at frame + n <=? Z.of_nat (length frame).
Definition flag (frame : list Z) (i : Z) : bool :=
  Z.testbit (byte_at frame (transport_at frame + 13)) i.

Inductive frame_class : Set :=
  | NotIpv4 | BadHeader | Whitelisted | Blacklisted
  | Tcp (short : bool) | Udp (short : bool) | Icmp (short : bool) | Other.

#[global] Instance frame_class_eq_dec : EqDecision frame_class.
Proof. solve_decision. Defined.

Definition classify (frame : list Z) (m : xdp_maps) : frame_class :=
  if (Z.of_nat (length frame) <? 14) || negb (be16_at frame 12 =? ETH_P_IP) then NotIpv4
  else if (Z.of_nat (length frame) <? 34) || (ihl frame <? 5) then BadHeader
  else if bool_decide (is_Some (whitelist m !! source frame)) then Whitelisted
  else if bool_decide (is_Some (blacklist m !! source frame)) then Blacklisted
  else if byte_at frame 23 =? IPPROTO_TCP then Tcp (negb (has_transport frame 20))
  else if byte_at frame 23 =? IPPROTO_UDP then Udp (negb (has_transport frame 8))
  else if byte_at frame 23 =? IPPROTO_ICMP then Icmp (negb (has_transport frame 8))
  else Other.

(** Flag 1 is SYN, 0 FIN, 2 RST; a segment without any of the six is dropped. *)
Definition bad_flags (frame : list Z) : bool :=
  (flag frame 1 && (flag frame 0 || flag frame 2)) ||
  (Z.land (byte_at frame (transport_at frame + 13)) 0x3F =? 0).

(** A response of an amplification service that is long, or shorter than its
    own header. *)
Definition reflection (frame : list Z) : bool :=
  let sport := be16_at frame (transport_at frame) in
  let ulen := be16_at frame (transport_at frame + 4) in
  bool_decide (sport ∈ [53; 123; 1900; 11211]) && ((ulen <? 8) || (520 <? ulen)).

Definition bad_icmp (frame : list Z) : bool :=
  (byte_at frame (transport_at frame) =? XDP_ICMP_REDIRECT) || (1500 <? be16_at frame 16).

Definition action (frame : list Z) (c : frame_class) : xdp_action :=
  match c with
  | NotIpv4 | Whitelisted | Other => XDP_PASS
  | BadHeader | Blacklisted | Tcp true | Udp true | Icmp true => XDP_DROP
  | Tcp false => if bad_flags frame then XDP_DROP else XDP_PASS
  | Udp false => if reflection frame then XDP_DROP else XDP_PASS
  | Icmp false => if bad_icmp frame then XDP_DROP else XDP_PASS
  end.

(** A frame of a blacklisted source is counted as dropped twice. *)
Definition increments (frame : list Z) (c : frame_class) : list nat :=
  [STAT_TOTAL_PACKETS] ++
  match c with
  | Blacklisted => [STAT_DROPPED_PACKETS]
  | Tcp false => if flag frame 1 && negb (flag frame 4) then [STAT_SYN_PACKETS] else []
  | Udp false => [STAT_UDP_PACKETS]
  | Icmp false => [STAT_ICMP_PACKETS]
  | _ => []
  end ++
  [match action frame c with XDP_PASS => STAT_PASSED_PACKETS | XDP_DROP => STAT_DROPPED_PACKETS end].

Definition count_all (keys : list nat) (s : list Z) : list Z := foldl (λ s k, add_stat k 1 s) s keys.

(** ** The program implements it *)

Definition counted (keys : list nat) (m : xdp_maps) : xdp_maps :=
  XdpMaps (blacklist m) (whitelist m) (count_all keys (xstats m)).

Lemma is_Some_decide {A} (o : option A) :
  bool_decide (is_Some o) = match o with Some _ => true | None => false end.
Proof. by destruct o. Qed.

Lemma rd8_at frame k :
  0 <= k < Z.of_nat (length frame) → rd8 frame k = Ok (byte_at frame k).
Proof.
  intros Hk. apply rd8_Ok. split; [lia|]. unfold byte_at.
  destruct (lookup_lt_is_Some_2 frame (Z.to_nat k)) as [b ->]; [lia|done].
Qed.

Lemma rd_be16_at frame k :
  0 <= k → k + 2 <= Z.of_nat (length frame) → rd_be16 frame k = Ok (be16_at frame k).
Proof. intros Hk Hl. unfold rd_be16. by rewrite !rd8_at by lia. Qed.

Lemma be16_at_range frame k :
  bytes_ok frame → 0 <= k → k + 2 <= Z.of_nat (length frame) → 0 <= be16_at frame k < 65536.
Proof.
  intros Hb Hk Hl. assert (∀ i, 0 <= i < Z.of_nat (length frame) → byte_ok (byte_at frame i)) as H.
  { intros i Hi. pose proof (rd8_at frame i Hi) as [_ Hr]%rd8_Ok.
    exact (proj1 (Forall_lookup _ _) Hb _ _ Hr). }
  unfold be16_at. pose proof (H k ltac:(lia)). pose proof (H (k + 1) ltac:(lia)).
  unfold byte_ok in *. lia.
Qed.

Lemma saddr_at frame : 34 <= Z.of_nat (length frame) → saddr frame = Ok (source frame).
Proof.
  intros Hl. unfold saddr, source, rd_bytes, ethhdr_size. rewrite !rd8_at by lia. cbn [rbind].
  unfold byte_at.
  rewrite <- (take_drop 26 frame) at 1 2 3 4.
  rewrite !lookup_app_r, !length_take by (rewrite length_take; lia).
  assert (4 <= length (drop 26 frame))%nat as Hd by (rewrite length_drop; lia).
  rewrite (Nat.min_l 26) by lia.
  destruct (drop 26 frame) as [|a [|b [|c [|d l]]]]; simpl in Hd; try lia. done.
Qed.

(** The six flag bits. *)
Lemma low_flags_zero b :
  (Z.land b 0x3F =? 0) = negb (Z.testbit b 1) && negb (Z.testbit b 4) && negb (Z.testbit b 0) &&
    negb (Z.testbit b 2) && negb (Z.testbit b 3) && negb (Z.testbit b 5).
Proof.
  apply eq_true_iff_eq. rewrite Z.eqb_eq, !andb_true_iff, !negb_true_iff. split.
  - intros H. assert (∀ i, 0 <= i < 6 → Z.testbit b i = false) as Hi; [|split_and!; apply Hi; lia].
    intros i Hi. pose proof (f_equal (λ v, Z.testbit v i) H) as Hb. cbv beta in Hb.
    rewrite Z.land_spec, Z.bits_0 in Hb. change 0x3F with (Z.ones 6) in Hb.
    by rewrite Z.ones_spec_low, andb_true_r in Hb by lia.
  - intros H. apply Z.bits_inj'. intros i Hi. rewrite Z.land_spec, Z.bits_0.
    destruct (decide (i < 6)).
    + assert (i = 0 ∨ i = 1 ∨ i = 2 ∨ i = 3 ∨ i = 4 ∨ i = 5) as Hc by lia.
      destruct_and! H. by destruct Hc as [->|[->|[->|[->|[->| ->]]]]]; apply andb_false_intro1.
    + change 0x3F with (Z.ones 6). by rewrite Z.ones_spec_high, andb_false_r by lia.
Qed.

Section protocols.
Context (frame : list Z) (m : xdp_maps).
Hypothesis Hbytes : bytes_ok frame.
Hypothesis Hlen : 34 <= Z.of_nat (length frame).
Hypothesis Hihl : 5 <= ihl frame.

Lemma fragment_checks_spec m' :
  fragment_checks frame m' = Ok (XDP_PASS, counted [STAT_PASSED_PACKETS] m').
Proof.
  unfold fragment_checks, st_bind, st_lift, ethhdr_size. by rewrite rd_be16_at by lia.
Qed.

Lemma beyond_transport n : beyond frame (transport_at frame) n = negb (has_transport frame n).
Proof. unfold beyond, has_transport. by rewrite Z.ltb_antisym. Qed.

(** What follows the count of all packets, for a class of frames. *)
Definition rest (c : frame_class) : res (xdp_action * xdp_maps) :=
  Ok (action frame c, counted (tail (increments frame c)) m).

Lemma filter_tcp_spec :
  filter_tcp frame (transport_at frame) m = rest (Tcp (negb (has_transport frame 20))).
Proof.
  unfold filter_tcp, tcphdr_size. rewrite beyond_transport.
  destruct (has_transport frame 20) eqn:Ht; cbn [negb]; [|done].
  apply Z.leb_le in Ht. unfold st_bind, st_lift. rewrite rd8_at by (unfold transport_at in *; lia).
  unfold rest, increments, action, bad_flags. cbn [tail app].
  rewrite low_flags_zero. unfold flag. cbv zeta.
  destruct (Z.testbit _ 1), (Z.testbit _ 0), (Z.testbit _ 2), (Z.testbit _ 4), (Z.testbit _ 3),
    (Z.testbit _ 5); cbn [andb orb negb]; try reflexivity; unfold update_stat, st_modify, st_ret;
    by rewrite fragment_checks_spec.
Qed.

Lemma reflection_length ulen :
  0 <= ulen < 65536 → (512 <? u16 (ulen - udphdr_size)) = (ulen <? 8) || (520 <? ulen).
Proof.
  intros Hu. unfold udphdr_size. apply eq_true_iff_eq. rewrite orb_true_iff, !Z.ltb_lt.
  destruct (decide (ulen < 8)).
  - replace (u16 (ulen - 8)) with (ulen - 8 + 65536) by cint. lia.
  - rewrite u16_small by (split; [lia|]; change (2 ^ 16) with 65536; lia). lia.
Qed.

Lemma filter_udp_spec :
  filter_udp frame (transport_at frame) m = rest (Udp (negb (has_transport frame 8))).
Proof.
  unfold filter_udp, udphdr_size. rewrite beyond_transport.
  destruct (has_transport frame 8) eqn:Ht; cbn [negb]; [|done].
  apply Z.leb_le in Ht. unfold st_bind, st_lift, update_stat, st_modify.
  rewrite !rd_be16_at by (unfold transport_at in *; lia).
  fold udphdr_size. rewrite reflection_length
    by (apply be16_at_range; [done|unfold transport_at in *; lia..]).
  unfold rest, increments, action, reflection. cbn [tail app]. cbv zeta.
  replace (bool_decide (be16_at frame (transport_at frame) ∈ [53; 123; 1900; 11211]))
    with ((be16_at frame (transport_at frame) =? 53) || (be16_at frame (transport_at frame) =? 123) ||
          (be16_at frame (transport_at frame) =? 1900) ||
          (be16_at frame (transport_at frame) =? 11211)).
  - destruct (_ || (_ =? 11211)); cbn [andb]; [destruct (_ || _); [done|]|];
      by rewrite fragment_checks_spec.
  - apply eq_true_iff_eq.
    rewrite bool_decide_eq_true, !elem_of_cons, elem_of_nil, !orb_true_iff, !Z.eqb_eq. tauto.
Qed.

Lemma filter_icmp_spec :
  filter_icmp frame (transport_at frame) m = rest (Icmp (negb (has_transport frame 8))).
Proof.
  unfold filter_icmp, icmphdr_size. rewrite beyond_transport.
  destruct (has_transport frame 8) eqn:Ht; cbn [negb]; [|done].
  apply Z.leb_le in Ht. unfold st_bind, st_lift, update_stat, st_modify.
  rewrite rd8_at by (unfold transport_at in *; lia).
  unfold rest, increments, action, bad_icmp, ethhdr_size. cbn [tail app].
  destruct (_ =? XDP_ICMP_REDIRECT); cbn [orb]; [done|].
  rewrite rd_be16_at by lia. change (14 + 2) with 16.
  destruct (1500 <? _); [done|]. by rewrite fragment_checks_spec.
Qed.

Lemma filter_protocol_spec :
  filter_protocol frame m =
    rest (if byte_at frame 23 =? IPPROTO_TCP then Tcp (negb (has_transport frame 20))
          else if byte_at frame 23 =? IPPROTO_UDP then Udp (negb (has_transport frame 8))
          else if byte_at frame 23 =? IPPROTO_ICMP then Icmp (negb (has_transport frame 8))
          else Other).
Proof.
  unfold filter_protocol, st_bind, st_lift, ethhdr_size. rewrite !rd8_at by lia.
  change (14 + 9) with 23. fold (ihl frame). cbv zeta.
  replace (14 + ihl frame * 4) with (transport_at frame) by (unfold transport_at; lia).
  destruct (_ =? IPPROTO_TCP); [by rewrite filter_tcp_spec|].
  destruct (_ =? IPPROTO_UDP); [by rewrite filter_udp_spec|].
  destruct (_ =? IPPROTO_ICMP); [by rewrite filter_icmp_spec|]. by rewrite fragment_checks_spec.
Qed.
End protocols.

(** On every frame, of whatever length and content, the kernel filter returns
    without loading a byte outside it; its action is the one of the decision
    table; it increments exactly the counters of the table, which counts a frame
    of a blacklisted source as dropped twice, and leaves both address maps as
    they were. *)
Theorem xdp_filter_refines frame m :
  bytes_ok frame →
  let c := classify frame m in
  xdp_ddos_filter frame m =
    Ok (action frame c,
        XdpMaps (blacklist m) (whitelist m) (count_all (increments frame c) (xstats m))).
Proof.
  intros Hb c. unfold xdp_ddos_filter, parse_eth, parse_ipv4, beyond, st_bind, st_lift, st_gets.
  unfold c, classify. unfold update_stat at 1, st_modify at 1.
  unfold ethhdr_size at 1. change (0 + 14) with 14. cbn [blacklist whitelist xstats].
  destruct (Z.ltb_spec (Z.of_nat (length frame)) 14) as [|H14]; [done|]. cbn [orb].
  change (0 <? 0) with false. cbv iota. rewrite rd_be16_at by lia.
  destruct (be16_at frame 12 =? ETH_P_IP); cbn [negb]; [|done].
  unfold ethhdr_size, iphdr_size. change (14 + 20) with 34.
  destruct (Z.ltb_spec (Z.of_nat (length frame)) 34) as [|H34]; [done|]. cbn [orb].
  rewrite rd8_at by lia. cbn [rbind]. fold (ihl frame).
  destruct (Z.ltb_spec (ihl frame) 5) as [|H5]; [done|].
  change (0 <? 0) with false. cbv iota. rewrite saddr_at by lia.
  rewrite !is_Some_decide. cbn [blacklist whitelist xstats].
  destruct (whitelist m !! source frame); [done|]. cbn [blacklist whitelist xstats].
  destruct (blacklist m !! source frame); [done|].
  by rewrite filter_protocol_spec.
Qed.

(** A frame with the given protocol, source port and UDP length field. *)
Definition example_frame (proto : Z) (body : list Z) : list Z :=
  replicate 12 0 ++ [8; 0] ++
  [0x45; 0; 0; 40; 0; 1; 0; 0; 64; proto; 0; 0; 10; 0; 0; 1; 10; 0; 0; 2] ++ body.

(** A DNS response of 600 bytes; a SYN of a blacklisted source. *)
Lemma xdp_filter_refines_witness :
  let dns := example_frame 17 [0; 53; 0x10; 0; 0x02; 0x58; 0; 0] in
  let syn := example_frame 6 (replicate 13 0 ++ 0x02 :: replicate 6 0) in
  xdp_ddos_filter dns (XdpMaps ∅ ∅ no_stats) =
    Ok (XDP_DROP, XdpMaps ∅ ∅ ([1; 1; 0; 0; 1; 0] ++ replicate 250 0)) ∧
  xdp_ddos_filter syn (XdpMaps {[ 16777226 := 1 ]} ∅ no_stats) =
    Ok (XDP_DROP, XdpMaps {[ 16777226 := 1 ]} ∅ ([1; 2; 0; 0; 0; 0] ++ replicate 250 0)).
Proof.
  split; (etransitivity; [apply xdp_filter_refines|by vm_compute]);
    apply (bool_decide_unpack _); vm_compute; exact I.
Defined.

(** A whitelisted source passes, blacklisted or not: the code looks at the whitelist
    first. *)
Lemma whitelist_wins frame m :
  34 <= Z.of_nat (length frame) → be16_at frame 12 = ETH_P_IP → 5 <= ihl frame →
  is_Some (whitelist m !! source frame) →
  action frame (classify frame m) = XDP_PASS.
Proof.
  intros Hl He Hi Hw. unfold classify. rewrite He, Z.eqb_refl.
  rewrite !(proj2 (Z.ltb_ge _ _)) by lia. cbn [negb orb].
  by rewrite bool_decide_eq_true_2.
Qed.

(** ** Many frames *)

(** The filter on one frame after the other. *)
Fixpoint xdp_run (frames : list (list Z)) : st xdp_maps (list xdp_action) :=
  match frames with
  | [] => st_ret []
  | f :: frames' => a <- xdp_ddos_filter f ;; l <- xdp_run frames' ;; st_ret (a :: l)
  end.

Definition occurrences (k : nat) (keys : list nat) : Z := Z.of_nat (length (filter (λ x, x = k) keys)).
Definition stat (k : nat) (m : xdp_maps) : Z := default 0 (xstats m !! k).
Definition slots_ok (m : xdp_maps) : Prop :=
  length (xstats m) = XDP_STATS_ENTRIES ∧ Forall (λ v, 0 <= v < 2 ^ 64) (xstats m).

Lemma occurrences_app k l1 l2 : occurrences k (l1 ++ l2) = occurrences k l1 + occurrences k l2.
Proof. unfold occurrences. rewrite filter_app, length_app. lia. Qed.

Lemma count_all_length keys s : length (count_all keys s) = length s.
Proof.
  unfold count_all. revert s. induction keys as [|k keys IH]; intros s; [done|]. cbn [foldl].
  rewrite IH. apply length_alter.
Qed.

(** A counter grows by its occurrences. *)
Lemma count_all_lookup k keys s :
  Forall (λ v, 0 <= v < 2 ^ 64) s →
  count_all keys s !! k = (λ v, u64 (v + occurrences k keys)) <$> s !! k.
Proof.
  unfold count_all. revert s. induction keys as [|key keys IH]; intros s Hs; cbn [foldl].
  - destruct (s !! k) as [v|] eqn:Hv; [|done]. cbn. rewrite Z.add_0_r, u64_small; [done|].
    exact (proj1 (Forall_lookup _ _) Hs _ _ Hv).
  - rewrite IH by (apply Forall_alter; [done|]; intros; apply u64_range). unfold add_stat.
    unfold occurrences. rewrite filter_cons. destruct (decide (key = k)) as [->|Hne].
    + rewrite list_lookup_alter_eq. destruct (s !! k) as [v|]; [|done]. cbn. f_equal.
      unfold u64. rewrite Zplus_mod_idemp_l. f_equal. lia.
    + by rewrite list_lookup_alter_ne.
Qed.

(** The increments of one frame: once in all, once more for the action, and once
    more for a blacklisted source. *)
Lemma increments_occurrences frame c :
  occurrences STAT_TOTAL_PACKETS (increments frame c) = 1 ∧
  occurrences STAT_PASSED_PACKETS (increments frame c) = (if decide (action frame c = XDP_PASS) then 1 else 0) ∧
  occurrences STAT_DROPPED_PACKETS (increments frame c) =
    (if decide (action frame c = XDP_DROP) then 1 else 0) + (if decide (c = Blacklisted) then 1 else 0).
Proof.
  unfold increments. destruct c as [| | | |[]|[]|[]|]; try done; cbn [action];
    repeat case_match; done.
Qed.

Lemma classify_maps frame m s : classify frame (XdpMaps (blacklist m) (whitelist m) s) = classify frame m.
Proof. done. Qed.

Lemma xdp_run_spec frames m :
  Forall bytes_ok frames →
  xdp_run frames m =
    Ok ((λ f, action f (classify f m)) <$> frames,
        counted (concat ((λ f, increments f (classify f m)) <$> frames)) m).
Proof.
  intros Hb. revert m. induction Hb as [|f frames Hf Hb IH]; intros m; [by destruct m|].
  cbn [xdp_run]. unfold st_bind. rewrite xdp_filter_refines by done. rewrite IH.
  rewrite !fmap_cons. cbn [concat]. unfold counted, count_all. cbn [blacklist whitelist xstats].
  by rewrite foldl_app.
Qed.

(** C12: Over any sequence of frames, of whatever lengths and contents, the kernel
    filter returns on each without loading a byte outside it. Its actions are those
    of the decision table for the two address maps, which it leaves as they are; in
    the table the whitelist comes before the blacklist, as in the code.
    Its counters account for every frame: modulo 2^64 the total grows by their
    number, the passed by those passed, and the dropped by those dropped plus those
    of blacklisted sources, which are counted twice. *)
Theorem xdp_run_accounts frames m :
  Forall bytes_ok frames → slots_ok m →
  let number (P : list Z → Prop) `{∀ f, Decision (P f)} := Z.of_nat (length (filter P frames)) in
  ∃ m', xdp_run frames m = Ok ((λ f, action f (classify f m)) <$> frames, m') ∧
    blacklist m' = blacklist m ∧ whitelist m' = whitelist m ∧ slots_ok m' ∧
    stat STAT_TOTAL_PACKETS m' = stat STAT_TOTAL_PACKETS m +₆₄ Z.of_nat (length frames) ∧
    stat STAT_PASSED_PACKETS m' =
      stat STAT_PASSED_PACKETS m +₆₄ number (λ f, action f (classify f m) = XDP_PASS) ∧
    stat STAT_DROPPED_PACKETS m' =
      stat STAT_DROPPED_PACKETS m +₆₄
        (number (λ f, action f (classify f m) = XDP_DROP) + number (λ f, classify f m = Blacklisted)).
Proof.
  intros Hb [Hl Hs] number. eexists. split; [by apply xdp_run_spec|]. do 2 (split; [done|]).
  set (keys := concat _).
  assert (∀ k, (k < XDP_STATS_ENTRIES)%nat → stat k (counted keys m) = stat k m +₆₄ occurrences k keys) as Hstat.
  { intros k Hk. unfold stat, counted. cbn [xstats]. rewrite count_all_lookup by done.
    by destruct (lookup_lt_is_Some_2 (xstats m) k) as [v ->]; [lia|]. }
  split.
  { split; unfold counted; cbn [xstats]; [by rewrite count_all_length|]. apply Forall_lookup_2.
    intros k v Hv. rewrite count_all_lookup in Hv by done.
    destruct (xstats m !! k); [|done]. apply (inj Some) in Hv as <-. apply u64_range. }
  rewrite !Hstat by (unfold XDP_STATS_ENTRIES, STAT_TOTAL_PACKETS, STAT_PASSED_PACKETS, STAT_DROPPED_PACKETS; lia).
  assert (occurrences STAT_TOTAL_PACKETS keys = Z.of_nat (length frames) ∧
    occurrences STAT_PASSED_PACKETS keys = number (λ f, action f (classify f m) = XDP_PASS) _ ∧
    occurrences STAT_DROPPED_PACKETS keys =
      number (λ f, action f (classify f m) = XDP_DROP) _ + number (λ f, classify f m = Blacklisted) _)
    as (-> & -> & ->); [|done].
  unfold keys, number. clear. induction frames as [|f frames IH]; [done|].
  rewrite fmap_cons. cbn [concat]. rewrite !occurrences_app, !filter_cons.
  destruct IH as (-> & -> & ->), (increments_occurrences f (classify f m)) as (-> & -> & ->).
  split_and!; repeat case_decide; cbn [length]; lia.
Qed.

Lemma xdp_run_accounts_witness :
  let dns := example_frame 17 [0; 53; 0x10; 0; 0x02; 0x58; 0; 0] in
  let syn := example_frame 6 (replicate 13 0 ++ 0x02 :: replicate 6 0) in
  let m := XdpMaps {[ 16777226 := 1 ]} ∅ no_stats in
  ∃ m', xdp_run [dns; syn; [1; 2]] m = Ok ([XDP_DROP; XDP_DROP; XDP_PASS], m') ∧
    stat STAT_DROPPED_PACKETS m' = 4.
Proof.
  intros dns syn m. destruct (xdp_run_accounts [dns; syn; [1; 2]] m) as (m' & Hr & _ & _ & _ & _ & _ & Hd).
  - apply (bool_decide_unpack _). vm_compute. exact I.
  - split; [done|]. apply (bool_decide_unpack _). vm_compute. exact I.
  - exists m'. split; [exact Hr|exact Hd].
Defined.
