(* ===== verification/EbpfLoader.v ===== *)
(** * The loader of the kernel filter

    [src/filter/ebpf_loader.c]: the handle user space holds on the XDP program,
    next to the kernel's side of it, the maps of [Xdp]. Pointer arguments that
    the code tests are options; log messages are left out. *)

From S2P Require Import Prelude Common CString Xdp.

(** The two names are copies, which may have failed. *)
Record ebpf_program := EbpfProgram {
  eb_filename : option (list Z);
  eb_interface : option (list Z);
  eb_prog_fd : Z;
  eb_loaded : bool
}.

(** What the loader can act on: the maps in the kernel and the shell. *)
Record kernel := Kernel {
  k_maps : xdp_maps;
  k_commands : list (list Z)
}.

Definition ebpf_load_program (calloc_ok : bool) (strdup : list Z → option (list Z))
    (filename iface : list Z) : option ebpf_program :=
  if calloc_ok then Some (EbpfProgram (strdup filename) (strdup iface) (-1) true) else None.

(** [%s] with a null pointer is undefined. *)
Definition xdp_off (prog : ebpf_program) : res (list Z) :=
  match eb_interface prog with
  | None => Undef NullDeref
  | Some i => Ok (snprintf 256 (bytes_of "ip link set dev " ++ i ++ bytes_of " xdp off"))
  end.

Definition ebpf_unload_program (prog : option ebpf_program) : st kernel unit :=
  match prog with
  | None => st_ret ()
  | Some p =>
      if eb_loaded p then
        cmd <- st_lift (xdp_off p) ;;
        st_modify (λ k, Kernel (k_maps k) (k_commands k ++ [cmd]))
      else st_ret ()
  end.

Definition ebpf_update_map (prog : option ebpf_program) (map_name key value : option (list Z))
    : st kernel Z :=
  match prog, map_name, key, value with
  | Some _, Some _, Some _, Some _ => st_ret 0
  | _, _, _, _ => st_ret (-1)
  end.

Definition ebpf_delete_map (prog : option ebpf_program) (map_name key : option (list Z)) : st kernel Z :=
  match prog, map_name, key with
  | Some _, Some _, Some _ => st_ret 0
  | _, _, _ => st_ret (-1)
  end.

(** The result, and what is stored through [packets] and [bytes] when they are
    not null. *)
Definition ebpf_get_map_stats (prog : option ebpf_program) (map_name : option (list Z))
    (packets bytes : option Z) : Z * option Z * option Z :=
  match prog, map_name with
  | Some _, Some _ => (0, (λ _, 0) <$> packets, (λ _, 0) <$> bytes)
  | _, _ => (-1, packets, bytes)
  end.

(** The key is the address union, the value an [int] of 1. *)
Definition ebpf_blacklist_ip (prog : option ebpf_program) (ip : option ip_addr) : st kernel Z :=
  match prog, ip with
  | Some _, Some a => ebpf_update_map prog (Some (bytes_of "blacklist")) (Some (addr a)) (Some [1; 0; 0; 0])
  | _, _ => st_ret (-1)
  end.

Definition ebpf_whitelist_ip (prog : option ebpf_program) (ip : option ip_addr) : st kernel Z :=
  match prog, ip with
  | Some _, Some a => ebpf_update_map prog (Some (bytes_of "whitelist")) (Some (addr a)) (Some [1; 0; 0; 0])
  | _, _ => st_ret (-1)
  end.

(** ** What the kernel does afterwards *)

(** An IPv4 frame of protocol GRE from an address. *)
Definition gre_from (ip : ip_addr) : list Z :=
  replicate 12 0 ++ [8; 0; 0x45; 0; 0; 20; 0; 1; 0; 0; 64; 47; 0; 0] ++ v4_bytes ip ++ [10; 0; 0; 2].

(** The map with the entry the kernel program looks for. *)
Definition with_blacklisted (ip : ip_addr) (now : Z) (m : xdp_maps) : xdp_maps :=
  XdpMaps (<[s_addr ip := now]> (blacklist m)) (whitelist m) (xstats m).

Lemma gre_action ip m :
  ip_ok ip → whitelist m !! s_addr ip = None →
  fst <$> (match xdp_ddos_filter (gre_from ip) m with Ok r => Some r | _ => None end) =
    Some (match blacklist m !! s_addr ip with Some _ => XDP_DROP | None => XDP_PASS end).
Proof.
  intros Hip Hw. unfold s_addr in *. destruct (v4_bytes_ok ip Hip) as [Hl _]. unfold gre_from.
  destruct (v4_bytes ip) as [|a [|b [|c [|d [|]]]]]; try done. unfold xdp_ddos_filter.
  unfold update_stat, st_modify, st_bind at 1.
  change (parse_eth _ <? 0) with false. cbv iota.
  unfold st_bind at 1, st_lift at 1.
  change (rd_be16 _ 12) with (Ok 2048). cbv beta iota. change (negb (2048 =? ETH_P_IP)) with false. cbv iota.
  unfold st_bind at 1, st_lift at 1. change (parse_ipv4 _) with (Ok 0). cbv beta iota.
  change (0 <? 0) with false. cbv iota. unfold st_bind at 1, st_lift at 1.
  change (saddr _) with (Ok (le32 [a; b; c; d])). cbv beta iota.
  unfold st_bind at 1, st_gets at 1. cbn [whitelist]. rewrite Hw. cbv beta iota.
  unfold st_bind at 1, st_gets at 1. cbn [blacklist].
  destruct (blacklist m !! le32 [a; b; c; d]); reflexivity.
Qed.

(** C40: Blacklisting an address through the loader reports success and does not
    reach the kernel: every frame is treated as before. There are frames of the
    address that pass and would be dropped if the entry were in the kernel's
    map. *)
Theorem ebpf_blacklist_not_enforced prog ip k now :
  ip_ok ip → family ip = AF_INET →
  whitelist (k_maps k) !! s_addr ip = None → blacklist (k_maps k) !! s_addr ip = None →
  ∃ k', ebpf_blacklist_ip (Some prog) (Some ip) k = Ok (0, k') ∧
    (∀ frame, xdp_ddos_filter frame (k_maps k') = xdp_ddos_filter frame (k_maps k)) ∧
    ∃ frame m1 m2, xdp_ddos_filter frame (k_maps k') = Ok (XDP_PASS, m1) ∧
      xdp_ddos_filter frame (with_blacklisted ip now (k_maps k)) = Ok (XDP_DROP, m2).
Proof.
  intros Hip _ Hw Hb. exists k. split; [done|]. split; [done|]. exists (gre_from ip).
  pose proof (gre_action ip (k_maps k) Hip Hw) as H1. rewrite Hb in H1.
  pose proof (gre_action ip (with_blacklisted ip now (k_maps k)) Hip Hw) as H2.
  cbn [blacklist with_blacklisted] in H2. rewrite lookup_insert_eq in H2.
  destruct (xdp_ddos_filter (gre_from ip) (k_maps k)) as [[v1 m1]| |]; try done.
  destruct (xdp_ddos_filter (gre_from ip) (with_blacklisted ip now (k_maps k))) as [[v2 m2]| |]; try done.
  exists m1, m2. cbn in H1, H2. by simplify_eq.
Qed.

Lemma ebpf_blacklist_not_enforced_witness :
  let k := Kernel (XdpMaps ∅ ∅ no_stats) [] in
  let prog := EbpfProgram (Some (bytes_of "xdp_filter.o")) (Some (bytes_of "eth0")) (-1) true in
  ∃ k', ebpf_blacklist_ip (Some prog) (Some (ip4 10 1 2 3)) k = Ok (0, k') ∧
    ∃ frame m1 m2, xdp_ddos_filter frame (k_maps k') = Ok (XDP_PASS, m1) ∧
      xdp_ddos_filter frame (with_blacklisted (ip4 10 1 2 3) 7 (k_maps k)) = Ok (XDP_DROP, m2).
Proof.
  intros k prog.
  destruct (ebpf_blacklist_not_enforced prog (ip4 10 1 2 3) k 7) as (k' & Hk & _ & H).
  - by apply ip_okb_ok.
  - reflexivity.
  - reflexivity.
  - reflexivity.
  - exists k'. split; [exact Hk|exact H].
Defined.
