(* ===== verification/Firewall.v ===== *)
(** * The firewall front end

    [src/filter/firewall.c]: the module's two globals and the shell commands it
    has run, oldest first. The shell's exit status is an argument where the code
    looks at it. *)

From S2P Require Import Prelude Common CString Inet IpSet State.

Inductive firewall_backend := FIREWALL_BACKEND_IPTABLES | FIREWALL_BACKEND_NFTABLES.

#[global] Instance firewall_backend_eq_dec : EqDecision firewall_backend.
Proof. solve_decision. Defined.

Record firewall := Firewall {
  g_backend : firewall_backend;
  g_blocked_ips : option ipset;
  g_commands : list (list Z)
}.

Definition MAX_BLACKLIST_SIZE : Z := 100000.
Definition MAX_WHITELIST_SIZE : Z := 10000.

Definition run (fw : firewall) (cmd : list Z) : firewall :=
  Firewall (g_backend fw) (g_blocked_ips fw) (g_commands fw ++ [cmd]).
Definition with_blocked (fw : firewall) (set : option ipset) : firewall :=
  Firewall (g_backend fw) set (g_commands fw).

(** Calls of the set's operations through a pointer that may be [NULL]. *)
Definition add_to (calloc_ok : bool) (set : option ipset) (ip : ip_addr) (expires : Z) : option ipset :=
  option_map (λ s, (ipset_add_expiring calloc_ok s ip expires).2) set.
Definition remove_from (set : option ipset) (ip : ip_addr) : option ipset :=
  option_map (λ s, (ipset_remove s ip).2) set.
Definition contained_in (now : Z) (set : option ipset) (ip : ip_addr) : bool :=
  match set with Some s => ipset_contains now s ip | None => false end.

Definition firewall_init (calloc1 calloc2 : bool) (backend : firewall_backend) (fw : firewall)
    : Z * firewall :=
  let fw := Firewall backend (ipset_create calloc1 calloc2 MAX_BLACKLIST_SIZE) (g_commands fw) in
  match g_blocked_ips fw with
  | None => (-1, fw)
  | Some _ =>
      (0, match backend with
          | FIREWALL_BACKEND_IPTABLES =>
              run (run (run fw (bytes_of "iptables -N DDOS_PROTECT 2>/dev/null || true"))
                (bytes_of "iptables -F DDOS_PROTECT 2>/dev/null || true"))
                (bytes_of "iptables -I INPUT -j DDOS_PROTECT 2>/dev/null || true")
          | FIREWALL_BACKEND_NFTABLES =>
              run (run fw (bytes_of "nft add table inet ddos_protect 2>/dev/null || true"))
                (bytes_of "nft flush table inet ddos_protect 2>/dev/null || true")
          end)
  end.

Definition firewall_cleanup (fw : firewall) : firewall :=
  let fw := match g_backend fw with
    | FIREWALL_BACKEND_IPTABLES =>
        run (run (run fw (bytes_of "iptables -D INPUT -j DDOS_PROTECT 2>/dev/null || true"))
          (bytes_of "iptables -F DDOS_PROTECT 2>/dev/null || true"))
          (bytes_of "iptables -X DDOS_PROTECT 2>/dev/null || true")
    | FIREWALL_BACKEND_NFTABLES =>
        run fw (bytes_of "nft delete table inet ddos_protect 2>/dev/null || true")
    end in
  with_blocked fw None.

Section commands.
Context {ntop : InetNtop}.

(** The rule of an address in the iptables chain, with the option that inserts
    or deletes it. *)
Definition drop_rule (op : string) (ip : ip_addr) : list Z :=
  bytes_of "iptables " ++ bytes_of op ++ bytes_of " DDOS_PROTECT -s " ++ ip_addr_to_string ip ++
  bytes_of " -j DROP".

Definition block_command (b : firewall_backend) (ip : ip_addr) : list Z :=
  snprintf 512
    (match b with
     | FIREWALL_BACKEND_IPTABLES => drop_rule "-I" ip
     | FIREWALL_BACKEND_NFTABLES =>
         bytes_of "nft add rule inet ddos_protect input ip saddr " ++ ip_addr_to_string ip ++
         bytes_of " drop"
     end).

(** [ret] is the result of [system]. *)
Definition firewall_block_ip (ret : Z) (calloc_ok : bool) (now : Z) (fw : firewall)
    (ip : ip_addr) (duration_sec : Z) : Z * firewall :=
  let fw := run fw (block_command (g_backend fw) ip) in
  if negb (ret =? 0) then (-1, fw)
  else
    let expires := if 0 <? duration_sec then now + duration_sec else 0 in
    (0, with_blocked fw (add_to calloc_ok (g_blocked_ips fw) ip expires)).

Definition firewall_unblock_ip (fw : firewall) (ip : ip_addr) : Z * firewall :=
  match g_backend fw with
  | FIREWALL_BACKEND_IPTABLES =>
      let fw := run fw (snprintf 512 (drop_rule "-D" ip)) in
      (0, with_blocked fw (remove_from (g_blocked_ips fw) ip))
  | FIREWALL_BACKEND_NFTABLES => (0, fw)
  end.

Definition firewall_is_blocked (now : Z) (fw : firewall) (ip : ip_addr) : bool :=
  contained_in now (g_blocked_ips fw) ip.

Definition firewall_add_ratelimit (fw : firewall) (ip : ip_addr) (pps : Z)
    : Z * firewall :=
  (0, run fw (snprintf 512
        (match g_backend fw with
         | FIREWALL_BACKEND_IPTABLES =>
             bytes_of "iptables -I DDOS_PROTECT -s " ++ ip_addr_to_string ip ++
             bytes_of " -m limit --limit " ++ print_u pps ++ bytes_of "/sec -j ACCEPT"
         | FIREWALL_BACKEND_NFTABLES =>
             bytes_of "nft add rule inet ddos_protect input ip saddr " ++ ip_addr_to_string ip ++
             bytes_of " limit rate " ++ print_u pps ++ bytes_of "/second accept"
         end))).

Definition firewall_remove_ratelimit (fw : firewall) (ip : ip_addr) : Z * firewall := (0, fw).

Definition firewall_flush_all (fw : firewall) : Z * firewall :=
  let fw := run fw (match g_backend fw with
    | FIREWALL_BACKEND_IPTABLES => bytes_of "iptables -F DDOS_PROTECT"
    | FIREWALL_BACKEND_NFTABLES => bytes_of "nft flush table inet ddos_protect"
    end) in
  (0, with_blocked fw (ipset_clear <$> g_blocked_ips fw)).

(** The blocked and the rate-limited count. *)
Definition firewall_get_stats (fw : firewall) : Z * Z :=
  (match g_blocked_ips fw with Some s => ipset_size s | None => 0 end, 0).

(** ** Blocking and unblocking *)

(** The first entry of an address goes to the front of its chain... *)
Lemma add_untracked set ip expires :
  ipset_ok set → untracked set ip → entry_count set < max_size set →
  ipset_add_expiring true set ip expires =
    (0, with_bucket set (ipset_hash ip)
          (IpsetEntry ip (if family ip =? AF_INET then 32 else 128) expires ::
           bucket_of set (ipset_hash ip)) (entry_count set +₃₂ 1)).
Proof.
  intros Hok Hu Hroom. unfold ipset_add_expiring.
  rewrite (proj2 (Z.leb_gt _ _)) by lia.
  replace (update_first _ _ _) with (@None (list ipset_entry)); [done|].
  symmetry. apply update_first_None, Forall_forall. intros e He.
  by rewrite (same_ip_untracked set ip e).
Qed.

(** ... and removing the address takes it off again. *)
Lemma add_remove_untracked set ip expires :
  ipset_ok set → untracked set ip → entry_count set < max_size set →
  (ipset_remove (ipset_add_expiring true set ip expires).2 ip).2 = set.
Proof.
  intros Hok Hu Hroom. rewrite add_untracked by done. cbn [snd]. unfold ipset_remove.
  rewrite bucket_of_with_bucket by done. cbn [remove_first].
  rewrite (proj2 (same_ip_true ip _)) by done. cbn [snd entry_count with_bucket].
  pose proof (ok_capacity _ Hok). pose proof (ok_count _ Hok).
  replace (_ -₃₂ 1) with (entry_count set); [by apply with_bucket_same|].
  rewrite !u32_small; rewrite ?u32_small; lia.
Qed.

Lemma contains_untracked now set ip expires ip' :
  ipset_ok set → untracked set ip → entry_count set < max_size set → ip_ok ip → 0 <= expires →
  ipset_contains now (ipset_add_expiring true set ip expires).2 ip' =
    (bool_decide (ip_key ip' = ip_key ip) && bool_decide (live_until now expires)) ||
    ipset_contains now set ip'.
Proof.
  intros Hok Hu Hroom Hip He. pose proof (ipset_add_expiring_ok true set ip expires Hok Hip) as Hok'.
  apply eq_true_iff_eq.
  rewrite orb_true_iff, andb_true_iff, !bool_decide_eq_true, (contains_entries _ _ _ Hok'),
    (contains_entries _ _ _ Hok).
  rewrite add_untracked by done. cbn [snd]. setoid_rewrite push_entries; [|done].
  setoid_rewrite elem_of_cons. split.
  - intros (e & [->|Hin] & Hx & Hk); [left|right; eauto].
    split; [done|]. by apply expired_false in Hx.
  - intros [[Hk Hl]|(e & Hin & Hx & Hk)]; [|eauto].
    eexists. split; [by left|]. split; [by apply expired_false|done].
Qed.

Lemma drop_rule_fits {laws : InetNtopLaws} op ip :
  (length (bytes_of op) <= 10)%nat → snprintf 512 (drop_rule op ip) = drop_rule op ip.
Proof.
  intros Hop. apply snprintf_fits. unfold drop_rule. rewrite !length_app.
  pose proof (ip_addr_to_string_short ip).
  change (length (bytes_of "iptables ")) with 9%nat.
  change (length (bytes_of " DDOS_PROTECT -s ")) with 17%nat.
  change (length (bytes_of " -j DROP")) with 8%nat. lia.
Qed.

(** Blocking an address that is not tracked runs the one command that inserts
    its rule, after which exactly that address has become blocked, for ever or
    until the duration has passed; unblocking it runs the command that deletes
    the same rule and leaves the set of blocked addresses as it was. *)
Theorem firewall_block_unblock {laws : InetNtopLaws} fw set ip duration now :
  g_backend fw = FIREWALL_BACKEND_IPTABLES → g_blocked_ips fw = Some set →
  ipset_ok set → untracked set ip → entry_count set < max_size set → ip_ok ip →
  0 <= duration → 0 <= now →
  let '(rc1, fw1) := firewall_block_ip 0 true now fw ip duration in
  let '(rc2, fw2) := firewall_unblock_ip fw1 ip in
  rc1 = 0 ∧ rc2 = 0 ∧
  (∀ t ip', firewall_is_blocked t fw1 ip' =
     (bool_decide (ip_key ip' = ip_key ip) && ((duration =? 0) || (t <=? now + duration))) ||
     firewall_is_blocked t fw ip') ∧
  fw2 = Firewall FIREWALL_BACKEND_IPTABLES (Some set)
          (g_commands fw ++ [drop_rule "-I" ip; drop_rule "-D" ip]).
Proof.
  destruct fw as [b blocked cmds]. cbn [g_backend g_blocked_ips g_commands].
  intros -> -> Hok Hu Hroom Hip Hd Hnow. unfold firewall_block_ip, firewall_unblock_ip.
  change (negb (0 =? 0)) with false. cbv iota.
  cbn [run with_blocked g_backend g_blocked_ips g_commands add_to remove_from option_map block_command].
  rewrite !drop_rule_fits by (vm_compute; lia). split_and!; [done|done| |].
  - intros t ip'. unfold firewall_is_blocked, add_to, option_map. cbn [g_blocked_ips with_blocked contained_in].
    rewrite contains_untracked by (done || (destruct (0 <? duration); lia)).
    f_equal. f_equal. apply eq_true_iff_eq. unfold live_until.
    rewrite bool_decide_eq_true, orb_true_iff, Z.eqb_eq, Z.leb_le.
    destruct (Z.ltb_spec 0 duration); lia.
  - rewrite add_remove_untracked by done. unfold block_command. rewrite drop_rule_fits by (vm_compute; lia).
    unfold with_blocked, run. cbn [g_backend g_commands]. by rewrite <- app_assoc.
Qed.
End commands.

#[local] Existing Instances numeric_ntop numeric_ntop_laws.

Lemma firewall_block_unblock_witness :
  let fw := Firewall FIREWALL_BACKEND_IPTABLES (Some sample_set) [] in
  let '(rc1, fw1) := firewall_block_ip 0 true 50 fw sample_ip 3600 in
  let '(rc2, fw2) := firewall_unblock_ip fw1 sample_ip in
  rc1 = 0 ∧ rc2 = 0 ∧
  (∀ t ip', firewall_is_blocked t fw1 ip' =
     (bool_decide (ip_key ip' = ip_key sample_ip) && ((3600 =? 0) || (t <=? 50 + 3600))) ||
     firewall_is_blocked t fw ip') ∧
  fw2 = Firewall FIREWALL_BACKEND_IPTABLES (Some sample_set)
          ([] ++ [drop_rule "-I" sample_ip; drop_rule "-D" sample_ip]).
Proof.
  apply (firewall_block_unblock (Firewall FIREWALL_BACKEND_IPTABLES (Some sample_set) [])
    sample_set sample_ip 3600 50); try reflexivity.
  - apply sample_set_ok.
  - intros e He. rewrite sample_set_entries in He. by apply not_elem_of_nil in He.
  - by apply ip_okb_ok.
  - lia.
  - lia.
Defined.
