(* ===== verification/Analyzer.v ===== *)
(** * The traffic analyzer

    [src/detection/analyzer.c]: the table of per-address statistics, the two
    address lists, and the pipeline a packet goes through. The state is what the
    pipeline can reach: the analyzer, the counters of the four protocol modules,
    the global statistics and the connection cache. The floating-point parts
    (entropy, the baseline, the anomaly test) are in [Baseline]. *)

From S2P Require Import Prelude Common Hash ConnHeap HashTable LruCache CString IpSet Packet Parser.
From S2P Require Import State UdpProtect TcpProtect IcmpProtect HttpProtect Firewall.

Definition IP_STATS_TABLE_SIZE : Z := 65536.

(** [an_table] holds the pointers that are not [NULL]; [an_stats] the statistics
    objects allocated so far. *)
Record traffic_analyzer := TrafficAnalyzer {
  an_table : gmap Z positive;
  an_stats : gmap positive ip_stats;
  an_blacklist : option ipset;
  an_whitelist : option ipset
}.

(** The outcomes of the three [calloc] calls, and of the four in
    [ipset_create]. *)
Definition analyzer_init (calloc1 calloc2 calloc3 : bool) (bl1 bl2 wl1 wl2 : bool)
    : option traffic_analyzer :=
  if calloc1 && calloc2 && calloc3 then
    Some (TrafficAnalyzer ∅ ∅ (ipset_create bl1 bl2 MAX_BLACKLIST_SIZE)
            (ipset_create wl1 wl2 MAX_WHITELIST_SIZE))
  else None.

Definition ip_stats_hash (ip : ip_addr) : Z := ip_hash_raw ip mod IP_STATS_TABLE_SIZE.

Definition load_stats (a : traffic_analyzer) (l : positive) : res ip_stats :=
  match an_stats a !! l with Some s => Ok s | None => Undef UseAfterFree end.
Definition store_stats (a : traffic_analyzer) (l : positive) (s : ip_stats) : traffic_analyzer :=
  TrafficAnalyzer (an_table a) (<[l := s]> (an_stats a)) (an_blacklist a) (an_whitelist a).

(** The search; its step is [stats = stats]. *)
Fixpoint find_stats (fuel : nat) (a : traffic_analyzer) (ip : ip_addr) (stats : option positive)
    : res (option positive) :=
  match fuel with
  | O => Diverges
  | S fuel' =>
      match stats with
      | None => Ok None
      | Some l =>
          let* s := load_stats a l in
          if ip_addr_compare (st_ip s) ip =? 0 then Ok (Some l)
          else find_stats fuel' a ip (Some l)
      end
  end.

(** [alloc] is the result of [calloc]. The pointer to the new object is
    overwritten with the head of the bucket, which is stored back. *)
Definition analyzer_get_ip_stats (a : traffic_analyzer) (ip : ip_addr) (now : Z)
    (alloc : option positive) : res (option positive * traffic_analyzer) :=
  let hash := ip_stats_hash ip in
  let* found := find_stats 1 a ip (an_table a !! hash) in
  match found with
  | Some l => Ok (Some l, a)
  | None =>
      match alloc with
      | None => Ok (None, a)
      | Some l =>
          let a := store_stats a l (new_stats ip now) in
          let stats := an_table a !! hash in
          Ok (stats, TrafficAnalyzer (partial_alter (λ _, stats) hash (an_table a)) (an_stats a)
                       (an_blacklist a) (an_whitelist a))
      end
  end.

(** The new score. The comparison with zero is of an unsigned number. *)
Definition adjust_reputation (score delta : Z) : Z :=
  let score := score +₃₂ delta in
  let score := if 100 <? score then 100 else score in
  if score <? 0 then 0 else score.

Definition analyzer_update_reputation (cfg : config) (calloc_ok : bool) (a : traffic_analyzer)
    (ip : ip_addr) (delta now : Z) (alloc : option positive) : res (unit * traffic_analyzer) :=
  let* (r, a) := analyzer_get_ip_stats a ip now alloc in
  match r with
  | None => Ok ((), a)
  | Some l =>
      let* s := load_stats a l in
      let s := set_reputation (adjust_reputation (reputation_score s) delta) s in
      if (reputation_score s <? 10) && negb (is_blacklisted s) then
        let expires := now + blacklist_duration cfg in
        let a := store_stats a l (set_blacklisted true expires s) in
        Ok ((), TrafficAnalyzer (an_table a) (an_stats a)
                  (add_to calloc_ok (an_blacklist a) ip expires) (an_whitelist a))
      else Ok ((), store_stats a l s)
  end.

(** ** Classification *)

Definition analyzer_ml_classify (p : packet) : res attack_type :=
  let* udp :=
    (if pkt_protocol (ip p) =? PROTO_UDP then
       let* a := udp_amplification p in
       Ok (if decide (a = ATTACK_NONE)
           then if 1400 <? payload_len (l4 p) then Some ATTACK_UDP_FLOOD else None
           else Some a)
     else Ok None) in
  match udp with
  | Some a => Ok a
  | None =>
      let tcp :=
        if pkt_protocol (ip p) =? PROTO_TCP then
          if tcp_flags (l4 p) =? TCP_FLAG_SYN then Some ATTACK_TCP_SYN_FLOOD
          else if tcp_flags (l4 p) =? TCP_FLAG_ACK then Some ATTACK_TCP_ACK_FLOOD
          else if negb (Z.land (tcp_flags (l4 p)) TCP_FLAG_RST =? 0) then Some ATTACK_TCP_RST_FLOOD
          else None
        else None in
      match tcp with
      | Some a => Ok a
      | None =>
          if pkt_protocol (ip p) =? PROTO_ICMP then
            Ok (if 1500 <? len p then ATTACK_PING_OF_DEATH else ATTACK_ICMP_FLOOD)
          else if is_http (http p) && method_is "GET" p then Ok ATTACK_HTTP_GET_FLOOD
          else if is_http (http p) && method_is "POST" p then Ok ATTACK_HTTP_POST_FLOOD
          else Ok ATTACK_NONE
      end
  end.

(** ** The pipeline *)

Record astate := AState {
  s_an : traffic_analyzer;
  s_global : global_stats;
  s_udp : option udp_protect_ctx;
  s_tcp : option tcp_protect_ctx;
  s_icmp : option icmp_protect_ctx;
  s_http : option http_protect_ctx;
  s_heap : heap;
  s_cache : lru_cache
}.

Definition set_an (a : traffic_analyzer) (s : astate) : astate :=
  AState a (s_global s) (s_udp s) (s_tcp s) (s_icmp s) (s_http s) (s_heap s) (s_cache s).

Definition on_an {A} (f : traffic_analyzer → res (A * traffic_analyzer)) : st astate A := λ s,
  let* (r, a) := f (s_an s) in Ok (r, set_an a s).

Definition modify_stats (l : positive) (f : ip_stats → ip_stats) : st astate unit :=
  on_an (λ a, let* s := load_stats a l in Ok ((), store_stats a l (f s))).

(** A protocol module called with the statistics at [l]. *)
Definition run_module {C} (l : positive) (get : astate → option C) (set : option C → astate → astate)
    (m : st (pstate C) verdict) : st astate verdict := λ s,
  let* e := load_stats (s_an s) l in
  let* (v, q) := m (PState (get s) (s_global s) e) in
  let s := set (p_ctx q) s in
  Ok (v, AState (store_stats (s_an s) l (p_stats q)) (p_global q) (s_udp s) (s_tcp s) (s_icmp s)
           (s_http s) (s_heap s) (s_cache s)).

Definition set_udp (c : option udp_protect_ctx) (s : astate) : astate :=
  AState (s_an s) (s_global s) c (s_tcp s) (s_icmp s) (s_http s) (s_heap s) (s_cache s).
Definition set_icmp (c : option icmp_protect_ctx) (s : astate) : astate :=
  AState (s_an s) (s_global s) (s_udp s) (s_tcp s) c (s_http s) (s_heap s) (s_cache s).
Definition set_http (c : option http_protect_ctx) (s : astate) : astate :=
  AState (s_an s) (s_global s) (s_udp s) (s_tcp s) (s_icmp s) c (s_heap s) (s_cache s).

(** The TCP module also uses the connection cache. *)
Definition run_tcp_module (l : positive) (m : st tstate verdict) : st astate verdict := λ s,
  let* e := load_stats (s_an s) l in
  let* (v, t) := m (TState (s_heap s) (s_cache s) (PState (s_tcp s) (s_global s) e)) in
  let q := t_p t in
  Ok (v, AState (store_stats (s_an s) l (p_stats q)) (p_global q) (s_udp s) (p_ctx q) (s_icmp s)
           (s_http s) (t_heap t) (t_cache t)).

Definition cidr_in (now : Z) (set : option ipset) (ip : ip_addr) : res bool :=
  match set with Some s => ipset_contains_cidr now s ip | None => Ok false end.

(** What the allocator returns to the calls one packet can make. *)
Record packet_allocs := PacketAllocs {
  al_stats : option positive;
  al_stats' : option positive;
  al_conn : option loc;
  al_entry : bool
}.

Definition protocol_verdict (cfg : config) (now : Z) (al : packet_allocs) (p : packet) (l : positive)
    : st astate verdict :=
  if pkt_protocol (ip p) =? PROTO_UDP then run_module l s_udp set_udp (udp_protect_analyze cfg now p)
  else if pkt_protocol (ip p) =? PROTO_TCP then run_tcp_module l (tcp_protect_analyze cfg now (al_conn al) p)
  else if pkt_protocol (ip p) =? PROTO_ICMP then
    run_module l s_icmp set_icmp (icmp_protect_analyze cfg now p)
  else st_ret VERDICT_ACCEPT.

Definition update_for (cfg : config) (now : Z) (al : packet_allocs) (p : packet) (v : verdict)
    : st astate unit :=
  match v with
  | VERDICT_DROP => on_an (λ a, analyzer_update_reputation cfg (al_entry al) a
                                  (pkt_src_ip (ip p)) (-10) now (al_stats' al))
  | VERDICT_ACCEPT => on_an (λ a, analyzer_update_reputation cfg (al_entry al) a
                                    (pkt_src_ip (ip p)) 1 now (al_stats' al))
  | _ => st_ret ()
  end.

Definition analyzer_process_packet (cfg : config) (now : Z) (al : packet_allocs) (p : packet)
    : st astate verdict :=
  let src := pkt_src_ip (ip p) in
  r <- on_an (λ a, analyzer_get_ip_stats a src now (al_stats al)) ;;
  match r with
  | None => st_ret VERDICT_ACCEPT
  | Some l =>
      white <- (s <- st_get ;; st_lift (cidr_in now (an_whitelist (s_an s)) src)) ;;
      if white then modify_stats l (set_whitelisted true) ;; st_ret VERDICT_ACCEPT
      else
        black <- (s <- st_get ;; st_lift (cidr_in now (an_blacklist (s_an s)) src)) ;;
        if black then
          modify_stats l (λ s, set_blacklisted true (blacklist_expires s) s) ;; st_ret VERDICT_DROP
        else
          v <- protocol_verdict cfg now al p l ;;
          v <- (if decide (v = VERDICT_ACCEPT) then
                  if is_http (http p)
                  then run_module l s_http set_http (http_protect_analyze cfg now p)
                  else st_ret v
                else st_ret v) ;;
          update_for cfg now al p v ;; st_ret v
  end.

(** [free_loop] of the destructor: [next] is the object just freed. *)
Fixpoint free_stats_chain (fuel : nat) (h : gmap positive ip_stats) (p : option positive)
    : res (gmap positive ip_stats) :=
  match fuel with
  | O => Diverges
  | S fuel' =>
      match p with
      | None => Ok h
      | Some l =>
          match h !! l with
          | None => Undef DoubleFree
          | Some _ => free_stats_chain fuel' (delete l h) (Some l)
          end
      end
  end.

Fixpoint free_stats_buckets (n : nat) (i : Z) (h : gmap positive ip_stats) (t : gmap Z positive)
    : res (gmap positive ip_stats) :=
  match n with
  | O => Ok h
  | S n' => let* h := free_stats_chain 2 h (t !! i) in free_stats_buckets n' (i + 1) h t
  end.

(** The statistics objects left after [analyzer_cleanup]. *)
Definition analyzer_cleanup (a : traffic_analyzer) : res (gmap positive ip_stats) :=
  free_stats_buckets (Z.to_nat IP_STATS_TABLE_SIZE) 0 (an_stats a) (an_table a).

(** ** The search does not need more fuel

    A step of the search changes nothing, so one step decides all of them. *)

Lemma find_stats_fuel n a ip stats : find_stats (S n) a ip stats = find_stats 1 a ip stats.
Proof.
  revert stats. induction n as [|n IH]; intros stats; [done|].
  change (find_stats (S (S n)) a ip stats) with
    (match stats with
     | None => Ok None
     | Some l => let* s := load_stats a l in
         if ip_addr_compare (st_ip s) ip =? 0 then Ok (Some l) else find_stats (S n) a ip (Some l)
     end).
  destruct stats as [l|]; [|done]. rewrite IH. cbn [find_stats].
  destruct (load_stats a l) as [s| |]; cbn [rbind]; [|done..]. by destruct (_ =? 0).
Qed.

(** An entry of another address at the head of the bucket: the search does not
    end. *)
Lemma get_collision_diverges a ip l e now alloc n :
  an_table a !! ip_stats_hash ip = Some l → an_stats a !! l = Some e →
  ip_key (st_ip e) ≠ ip_key ip →
  find_stats n a ip (Some l) = Diverges ∧ analyzer_get_ip_stats a ip now alloc = Diverges.
Proof.
  intros Hh He Hne. assert (find_stats 1 a ip (Some l) = Diverges) as H1.
  { cbn [find_stats]. unfold load_stats. rewrite He. cbn [rbind].
    by rewrite ip_compare_eqb, bool_decide_eq_false_2. }
  split; [destruct n; [done|by rewrite find_stats_fuel]|].
  unfold analyzer_get_ip_stats. rewrite Hh, H1. done.
Qed.

(** What the table knows of an address: the head of its bucket is its entry. *)
Record known (a : traffic_analyzer) (ip : ip_addr) (l : positive) (e : ip_stats) : Prop := {
  known_head : an_table a !! ip_stats_hash ip = Some l;
  known_entry : an_stats a !! l = Some e;
  known_ip : ip_key (st_ip e) = ip_key ip
}.

Lemma get_known a ip l e now alloc :
  known a ip l e → analyzer_get_ip_stats a ip now alloc = Ok (Some l, a).
Proof.
  intros [Hh He Hk]. unfold analyzer_get_ip_stats. rewrite Hh. cbn [find_stats].
  unfold load_stats. rewrite He. cbn [rbind].
  rewrite (proj2 (ip_compare_zero _ _) Hk). done.
Qed.

(** The object a failed search leaves behind. *)
Definition leak (a : traffic_analyzer) (ip : ip_addr) (now : Z) (alloc : option positive)
    : gmap positive ip_stats :=
  match alloc with Some l => <[l := new_stats ip now]> (an_stats a) | None => an_stats a end.

(** On an empty bucket the result is [NULL] and the bucket stays empty. *)
Lemma get_unknown a ip now alloc :
  an_table a !! ip_stats_hash ip = None →
  analyzer_get_ip_stats a ip now alloc =
    Ok (None, TrafficAnalyzer (an_table a) (leak a ip now alloc) (an_blacklist a) (an_whitelist a)).
Proof.
  intros Hh. unfold analyzer_get_ip_stats. rewrite Hh. cbn [find_stats rbind].
  destruct alloc as [l|].
  - cbn [store_stats an_table]. by rewrite partial_alter_self, Hh.
  - by destruct a.
Qed.

(** The pipeline then accepts the packet at once. *)
Lemma process_unknown cfg now al p s :
  an_table (s_an s) !! ip_stats_hash (pkt_src_ip (ip p)) = None →
  analyzer_process_packet cfg now al p s =
    Ok (VERDICT_ACCEPT,
        set_an (TrafficAnalyzer (an_table (s_an s)) (leak (s_an s) (pkt_src_ip (ip p)) now (al_stats al))
                  (an_blacklist (s_an s)) (an_whitelist (s_an s))) s).
Proof.
  intros Hh. unfold analyzer_process_packet, st_bind at 1, on_an at 1. by rewrite get_unknown.
Qed.

(** ** Reputation *)

Lemma adjust_reputation_value score delta :
  0 <= score <= 100 → -100 <= delta <= 100 →
  adjust_reputation score delta = if score + delta <? 0 then 100 else Z.min 100 (score + delta).
Proof.
  intros Hs Hd. unfold adjust_reputation. destruct (Z.ltb_spec (score + delta) 0).
  - replace (score +₃₂ delta) with (2 ^ 32 + (score + delta)) by cint.
    rewrite (proj2 (Z.ltb_lt 100 _)) by lia. done.
  - rewrite u32_small by lia. destruct (Z.ltb_spec 100 (score + delta)).
    + change (100 <? 0) with false. cbv iota. lia.
    + rewrite (proj2 (Z.ltb_ge _ 0)) by lia. lia.
Qed.

(** The statistics and the blacklist an update leaves. *)
Definition after_update (cfg : config) (a : traffic_analyzer) (ip : ip_addr) (l : positive)
    (e : ip_stats) (delta now : Z) : traffic_analyzer :=
  let score := adjust_reputation (reputation_score e) delta in
  let expires := now + blacklist_duration cfg in
  if (score <? 10) && negb (is_blacklisted e) then
    TrafficAnalyzer (an_table a)
      (<[l := set_blacklisted true expires (set_reputation score e)]> (an_stats a))
      (add_to true (an_blacklist a) ip expires) (an_whitelist a)
  else store_stats a l (set_reputation score e).

Lemma update_known cfg a ip l e delta now alloc :
  known a ip l e →
  analyzer_update_reputation cfg true a ip delta now alloc = Ok ((), after_update cfg a ip l e delta now).
Proof.
  intros Hk. unfold analyzer_update_reputation. rewrite (get_known _ _ _ _ _ _ Hk). cbn [rbind].
  unfold load_stats. rewrite (known_entry _ _ _ _ Hk). cbn [rbind]. unfold after_update.
  change (reputation_score (set_reputation ?x e)) with x.
  change (is_blacklisted (set_reputation _ e)) with (is_blacklisted e).
  by destruct (_ && _).
Qed.

Lemma update_keeps_known cfg a ip l e delta now :
  known a ip l e → ∃ e', known (after_update cfg a ip l e delta now) ip l e' ∧
    reputation_score e' = adjust_reputation (reputation_score e) delta ∧
    (is_blacklisted e' = true ↔
      is_blacklisted e = true ∨ adjust_reputation (reputation_score e) delta < 10).
Proof.
  intros [Hh He Hk]. unfold after_update.
  destruct (Z.ltb_spec (adjust_reputation (reputation_score e) delta) 10) as [Hlt|Hge];
    [destruct (is_blacklisted e) eqn:Hb|]; cbn [andb negb].
  1, 3: exists (set_reputation (adjust_reputation (reputation_score e) delta) e).
  3: exists (set_blacklisted true (now + blacklist_duration cfg)
              (set_reputation (adjust_reputation (reputation_score e) delta) e)).
  all: split; [split; [done|apply lookup_insert_eq|done]|split; [done|]];
    cbn [is_blacklisted set_blacklisted set_reputation]; rewrite ?Hb; intuition (done || lia).
Qed.

(** C33: Updating the reputation of a known address keeps it between 0 and 100 and
    adds the amount, capped at 100; but an amount that would take it below zero
    makes it 100, the best reputation. The address is marked blacklisted exactly
    when it was before or its new score is below 10. *)
Theorem analyzer_reputation_wraps cfg a ip l e delta now alloc :
  known a ip l e → 0 <= reputation_score e <= 100 → -100 <= delta <= 100 →
  ∃ a' e', analyzer_update_reputation cfg true a ip delta now alloc = Ok ((), a') ∧
    known a' ip l e' ∧ 0 <= reputation_score e' <= 100 ∧
    reputation_score e' = (if reputation_score e + delta <? 0 then 100
                           else Z.min 100 (reputation_score e + delta)) ∧
    (is_blacklisted e' = true ↔ is_blacklisted e = true ∨ reputation_score e' < 10).
Proof.
  intros Hk Hs Hd. rewrite (update_known _ _ _ _ _ _ _ _ Hk).
  destruct (update_keeps_known cfg a ip l e delta now Hk) as (e' & Hk' & Hr & Hb).
  exists (after_update cfg a ip l e delta now), e'. split; [done|]. split; [done|].
  rewrite Hb, Hr, adjust_reputation_value by done.
  split; [|done]. destruct (Z.ltb_spec (reputation_score e + delta) 0); lia.
Qed.

Definition example_source : ip_addr := ip4 10 1 2 3.
Definition example_stats (score : Z) : ip_stats := set_reputation score (new_stats example_source 5).
Definition example_analyzer (score : Z) : traffic_analyzer :=
  TrafficAnalyzer {[ ip_stats_hash example_source := 1%positive ]}
    {[ 1%positive := example_stats score ]} (Some sample_set) (Some sample_set).

Lemma example_known score : known (example_analyzer score) example_source 1 (example_stats score).
Proof. split; [apply lookup_insert_eq|apply lookup_insert_eq|done]. Qed.

(** Six drops after the start: 50, 40, 30, 20, 10, 0, 100. *)
Lemma analyzer_reputation_wraps_witness :
  ∃ a' e', analyzer_update_reputation config_zero true (example_analyzer 0) example_source (-10) 7
      None = Ok ((), a') ∧
    known a' example_source 1 e' ∧ 0 <= reputation_score e' <= 100 ∧
    reputation_score e' = 100 ∧ (is_blacklisted e' = true ↔ false = true ∨ reputation_score e' < 10).
Proof.
  apply (analyzer_reputation_wraps config_zero (example_analyzer 0) example_source 1 (example_stats 0)
    (-10) 7 None (example_known 0)); simpl; lia.
Defined.

(** ** The address lists *)

(** A list a client may have built: well formed, and without an IPv4 entry of
    prefix length 1, whose mask is undefined. *)
Definition list_ok (set : ipset) : Prop := ipset_ok set ∧ Forall defined_prefix (entries set).

(** Some unexpired entry covers the address. *)
Definition listed (now : Z) (set : ipset) (ip : ip_addr) : Prop :=
  ∃ e, e ∈ entries set ∧ cidr_live now ip e.

Lemma cidr_in_spec now set ip :
  list_ok set → ip_ok ip → ∃ b, cidr_in now (Some set) ip = Ok b ∧ (b = true ↔ listed now set ip).
Proof.
  intros [Hok Hd] Hip. apply cidr_buckets_spec; [done|]. apply Forall_forall. intros e He.
  rewrite Forall_forall in Hd. split; [by apply (entries_ok set)|by apply Hd].
Qed.

Lemma cidr_in_true now set ip : list_ok set → ip_ok ip → listed now set ip → cidr_in now (Some set) ip = Ok true.
Proof. intros Hok Hip Hl. destruct (cidr_in_spec now set ip Hok Hip) as (b & -> & H). by rewrite (proj2 H Hl). Qed.

Lemma cidr_in_false now set ip :
  list_ok set → ip_ok ip → ¬ listed now set ip → cidr_in now (Some set) ip = Ok false.
Proof.
  intros Hok Hip Hl. destruct (cidr_in_spec now set ip Hok Hip) as ([] & -> & H); [|done].
  by destruct Hl; apply H.
Qed.

(** Unfolding the pipeline up to the lists. *)
Lemma process_known cfg now al p s l e (wl bl : ipset) w b :
  known (s_an s) (pkt_src_ip (ip p)) l e →
  an_whitelist (s_an s) = Some wl → an_blacklist (s_an s) = Some bl →
  cidr_in now (Some wl) (pkt_src_ip (ip p)) = Ok w → cidr_in now (Some bl) (pkt_src_ip (ip p)) = Ok b →
  analyzer_process_packet cfg now al p s =
    (if w then
       Ok (VERDICT_ACCEPT, set_an (store_stats (s_an s) l (set_whitelisted true e)) s)
     else if b then
       Ok (VERDICT_DROP,
           set_an (store_stats (s_an s) l (set_blacklisted true (blacklist_expires e) e)) s)
     else
       (v <- protocol_verdict cfg now al p l ;;
        v <- (if decide (v = VERDICT_ACCEPT) then
                if is_http (http p)
                then run_module l s_http set_http (http_protect_analyze cfg now p)
                else st_ret v
              else st_ret v) ;;
        update_for cfg now al p v ;; st_ret v) s).
Proof.
  intros Hk Hwl Hbl Hw Hb. unfold analyzer_process_packet, st_bind at 1, on_an at 1.
  rewrite (get_known _ _ _ _ _ _ Hk). cbn [rbind].
  replace (set_an (s_an s) s) with s by by destruct s.
  unfold st_bind at 1 2, st_get at 1, st_lift at 1. rewrite Hwl, Hw.
  assert (load_stats (s_an s) l = Ok e) as Hload.
  { unfold load_stats. by rewrite (known_entry _ _ _ _ Hk). }
  destruct w.
  - unfold st_bind, modify_stats, on_an, st_ret. by rewrite Hload.
  - unfold st_bind at 1 2, st_get at 1, st_lift at 1. rewrite Hbl, Hb. destruct b; [|done].
    unfold st_bind, modify_stats, on_an, st_ret. by rewrite Hload.
Qed.

(** C25: For a packet of a known address the lists come before every protocol
    check: one the whitelist covers is accepted, whatever the blacklist says and
    whatever the packet holds; one only the blacklist covers is dropped. Neither
    runs a protocol module, changes the reputation or tracks a connection. *)
Theorem analyzer_lists_first cfg now al p s l e wl bl :
  known (s_an s) (pkt_src_ip (ip p)) l e → ip_ok (pkt_src_ip (ip p)) →
  an_whitelist (s_an s) = Some wl → an_blacklist (s_an s) = Some bl → list_ok wl → list_ok bl →
  (listed now wl (pkt_src_ip (ip p)) →
    analyzer_process_packet cfg now al p s =
      Ok (VERDICT_ACCEPT, set_an (store_stats (s_an s) l (set_whitelisted true e)) s)) ∧
  (¬ listed now wl (pkt_src_ip (ip p)) → listed now bl (pkt_src_ip (ip p)) →
    analyzer_process_packet cfg now al p s =
      Ok (VERDICT_DROP,
          set_an (store_stats (s_an s) l (set_blacklisted true (blacklist_expires e) e)) s)).
Proof.
  intros Hk Hip Hwl Hbl Hw Hb. split.
  - intros Hl. destruct (cidr_in_spec now bl (pkt_src_ip (ip p)) Hb Hip) as (b & Hcb & _).
    by rewrite (process_known _ _ _ _ _ _ _ _ _ true b Hk Hwl Hbl (cidr_in_true _ _ _ Hw Hip Hl) Hcb).
  - intros Hnl Hl.
    by rewrite (process_known _ _ _ _ _ _ _ _ _ false true Hk Hwl Hbl
      (cidr_in_false _ _ _ Hw Hip Hnl) (cidr_in_true _ _ _ Hb Hip Hl)).
Qed.

(** The analyzer on one packet after the other, each with its time and the answers
    of the allocator. *)
Fixpoint process_all (cfg : config) (ps : list (Z * packet_allocs * packet)) : st astate (list verdict) :=
  match ps with
  | [] => st_ret []
  | (t, al, p) :: ps' =>
      v <- analyzer_process_packet cfg t al p ;; vs <- process_all cfg ps' ;; st_ret (v :: vs)
  end.

Lemma store_stats_known a ip l e e' :
  known a ip l e → st_ip e' = st_ip e → known (store_stats a l e') ip l e'.
Proof. intros [Hh _ Hk] Hip. split; [done|apply lookup_insert_eq|by rewrite Hip]. Qed.

(** Packets of an address that the blacklist covers and the whitelist does not. *)
Lemma process_blacklisted cfg s ip l e wl bl ps :
  known (s_an s) ip l e → ip_ok ip → an_whitelist (s_an s) = Some wl → an_blacklist (s_an s) = Some bl →
  list_ok wl →
  Forall (λ x, pkt_src_ip (Packet.ip x.2) = ip ∧ ¬ listed x.1.1 wl ip ∧ cidr_in x.1.1 (Some bl) ip = Ok true) ps →
  process_all cfg ps s =
    Ok (replicate (length ps) VERDICT_DROP,
        set_an (store_stats (s_an s) l (match ps with [] => e | _ => set_blacklisted true (blacklist_expires e) e end)) s).
Proof.
  intros Hk Hip Hwl Hbl Hw Hps. revert s e Hk Hwl Hbl.
  induction Hps as [|[[t al] p] ps (Hsrc & Hnl & Hin) Hps IH]; intros s e Hk Hwl Hbl.
  - cbn. unfold st_ret, store_stats. rewrite insert_id by apply Hk.
    by destruct s as [[] ? ? ? ? ? ? ?].
  - cbn [process_all length replicate fst snd] in *. unfold st_bind. subst ip.
    rewrite (process_known cfg t al p s l e wl bl false true); try done.
    2: by apply cidr_in_false.
    set (e1 := set_blacklisted true (blacklist_expires e) e).
    rewrite (IH (set_an (store_stats (s_an s) l e1) s) e1); try done.
    2: by apply store_stats_known with e.
    unfold st_ret. f_equal. f_equal.
    assert (match ps with [] => e1 | _ => set_blacklisted true (blacklist_expires e1) e1 end = e1) as ->
      by by destruct ps.
    unfold set_an, store_stats. cbn. by rewrite insert_insert_eq.
Qed.

(** C26: A drop that takes a known address that was not blacklisted to a score
    below 10 puts it on the blacklist for the configured duration, provided the
    blacklist has room and the entry can be allocated. The packets of the address
    that follow, any number of them until then, are dropped without reaching a
    protocol module, unless the whitelist covers it. *)
Theorem analyzer_auto_blacklists cfg now s ip l e wl bl alloc :
  known (s_an s) ip l e → ip_ok ip → an_whitelist (s_an s) = Some wl → an_blacklist (s_an s) = Some bl →
  list_ok wl → list_ok bl → entry_count bl < max_size bl →
  10 <= reputation_score e < 20 → is_blacklisted e = false →
  0 <= now → 0 <= blacklist_duration cfg →
  ∃ a' e', analyzer_update_reputation cfg true (s_an s) ip (-10) now alloc = Ok ((), a') ∧
    reputation_score e' = reputation_score e - 10 ∧ known a' ip l e' ∧
    ∀ ps, Forall (λ x, x.1.1 <= now + blacklist_duration cfg ∧ pkt_src_ip (Packet.ip x.2) = ip ∧
                       ¬ listed x.1.1 wl ip) ps →
      process_all cfg ps (set_an a' s) =
        Ok (replicate (length ps) VERDICT_DROP,
            set_an (store_stats a' l
              (match ps with [] => e' | _ => set_blacklisted true (blacklist_expires e') e' end)) (set_an a' s)).
Proof.
  intros Hk Hip Hwl Hbl Hw Hb Hroom Hs He Hnow Hdur.
  rewrite (update_known _ _ _ _ _ _ _ _ Hk).
  destruct (update_keeps_known cfg _ _ _ _ (-10) now Hk) as (e' & Hk' & Hr & _).
  rewrite adjust_reputation_value in Hr by lia.
  rewrite (proj2 (Z.ltb_ge _ 0)), Z.min_r in Hr by lia.
  exists (after_update cfg (s_an s) ip l e (-10) now), e'. split; [done|]. split; [lia|]. split; [done|].
  set (expires := now + blacklist_duration cfg) in *.
  set (bl' := (ipset_add_expiring true bl ip expires).2).
  assert (an_whitelist (after_update cfg (s_an s) ip l e (-10) now) = Some wl ∧
          an_blacklist (after_update cfg (s_an s) ip l e (-10) now) = Some bl') as [Hwl' Hbl'].
  { unfold after_update. rewrite adjust_reputation_value by lia.
    rewrite (proj2 (Z.ltb_ge _ 0)), Z.min_r, (proj2 (Z.ltb_lt _ 10)), He by lia.
    cbn [andb negb an_whitelist an_blacklist]. rewrite Hwl, Hbl. done. }
  intros ps Hps. apply (process_blacklisted cfg (set_an _ s) ip l e' wl bl'); try done.
  eapply Forall_impl; [exact Hps|]. intros [[t al] p] (Ht & Hsrc & Hnl). cbn [fst snd] in *.
  split; [done|]. split; [done|]. destruct Hb as [Hbok Hbd]. cbn [cidr_in].
  apply ipset_contains_cidr_added; try done; [unfold expires; lia|by right].
Qed.

Definition example_state (wl bl : ipset) (score : Z) : astate :=
  AState
    (TrafficAnalyzer {[ ip_stats_hash example_source := 1%positive ]}
       {[ 1%positive := example_stats score ]} (Some bl) (Some wl))
    zero_global None None None None ∅ (LruCache (Hashtable [None] 1 0) None None 8 0).

Lemma example_state_known wl bl score :
  known (s_an (example_state wl bl score)) example_source 1 (example_stats score).
Proof. split; [apply lookup_insert_eq|apply lookup_insert_eq|done]. Qed.

(** A UDP packet of the example source. *)
Definition example_packet : packet :=
  with_ip packet_zero (IpPart None 20 None 8 true false PROTO_UDP example_source example_source).

Definition no_allocs : packet_allocs := PacketAllocs None None None true.

Lemma sample_set_list_ok : list_ok sample_set.
Proof. split; [apply sample_set_ok|]. rewrite sample_set_entries. constructor. Qed.
Lemma sample_one_list_ok : list_ok sample_one.
Proof. split; [apply sample_one_ok|]. rewrite sample_one_entries. by repeat constructor. Qed.
Lemma sample_one_lists : listed 50 sample_one example_source.
Proof.
  exists (IpsetEntry sample_ip 32 100). rewrite sample_one_entries. split; [left|].
  split; [done|by apply same_prefix_key].
Qed.
Lemma sample_set_lists now ip : ¬ listed now sample_set ip.
Proof. intros (e & He & _). rewrite sample_set_entries in He. by apply not_elem_of_nil in He. Qed.

(** On both lists, and on the blacklist only. *)
Lemma analyzer_lists_first_witness :
  let accepted := example_state sample_one sample_one 50 in
  let dropped := example_state sample_set sample_one 50 in
  analyzer_process_packet config_zero 50 no_allocs example_packet accepted =
    Ok (VERDICT_ACCEPT,
        set_an (store_stats (s_an accepted) 1 (set_whitelisted true (example_stats 50))) accepted) ∧
  analyzer_process_packet config_zero 50 no_allocs example_packet dropped =
    Ok (VERDICT_DROP,
        set_an (store_stats (s_an dropped) 1 (set_blacklisted true 0 (example_stats 50))) dropped).
Proof.
  intros accepted dropped. split.
  - apply (analyzer_lists_first config_zero 50 no_allocs example_packet accepted 1
      (example_stats 50) sample_one sample_one);
      [apply example_state_known|by apply ip_okb_ok|done|done|apply sample_one_list_ok..|
       apply sample_one_lists].
  - apply (analyzer_lists_first config_zero 50 no_allocs example_packet dropped 1
      (example_stats 50) sample_set sample_one);
      [apply example_state_known|by apply ip_okb_ok|done|done|apply sample_set_list_ok|
       apply sample_one_list_ok|apply sample_set_lists|apply sample_one_lists].
Defined.

Lemma analyzer_auto_blacklists_witness :
  let s := example_state sample_set sample_set 12 in
  ∃ a' e', analyzer_update_reputation (limits 0 0 0 0 0) true (s_an s) example_source (-10) 50 None =
      Ok ((), a') ∧ reputation_score e' = 2 ∧
    process_all (limits 0 0 0 0 0) [(50, no_allocs, example_packet); (50, no_allocs, example_packet)] (set_an a' s) =
      Ok ([VERDICT_DROP; VERDICT_DROP],
          set_an (store_stats a' 1 (set_blacklisted true (blacklist_expires e') e')) (set_an a' s)).
Proof.
  intros s.
  destruct (analyzer_auto_blacklists (limits 0 0 0 0 0) 50 s example_source 1 (example_stats 12)
    sample_set sample_set None) as (a' & e' & Hu & Hr & _ & Hp);
    [apply example_state_known|by apply ip_okb_ok|done|done|apply sample_set_list_ok..|
     done|simpl; lia|done|lia|simpl; lia|].
  exists a', e'. split; [exact Hu|]. split; [exact Hr|].
  apply (Hp [(50, no_allocs, example_packet); (50, no_allocs, example_packet)]).
  repeat constructor; try (simpl; lia); apply sample_set_lists.
Defined.
