(* ===== verification/Baseline.v ===== *)
(** * The traffic baseline

    The statistical half of [src/detection/analyzer.c]: the entropy of the
    traffic, the baseline it is compared with, and the anomaly test. A [double]
    is a [spec_float] of the Standard Library with the precision of binary64,
    whose operations round to nearest; [log2] is the C library's. The walk of a
    bucket takes fuel, since it steps from an entry to the same entry. *)

From Stdlib Require Import SpecFloat.
From S2P Require Import Prelude Common State Analyzer.

(** ** Doubles *)

Definition double : Type := spec_float.

Definition d_zero : double := S754_zero false.
Definition d_div : double → double → double := SFdiv 53 1024.
Definition d_mul : double → double → double := SFmul 53 1024.
Definition d_sub : double → double → double := SFsub 53 1024.
Definition d_lt : double → double → bool := SFltb.
Definition d_abs : double → double := SFabs.

(** The conversion of a [uint64_t]. *)
Definition d_of_u64 (z : Z) : double := binary_normalize 53 1024 z 0 false.

(** The literals [2.0], [5.0], and [0.2], which is 7205759403792794 / 2^55. *)
Definition d_2 : double := d_of_u64 2.
Definition d_5 : double := d_of_u64 5.
Definition d_02 : double := S754_finite false 7205759403792794 (-55).

Example d_02_ex : d_div (d_of_u64 1) d_5 = d_02.
Proof. vm_compute. reflexivity. Qed.

(** ** The state *)

Record traffic_pattern := TrafficPattern {
  entropy : double;
  packet_size_avg : double;
  packet_size_stddev : double;
  inter_arrival_time_avg : double;
  syn_ack_ratio : Z;
  udp_tcp_ratio : Z;
  unique_src_ips : Z;
  unique_dst_ports : Z
}.

(** What [calloc] leaves. *)
Definition pattern_zero : traffic_pattern :=
  TrafficPattern d_zero d_zero d_zero d_zero 0 0 0 0.

(** The two fields of [struct traffic_analyzer] that [Analyzer] leaves out. *)
Record profile := Profile {
  pf_analyzer : traffic_analyzer;
  pf_baseline : traffic_pattern;
  pf_baseline_updated : Z    (* time_t *)
}.

(** The baseline half of [analyzer_init]. *)
Definition profile_init (a : traffic_analyzer) (now : Z) : profile := Profile a pattern_zero now.

(** ** The walk over all statistics *)

Section walk.
Context {A : Type}.
Variable visit : ip_stats → A → A.

Fixpoint scan_chain (fuel : nat) (a : traffic_analyzer) (stats : option positive) (acc : A) : res A :=
  match fuel with
  | O => Diverges
  | S fuel' =>
      match stats with
      | None => Ok acc
      | Some l => let* s := load_stats a l in scan_chain fuel' a (Some l) (visit s acc)
      end
  end.

Fixpoint scan_buckets (fuel : nat) (a : traffic_analyzer) (n : nat) (i : Z) (acc : A) : res A :=
  match n with
  | O => Ok acc
  | S n' => let* acc := scan_chain fuel a (an_table a !! i) acc in scan_buckets fuel a n' (i + 1) acc
  end.

Definition scan_table (fuel : nat) (a : traffic_analyzer) (acc : A) : res A :=
  scan_buckets fuel a (Z.to_nat IP_STATS_TABLE_SIZE) 0 acc.
End walk.

(** ** Entropy *)

Definition count_protocols (s : ip_stats) (acc : Z * list Z) : Z * list Z :=
  foldl (λ '(total_packets, counts) j,
    let n := default 0 (st_packets s !! j) in
    (total_packets +₆₄ n, alter (λ v, v +₆₄ n) (j mod 256)%nat counts)) acc (seq 0 ATTACK_MAX).

Section baseline.
Variable log2 : double → double.

Definition shannon (total_packets : Z) (counts : list Z) : double :=
  foldl (λ entropy c,
    if 0 <? c then
      let p := d_div (d_of_u64 c) (d_of_u64 total_packets) in
      d_sub entropy (d_mul p (log2 p))
    else entropy) d_zero counts.

Definition analyzer_calculate_entropy (fuel : nat) (a : traffic_analyzer) : res double :=
  let* (total_packets, counts) := scan_table count_protocols fuel a (0, replicate 256 0) in
  Ok (if total_packets =? 0 then d_zero else shannon total_packets counts).

(** ** The baseline *)

Definition count_traffic (s : ip_stats) (acc : Z * Z * Z) : Z * Z * Z :=
  let '(total_packets, total_bytes, unique_ips) := acc in
  let '(total_packets, total_bytes) :=
    foldl (λ '(p, b) j,
      (p +₆₄ default 0 (st_packets s !! j), b +₆₄ default 0 (st_bytes s !! j)))
      (total_packets, total_bytes) (seq 0 ATTACK_MAX) in
  (total_packets, total_bytes, unique_ips +₃₂ 1).

Definition analyzer_update_baseline (fuel : nat) (now : Z) (pf : profile) : res (Z * profile) :=
  let a := pf_analyzer pf in
  let b := pf_baseline pf in
  let* e := analyzer_calculate_entropy fuel a in
  let* (total_packets, total_bytes, unique_ips) := scan_table count_traffic fuel a (0, 0, 0) in
  let avg := if 0 <? total_packets
    then d_div (d_of_u64 total_bytes) (d_of_u64 total_packets) else packet_size_avg b in
  Ok (0, Profile a
    (TrafficPattern e avg (packet_size_stddev b) (inter_arrival_time_avg b) (syn_ack_ratio b)
       (udp_tcp_ratio b) unique_ips (unique_dst_ports b)) now).

Definition analyzer_ml_train (fuel : nat) (now : Z) (pf : profile) : res (Z * profile) :=
  analyzer_update_baseline fuel now pf.

(** ** The anomaly test *)

Definition analyzer_is_anomaly (pf : profile) (pattern : traffic_pattern) : bool :=
  let b := pf_baseline pf in
  if d_lt d_2 (d_abs (d_sub (entropy pattern) (entropy b))) then true
  else if d_lt d_zero (packet_size_avg pattern) && d_lt d_zero (packet_size_avg b) then
    let size_ratio := d_div (packet_size_avg pattern) (packet_size_avg b) in
    d_lt d_5 size_ratio || d_lt size_ratio d_02
  else false.

(** ** The walk ends on the empty table only *)

Lemma scan_chain_diverges {A} (visit : ip_stats → A → A) fuel a l s acc :
  an_stats a !! l = Some s → scan_chain visit fuel a (Some l) acc = Diverges.
Proof.
  intros Hl. revert acc. induction fuel as [|fuel IH]; intros acc; [done|]. cbn [scan_chain].
  unfold load_stats. rewrite Hl. cbn [rbind]. apply IH.
Qed.

Lemma scan_buckets_empty {A} (visit : ip_stats → A → A) fuel a n i acc :
  an_table a = ∅ → scan_buckets visit (S fuel) a n i acc = Ok acc.
Proof.
  intros Ht. revert i. induction n as [|n IH]; intros i; [done|]. cbn [scan_buckets].
  rewrite Ht, lookup_empty. cbn [scan_chain rbind]. apply IH.
Qed.

(** The pointers of the table, and where they point. *)
Definition table_ok (a : traffic_analyzer) : Prop :=
  ∀ i l, an_table a !! i = Some l → 0 <= i < IP_STATS_TABLE_SIZE ∧ is_Some (an_stats a !! l).

Lemma scan_buckets_hit {A} (visit : ip_stats → A → A) fuel a n i acc k l :
  table_ok a → an_table a !! k = Some l → i <= k < i + Z.of_nat n →
  scan_buckets visit fuel a n i acc = Diverges.
Proof.
  intros Hok Hk. revert i acc. induction n as [|n IH]; intros i acc Hi; [lia|]. cbn [scan_buckets].
  destruct (an_table a !! i) as [l'|] eqn:Hi'.
  - destruct (Hok i l' Hi') as [_ [s Hs]]. by erewrite scan_chain_diverges.
  - assert (i ≠ k) by congruence. destruct fuel as [|fuel]; [done|]. cbn [scan_chain rbind].
    apply IH. lia.
Qed.

Lemma scan_table_hit {A} (visit : ip_stats → A → A) fuel a acc k l :
  table_ok a → an_table a !! k = Some l → scan_table visit fuel a acc = Diverges.
Proof.
  intros Hok Hk. destruct (Hok k l Hk) as [Hr _]. apply (scan_buckets_hit visit fuel a _ 0 acc k l);
    [done|done|]. unfold IP_STATS_TABLE_SIZE in *. lia.
Qed.

(** The state after an update of the baseline that returns. *)
Definition quiet (pf : profile) (now : Z) : profile :=
  let b := pf_baseline pf in
  Profile (pf_analyzer pf)
    (TrafficPattern d_zero (packet_size_avg b) (packet_size_stddev b) (inter_arrival_time_avg b)
       (syn_ack_ratio b) (udp_tcp_ratio b) 0 (unique_dst_ports b)) now.

Lemma update_baseline_empty fuel now pf :
  an_table (pf_analyzer pf) = ∅ → analyzer_update_baseline (S fuel) now pf = Ok (0, quiet pf now).
Proof.
  intros Ht. unfold analyzer_update_baseline, analyzer_calculate_entropy, scan_table.
  rewrite scan_buckets_empty by done. cbn [rbind]. by rewrite scan_buckets_empty by done.
Qed.

Lemma update_baseline_diverges fuel now pf :
  table_ok (pf_analyzer pf) → an_table (pf_analyzer pf) ≠ ∅ →
  analyzer_update_baseline fuel now pf = Diverges.
Proof.
  intros Hok Hne. destruct (map_choose _ Hne) as (k & l & Hk).
  unfold analyzer_update_baseline, analyzer_calculate_entropy.
  by erewrite scan_table_hit.
Qed.

(** C27: Updating the baseline (training included) returns exactly when the table
    of statistics is empty; one entry makes its walk go round that entry for
    ever. When it returns, there was no traffic to look at: the entropy and the
    number of sources are set to zero and the average size is left as it was. *)
Theorem analyzer_update_baseline_terminates now pf :
  table_ok (pf_analyzer pf) →
  ((∃ fuel, is_ok (analyzer_ml_train fuel now pf) = true) ↔ an_table (pf_analyzer pf) = ∅) ∧
  (∀ fuel r, analyzer_ml_train fuel now pf = Ok r → r = (0, quiet pf now)).
Proof.
  intros Hok. unfold analyzer_ml_train. destruct (decide (an_table (pf_analyzer pf) = ∅)) as [He|Hne].
  - split; [split; [done|]; intros _; exists 1%nat; by rewrite update_baseline_empty|].
    intros [|fuel] r Hr; [done|]. rewrite update_baseline_empty in Hr by done. by injection Hr as <-.
  - split; [split; [|done]; intros [fuel Hf]|intros fuel r Hr];
      rewrite update_baseline_diverges in * by done; done.
Qed.

(** Updates of a running analyzer, between which the rest of its state may
    change. *)
Inductive profile_step : profile → profile → Prop :=
  | step_update fuel now pf rc pf' :
      analyzer_update_baseline fuel now pf = Ok (rc, pf') → profile_step pf pf'
  | step_traffic pf a : table_ok a → profile_step pf (Profile a (pf_baseline pf) (pf_baseline_updated pf)).
End baseline.

(** No update has ever seen traffic. *)
Record blank (pf : profile) : Prop := {
  blank_table : table_ok (pf_analyzer pf);
  blank_entropy : entropy (pf_baseline pf) = d_zero;
  blank_size : packet_size_avg (pf_baseline pf) = d_zero
}.

Lemma profile_step_blank log2 pf pf' : profile_step log2 pf pf' → blank pf → blank pf'.
Proof.
  intros [fuel now pf0 rc pf1 H|pf0 a Ha] [Ht He Hs]; [|by split].
  destruct (decide (an_table (pf_analyzer pf0) = ∅)) as [Hempty|Hne].
  - destruct fuel as [|fuel]; [done|]. rewrite update_baseline_empty in H by done.
    injection H as _ <-. by split.
  - by rewrite update_baseline_diverges in H.
Qed.

Lemma d_sub_zero x : d_abs (d_sub x d_zero) = d_abs x.
Proof. by destruct x as [[]|[]| |]. Qed.

(** C28: The anomaly test compares a pattern with a baseline that has seen no
    traffic, however the analyzer has been used: it answers whether the
    absolute value of the pattern's entropy exceeds 2, and never looks at the packet sizes. *)
Theorem analyzer_is_anomaly_entropy_only log2 a now pf pattern :
  table_ok a → rtc (profile_step log2) (profile_init a now) pf →
  analyzer_is_anomaly pf pattern = d_lt d_2 (d_abs (entropy pattern)).
Proof.
  intros Ha Hr. assert (blank pf) as [_ He Hs].
  { assert (blank (profile_init a now)) as H0 by by split. revert H0.
    induction Hr as [|pf1 pf2 pf3 Hstep _ IH]; [done|]. intros H. by eapply IH, profile_step_blank. }
  unfold analyzer_is_anomaly. rewrite He, Hs, d_sub_zero.
  destruct (d_lt d_2 _); [done|]. by rewrite andb_false_r.
Qed.

(** ** Witnesses *)

Definition empty_analyzer : traffic_analyzer := TrafficAnalyzer ∅ ∅ None None.

(** A constant in the place of the logarithm. *)
Definition sample_log2 (x : double) : double := d_zero.

Lemma empty_table_ok : table_ok empty_analyzer.
Proof. intros i l. cbn. by rewrite lookup_empty. Qed.

Lemma analyzer_update_baseline_terminates_witness :
  analyzer_ml_train sample_log2 1 9 (profile_init empty_analyzer 5) =
    Ok (0, quiet (profile_init empty_analyzer 5) 9).
Proof.
  destruct (analyzer_update_baseline_terminates sample_log2 9 (profile_init empty_analyzer 5) empty_table_ok)
    as [_ H].
  assert (∃ r, analyzer_ml_train sample_log2 1 9 (profile_init empty_analyzer 5) = Ok r) as [r Hr].
  { unfold analyzer_ml_train. rewrite update_baseline_empty by reflexivity. by eexists. }
  rewrite Hr. f_equal. by eapply H.
Defined.

(** Packets a hundred times the size of anything seen are no anomaly. *)
Lemma analyzer_is_anomaly_entropy_only_witness :
  let pf := quiet (profile_init empty_analyzer 5) 9 in
  let pattern := TrafficPattern d_2 (d_of_u64 150000) d_zero d_zero 0 0 1 1 in
  analyzer_is_anomaly pf pattern = false.
Proof.
  intros pf pattern.
  rewrite (analyzer_is_anomaly_entropy_only sample_log2 empty_analyzer 5 pf pattern).
  - vm_compute. reflexivity.
  - apply empty_table_ok.
  - eapply rtc_once, (step_update sample_log2 1 9 _ 0).
    by rewrite update_baseline_empty.
Defined.
