(* ===== verification/Capture.v ===== *)
(** * The capture handle

    The handle of [src/packet/capture.c] over libpcap: opening, stopping and
    closing it. The packet callback is in [Parser]. Of a libpcap handle the model
    keeps what its documentation says [pcap_loop] looks at: whether
    [pcap_breakloop] has been called. *)

From S2P Require Import Prelude Common CString State.

Definition DLT_EN10MB : Z := 1.

Record pcap := Pcap { ph_nonblock : bool; ph_break : bool }.

Record packet_capture := PacketCapture {
  pc_handle : option pcap;
  pc_interface : option (list Z);
  pc_promiscuous : bool;
  pc_snaplen : Z;
  pc_running : bool
}.

(** What the allocator and libpcap answer while a handle is opened. *)
Record open_outcomes := OpenOutcomes {
  oo_calloc : bool;
  oo_strdup : option (list Z);
  oo_open : bool;           (* pcap_open_live *)
  oo_nonblock : bool;       (* pcap_setnonblock; a failure is only logged *)
  oo_datalink : Z
}.

Definition packet_capture_init (o : open_outcomes) (promiscuous : bool) (snaplen : Z)
    : option packet_capture :=
  if negb (oo_calloc o) then None
  else if negb (oo_open o) then None
  else if negb (oo_datalink o =? DLT_EN10MB) then None
  else Some (PacketCapture (Some (Pcap (oo_nonblock o) false)) (oo_strdup o) promiscuous snaplen false).

(** The handle is closed and everything freed. *)
Definition packet_capture_cleanup (pc : option packet_capture) : option packet_capture := None.

Definition packet_capture_stop (pc : packet_capture) : packet_capture :=
  PacketCapture ((λ h, Pcap (ph_nonblock h) true) <$> pc_handle pc) (pc_interface pc)
    (pc_promiscuous pc) (pc_snaplen pc) false.

(** The part of [packet_capture_start] before [pcap_loop]. *)
Definition packet_capture_begin (pc : packet_capture) : packet_capture :=
  PacketCapture (pc_handle pc) (pc_interface pc) (pc_promiscuous pc) (pc_snaplen pc) true.

(** Whether [pcap_loop] returns for a call of [pcap_breakloop]. *)
Definition loop_broken (pc : packet_capture) : bool :=
  match pc_handle pc with Some h => ph_break h | None => false end.
