(* ===== verification/Engine.v ===== *)
(** * The engine

    [src/core/main.c]: start-up, the callback that turns a captured packet's
    verdict into counters and firewall rules, signals, and shutdown, each as one
    step. The threads of the program and their interleaving are in [Main]. *)

From S2P Require Import Prelude Common Hash ConnHeap HashTable LruCache CString Inet IpSet Packet Parser.
From S2P Require Import State UdpProtect TcpProtect IcmpProtect HttpProtect Firewall Analyzer.

Definition HASH_TABLE_SIZE : Z := 1048576.

(** [g_ctx] with what it points to, the module globals, the worker's counter and
    [g_shutdown]. *)
Record engine := Engine {
  en_state : astate;
  en_conn_table : hashtable;
  en_firewall : firewall;
  en_running : bool;
  en_shutdown : bool;
  en_processed : Z      (* uint64_t *)
}.

Definition with_state (s : astate) (en : engine) : engine :=
  Engine s (en_conn_table en) (en_firewall en) (en_running en) (en_shutdown en) (en_processed en).
Definition with_firewall (fw : firewall) (en : engine) : engine :=
  Engine (en_state en) (en_conn_table en) fw (en_running en) (en_shutdown en) (en_processed en).
Definition set_global (g : global_stats) (s : astate) : astate :=
  AState (s_an s) g (s_udp s) (s_tcp s) (s_icmp s) (s_http s) (s_heap s) (s_cache s).
Definition on_global (f : global_stats → global_stats) : st engine unit :=
  st_modify (λ en, with_state (set_global (f (s_global (en_state en))) (en_state en)) en).

(** ** Start-up *)

(** What [calloc] answers during [init_context]: the context, the statistics, the
    two of the table, the three of the cache. *)
Record context_allocs := ContextAllocs {
  ca_ctx : bool; ca_stats : bool; ca_table : bool; ca_table' : bool;
  ca_cache : bool; ca_cache' : bool; ca_cache'' : bool
}.

Definition init_context (o : context_allocs) : res (option (global_stats * hashtable * lru_cache)) :=
  if negb (ca_ctx o) then Ok None
  else if negb (ca_stats o) then Ok None
  else
    match hashtable_create (ca_table o) (ca_table' o) HASH_TABLE_SIZE with
    | None => Ok None
    | Some t =>
        match lru_cache_create (ca_cache o) (ca_cache' o) (ca_cache'' o) LRU_CACHE_SIZE with
        | None => let* h := hashtable_destroy ∅ t in Ok None
        | Some c => Ok (Some (zero_global, t, c))
        end
    end.

Definition cleanup_context (h : heap) (t : hashtable) (c : lru_cache) : res heap :=
  let* h := hashtable_destroy h t in lru_cache_destroy h c.

(** The other outcomes start-up depends on: the firewall's set, the four
    modules, the analyzer's three allocations and its two sets. *)
Record start_outcomes := StartOutcomes {
  so_ctx : context_allocs;
  so_fw : bool * bool;
  so_udp : bool; so_tcp : bool; so_icmp : bool; so_http : bool;
  so_an : bool * bool * bool;
  so_lists : bool * bool * (bool * bool)
}.

(** The part of [main] up to the packet loop that builds the engine, with what is
    undone when it fails. The results of the modules' initialisation are not
    looked at. *)
Definition start (o : start_outcomes) (cfg : config) (now : Z) (fw : firewall) : res (option engine) :=
  let* ctx := init_context (so_ctx o) in
  match ctx with
  | None => Ok None
  | Some (g, t, c) =>
      let '(rc, fw) := firewall_init (so_fw o).1 (so_fw o).2 FIREWALL_BACKEND_IPTABLES fw in
      if negb (rc =? 0) then let* h := cleanup_context ∅ t c in Ok None
      else
        let udp := (udp_protect_init (so_udp o) now).2 in
        let tcp := (tcp_protect_init (so_tcp o) now).2 in
        let icmp := (icmp_protect_init (so_icmp o) now).2 in
        let http := (http_protect_init (so_http o) cfg now).2 in
        match analyzer_init (so_an o).1.1 (so_an o).1.2 (so_an o).2
                (so_lists o).1.1 (so_lists o).1.2 (so_lists o).2.1 (so_lists o).2.2 with
        | None => let* h := cleanup_context ∅ t c in Ok None
        | Some a => Ok (Some (Engine (AState a g udp tcp icmp http ∅ c) t fw true false 0))
        end
  end.

(** ** One packet *)

(** The outcomes of one delivery: the clock, the allocator, the exit status of
    the firewall command. *)
Record packet_env := PacketEnv {
  pe_now : Z;
  pe_allocs : packet_allocs;
  pe_system : Z;
  pe_entry : bool
}.

Section handler.
Context {ntop : InetNtop}.

Definition count_arrival (p : packet) (g : global_stats) : global_stats :=
  GlobalStats (total_packets g +₆₄ 1) (total_bytes g +₆₄ len p) (dropped_packets g)
    (rate_limited_packets g) (attacks_detected g) (current_connections g).
Definition count_dropped (g : global_stats) : global_stats :=
  GlobalStats (total_packets g) (total_bytes g) (dropped_packets g +₆₄ 1)
    (rate_limited_packets g) (attacks_detected g) (current_connections g).
Definition count_limited (g : global_stats) : global_stats :=
  GlobalStats (total_packets g) (total_bytes g) (dropped_packets g)
    (rate_limited_packets g +₆₄ 1) (attacks_detected g) (current_connections g).

Definition apply_verdict (cfg : config) (env : packet_env) (p : packet) (v : verdict) : st engine unit :=
  match v with
  | VERDICT_DROP =>
      on_global count_dropped ;;
      if auto_blacklist cfg then
        st_modify (λ en, with_firewall
          (firewall_block_ip (pe_system env) (pe_entry env) (pe_now env) (en_firewall en)
             (pkt_src_ip (ip p)) (blacklist_duration cfg)).2 en)
      else st_ret ()
  | VERDICT_RATE_LIMIT => on_global count_limited
  | VERDICT_CHALLENGE | VERDICT_ACCEPT => st_ret ()
  end.

Definition packet_handler (cfg : config) (env : packet_env) (p : packet) : st engine unit := λ en,
  if en_shutdown en then Ok ((), en)
  else
    (st_modify (λ en, Engine (en_state en) (en_conn_table en) (en_firewall en) (en_running en)
                        (en_shutdown en) (en_processed en +₆₄ 1)) ;;
     on_global (count_arrival p) ;;
     v <- st_zoom en_state with_state
            (analyzer_process_packet cfg (pe_now env) (pe_allocs env) p) ;;
     apply_verdict cfg env p v) en.

(** The body of the capture loop: the callback of libpcap on each frame. *)
Record arrival := Arrival {
  ar_frame : list Z;
  ar_caplen : Z;
  ar_time : Z;
  ar_calloc : bool;
  ar_malloc : bool;
  ar_env : packet_env
}.

Definition received (ev : arrival) : res (option packet) :=
  pcap_callback (ar_calloc ev) (ar_malloc ev) (ar_frame ev) (ar_caplen ev) (ar_time ev).

(** What the callback makes of each frame, up to the first on which it reads outside
    the frame. *)
Fixpoint receive_all (evs : list arrival) : res (list (option packet)) :=
  match evs with
  | [] => Ok []
  | ev :: evs' => let* r := received ev in let* rs := receive_all evs' in Ok (r :: rs)
  end.

Lemma receive_all_Ok evs rs : receive_all evs = Ok rs → Forall2 (λ ev r, received ev = Ok r) evs rs.
Proof.
  revert rs. induction evs as [|ev evs IH]; intros rs H; cbn [receive_all] in H.
  { apply (inj Ok) in H as <-. constructor. }
  apply rbind_Ok in H as (r & Hr & (rs' & Hrs & H)%rbind_Ok). apply (inj Ok) in H as <-.
  constructor; [done|by apply IH].
Qed.

Fixpoint capture (cfg : config) (evs : list arrival) : st engine unit :=
  match evs with
  | [] => st_ret ()
  | ev :: evs' =>
      r <- st_lift (received ev) ;;
      (match r with None => st_ret () | Some p => packet_handler cfg (ar_env ev) p end) ;;
      capture cfg evs'
  end.
End handler.

(** ** Signals and shutdown *)

Definition SIGINT : Z := 2.
Definition SIGTERM : Z := 15.

Definition signal_handler (sig : Z) (en : engine) : engine :=
  if (sig =? SIGINT) || (sig =? SIGTERM) then
    Engine (en_state en) (en_conn_table en) (en_firewall en) false true (en_processed en)
  else en.

(** The handler once [g_ctx] is [NULL]. *)
Definition request_shutdown (en : engine) : engine :=
  Engine (en_state en) (en_conn_table en) (en_firewall en) (en_running en) true (en_processed en).

(** The clean-up of the components after the capture loop: what is left in the
    statistics' heap stays allocated. *)
Definition release (en : engine) : res engine :=
  let s := en_state en in
  let* leaked := analyzer_cleanup (s_an s) in
  let a := TrafficAnalyzer (an_table (s_an s)) leaked None None in
  Ok (Engine (AState a (s_global s) None None None None (s_heap s) (s_cache s))
        (en_conn_table en) (firewall_cleanup (en_firewall en)) (en_running en) (en_shutdown en)
        (en_processed en)).

(** The clean-up of [main] on success: the statistics objects that remain
    allocated, and the firewall. *)
Definition shutdown (en : engine) : res (gmap positive ip_stats * firewall) :=
  let* en := release en in
  let* h := cleanup_context (s_heap (en_state en)) (en_conn_table en) (s_cache (en_state en)) in
  Ok (an_stats (s_an (en_state en)), en_firewall en).

(** ** What a started engine does to traffic *)

Section lifecycle.
Context {ntop : InetNtop}.

(** The analyzer has no entry for any address. *)
Definition knows_nobody (en : engine) : Prop := an_table (s_an (en_state en)) = ∅.

(** The engine after packets it has let through: the counters of arrivals, and
    the statistics objects [h] allocated so far. *)
Definition passed (n bytes : Z) (h : gmap positive ip_stats) (en : engine) : engine :=
  let s := en_state en in
  let a := s_an s in
  let g := s_global s in
  Engine
    (AState (TrafficAnalyzer (an_table a) h (an_blacklist a) (an_whitelist a))
       (GlobalStats (total_packets g +₆₄ n) (total_bytes g +₆₄ bytes) (dropped_packets g)
          (rate_limited_packets g) (attacks_detected g) (current_connections g))
       (s_udp s) (s_tcp s) (s_icmp s) (s_http s) (s_heap s) (s_cache s))
    (en_conn_table en) (en_firewall en) (en_running en) (en_shutdown en) (en_processed en +₆₄ n).

Lemma handler_passes cfg env p en :
  knows_nobody en → en_shutdown en = false →
  packet_handler cfg env p en =
    Ok ((), passed 1 (len p)
              (leak (s_an (en_state en)) (pkt_src_ip (ip p)) (pe_now env) (al_stats (pe_allocs env))) en).
Proof.
  unfold knows_nobody. intros Hnone Hrun. unfold packet_handler. rewrite Hrun.
  unfold st_bind, on_global, st_modify, st_zoom. cbn [en_state with_state set_global s_an].
  assert (an_table (s_an (en_state en)) !! ip_stats_hash (pkt_src_ip (ip p)) = None) as Hh
    by by rewrite Hnone, lookup_empty.
  rewrite process_unknown by exact Hh. done.
Qed.

Lemma passed_trans n m bytes bytes' h h' en :
  passed m bytes' h' (passed n bytes h en) = passed (n + m) (bytes + bytes') h' en.
Proof.
  unfold passed. cbn. f_equal; [f_equal; f_equal|]; unfold u64;
    rewrite Zplus_mod_idemp_l; f_equal; lia.
Qed.

(** The arrivals whose frame was parsed, with their packets. *)
Definition delivered (evs : list arrival) (rs : list (option packet)) : list (arrival * packet) :=
  omap (λ x, pair x.1 <$> x.2) (zip evs rs).

(** Counters hold [uint64_t] values. *)
Definition counters_ok (en : engine) : Prop :=
  u64 (total_packets (s_global (en_state en))) = total_packets (s_global (en_state en)) ∧
  u64 (total_bytes (s_global (en_state en))) = total_bytes (s_global (en_state en)) ∧
  u64 (en_processed en) = en_processed en.

Lemma passed_zero en : counters_ok en → passed 0 0 (an_stats (s_an (en_state en))) en = en.
Proof.
  intros (H1 & H2 & H3). unfold passed. rewrite !Z.add_0_r, H1, H2, H3.
  by destruct en as [[[] [] ? ? ? ? ? ?] ? ? ? ? ?].
Qed.

Lemma u64_idemp z : u64 (u64 z) = u64 z.
Proof. unfold u64. by rewrite Zmod_mod. Qed.

Lemma passed_counters_ok n bytes h en : counters_ok (passed n bytes h en).
Proof. split_and!; apply u64_idemp. Qed.

Lemma leak_mono a ip now alloc : dom (an_stats a) ⊆ dom (leak a ip now alloc).
Proof. unfold leak. destruct alloc; [rewrite dom_insert_L; set_solver|done]. Qed.

(** The statistics objects allocated for the delivered packets. *)
Definition allocated (ds : list (arrival * packet)) : gset positive :=
  list_to_set (omap (λ x, al_stats (pe_allocs (ar_env x.1))) ds).

Lemma capture_passes cfg evs rs en :
  knows_nobody en → en_shutdown en = false → counters_ok en →
  Forall2 (λ ev r, received ev = Ok r) evs rs →
  ∃ h, capture cfg evs en =
    Ok ((), passed (Z.of_nat (length (delivered evs rs)))
              (sumZ ((λ x, len x.2) <$> delivered evs rs)) h en) ∧
    dom (an_stats (s_an (en_state en))) ∪ allocated (delivered evs rs) ⊆ dom h.
Proof.
  intros Hnone Hrun Hc Hrecv. revert en Hnone Hrun Hc.
  induction Hrecv as [|ev r evs rs Hr Hrecv IH]; intros en Hnone Hrun Hc.
  { exists (an_stats (s_an (en_state en))). split.
    - change (Ok ((), en) = Ok ((), passed 0 0 (an_stats (s_an (en_state en))) en)).
      by rewrite (passed_zero en Hc).
    - change (allocated (delivered [] [])) with (∅ : gset positive). set_solver. }
  cbn [capture]. unfold st_bind, st_lift. rewrite Hr.
  destruct r as [p|].
  - rewrite handler_passes by done.
    set (h1 := leak _ _ _ _).
    destruct (IH (passed 1 (len p) h1 en)) as (h & Hcap & Hdom);
      [done|done|apply passed_counters_ok|].
    exists h. rewrite Hcap, passed_trans. cbn [delivered zip zip_with omap list_omap] in *.
    unfold delivered in *. cbn [zip zip_with omap list_omap fst snd fmap option_fmap option_map].
    split.
    + cbn [length]. rewrite Nat2Z.inj_succ, <- Z.add_1_l. done.
    + unfold allocated in *. cbn [omap list_omap fst]. cbn [passed en_state s_an an_stats] in Hdom.
      pose proof (leak_mono (s_an (en_state en)) (pkt_src_ip (ip p)) (pe_now (ar_env ev))
        (al_stats (pe_allocs (ar_env ev)))) as Hmono. fold h1 in Hmono.
      destruct (al_stats (pe_allocs (ar_env ev))) as [l|] eqn:Hl; [|set_solver].
      assert (l ∈ dom h1) by (unfold h1, leak; rewrite dom_insert_L; set_solver).
      cbn [list_to_set]. set_solver.
  - destruct (IH en) as (h & Hcap & Hdom); [done..|]. exists h. split; [exact Hcap|exact Hdom].
Qed.

(** A frame on which the parser fails is the only thing that can go wrong. *)
Lemma capture_fails cfg evs en :
  knows_nobody en → en_shutdown en = false →
  match receive_all evs with
  | Ok _ => True
  | Undef u => capture cfg evs en = Undef u
  | Diverges => capture cfg evs en = Diverges
  end.
Proof.
  revert en. induction evs as [|ev evs IH]; intros en Hn Hr; [done|]. cbn [receive_all capture].
  unfold st_bind, st_lift. destruct (received ev) as [[p|]| |]; cbn [rbind]; [| |done..].
  - rewrite handler_passes by done.
    specialize (IH (passed 1 (len p) (leak (s_an (en_state en)) (pkt_src_ip (ip p)) (pe_now (ar_env ev))
      (al_stats (pe_allocs (ar_env ev)))) en) Hn Hr).
    destruct (receive_all evs); [done|exact IH..].
  - specialize (IH en Hn Hr). destruct (receive_all evs); [done|exact IH..].
Qed.

(** No connection is tracked. *)
Definition empty_table (t : hashtable) : Prop := ∃ n k m, t = Hashtable (replicate n None) k m.
Definition empty_cache (c : lru_cache) : Prop :=
  ∃ n k m x y, c = LruCache (Hashtable (replicate n None) k m) None None x y.

(** What start-up leaves: no entry, no connection, zero counters. *)
Record fresh (en : engine) : Prop := {
  fresh_nobody : knows_nobody en;
  fresh_running : en_shutdown en = false;
  fresh_flag : en_running en = true;
  fresh_global : s_global (en_state en) = zero_global;
  fresh_processed : en_processed en = 0;
  fresh_heap : s_heap (en_state en) = ∅;
  fresh_table : empty_table (en_conn_table en);
  fresh_cache : empty_cache (s_cache (en_state en))
}.

Lemma start_fresh o cfg now fw en : start o cfg now fw = Ok (Some en) → fresh en.
Proof.
  unfold start, init_context, hashtable_create, lru_cache_create, analyzer_init.
  destruct (ca_ctx (so_ctx o)), (ca_stats (so_ctx o)); try done. cbn [negb rbind].
  destruct (ca_table (so_ctx o)), (ca_table' (so_ctx o)); try done.
  destruct (ca_cache (so_ctx o)).
  2: { intros H. by apply rbind_Ok in H as (? & (? & _ & [= <-])%rbind_Ok & [=]). }
  unfold hashtable_create.
  destruct (ca_cache' (so_ctx o)), (ca_cache'' (so_ctx o)).
  2-4: intros H; by apply rbind_Ok in H as (? & (? & _ & [= <-])%rbind_Ok & [=]).
  cbn [rbind]. destruct (firewall_init _ _ _ _) as [rc fw']. destruct (negb (rc =? 0)).
  { by intros (? & _ & [=])%rbind_Ok. }
  destruct ((so_an o).1.1 && (so_an o).1.2 && (so_an o).2).
  2: by intros (? & _ & [=])%rbind_Ok.
  intros H. apply (inj Ok), (inj Some) in H. subst en.
  constructor; try exact eq_refl; repeat eexists.
Qed.

Lemma free_buckets_empty n : free_buckets ∅ (replicate n None) = Ok ∅.
Proof. induction n as [|n IH]; [done|exact IH]. Qed.

Lemma free_stats_buckets_empty n i h : free_stats_buckets n i h ∅ = Ok h.
Proof.
  revert i. induction n as [|n IH]; intros i; [done|]. cbn [free_stats_buckets].
  rewrite lookup_empty. apply IH.
Qed.

Lemma cleanup_context_empty t c : empty_table t → empty_cache c → cleanup_context ∅ t c = Ok ∅.
Proof.
  intros (n & k & m & ->) (n' & k' & m' & x & y & ->).
  unfold cleanup_context, lru_cache_destroy, hashtable_destroy.
  cbn [ht_buckets lc_head lc_table]. rewrite free_buckets_empty. cbn [rbind].
  destruct (walk_fuel ∅); cbn [free_list rbind]; by rewrite free_buckets_empty.
Qed.

(** Start-up returns, with or without an engine, whatever could not be had. *)
Lemma start_returns o cfg now fw : ∃ r, start o cfg now fw = Ok r.
Proof.
  unfold start, init_context, hashtable_create, lru_cache_create.
  assert (∀ n k m, hashtable_destroy ∅ (Hashtable (replicate n None) k m) = Ok ∅) as Hd
    by (intros; apply free_buckets_empty).
  destruct (ca_ctx (so_ctx o)), (ca_stats (so_ctx o)); try by eexists.
  destruct (ca_table (so_ctx o)), (ca_table' (so_ctx o)); try by eexists.
  unfold hashtable_create.
  destruct (ca_cache (so_ctx o)); [destruct (ca_cache' (so_ctx o)), (ca_cache'' (so_ctx o))|];
    cbn [negb rbind]; try (rewrite Hd; by eexists).
  destruct (firewall_init _ _ _ _) as [rc fw'].
  rewrite cleanup_context_empty by (repeat eexists).
  destruct (negb (rc =? 0)); [by eexists|]. destruct (analyzer_init _ _ _ _ _ _ _); by eexists.
Qed.

(** The engine after the clean-up of an analyzer without entries. *)
Definition released (en : engine) : engine :=
  let s := en_state en in
  Engine (AState (TrafficAnalyzer (an_table (s_an s)) (an_stats (s_an s)) None None) (s_global s)
            None None None None (s_heap s) (s_cache s))
    (en_conn_table en) (firewall_cleanup (en_firewall en)) (en_running en) (en_shutdown en)
    (en_processed en).

Lemma release_nobody en : knows_nobody en → release en = Ok (released en).
Proof.
  unfold knows_nobody, release, analyzer_cleanup. intros Hn.
  unfold released. cbv zeta. by rewrite Hn, free_stats_buckets_empty.
Qed.

(** C1: From start-up on, the engine lets every packet through, on any sequence of
    frames: while the parser stays inside the frames it counts the packets and their
    bytes, but no packet is dropped, limited or counted as an attack, no firewall
    command is run, no connection is tracked and no module sees a packet. Each
    packet leaves a statistics object that nothing points to, and shutdown frees none
    of them. The only failure is that of the first frame the parser reads past,
    such as a truncated one or an HTTP request whose searched word never comes. *)
Theorem engine_never_filters o cfg now fw en evs :
  start o cfg now fw = Ok (Some en) →
  match receive_all evs with
  | Undef u => capture cfg evs en = Undef u
  | Diverges => capture cfg evs en = Diverges
  | Ok rs =>
  let ds := delivered evs rs in
  ∃ h en', capture cfg evs en = Ok ((), en') ∧
    en_state en' =
      AState (TrafficAnalyzer ∅ h (an_blacklist (s_an (en_state en))) (an_whitelist (s_an (en_state en))))
        (GlobalStats (u64 (Z.of_nat (length ds))) (u64 (sumZ ((λ x, len x.2) <$> ds))) 0 0 zero_counts 0)
        (s_udp (en_state en)) (s_tcp (en_state en)) (s_icmp (en_state en)) (s_http (en_state en))
        ∅ (s_cache (en_state en)) ∧
    en_firewall en' = en_firewall en ∧
    allocated ds ⊆ dom h ∧ ∃ fw', shutdown en' = Ok (h, fw')
  end.
Proof.
  intros Hstart. apply start_fresh in Hstart as [Hn Hr _ Hg Hp Hh Ht Hc].
  pose proof (capture_fails cfg evs en Hn Hr) as Hfail.
  destruct (receive_all evs) as [rs| |] eqn:Hrecv; [clear Hfail|exact Hfail..].
  apply receive_all_Ok in Hrecv. intros ds. destruct (capture_passes cfg evs rs en Hn Hr) as (h & Hcap & Hdom); [|done|].
  { unfold counters_ok. by rewrite Hg, Hp. }
  exists h. eexists. split; [exact Hcap|]. unfold knows_nobody in Hn.
  split; [cbn [passed en_state]; by rewrite Hn, Hh, Hg|]. split; [done|].
  split; [fold ds in Hdom; set_solver|].
  eexists. unfold shutdown. rewrite release_nobody by exact Hn. cbn [rbind passed released en_state s_heap s_cache en_conn_table].
  rewrite Hh, cleanup_context_empty by done. reflexivity.
Qed.
End lifecycle.

(** Start-up with every allocation succeeding; one frame too short to be parsed
    and one with an IPv4 header of an unknown protocol. *)
Definition all_ok : start_outcomes :=
  StartOutcomes (ContextAllocs true true true true true true true) (true, true) true true true true
    (true, true, true) (true, true, (true, true)).

Definition example_arrival (frame : list Z) (stats : positive) : arrival :=
  Arrival frame (Z.of_nat (length frame)) 7 true true
    (PacketEnv 7 (PacketAllocs (Some stats) None None true) 0 true).

Definition gre_frame : list Z :=
  replicate 12 0 ++ [8; 0] ++
  [0x45; 0; 0; 20; 0; 1; 0; 0; 64; 47; 0; 0; 10; 0; 0; 1; 10; 0; 0; 2].

Lemma start_all_ok cfg now fw : ∃ en, start all_ok cfg now fw = Ok (Some en).
Proof. eexists. reflexivity. Qed.

#[local] Existing Instance numeric_ntop.

Lemma engine_never_filters_witness :
  let fw := Firewall FIREWALL_BACKEND_IPTABLES None [] in
  let evs := [example_arrival [1; 2] 1; example_arrival gre_frame 2] in
  ∃ en h en', start all_ok config_zero 5 fw = Ok (Some en) ∧
    capture config_zero evs en = Ok ((), en') ∧
    s_global (en_state en') = GlobalStats 1 34 0 0 zero_counts 0 ∧
    en_firewall en' = en_firewall en ∧ {[2%positive]} ⊆ dom h ∧
    ∃ fw', shutdown en' = Ok (h, fw').
Proof.
  intros fw evs. destruct (start_all_ok config_zero 5 fw) as (en & Hen).
  assert (∃ p, received (example_arrival gre_frame 2) = Ok (Some p) ∧ len p = 34) as (p & Hp & Hl).
  { eexists. split; [vm_compute; reflexivity|reflexivity]. }
  pose proof (engine_never_filters all_ok config_zero 5 fw en evs Hen) as H.
  assert (receive_all evs = Ok [None; Some p]) as Hrecv.
  { unfold evs. cbn [receive_all]. rewrite Hp. reflexivity. }
  rewrite Hrecv in H. destruct H as (h & en' & Hcap & Hst & Hfw & Hdom & Hsh).
  exists en, h, en'. split; [exact Hen|]. split; [exact Hcap|].
  split.
  { rewrite Hst. cbn. by rewrite Hl. }
  split; [exact Hfw|]. split; [|exact Hsh].
  change (allocated _) with ({[2%positive]} ∪ ∅ : gset positive) in Hdom. by rewrite union_empty_r_L in Hdom.
Defined.
