(* ===== verification/Host.v ===== *)
(** * The two filters together

    A frame meets the kernel's filter ([Xdp]) and, if that passes it, the capture
    handle and the engine ([Parser], [Engine]). This file relates what the two sides
    make of one frame, and puts them in sequence. *)

From S2P Require Import Prelude Bits Common Hash ConnHeap HashTable LruCache CString Inet IpSet Packet Parser.
From S2P Require Import State TcpProtect Firewall Analyzer Xdp Engine.

(** ** One TCP frame on both sides

    The kernel's program reads the flags at the offset the header length gives, the
    parser through the pointers it has set. *)

Lemma rd_bytes_whole l : rd_bytes l 0 (length l) = Ok l.
Proof.
  assert (∀ pre suf, rd_bytes (pre ++ suf) (Z.of_nat (length pre)) (length suf) = Ok suf) as H; [|apply (H [] l)].
  intros pre suf. revert pre. induction suf as [|b suf IH]; intros pre; [done|]. cbn [length rd_bytes].
  rewrite rd8_at by (rewrite length_app; cbn [length]; lia).
  unfold byte_at. rewrite Nat2Z.id, lookup_app_r, Nat.sub_diag by lia. cbn [rbind lookup list_lookup default].
  specialize (IH (pre ++ [b])). rewrite length_app, <- app_assoc in IH. cbn [length app] in IH.
  replace (Z.of_nat (length pre) + 1) with (Z.of_nat (length pre + 1)) by lia. by rewrite IH.
Qed.

Lemma field8_byte p a k v : field8 p (Some a) k = Ok v → v = byte_at (data p) (a + k).
Proof. unfold field8, byte_at. intros [_ Hl]%rd8_Ok. by rewrite Hl. Qed.

(** Where the parser finds the header of an IPv4 packet's protocol. *)
Lemma parse_ip_v4 p q :
  eth_len (eth p) = 14 → parse_ip p = Ok (0, q) → is_ipv4 (ip q) = true →
  pkt_protocol (ip q) = byte_at (data p) 23 ∧ transport_header (ip q) = Some (transport_at (data p)).
Proof.
  intros He H Hv4. unfold parse_ip in H. rewrite He in H.
  destruct (len p <? _); [done|]. cbv zeta in H.
  apply rbind_Ok in H as (b0 & Hb0 & H). apply field8_byte in Hb0 as ->. destruct (_ =? 4).
  - apply rbind_Ok in H as (proto & Hproto & H). apply rbind_Ok in H as (sa & _ & H).
    apply rbind_Ok in H as (da & _ & H). apply rbind_Ok in H as (tot & _ & H). injection H as <-.
    apply field8_byte in Hproto as ->. cbn [ip with_ip pkt_protocol transport_header eth]. rewrite He.
    split; [done|]. f_equal. unfold transport_at, ihl. cbn [data with_ip].
    change (14 + 0) with 14. lia.
  - exfalso. destruct (_ =? 6); [|done].
    apply rbind_Ok in H as (proto & _ & H). apply rbind_Ok in H as (sa & _ & H).
    apply rbind_Ok in H as (da & _ & H). apply rbind_Ok in H as (plen & _ & H). by injection H as <-.
Qed.

Lemma parse_tcp_flags p rc q a :
  parse_tcp p = Ok (rc, q) → sizeof_tcphdr <= transport_len (ip p) → transport_header (ip p) = Some a →
  tcp_flags (l4 q) = Z.land (byte_at (data p) (a + 13)) 63.
Proof.
  intros H Hlen Ha. unfold parse_tcp in H. cbv zeta in H. rewrite (proj2 (Z.ltb_ge _ _)), Ha in H by done.
  apply rbind_Ok in H as (sp & _ & H). apply rbind_Ok in H as (dp & _ & H).
  apply rbind_Ok in H as (sq & _ & H). apply rbind_Ok in H as (ak & _ & H).
  apply rbind_Ok in H as (b13 & Hb13 & H). apply rbind_Ok in H as (b12 & _ & H).
  apply field8_byte in Hb13 as ->. rewrite or_flags_land in H.
  by destruct (_ <? _); injection H as _ <-.
Qed.

Lemma parse_ip_data p rc q : parse_ip p = Ok (rc, q) → data q = data p.
Proof. unfold parse_ip. intros H. res_inv H; by injection H as _ <-. Qed.
Lemma parse_http_l4 p rc q : parse_http p = Ok (rc, q) → l4 q = l4 p.
Proof. unfold parse_http. intros H. res_inv H; by injection H as _ <-. Qed.

(** A TCP packet over IPv4, as the callback hands it on. *)
Lemma callback_tcp_flags frame ts p :
  pcap_callback true true frame (Z.of_nat (length frame)) ts = Ok (Some p) →
  is_ipv4 (ip p) = true → byte_at frame 23 = PROTO_TCP → sizeof_tcphdr <= transport_len (ip p) →
  pkt_protocol (ip p) = PROTO_TCP ∧
  tcp_flags (l4 p) = Z.land (byte_at frame (transport_at frame + 13)) 63.
Proof.
  intros H Hv4 Hproto Hlen. unfold pcap_callback in H. rewrite Nat2Z.id, rd_bytes_whole in H.
  cbn [rbind] in H. apply rbind_Ok in H as ([rc q] & Hq & H).
  destruct (Z.eqb_spec rc 0) as [->|]; [|done]. injection H as ->.
  unfold packet_parse in Hq. destruct (_ =? 0); [done|]. cbn [data len timestamp eth ip l4 http] in Hq.
  unfold parse_ethernet in Hq. destruct (_ <? sizeof_ethhdr); [done|]. cbn [negb Z.eqb] in Hq.
  set (p1 := with_eth _ _) in Hq. apply rbind_Ok in Hq as ([rc2 p2] & Hp2 & Hq).
  destruct (Z.eqb_spec rc2 0) as [->|]; [|done]. cbn [negb] in Hq.
  apply rbind_Ok in Hq as (p3 & Hp3 & [= ->]).
  pose proof (parse_transport_keeps _ _ Hp3) as (Ed & _ & _ & Ei). rewrite Ei in *.
  destruct (parse_ip_v4 p1 p2) as [Hpr Hth]; [done..|].
  pose proof (parse_ip_data _ _ _ Hp2) as Hd2. cbn [data with_eth p1] in Hpr, Hth, Hd2.
  rewrite Hproto in Hpr. split; [done|].
  unfold parse_transport in Hp3. rewrite Hpr, Z.eqb_refl in Hp3.
  apply rbind_Ok in Hp3 as ([rc4 p4] & Hp4 & Hp3).
  apply (parse_tcp_flags _ _ _ _ Hp4) in Hth as Hf; [|done]. rewrite Hd2 in Hf. rewrite <- Hf.
  destruct (http_port p4); [|by injection Hp3 as <-].
  apply rbind_Ok in Hp3 as ([rc5 p5] & Hp5 & [= <-]).
  apply parse_http_l4 in Hp5 as E. by rewrite E.
Qed.

(** A Christmas-tree scan: FIN, PSH and URG, among others. *)
Definition xmas (frame : list Z) : bool := flag frame 0 && flag frame 3 && flag frame 5.

(** The two tests, on the six flags. *)
Lemma flag_tests b :
  invalid_flags (Z.land b 63) =
    ((Z.testbit b 1 && (Z.testbit b 0 || Z.testbit b 2)) || (Z.land b 63 =? 0)) ||
    (Z.testbit b 0 && Z.testbit b 3 && Z.testbit b 5).
Proof.
  set (f := Z.land b 63).
  assert (∀ i, 0 <= i < 6 → Z.testbit b i = Z.testbit f i) as Hbit.
  { intros i Hi. unfold f. rewrite Z.land_spec. change 63 with (Z.ones 6).
    by rewrite Z.ones_spec_low, andb_true_r. }
  rewrite !Hbit by lia.
  assert (0 <= f < 64) as Hf.
  { unfold f. change 63 with (Z.ones 6). rewrite Z.land_ones by lia. by apply Z.mod_pos_bound. }
  apply eqb_prop. revert f Hf Hbit. clear. intros f Hf _. revert f Hf.
  assert (∀ f, byte_ok f → (64 <=? f) || eqb (invalid_flags f)
    (((Z.testbit f 1 && (Z.testbit f 0 || Z.testbit f 2)) || (f =? 0)) ||
     (Z.testbit f 0 && Z.testbit f 3 && Z.testbit f 5)) = true) as H
    by (apply byte_forall; vm_compute; reflexivity).
  intros f Hf. specialize (H f ltac:(unfold byte_ok; lia)). by rewrite (proj2 (Z.leb_gt _ _)) in H by lia.
Qed.

(** C17: On an IPv4 frame whose TCP header is complete, the kernel filter and the
    TCP module of the engine judge the flags alike, with one exception: the flags for
    which the kernel drops it are invalid in the module as well, and the only
    invalid ones that the kernel lets through are those of a Christmas-tree scan. *)
Theorem filters_agree_on_flags frame m ts p :
  classify frame m = Tcp false →
  pcap_callback true true frame (Z.of_nat (length frame)) ts = Ok (Some p) →
  is_ipv4 (ip p) = true → sizeof_tcphdr <= transport_len (ip p) →
  pkt_protocol (ip p) = PROTO_TCP ∧
  invalid_flags (tcp_flags (l4 p)) = bool_decide (action frame (classify frame m) = XDP_DROP) || xmas frame.
Proof.
  intros Hc Hp Hv4 Hlen.
  assert (byte_at frame 23 = PROTO_TCP) as Hproto.
  { unfold classify in Hc. destruct (_ || _); [done|]. destruct (_ || _); [done|].
    do 2 (destruct (bool_decide _); [done|]).
    destruct (Z.eqb_spec (byte_at frame 23) IPPROTO_TCP) as [H|]; [exact H|].
    by repeat case_match. }
  destruct (callback_tcp_flags frame ts p Hp Hv4 Hproto Hlen) as [Hpr Hf]. split; [done|].
  rewrite Hf, flag_tests, Hc. unfold xmas, flag. f_equal. cbn [action]. unfold bad_flags, flag.
  destruct (_ || _); done.
Qed.

(** A Christmas-tree scan from 10.0.0.1. *)
Definition xmas_frame : list Z :=
  example_frame 6 [4; 0; 0; 80; 0; 0; 0; 1; 0; 0; 0; 2; 0x50; 0x29; 0; 0; 0; 0; 0; 0].
Definition no_maps : xdp_maps := XdpMaps ∅ ∅ no_stats.

Lemma filters_agree_on_flags_witness :
  ∃ p, pcap_callback true true xmas_frame 54 7 = Ok (Some p) ∧
    action xmas_frame (classify xmas_frame no_maps) = XDP_PASS ∧ invalid_flags (tcp_flags (l4 p)) = true.
Proof.
  assert (∃ p, pcap_callback true true xmas_frame 54 7 = Ok (Some p) ∧ is_ipv4 (ip p) = true ∧
    transport_len (ip p) = 20) as (p & Hp & Hv4 & Hl) by (eexists; vm_compute; by split_and!).
  exists p. split; [exact Hp|]. split; [vm_compute; reflexivity|].
  destruct (filters_agree_on_flags xmas_frame no_maps 7 p) as [_ ->];
    [vm_compute; reflexivity|exact Hp|exact Hv4|rewrite Hl; discriminate|].
  vm_compute. reflexivity.
Defined.

(** ** A host

    The kernel's maps and the engine; a frame the kernel passes is delivered to the
    capture handle. *)
Record host := Host { h_maps : xdp_maps; h_engine : engine }.

Section host.
Context {ntop : InetNtop}.

Definition host_receive (cfg : config) (ev : arrival) : st host xdp_action :=
  a <- st_zoom h_maps (λ m h, Host m (h_engine h)) (xdp_ddos_filter (ar_frame ev)) ;;
  match a with
  | XDP_DROP => st_ret a
  | XDP_PASS => st_zoom h_engine (λ en h, Host (h_maps h) en) (capture cfg [ev]) ;; st_ret a
  end.

Fixpoint host_run (cfg : config) (evs : list arrival) : st host (list xdp_action) :=
  match evs with
  | [] => st_ret []
  | ev :: evs' => a <- host_receive cfg ev ;; l <- host_run cfg evs' ;; st_ret (a :: l)
  end.

(** The kernel's action on a frame, and the frames it passes. *)
Definition kernel_action (m : xdp_maps) (ev : arrival) : xdp_action :=
  action (ar_frame ev) (classify (ar_frame ev) m).
Definition passing (m : xdp_maps) (evs : list arrival) : list arrival :=
  filter (λ ev, kernel_action m ev = XDP_PASS) evs.

(** One frame: the kernel's maps keep the two lists. *)
Lemma host_receive_eq cfg ev m en :
  bytes_ok (ar_frame ev) →
  ∃ s, let m1 := XdpMaps (blacklist m) (whitelist m) s in
    host_receive cfg ev (Host m en) =
      if decide (kernel_action m ev = XDP_PASS) then
        match capture cfg [ev] en with
        | Ok (_, en1) => Ok (XDP_PASS, Host m1 en1)
        | Undef u => Undef u
        | Diverges => Diverges
        end
      else Ok (kernel_action m ev, Host m1 en).
Proof.
  intros Hf. unfold host_receive, st_bind, st_zoom. cbn [h_maps h_engine].
  rewrite xdp_filter_refines by done. fold (kernel_action m ev). eexists. cbv zeta.
  destruct (kernel_action m ev); cbn [decide h_maps h_engine]; [done|].
  rewrite decide_True by done. by destruct (capture cfg [ev] en) as [[]| |].
Qed.

Lemma capture_cons_eq cfg ev evs en :
  capture cfg (ev :: evs) en =
    match capture cfg [ev] en with
    | Ok (_, en1) => capture cfg evs en1 | Undef u => Undef u | Diverges => Diverges
    end.
Proof.
  cbn [capture]. unfold st_bind, st_lift, st_ret. destruct (received ev) as [r| |]; [|done..].
  destruct r as [p|]; [|done]. by destruct (packet_handler _ _ _ _) as [[[] en2]| |].
Qed.

(** The engine sees the frames the kernel passes, in their order. *)
Lemma host_run_capture cfg evs m en en' :
  Forall (λ ev, bytes_ok (ar_frame ev)) evs → capture cfg (passing m evs) en = Ok ((), en') →
  ∃ s, host_run cfg evs (Host m en) =
    Ok (kernel_action m <$> evs, Host (XdpMaps (blacklist m) (whitelist m) s) en').
Proof.
  intros Hb. revert m en. induction Hb as [|ev evs Hf Hb IH]; intros m en Hcap.
  { cbn in Hcap. apply (inj Ok) in Hcap as [= <-]. exists (xstats m). by destruct m. }
  cbn [host_run]. unfold st_bind. destruct (host_receive_eq cfg ev m en Hf) as (s & ->).
  set (m1 := XdpMaps _ _ _). unfold passing in Hcap. rewrite filter_cons in Hcap. rewrite fmap_cons. cbv zeta.
  destruct (decide (kernel_action m ev = XDP_PASS)) as [Hp|Hp].
  - rewrite capture_cons_eq in Hcap. destruct (capture cfg [ev] en) as [[_ en1]| |]; [|done..].
    destruct (IH m1 en1 Hcap) as (s' & Hrun). exists s'. rewrite Hrun, Hp. done.
  - destruct (IH m1 en Hcap) as (s' & Hrun). exists s'. rewrite Hrun. done.
Qed.

(** The host fails where the engine does. *)
Lemma host_run_fails cfg evs m en :
  Forall (λ ev, bytes_ok (ar_frame ev)) evs →
  match capture cfg (passing m evs) en with
  | Ok _ => True
  | Undef u => host_run cfg evs (Host m en) = Undef u
  | Diverges => host_run cfg evs (Host m en) = Diverges
  end.
Proof.
  intros Hb. revert m en. induction Hb as [|ev evs Hf Hb IH]; intros m en; [done|].
  cbn [host_run]. unfold st_bind. destruct (host_receive_eq cfg ev m en Hf) as (s & ->).
  set (m1 := XdpMaps _ _ _). unfold passing. rewrite filter_cons. cbv zeta.
  destruct (decide (kernel_action m ev = XDP_PASS)) as [Hp|Hp].
  - rewrite capture_cons_eq. destruct (capture cfg [ev] en) as [[_ en1]| |]; [|done..].
    specialize (IH m1 en1). unfold passing in IH. change (kernel_action m1) with (kernel_action m) in IH.
    destruct (capture cfg _ en1); [done|by rewrite IH..].
  - specialize (IH m1 en). unfold passing in IH. change (kernel_action m1) with (kernel_action m) in IH.
    destruct (capture cfg _ en); [done|by rewrite IH..].
Qed.

(** C15: On a host with both filters, on any sequence of frames, what is dropped is
    what the kernel's decision table drops for the address lists it started with:
    the engine gets the frames the kernel passes, counts the packets among them and
    their bytes, and drops, limits or blocks none. In that table the whitelist comes
    first. The host fails exactly on the first frame the kernel passes and the
    parser reads past. *)
Theorem host_filters_in_kernel_only o cfg now fw en m evs :
  start o cfg now fw = Ok (Some en) → Forall (λ ev, bytes_ok (ar_frame ev)) evs →
  match receive_all (passing m evs) with
  | Undef u => host_run cfg evs (Host m en) = Undef u
  | Diverges => host_run cfg evs (Host m en) = Diverges
  | Ok rs =>
  let ds := delivered (passing m evs) rs in
  ∃ s en', host_run cfg evs (Host m en) =
      Ok (kernel_action m <$> evs, Host (XdpMaps (blacklist m) (whitelist m) s) en') ∧
    s_global (en_state en') =
      GlobalStats (u64 (Z.of_nat (length ds))) (u64 (sumZ ((λ x, len x.2) <$> ds))) 0 0 zero_counts 0 ∧
    en_firewall en' = en_firewall en
  end.
Proof.
  intros Hstart Hb. apply start_fresh in Hstart as [Hn Hr _ Hg Hp _ _ _].
  pose proof (capture_fails cfg (passing m evs) en Hn Hr) as Hfail.
  pose proof (host_run_fails cfg evs m en Hb) as Hhost.
  destruct (receive_all (passing m evs)) as [rs| |] eqn:Hrecv;
    [clear Hfail|rewrite Hfail in Hhost; exact Hhost..].
  apply receive_all_Ok in Hrecv. intros ds.
  destruct (capture_passes cfg (passing m evs) rs en Hn Hr) as (h & Hcap & _); [|done|].
  { unfold counters_ok. by rewrite Hg, Hp. }
  destruct (host_run_capture cfg evs m en _ Hb Hcap) as (s & Hrun).
  exists s. eexists. split; [exact Hrun|]. split; [|done]. cbn [passed en_state]. by rewrite Hg.
Qed.
End host.

#[local] Existing Instance numeric_ntop.

(** A Christmas-tree scan and a frame of a blacklisted source. *)
Lemma host_filters_in_kernel_only_witness :
  let evs := [example_arrival gre_frame 1; example_arrival xmas_frame 2; example_arrival [1] 3] in
  let listed := XdpMaps {[ 16777226 := 1 ]} ∅ no_stats in
  ∃ en s en', start all_ok config_zero 5 (Firewall FIREWALL_BACKEND_IPTABLES None []) = Ok (Some en) ∧
    host_run config_zero evs (Host no_maps en) =
      Ok ([XDP_PASS; XDP_PASS; XDP_PASS], Host (XdpMaps ∅ ∅ s) en') ∧
    total_packets (s_global (en_state en')) = 2 ∧
    kernel_action listed <$> evs = [XDP_DROP; XDP_DROP; XDP_PASS].
Proof.
  intros evs listed. set (fw := Firewall _ _ _).
  destruct (start_all_ok config_zero 5 fw) as (en & Hen).
  assert (∃ p1 p2, receive_all (passing no_maps evs) = Ok [Some p1; Some p2; None]) as (p1 & p2 & Hrecv).
  { eexists _, _. change (passing no_maps evs) with evs. vm_compute. reflexivity. }
  assert (Forall (λ ev, bytes_ok (ar_frame ev)) evs) as Hb by (apply (bool_decide_unpack _); vm_compute; exact I).
  pose proof (host_filters_in_kernel_only all_ok config_zero 5 fw en no_maps evs Hen Hb) as H.
  rewrite Hrecv in H. destruct H as (s & en' & Hrun & Hg & _).
  exists en, s, en'. split; [exact Hen|]. split; [exact Hrun|]. split; [by rewrite Hg|].
  vm_compute. reflexivity.
Defined.
