(* ===== verification/ProcessLog.v ===== *)
(** * The messages of the program

    What [main] of [src/core/main.c], its threads and the functions they call outside
    the packet path hand to the logger, as lists of messages in the order of the calls;
    and that the logger takes them while its file has room. The messages of the
    detection modules are not among them: the engine reaches none of those calls
    ([Engine.engine_never_filters]). *)

From S2P Require Import Prelude Common CString Config Logger State Services EbpfLoader Geoip Capture Engine.
From S2P Require Import HashTable LruCache TcpProtect.

(** A message is a level and a text; the macros of [include/logger.h] put the level in
    front. *)
Notation message := (Z * list Z)%type.

Definition log_debug (s : list Z) : message := (LOG_LEVEL_DEBUG, bytes_of "[DEBUG] " ++ s).
Definition log_info (s : list Z) : message := (LOG_LEVEL_INFO, bytes_of "[INFO] " ++ s).
Definition log_warn (s : list Z) : message := (LOG_LEVEL_WARN, bytes_of "[WARN] " ++ s).
Definition log_error (s : list Z) : message := (LOG_LEVEL_ERROR, bytes_of "[ERROR] " ++ s).

Definition log_all (env : log_env) (ms : list message) : st logger unit :=
  log_run ((λ m, LogEvent env m.1 m.2) <$> ms).

(** [%d]. *)
Definition print_d (z : Z) : list Z := if z <? 0 then bytes_of "-" ++ print_u (- z) else print_u z.

(** [%s] with a null pointer is undefined. *)
Definition print_s (s : option (list Z)) : res (list Z) :=
  match s with Some t => Ok t | None => Undef NullDeref end.

(** ** Start-up *)

Definition DDOS_VERSION : list Z := bytes_of "1.0.0".

(** [hashtable_create] and [lru_cache_create], both successful. *)
Definition table_messages (size : Z) : list message :=
  [log_info (bytes_of "Hash table created (size=" ++ print_u size ++ bytes_of " buckets)")].
Definition cache_messages (max_size : Z) : list message :=
  table_messages max_size ++ [log_info (bytes_of "LRU cache created (max_size=" ++ print_u max_size ++ bytes_of ")")].
Definition context_messages : list message :=
  table_messages HASH_TABLE_SIZE ++ cache_messages LRU_CACHE_SIZE ++
  [log_info (bytes_of "Global context initialized")].

(** The four modules: a failure is logged and nothing else. *)
Definition module_message (ok : bool) (name flood : string) : message :=
  if ok then log_info (bytes_of name ++ bytes_of flood ++ bytes_of " initialized")
  else log_error (bytes_of "Failed to initialize " ++ bytes_of name ++ bytes_of " protection").
Definition module_messages (o : start_outcomes) : list message :=
  [module_message (so_udp o) "UDP" " flood protection"; module_message (so_tcp o) "TCP" " flood protection";
   module_message (so_icmp o) "ICMP" " flood protection";
   if so_http o then log_info (bytes_of "HTTP/HTTPS protection initialized")
   else log_error (bytes_of "Failed to initialize HTTP protection")].

(** A start that succeeds, up to the analyzer. *)
Definition start_messages (o : start_outcomes) : list message :=
  context_messages ++ [log_info (bytes_of "Firewall initialized (backend=iptables)")] ++
  module_messages o ++ [log_info (bytes_of "Traffic analyzer initialized")].

(** The parts that may be enabled. *)
Definition geoip_messages (cfg : config) (geoip : option geoip_db) : list message :=
  match geoip, geoip_db_path cfg with
  | Some _, Some path => [log_info (bytes_of "GeoIP database initialized: " ++ path)]
  | _, _ => []
  end.

Definition xdp_messages (cfg : config) (prog : option ebpf_program) : list message :=
  match prog, xdp_program_path cfg, interface cfg with
  | Some _, Some path, Some iface =>
      [log_info (bytes_of "eBPF/XDP program loaded: " ++ path ++ bytes_of " on " ++ iface)]
  | _, _, _ => []
  end.

Definition api_messages (api : option api_server) : res (list message) :=
  match api with
  | None => Ok []
  | Some s =>
      let* addr := print_s (as_bind_addr s) in
      Ok ([log_info (bytes_of "API server initialized on " ++ addr ++ bytes_of ":" ++ print_u (as_port s))] ++
          if as_running s
          then [log_info (bytes_of "API server started on port " ++ print_u (as_port s))] else [])
  end.

Definition ws_messages (ws : option websocket_server) : list message :=
  match ws with
  | None => []
  | Some s =>
      [log_info (bytes_of "WebSocket server initialized on port " ++ print_u (ws_port s))] ++
      if ws_running s then [log_info (bytes_of "WebSocket server started")] else []
  end.

(** ** The capture handle *)

(** [packet_capture_init]; [err] is what libpcap says of a failure. *)
Definition open_messages (o : open_outcomes) (iface : list Z) (promiscuous : bool) (snaplen : Z) (err : list Z)
    : list message :=
  if negb (oo_calloc o) then [log_error (bytes_of "Failed to allocate packet capture")]
  else if negb (oo_open o) then [log_error (bytes_of "Failed to open " ++ iface ++ bytes_of ": " ++ err)]
  else
    (if oo_nonblock o then [] else [log_warn (bytes_of "Failed to set non-blocking mode: " ++ err)]) ++
    if negb (oo_datalink o =? DLT_EN10MB)
    then [log_error (bytes_of "Unsupported data link type: " ++ print_d (oo_datalink o))]
    else [log_info (bytes_of "Packet capture initialized on " ++ iface ++ bytes_of " (snaplen=" ++
            print_d snaplen ++ bytes_of ", promisc=" ++ bytes_of (if promiscuous then "yes" else "no") ++
            bytes_of ")")].

(** From there to [pcap_loop]. *)
Definition begin_messages (iface : list Z) (pc : packet_capture) : res (list message) :=
  let* name := print_s (pc_interface pc) in
  Ok [log_info (bytes_of "Starting packet capture on " ++ iface ++ bytes_of "...");
      log_info (bytes_of "System ready - press Ctrl+C to stop");
      log_info (bytes_of "Starting packet capture on " ++ name)].

(** ** The threads *)

Definition stats_message_of (g : global_stats) : message :=
  log_info (bytes_of "Stats: packets=" ++ print_u (total_packets g) ++ bytes_of ", bytes=" ++
    print_u (total_bytes g) ++ bytes_of ", dropped=" ++ print_u (dropped_packets g) ++ bytes_of ", conns=" ++
    print_u (current_connections g)).

(** [lru_cache_cleanup_expired] and its caller. *)
Definition sweep_messages (cleaned : Z) : list message :=
  if 0 <? cleaned then
    [log_debug (bytes_of "Cleaned " ++ print_d cleaned ++ bytes_of " expired connections");
     log_debug (bytes_of "Cleaned up " ++ print_d cleaned ++ bytes_of " expired connections")]
  else [].

Definition signal_message (sig : Z) : message :=
  log_info (bytes_of "Received signal " ++ print_d sig ++ bytes_of ", shutting down...").

(** ** The clean-up *)

(** [ebpf_unload_program], [geoip_cleanup] and [firewall_cleanup]. *)
Definition release_messages (prog : option ebpf_program) (geoip : option geoip_db) : res (list message) :=
  let* unloaded :=
    match prog with
    | Some p =>
        if eb_loaded p then
          let* iface := print_s (eb_interface p) in
          Ok [log_info (bytes_of "eBPF/XDP program unloaded from " ++ iface)]
        else Ok []
    | None => Ok []
    end in
  Ok (unloaded ++
      (match geoip with Some _ => [log_info (bytes_of "GeoIP database closed")] | None => [] end) ++
      [log_info (bytes_of "Firewall cleanup complete")]).

(** ** Room in the log *)

(** Between messages. *)
Record log_ok (g : logger) : Prop := {
  lo_unlocked : lg_locked g = false;
  lo_bytes : 0 <= lg_bytes_written g
}.

(** [n] messages do not make the logger wait for itself: informational messages are
    not logged, no file is open, or the file is that far from the limit; a message
    counts for at most 4159 bytes. *)
Definition room (n : nat) (g : logger) : Prop :=
  LOG_LEVEL_INFO < lg_level g ∨ lg_fp g = None ∨ lg_bytes_written g + 4159 * Z.of_nat n <= MAX_LOG_SIZE.

(** What messages leave as it was. *)
Record log_frame (g g' : logger) : Prop := {
  lf_level : lg_level g' = lg_level g;
  lf_closed : lg_fp g = None → lg_fp g' = None
}.

Definition level_ok (m : message) : Prop := LOG_LEVEL_DEBUG <= m.1 <= LOG_LEVEL_CRITICAL.

Lemma room_le n m g : (m <= n)%nat → room n g → room m g.
Proof. intros Hle [?|[?|?]]; [by left|by right; left|right; right; lia]. Qed.

Lemma room_skip n g g' : log_frame g g' → LOG_LEVEL_INFO < lg_level g → room n g'.
Proof. intros [Hl _] H. left. by rewrite Hl. Qed.

(** Where a message is while it holds the lock. *)
Record inside (g g' : logger) : Prop := {
  in_level : lg_level g' = lg_level g;
  in_bytes : 0 <= lg_bytes_written g';
  in_closed : lg_fp g = None → lg_fp g' = None
}.

(** A rotation when informational messages are not logged. *)
Lemma rotate_returns n env g :
  LOG_LEVEL_INFO < lg_level g → 0 <= lg_bytes_written g →
  ∃ r g', logger_rotate (log_message (S n) env) env g = Ok (r, g') ∧ inside g g'.
Proof.
  intros Hlevel Hbytes. unfold logger_rotate, st_bind at 1, st_get.
  destruct (lg_fp g) as [f|] eqn:Hfp; [|by eexists _, _].
  destruct (lg_log_file g) as [file|]; [|by eexists _, _].
  destruct g as [fp fl lv sy lk by_ fs sl er]. cbn in Hlevel, Hbytes, Hfp. subst fp.
  unfold open_append, st_bind, st_modify, st_gets, st_ret, set_fp, set_bytes, on_files. lg_fields.
  destruct (le_reopened env); do 2 lg_fields; [|by eexists _, _].
  rewrite log_message_skipped by done. by eexists _, _.
Qed.

(** The line in the file. *)
Lemma file_returns n k env level text g :
  level_ok (level, text) → 0 <= lg_bytes_written g → room (S k) g →
  ∃ g', log_to_file (S n) env level text g = Ok ((), g') ∧ inside g g' ∧ room k g'.
Proof.
  intros Hl Hbytes Hroom. unfold log_to_file, st_bind at 1, st_gets at 1.
  destruct (lg_fp g) as [f|] eqn:Hfp; [|exists g; split; [done|]; split; [done|]; by right; left].
  rewrite at_level_strings by done.
  pose proof (ev_cost_range (LogEvent env level text)) as Hk. set (e := LogEvent env level text) in *.
  destruct g as [fp fl lv sy lk by_ fs sl er]. cbn in Hfp, Hbytes. subst fp.
  unfold file_write, st_lift, st_bind, st_modify, st_gets, st_ret, set_bytes, on_files. lg_fields.
  change (Z.of_nat (length (snprintf MAX_LOG_LINE text)) + 64) with (ev_cost e).
  assert (0 <= by_ +₆₄ ev_cost e) as H0 by apply u64_range.
  destruct (Z.ltb_spec MAX_LOG_SIZE (by_ +₆₄ ev_cost e)) as [Hgt|Hle].
  - assert (LOG_LEVEL_INFO < lv) as Hlevel.
    { destruct Hroom as [H|[H|H]]; cbn in H; [exact H|done|]. rewrite u64_small in Hgt; unfold MAX_LOG_SIZE in *; lia. }
    edestruct (rotate_returns n env) as (r & g' & -> & [H1 H2 H3]); [| |].
    3: { exists g'. split; [done|]. cbn in H1. split; [by split|]. left. by rewrite H1. }
    all: done.
  - eexists. split; [done|]. split; [by split|].
    destruct Hroom as [H|[H|H]]; cbn in H; [by left|done|]. right. right. cbn.
    rewrite u64_small by (unfold MAX_LOG_SIZE in *; lia). lia.
Qed.

Lemma log_message_returns env level text g n :
  level_ok (level, text) → log_ok g → room (S n) g →
  ∃ g', log_message LOG_DEPTH env level text g = Ok ((), g') ∧ log_ok g' ∧ room n g' ∧ log_frame g g'.
Proof.
  intros Hl [Hlock Hbytes] Hroom. unfold LOG_DEPTH.
  destruct (Z.ltb_spec level (lg_level g)) as [Hskip|Hlevel].
  { rewrite log_message_skipped by done. exists g. split; [done|]. split; [done|].
    split; [eapply room_le; [|exact Hroom]; lia|done]. }
  rewrite log_message_parts by done.
  destruct (file_returns 0 n env level text (set_locked true g) Hl Hbytes Hroom) as (g1 & -> & [H1 H2 H3] & Hr).
  change (log_sinks level (timestamp (le_now env)) (snprintf MAX_LOG_LINE text)) with
    (let e := LogEvent env level text in
     log_sinks (ev_level e) (timestamp (le_now (ev_env e))) (kept (ev_text e))).
  cbv zeta. rewrite log_sinks_logged by done. eexists. split; [done|].
  split; [by split|]. split; [|by split]. destruct Hr as [H|[H|H]]; [left|right; left|right; right]; exact H.
Qed.

Lemma log_all_returns env ms g n :
  Forall level_ok ms → log_ok g → room (length ms + n) g →
  ∃ g', log_all env ms g = Ok ((), g') ∧ log_ok g' ∧ room n g' ∧ log_frame g g'.
Proof.
  intros Hms. revert g. induction Hms as [|[level text] ms Hm Hms IH]; intros g Ho Hr; [by exists g|].
  unfold log_all in *. cbn [fmap list_fmap log_run fst snd ev_env ev_level ev_text]. unfold st_bind.
  destruct (log_message_returns env level text g (length ms + n) Hm Ho Hr) as (g1 & -> & Ho1 & Hr1 & Hl1 & Hc1).
  destruct (IH g1 Ho1 Hr1) as (g2 & -> & Ho2 & Hr2 & Hl2 & Hc2). exists g2.
  split; [done|]. split; [done|]. split; [done|]. split; [congruence|auto].
Qed.

(** The log that [logger_init] opens has room for a thousand messages. *)
Lemma logger_init_room strdup_ok fopen_ok env file level use_syslog fs :
  LOG_LEVEL_DEBUG <= level <= LOG_LEVEL_CRITICAL →
  ∃ rc g, logger_init strdup_ok fopen_ok env file level use_syslog (logger_start fs) = Ok (rc, g) ∧
    (rc = 0 → log_ok g ∧ room 1000 g ∧ (file = None → lg_fp g = None)).
Proof.
  intros Hl. unfold logger_init, logger_start, mutex_lock, mutex_unlock, open_append, set_mode, set_locked,
    set_log_file, set_fp, on_files, st_lift, st_bind, st_modify, st_ret.
  rewrite at_level_strings by done.
  destruct file as [f|]; [destruct strdup_ok, fopen_ok|]; lg_fields; cbn [negb]; lg_fields;
    try (eexists _, _; split; [done|done]);
    match goal with |- context [log_message _ ?env ?level ?text ?g] =>
      destruct (log_message_returns env level text g 1000) as (g' & -> & Ho & Hr & Hf);
        [by split|by split|right; right; cbn; unfold MAX_LOG_SIZE; lia|];
      exists 0, g'; split; [done|]; intros _; split; [done|]; split; [done|]; intros Hnone;
      first [done | by apply Hf]
    end.
Qed.
