(* ===== verification/Main.v ===== *)
(** * The program

    [main] of [src/core/main.c] with its threads: the statistics thread, the
    clean-up thread, the two management servers and the signal handler run next
    to the main thread, over one context. A step of the process is a step of one
    of them; an execution is any sequence of such steps. Steps end where a thread
    may wait ([sleep], [pthread_join], the capture loop) or where one changes what
    the others read. Using the context after it has been freed is undefined. Each
    step hands its messages to the logger, whose lock is free again when the step
    ends; a signal may arrive while a thread holds it. Signals during start-up are
    not modelled.

    The first part is the process, the second what every execution keeps, then
    come what an exit needs and why the process exits once it can. *)

From S2P Require Import Prelude Common Hash ConnHeap HashTable LruCache CString Inet IpSet Packet Parser.
From S2P Require Import State Config Geoip Services Logger Xdp EbpfLoader Firewall Analyzer Capture Engine.
From S2P Require Import ProcessLog.

(** ** The process *)

(** Where the main thread is, once the threads have been created; the argument is
    the exit status. *)
Inductive main_pc :=
  | PcOpen                      (* packet_capture_init *)
  | PcCapture                   (* pcap_loop *)
  | PcJoinStats | PcJoinCleanup
  | PcStopWs | PcJoinWs
  | PcStopApi | PcJoinApi
  | PcRelease
  | PcFreeContext (ret : Z)     (* the label cleanup *)
  | PcForget (ret : Z)          (* g_ctx = NULL *)
  | PcFinish (ret : Z)          (* config_free, logger_cleanup *)
  | PcExited (ret : Z).

Definition EXIT_SUCCESS : Z := 0.
Definition EXIT_FAILURE : Z := 1.

(** [ps_alive]: the context and what it points to are allocated. [ps_killed]: the
    signal that has ended the process. *)
Record process := Process {
  ps_pc : main_pc;
  ps_alive : bool;
  ps_engine : engine;
  ps_capture : option packet_capture;
  ps_stats : thread;
  ps_cleanup : thread;
  ps_ws : option websocket_server;
  ps_api : option api_server;
  ps_geoip : option geoip_db;
  ps_xdp : option ebpf_program;
  ps_kernel : kernel;
  ps_log : logger;
  ps_killed : option Z
}.

Definition set_pc (pc : main_pc) (p : process) : process :=
  Process pc (ps_alive p) (ps_engine p) (ps_capture p) (ps_stats p) (ps_cleanup p) (ps_ws p)
    (ps_api p) (ps_geoip p) (ps_xdp p) (ps_kernel p) (ps_log p) (ps_killed p).
Definition set_alive (b : bool) (p : process) : process :=
  Process (ps_pc p) b (ps_engine p) (ps_capture p) (ps_stats p) (ps_cleanup p) (ps_ws p)
    (ps_api p) (ps_geoip p) (ps_xdp p) (ps_kernel p) (ps_log p) (ps_killed p).
Definition set_engine (en : engine) (p : process) : process :=
  Process (ps_pc p) (ps_alive p) en (ps_capture p) (ps_stats p) (ps_cleanup p) (ps_ws p)
    (ps_api p) (ps_geoip p) (ps_xdp p) (ps_kernel p) (ps_log p) (ps_killed p).
Definition set_capture (pc : option packet_capture) (p : process) : process :=
  Process (ps_pc p) (ps_alive p) (ps_engine p) pc (ps_stats p) (ps_cleanup p) (ps_ws p)
    (ps_api p) (ps_geoip p) (ps_xdp p) (ps_kernel p) (ps_log p) (ps_killed p).
Definition set_stats_thread (t : thread) (p : process) : process :=
  Process (ps_pc p) (ps_alive p) (ps_engine p) (ps_capture p) t (ps_cleanup p) (ps_ws p)
    (ps_api p) (ps_geoip p) (ps_xdp p) (ps_kernel p) (ps_log p) (ps_killed p).
Definition set_cleanup_thread (t : thread) (p : process) : process :=
  Process (ps_pc p) (ps_alive p) (ps_engine p) (ps_capture p) (ps_stats p) t (ps_ws p)
    (ps_api p) (ps_geoip p) (ps_xdp p) (ps_kernel p) (ps_log p) (ps_killed p).
Definition set_ws (s : option websocket_server) (p : process) : process :=
  Process (ps_pc p) (ps_alive p) (ps_engine p) (ps_capture p) (ps_stats p) (ps_cleanup p) s
    (ps_api p) (ps_geoip p) (ps_xdp p) (ps_kernel p) (ps_log p) (ps_killed p).
Definition set_api (s : option api_server) (p : process) : process :=
  Process (ps_pc p) (ps_alive p) (ps_engine p) (ps_capture p) (ps_stats p) (ps_cleanup p) (ps_ws p)
    s (ps_geoip p) (ps_xdp p) (ps_kernel p) (ps_log p) (ps_killed p).
Definition set_modules (k : kernel) (p : process) : process :=
  Process (ps_pc p) (ps_alive p) (ps_engine p) (ps_capture p) (ps_stats p) (ps_cleanup p) (ps_ws p)
    (ps_api p) None None k (ps_log p) (ps_killed p).
Definition set_log (g : logger) (p : process) : process :=
  Process (ps_pc p) (ps_alive p) (ps_engine p) (ps_capture p) (ps_stats p) (ps_cleanup p) (ps_ws p)
    (ps_api p) (ps_geoip p) (ps_xdp p) (ps_kernel p) g (ps_killed p).
Definition set_killed (sig : Z) (p : process) : process :=
  Process (ps_pc p) (ps_alive p) (ps_engine p) (ps_capture p) (ps_stats p) (ps_cleanup p) (ps_ws p)
    (ps_api p) (ps_geoip p) (ps_xdp p) (ps_kernel p) (ps_log p) (Some sig).

(** The messages of a step go to the logger. *)
Definition say (env : log_env) (ms : list message) (p : process) : res process :=
  let* (_, g) := log_all env ms (ps_log p) in Ok (set_log g p).

(** Reading the context. *)
Definition context (p : process) : res engine :=
  if ps_alive p then Ok (ps_engine p) else Undef UseAfterFree.

(** ** The threads *)

(** [ctx->running && !g_shutdown]. *)
Definition keep_going (en : engine) : bool := en_running en && negb (en_shutdown en).

Definition stats_thread_func (env : log_env) (p : process) : res process :=
  match ps_stats p with
  | NotCreated | Returned => Ok p
  | Created => say env [log_info (bytes_of "Statistics thread started")] (set_stats_thread AtTest p)
  | AtTest =>
      let* en := context p in
      if keep_going en then Ok (set_stats_thread Asleep p)
      else say env [log_info (bytes_of "Statistics thread stopped")] (set_stats_thread Returned p)
  | Asleep =>
      let* en := context p in
      say env [stats_message_of (s_global (en_state en))] (set_stats_thread AtTest p)
  end.

(** The sweep of the connection cache, at time [now]. *)
Definition sweep (now : Z) (en : engine) : res (Z * engine) :=
  let s := en_state en in
  let* (cleaned, h, c) := lru_cache_cleanup_expired (s_heap s) (s_cache s) now in
  Ok (cleaned, with_state (AState (s_an s) (s_global s) (s_udp s) (s_tcp s) (s_icmp s) (s_http s) h c) en).

Definition cleanup_thread_func (env : log_env) (now : Z) (p : process) : res process :=
  match ps_cleanup p with
  | NotCreated | Returned => Ok p
  | Created => say env [log_info (bytes_of "Cleanup thread started")] (set_cleanup_thread AtTest p)
  | AtTest =>
      let* en := context p in
      if keep_going en then Ok (set_cleanup_thread Asleep p)
      else say env [log_info (bytes_of "Cleanup thread stopped")] (set_cleanup_thread Returned p)
  | Asleep =>
      let* en := context p in
      let* (cleaned, en) := sweep now en in
      say env (sweep_messages cleaned) (set_engine en (set_cleanup_thread AtTest p))
  end.

(** The first and the last message of a server's thread. *)
Definition server_messages {S} `{Service S} (s : S) (first last : list Z) : list message :=
  match sv_thread s with
  | Created => [log_info first]
  | AtTest => if sv_running s then [] else [log_info last]
  | _ => []
  end.

(** Both servers read their own flag; the WebSocket thread reads the statistics
    after its sleep. A server that has been freed has no thread. *)
Definition api_thread (env : log_env) (p : process) : res process :=
  match ps_api p with
  | None => Ok p
  | Some s =>
      say env (server_messages s (bytes_of "API server thread started") (bytes_of "API server thread stopped"))
        (set_api (Some (sv_step s)) p)
  end.

Definition needs_context (s : websocket_server) : bool :=
  match ws_thread s with Asleep => ws_ctx s | _ => false end.

Section main.
Context {js : Jansson} {pack : JanssonPack js} {dump : JanssonDump js} {ntop : InetNtop}.

Definition ws_step (env : log_env) (p : process) : res process :=
  match ps_ws p with
  | None => Ok p
  | Some s =>
      if needs_context s then
        let* en := context p in
        say env (log_debug <$> websocket_tick (Some (s_global (en_state en))) s) (set_ws (Some (sv_step s)) p)
      else
        say env
          (server_messages s (bytes_of "WebSocket server thread started on port " ++ print_u (ws_port s))
             (bytes_of "WebSocket server thread stopped"))
          (set_ws (Some (sv_step s)) p)
  end.

(** *** Signals *)

(** [setup_signals] installs the handler for these. *)
Definition handled (sig : Z) : bool := (sig =? SIGINT) || (sig =? SIGTERM).

Definition SIGHUP : Z := 1.
Definition SIGPIPE : Z := 13.

(** The default action of a signal of Linux ends the process, but for SIGCHLD,
    SIGCONT, SIGURG and SIGWINCH, which do nothing, and the four that stop it until it
    is continued. SIGPIPE is ignored. *)
Definition kills (sig : Z) : bool :=
  negb (handled sig) && negb (sig =? SIGPIPE) &&
  bool_decide (sig ∉ [17; 18; 23; 28; 19; 20; 21; 22]).

(** [locked]: the signal interrupts a thread that holds the logger's lock; that thread
    goes on, and releases the lock, when the handler returns. [g_ctx] is not [NULL] up
    to the assignment after [cleanup_context]. *)
Definition signal_step (env : log_env) (sig : Z) (locked : bool) (p : process) : res process :=
  if handled sig then
    let* (_, g) := log_all env [signal_message sig] (set_locked locked (ps_log p)) in
    let p := set_log (set_locked false g) p in
    match ps_pc p with
    | PcFinish _ | PcExited _ => Ok (set_engine (request_shutdown (ps_engine p)) p)
    | _ => let* en := context p in Ok (set_engine (signal_handler sig en) p)
    end
  else if kills sig then Ok (set_killed sig p)
  else Ok p.

(** ** The main thread *)

(** What happens in one turn of [pcap_loop]. *)
Inductive capture_event := Frame (ev : arrival) | Idle | CaptureError.

(** The outcomes a step of the main thread depends on; [mi_error] is what libpcap
    says of a failure. *)
Record main_input := MainInput { mi_open : open_outcomes; mi_capture : capture_event; mi_error : list Z }.

(** [pthread_join]; joining a thread that was not created is undefined. *)
Definition join (t : thread) (p : process) (next : process) : res process :=
  match t with
  | Returned => Ok next
  | NotCreated => Undef NullDeref
  | Created | AtTest | Asleep => Ok p
  end.

(** The stop of a server, up to its join, and its clean-up. *)
Definition stop_service {S} `{Service S} (s : option S) (set : option S → process → process)
    (waiting next : main_pc) (p : process) : process :=
  match s with
  | None => set_pc next p
  | Some s =>
      if sv_running s then set_pc waiting (set (Some (sv_request_stop s)) p)
      else set_pc next (set None p)
  end.

Definition join_service {S} `{Service S} (env : log_env) (stopped : list Z) (s : option S)
    (set : option S → process → process) (next : main_pc) (p : process) : res process :=
  match s with
  | None => Undef NullDeref
  | Some s =>
      match sv_thread s with
      | Returned => say env [log_info stopped] (set_pc next (set None p))
      | t => join t p p
      end
  end.

(** [validated]: the interface is there. *)
Definition iface_of (cfg : config) : list Z := default [] (interface cfg).

(** One turn of the loop of [packet_capture_start], whose result [main] does not
    look at. *)
Definition capture_turn (cfg : config) (env : log_env) (i : main_input) (p : process) : res process :=
  match ps_capture p with
  | None => Undef NullDeref
  | Some pc =>
      if loop_broken pc then say env [log_info (bytes_of "Packet capture stopped")] (set_pc PcJoinStats p)
      else
        match mi_capture i with
        | Frame ev =>
            let* en := context p in
            let* (_, en) := capture cfg [ev] en in
            Ok (set_engine en p)
        | Idle => Ok p
        | CaptureError =>
            say env [log_error (bytes_of "pcap_loop failed: " ++ mi_error i);
                     log_info (bytes_of "Packet capture stopped")] (set_pc PcJoinStats p)
        end
  end.

Definition main_step (cfg : config) (env : log_env) (i : main_input) (p : process) : res process :=
  match ps_pc p with
  | PcOpen =>
      let* p := say env (open_messages (mi_open i) (iface_of cfg) (promiscuous_mode cfg) (snaplen cfg) (mi_error i)) p in
      match packet_capture_init (mi_open i) (promiscuous_mode cfg) (snaplen cfg) with
      | None =>
          say env [log_error (bytes_of "Failed to initialize packet capture")] (set_pc (PcFreeContext EXIT_FAILURE) p)
      | Some pc =>
          let* ms := begin_messages (iface_of cfg) pc in
          say env ms (set_pc PcCapture (set_capture (Some (packet_capture_begin pc)) p))
      end
  | PcCapture => capture_turn cfg env i p
  | PcJoinStats => join (ps_stats p) p (set_pc PcJoinCleanup p)
  | PcJoinCleanup =>
      join (ps_cleanup p) p (set_pc PcStopWs (set_capture (packet_capture_cleanup (ps_capture p)) p))
  | PcStopWs => Ok (stop_service (ps_ws p) set_ws PcJoinWs PcStopApi p)
  | PcJoinWs => join_service env (bytes_of "WebSocket server stopped") (ps_ws p) set_ws PcStopApi p
  | PcStopApi => Ok (stop_service (ps_api p) set_api PcJoinApi PcRelease p)
  | PcJoinApi => join_service env (bytes_of "API server stopped") (ps_api p) set_api PcRelease p
  | PcRelease =>
      let* (_, k) := ebpf_unload_program (ps_xdp p) (ps_kernel p) in
      let* ms := release_messages (ps_xdp p) (ps_geoip p) in
      let* en := release (ps_engine p) in
      say env ms (set_pc (PcFreeContext EXIT_SUCCESS) (set_modules k (set_engine en p)))
  | PcFreeContext ret =>
      let* p := say env [log_info (bytes_of "Cleaning up global context...")] p in
      let* en := context p in
      let* h := cleanup_context (s_heap (en_state en)) (en_conn_table en) (s_cache (en_state en)) in
      Ok (set_pc (PcForget ret) (set_alive false p))
  | PcForget ret => Ok (set_pc (PcFinish ret) p)
  | PcFinish ret =>
      let* (_, g) := logger_cleanup (ps_log p) in
      say env [log_info (bytes_of "DDoS Protection System stopped")] (set_pc (PcExited ret) (set_log g p))
  | PcExited _ => Ok p
  end.

(** ** Executions *)

(** [env] is what the messages of the step meet. *)
Inductive event :=
  | EvMain (env : log_env) (i : main_input)
  | EvStats (env : log_env)
  | EvCleanup (env : log_env) (now : Z)
  | EvWs (env : log_env)
  | EvApi (env : log_env)
  | EvSignal (env : log_env) (sig : Z) (locked : bool).

(** [main] has returned. *)
Definition exited (p : process) : bool := match ps_pc p with PcExited _ => true | _ => false end.

(** The process is over. *)
Definition ended (p : process) : bool := exited p || bool_decide (is_Some (ps_killed p)).

(** Nothing runs any more then. *)
Definition step (cfg : config) (e : event) (p : process) : res process :=
  if ended p then Ok p
  else
    match e with
    | EvMain env i => main_step cfg env i p
    | EvStats env => stats_thread_func env p
    | EvCleanup env now => cleanup_thread_func env now p
    | EvWs env => ws_step env p
    | EvApi env => api_thread env p
    | EvSignal env sig locked => signal_step env sig locked p
    end.

Fixpoint run (cfg : config) (evs : list event) (p : process) : res process :=
  match evs with
  | [] => Ok p
  | e :: evs' => let* q := step cfg e p in run cfg evs' q
  end.

(** ** Start-up *)

(** [sigaction] for the two signals. *)
Definition setup_signals (sigint_ok sigterm_ok : bool) : Z :=
  if negb sigint_ok then -1 else if negb sigterm_ok then -1 else 0.

(** The outcomes of the start-up, in its order; a thread's is that of
    [pthread_create]. *)
Record main_outcomes := MainOutcomes {
  mo_config : bool;
  mo_log_strdup : bool; mo_log_fopen : bool;
  mo_sigint : bool; mo_sigterm : bool;
  mo_start : start_outcomes;
  mo_geoip : bool;
  mo_xdp : bool;
  mo_api : bool * bool;        (* calloc, the thread *)
  mo_ws : bool * bool;
  mo_stats : bool;
  mo_cleanup : bool
}.

Definition geoip_part (o : main_outcomes) (strdup : list Z → option (list Z)) (cfg : config) : option geoip_db :=
  if enable_geoip cfg && bool_decide (is_Some (geoip_db_path cfg))
  then geoip_init (mo_geoip o) strdup (geoip_db_path cfg) else None.

(** The validation has made sure of the interface. *)
Definition xdp_part (o : main_outcomes) (strdup : list Z → option (list Z)) (cfg : config) : option ebpf_program :=
  if enable_xdp cfg then
    match xdp_program_path cfg, interface cfg with
    | Some path, Some iface => ebpf_load_program (mo_xdp o) strdup path iface
    | _, _ => None
    end
  else None.

(** A server that cannot be started is kept. *)
Definition api_part (o : main_outcomes) (strdup : list Z → option (list Z)) (cfg : config) : option api_server :=
  if enable_api cfg then
    (λ s, (api_server_start (mo_api o).2 s).2) <$>
      api_server_init (mo_api o).1 strdup (api_bind_address cfg) (api_port cfg) (api_auth_token cfg)
  else None.

Definition ws_part (o : main_outcomes) (cfg : config) : option websocket_server :=
  if enable_dashboard cfg then
    (λ s, (websocket_server_start (mo_ws o).2 s).2) <$>
      websocket_server_init (mo_ws o).1 (dashboard_port cfg) true
  else None.

Definition created (ok : bool) : thread := if ok then Created else NotCreated.

(** The name of the configuration file. *)
Definition config_file (argv : list (list Z)) : list Z :=
  default (bytes_of "config/default.conf") (argv !! 1%nat).

(** What would be done is logged, and nothing is done: the result, and the message. *)
Definition drop_privileges (user group : list Z) : Z * message :=
  (0, log_info (bytes_of "Would drop privileges to " ++ user ++ bytes_of ":" ++ group)).

Definition privileges_part (cfg : config) : list message :=
  match drop_user cfg, drop_group cfg with
  | Some user, Some group => [(drop_privileges user group).2]
  | _, _ => []
  end.

(** The messages of a start that succeeds. *)
Definition main_messages (o : main_outcomes) (strdup : list Z → option (list Z)) (argv : list (list Z))
    (cfg : config) : res (list message) :=
  let* api := api_messages (api_part o strdup cfg) in
  Ok ([log_info (bytes_of "Starting DDoS Protection System v" ++ DDOS_VERSION);
       log_info (bytes_of "Configuration: " ++ config_file argv)] ++
      start_messages (mo_start o) ++
      geoip_messages cfg (geoip_part o strdup cfg) ++ xdp_messages cfg (xdp_part o strdup cfg) ++
      api ++ ws_messages (ws_part o cfg) ++ privileges_part cfg).

(** From the beginning of [main] to the opening of the capture handle: an exit
    status, or the configuration and the process. [disk] is what [json_load_file]
    makes of a file. The files, the firewall and the kernel are as the program finds
    them. What a start that fails logs after [logger_init] is left out, and so are the
    messages before it, which no sink gets but the standard error stream. *)
Definition main_start (o : main_outcomes) (strdup : list Z → option (list Z)) (argv : list (list Z))
    (disk : list Z → option json) (env : log_env) (fs : files) (now : Z) (fw : firewall) (k : kernel) : res (Z + config * process) :=
  match config_load strdup (mo_config o) (disk (config_file argv)) with
  | None => Ok (inl EXIT_FAILURE)
  | Some cfg =>
      if negb (config_validate cfg =? 0) then Ok (inl EXIT_FAILURE)
      else
        let* (rc, g) := logger_init (mo_log_strdup o) (mo_log_fopen o) env (log_file cfg)
                          (log_level cfg) (syslog_enabled cfg) (logger_start fs) in
        if negb (rc =? 0) then Ok (inl EXIT_FAILURE)
        else if negb (setup_signals (mo_sigint o) (mo_sigterm o) =? 0) then Ok (inl EXIT_FAILURE)
        else
          let* started := start (mo_start o) cfg now fw in
          match started with
          | None => Ok (inl EXIT_FAILURE)
          | Some en =>
              let* ms := main_messages o strdup argv cfg in
              let* (_, g) := log_all env ms g in
              Ok (inr (cfg, Process PcOpen true en None (created (mo_stats o)) (created (mo_cleanup o))
                        (ws_part o cfg) (api_part o strdup cfg) (geoip_part o strdup cfg)
                        (xdp_part o strdup cfg) k g None))
          end
  end.

(** ** What every execution keeps *)

(** The most messages of one step. *)
Definition STEP_MESSAGES : nat := 5.

(** The events of a run in which nothing is missing: the log has room for the messages
    of the step, the capture handle opens and its name is copied, frames are ones the
    parser reads inside their bytes, and SIGINT and SIGTERM do not arrive in the moment
    between the release of the context and the reset of the pointer to it, nor, when
    informational messages are logged, while a thread holds the logger's lock. *)
Definition calm (cfg : config) (e : event) (p : process) : Prop :=
  room STEP_MESSAGES (ps_log p) ∧
  match e with
  | EvMain _ i =>
      (ps_pc p = PcOpen →
       ∃ pc, packet_capture_init (mi_open i) (promiscuous_mode cfg) (snaplen cfg) = Some pc ∧
         is_Some (pc_interface pc)) ∧
      match mi_capture i with Frame ev => ∃ r, received ev = Ok r | _ => True end
  | EvSignal _ sig locked =>
      handled sig = true →
      (∀ ret, ps_pc p ≠ PcForget ret) ∧ (locked = true → LOG_LEVEL_INFO < lg_level (ps_log p))
  | _ => True
  end.

(** The engine has tracked nothing, and the two flags agree. *)
Record idle (en : engine) : Prop := {
  idle_nobody : knows_nobody en;
  idle_heap : s_heap (en_state en) = ∅;
  idle_table : empty_table (en_conn_table en);
  idle_cache : empty_cache (s_cache (en_state en));
  idle_flags : en_running en = negb (en_shutdown en)
}.

(** How far the main thread is. *)
Definition pc_rank (pc : main_pc) : nat :=
  match pc with
  | PcOpen => 12 | PcCapture => 11 | PcJoinStats => 10 | PcJoinCleanup => 9
  | PcStopWs => 8 | PcJoinWs => 7 | PcStopApi => 6 | PcJoinApi => 5 | PcRelease => 4
  | PcFreeContext _ => 3 | PcForget _ => 2 | PcFinish _ => 1 | PcExited _ => 0
  end.

(** A server while the main thread is at [pc]: [waiting] is its join. *)
Definition service_at {S} `{Service S} (s : option S) (waiting : main_pc) (pc : main_pc) : Prop :=
  match s with
  | None => pc ≠ waiting
  | Some s =>
      (pc_rank waiting <= pc_rank pc)%nat ∧
      (if decide (pc_rank pc = pc_rank waiting)
       then sv_running s = false ∧ sv_thread s ≠ NotCreated
       else service_ok s)
  end.

Record process_ok (p : process) : Prop := {
  po_alive : ps_alive p = (2 <? pc_rank (ps_pc p))%nat;
  po_engine : idle (ps_engine p);
  po_capture : ps_pc p = PcCapture → ∃ pc, ps_capture p = Some pc ∧ loop_broken pc = false;
  po_stats : ps_stats p ≠ NotCreated ∧
    ((pc_rank (ps_pc p) < pc_rank PcJoinStats)%nat → ps_stats p = Returned);
  po_cleanup : ps_cleanup p ≠ NotCreated ∧
    ((pc_rank (ps_pc p) < pc_rank PcJoinCleanup)%nat → ps_cleanup p = Returned);
  po_flag : ps_stats p = Returned → en_shutdown (ps_engine p) = true;
  po_ws : service_at (ps_ws p) PcJoinWs (ps_pc p);
  po_api : service_at (ps_api p) PcJoinApi (ps_pc p);
  po_xdp : ∀ prog, ps_xdp p = Some prog → is_Some (eb_interface prog);
  po_ret : match ps_pc p with
           | PcFreeContext r | PcForget r | PcFinish r | PcExited r => r = EXIT_SUCCESS | _ => True end;
  po_log : log_ok (ps_log p);
  po_killed : ∀ sig, ps_killed p = Some sig → kills sig = true
}.

Lemma capture_idle cfg ev en r :
  received ev = Ok r → idle en →
  ∃ en', capture cfg [ev] en = Ok ((), en') ∧ idle en' ∧ en_shutdown en' = en_shutdown en.
Proof.
  intros Hr Hi. cbn [capture]. unfold st_bind, st_lift. rewrite Hr. destruct r as [q|]; [|by exists en].
  destruct (en_shutdown en) eqn:Hs.
  - unfold packet_handler. rewrite Hs. by exists en.
  - destruct Hi as [Hn Hh Ht Hc Hf]. rewrite handler_passes by done. eexists. split; [done|].
    split; [|done]. by split.
Qed.

Lemma sweep_idle now en :
  idle en → ∃ n en', sweep now en = Ok (n, en') ∧ idle en' ∧ en_shutdown en' = en_shutdown en.
Proof.
  intros [Hn Hh Ht Hc Hf]. pose proof Hc as (n & k & m & x & y & Hcache).
  unfold sweep, lru_cache_cleanup_expired. rewrite Hh, Hcache. cbn [lc_tail].
  destruct (walk_fuel ∅); cbn [cleanup_loop rbind]; eexists _, _; (split; [done|]); (split; [|done]);
    split; cbn; try done; by repeat eexists.
Qed.

Lemma release_idle en : idle en → ∃ en', release en = Ok en' ∧ idle en' ∧ en_shutdown en' = en_shutdown en.
Proof.
  intros [Hn Hh Ht Hc Hf]. rewrite release_nobody by done. eexists. split; [done|].
  split; [|done]. by split.
Qed.

Lemma cleanup_idle en :
  idle en → cleanup_context (s_heap (en_state en)) (en_conn_table en) (s_cache (en_state en)) = Ok ∅.
Proof. intros [Hn Hh Ht Hc Hf]. rewrite Hh. by apply cleanup_context_empty. Qed.

Lemma signal_idle sig en : idle en → idle (signal_handler sig en).
Proof. intros [Hn Hh Ht Hc Hf]. unfold signal_handler. destruct (_ || _); by split. Qed.

Lemma request_shutdown_same en : en_shutdown en = true → request_shutdown en = en.
Proof. intros Hs. destruct en. cbn in Hs. by rewrite Hs. Qed.

Lemma keep_going_idle en : idle en → keep_going en = negb (en_shutdown en).
Proof. intros Hi. unfold keep_going. rewrite (idle_flags _ Hi). by destruct (en_shutdown en). Qed.

(** ** One step

    What the main thread still has to do, counted so that it decreases; the thread
    it waits for counts while it waits. *)

Definition waiting_rank (p : process) : nat :=
  match ps_pc p with
  | PcJoinWs => match ps_ws p with Some s => thread_rank (ws_thread s) | None => 0 end
  | PcJoinApi => match ps_api p with Some s => thread_rank (as_thread s) | None => 0 end
  | _ => 0
  end.

Definition measure (p : process) : nat :=
  10 * pc_rank (ps_pc p) + thread_rank (ps_stats p) + thread_rank (ps_cleanup p) + waiting_rank p.

Inductive actor := ActMain | ActStats | ActCleanup | ActWs | ActApi | ActKernel.

#[global] Instance actor_eq_dec : EqDecision actor.
Proof. solve_decision. Defined.

Definition actor_of (e : event) : actor :=
  match e with
  | EvMain _ _ => ActMain | EvStats _ => ActStats | EvCleanup _ _ => ActCleanup | EvWs _ => ActWs
  | EvApi _ => ActApi | EvSignal _ _ _ => ActKernel
  end.

Definition blocked (t : thread) : bool := negb (bool_decide (t = Returned)).

(** Whose step brings the exit nearer: the main thread's, or the one's it waits
    for. *)
Definition helpful (p : process) : actor :=
  match ps_pc p with
  | PcJoinStats => if blocked (ps_stats p) then ActStats else ActMain
  | PcJoinCleanup => if blocked (ps_cleanup p) then ActCleanup else ActMain
  | PcJoinWs => match ps_ws p with Some s => if blocked (ws_thread s) then ActWs else ActMain | None => ActMain end
  | PcJoinApi => match ps_api p with Some s => if blocked (as_thread s) then ActApi else ActMain | None => ActMain end
  | _ => ActMain
  end.

Definition stopping (p : process) : bool := en_shutdown (ps_engine p).

(** The capture loop has returned. *)
Definition past_capture (p : process) : Prop := (pc_rank (ps_pc p) <= pc_rank PcJoinStats)%nat.

Definition stop_signal (e : event) : Prop :=
  ∃ env sig locked, e = EvSignal env sig locked ∧ handled sig = true.
Definition capture_failure (e : event) : Prop := ∃ env i, e = EvMain env i ∧ mi_capture i = CaptureError.

Record advanced (e : event) (p q : process) : Prop := {
  ad_ok : process_ok q;
  ad_keeps : stopping p = true → stopping q = true;
  ad_signal : stopping q = true → stopping p = true ∨ stop_signal e;
  ad_past : past_capture p → past_capture q;
  ad_failure : past_capture q → past_capture p ∨ capture_failure e;
  ad_measure : stopping p = true → past_capture p → ended p = false →
    (measure q < measure p)%nat ∨
    (measure q = measure p ∧ helpful q = helpful p ∧ actor_of e ≠ helpful p);
  ad_log : log_frame (ps_log p) (ps_log q);
  ad_killed : actor_of e ≠ ActKernel → ps_killed q = ps_killed p
}.

(** A step that changes nothing, of a thread that does not help. *)
Lemma advanced_same e p : process_ok p → helpful p ≠ actor_of e ∨ ¬ past_capture p → advanced e p p.
Proof.
  intros Hp Hh. split; try done; try (by left). intros _ Hpast _. right.
  split; [done|]. split; [done|]. destruct Hh; [by symmetry|done].
Qed.

(** What is logged changes nothing but the logger. *)
Lemma advanced_log e p q g :
  advanced e p q → log_ok g → log_frame (ps_log p) g → advanced e p (set_log g q).
Proof.
  intros [Hok Hk Hs Hpa Hf Hm Hl Hkl] Hg Hframe. split; try done.
  destruct Hok as [Ha He Hc Hst Hcl Hfl Hw Hapi Hx Hr _ Hki]. by split.
Qed.

Lemma say_returns env ms p n :
  Forall level_ok ms → log_ok (ps_log p) → room (length ms + n) (ps_log p) →
  ∃ g, say env ms p = Ok (set_log g p) ∧ log_ok g ∧ room n g ∧ log_frame (ps_log p) g.
Proof.
  intros Hms Ho Hr. unfold say. destruct (log_all_returns env ms (ps_log p) n Hms Ho Hr) as (g & -> & H).
  by exists g.
Qed.

(** A step that ends with its messages. *)
Lemma say_advances e env ms p q :
  advanced e p q → ps_log q = ps_log p → Forall level_ok ms → (length ms <= STEP_MESSAGES)%nat →
  room STEP_MESSAGES (ps_log p) → ∃ r, say env ms q = Ok r ∧ advanced e p r.
Proof.
  intros Had Hl Hms Hlen Hroom. destruct (say_returns env ms q 0 Hms) as (g & -> & Ho & _ & Hf).
  - apply (po_log _ (ad_ok _ _ _ Had)).
  - rewrite Hl. eapply room_le; [|exact Hroom]. lia.
  - exists (set_log g q). split; [done|]. apply advanced_log; [done|done|by rewrite <- Hl].
Qed.

Lemma level_debug s : level_ok (log_debug s).
Proof. by split. Qed.
Lemma level_info s : level_ok (log_info s).
Proof. by split. Qed.
Lemma level_warn s : level_ok (log_warn s).
Proof. by split. Qed.
Lemma level_error s : level_ok (log_error s).
Proof. by split. Qed.
#[local] Hint Resolve level_debug level_info level_warn level_error : core.
#[local] Hint Constructors Forall : core.

(** The messages of [say_advances] have their levels, and are few. *)
Ltac say_it := apply say_advances; [|done|by auto|cbn; unfold STEP_MESSAGES; lia|done].

Lemma context_ok p : process_ok p → (2 < pc_rank (ps_pc p))%nat → context p = Ok (ps_engine p).
Proof.
  intros Hp Hr. unfold context. rewrite (po_alive _ Hp). by rewrite (proj2 (Nat.ltb_lt _ _) Hr).
Qed.

Lemma thread_step_cond (cond : bool) t :
  thread_step cond t = NotCreated ↔ t = NotCreated.
Proof. by destruct t, cond. Qed.

(** *** The statistics thread *)

Lemma stats_context p : process_ok p → ps_stats p ≠ Returned → context p = Ok (ps_engine p).
Proof.
  intros Hp Ht. apply context_ok; [done|]. destruct (po_stats _ Hp) as [_ Hs]. cbn in Hs.
  destruct (decide (pc_rank (ps_pc p) < 10)%nat); [naive_solver|lia].
Qed.

(** The step of the thread without its messages. *)
Lemma stats_moves env p :
  process_ok p → advanced (EvStats env) p (set_stats_thread (thread_step (negb (stopping p)) (ps_stats p)) p).
Proof.
  intros [Ha He Hc [Hs1 Hs2] Hcl Hf Hw Hapi Hx Hr Hl Hki]. split; try done.
  - split; try done; cbn.
    + split; [by rewrite thread_step_cond|]. intros Hlt. by rewrite (Hs2 Hlt).
    + unfold stopping. destruct (ps_stats p) eqn:Ht; cbn; [done|done| |done|by rewrite Hf].
      by destruct (en_shutdown (ps_engine p)).
  - by left.
  - by left.
  - intros Hstop Hpast Hex. unfold measure, waiting_rank, helpful, past_capture in *. cbn in *.
    rewrite Hstop. cbn. destruct (ps_stats p) eqn:Ht; cbn; try (left; lia); [done|].
    right. split; [lia|]. split; [done|]. by destruct (ps_pc p); cbn; repeat case_match.
Qed.

Lemma stats_advances env p :
  process_ok p → room STEP_MESSAGES (ps_log p) →
  ∃ q, stats_thread_func env p = Ok q ∧ advanced (EvStats env) p q.
Proof.
  intros Hp Hroom. unfold stats_thread_func. pose proof (stats_context p Hp) as Hc.
  pose proof (stats_moves env p Hp) as Hm. destruct (ps_stats p) eqn:Ht; cbn [thread_step] in Hm.
  - by destruct (po_stats _ Hp) as [[] _].
  - say_it. done.
  - rewrite Hc by done. cbn [rbind]. rewrite keep_going_idle by apply Hp. unfold stopping in Hm.
    destruct (negb _); [by eexists|]. say_it. done.
  - rewrite Hc by done. cbn [rbind]. unfold stats_message_of. say_it. done.
  - exists p. split; [done|]. apply advanced_same; [done|]. left. unfold helpful.
    rewrite Ht. by destruct (ps_pc p); cbn; repeat case_match.
Qed.

(** *** The clean-up thread *)

Lemma cleanup_context_alive p : process_ok p → ps_cleanup p ≠ Returned → context p = Ok (ps_engine p).
Proof.
  intros Hp Ht. apply context_ok; [done|]. destruct (po_cleanup _ Hp) as [_ Hs]. cbn in Hs.
  destruct (decide (pc_rank (ps_pc p) < 9)%nat); [naive_solver|lia].
Qed.

Lemma cleanup_moves env now p en :
  process_ok p → idle en → en_shutdown en = stopping p →
  advanced (EvCleanup env now) p
    (set_engine en (set_cleanup_thread (thread_step (negb (stopping p)) (ps_cleanup p)) p)).
Proof.
  intros [Ha He Hc Hs [Hc1 Hc2] Hf Hw Hapi Hx Hr Hl Hki] Hi Hsd. unfold stopping in Hsd.
  split; unfold stopping, past_capture in *; cbn; rewrite ?Hsd; try done.
  - split; try done; cbn; rewrite ?Hsd; try done.
    split; [by rewrite thread_step_cond|]. intros Hlt. by rewrite (Hc2 Hlt).
  - by left.
  - by left.
  - intros Hstop Hpast Hex. unfold measure, waiting_rank, helpful in *. cbn in *.
    rewrite Hstop. cbn. destruct (ps_cleanup p) eqn:Ht; cbn; try (left; lia); [done|].
    right. split; [lia|]. split; [done|]. by destruct (ps_pc p); cbn; repeat case_match.
Qed.

Lemma set_engine_same p : set_engine (ps_engine p) p = p.
Proof. by destruct p. Qed.

Lemma sweep_messages_ok n : Forall level_ok (sweep_messages n) ∧ (length (sweep_messages n) <= STEP_MESSAGES)%nat.
Proof. unfold sweep_messages, STEP_MESSAGES. destruct (0 <? n); cbn; split; auto; lia. Qed.

Lemma cleanup_advances env now p :
  process_ok p → room STEP_MESSAGES (ps_log p) →
  ∃ q, cleanup_thread_func env now p = Ok q ∧ advanced (EvCleanup env now) p q.
Proof.
  intros Hp Hroom. unfold cleanup_thread_func. pose proof (cleanup_context_alive p Hp) as Hc.
  pose proof (cleanup_moves env now p (ps_engine p) Hp (po_engine _ Hp) eq_refl) as Hm.
  change (set_engine (ps_engine p) ?q) with (set_engine (ps_engine q) q) in Hm.
  rewrite set_engine_same in Hm. destruct (ps_cleanup p) eqn:Ht; cbn [thread_step] in Hm.
  - by destruct (po_cleanup _ Hp) as [[] _].
  - say_it. done.
  - rewrite Hc by done. cbn [rbind]. rewrite keep_going_idle by apply Hp. unfold stopping in Hm.
    destruct (negb _); [by eexists|]. say_it. done.
  - rewrite Hc by done. cbn [rbind]. destruct (sweep_idle now _ (po_engine _ Hp)) as (n & en & -> & Hi & Hs).
    cbn [rbind]. pose proof (cleanup_moves env now p en Hp Hi Hs) as Hm'. rewrite Ht in Hm'.
    destruct (sweep_messages_ok n). by apply say_advances.
  - exists p. split; [done|]. apply advanced_same; [done|]. left. unfold helpful.
    rewrite Ht. by destruct (ps_pc p); cbn; repeat case_match.
Qed.

(** *** The servers' threads *)

Lemma service_at_step {T} `{ServiceLaws T} (s : T) waiting pc :
  service_at (Some s) waiting pc → service_at (Some (sv_step s)) waiting pc.
Proof.
  cbn. intros [Hr Hs]. split; [done|]. case_decide; [|by apply step_ok].
  rewrite step_running, step_thread, thread_step_cond. done.
Qed.

Lemma server_messages_ok {T} `{Service T} (s : T) first last :
  Forall level_ok (server_messages s first last) ∧ (length (server_messages s first last) <= STEP_MESSAGES)%nat.
Proof. unfold server_messages, STEP_MESSAGES. repeat case_match; cbn; split; auto; lia. Qed.

Lemma api_moves env p s :
  process_ok p → ps_api p = Some s → advanced (EvApi env) p (set_api (Some (sv_step s)) p).
Proof.
  intros Hp Hs. pose proof (po_api _ Hp) as Hat. rewrite Hs in Hat.
  destruct Hp as [Ha He Hc Hst Hcl Hf Hw Hapi Hx Hr Hl Hki]. split; try done; try (by left).
  - split; try done. by apply service_at_step.
  - intros Hstop Hpast Hex. unfold measure, waiting_rank, helpful, past_capture in *. cbn in *.
    rewrite Hs. destruct (ps_pc p) eqn:Hpc; cbn;
      try (right; split; [done|]; split; [done|]; by repeat case_match).
    destruct Hat as [_ Hat]. cbn in Hat. destruct Hat as [Hrun Hne].
    rewrite Hrun. destruct (as_thread s) eqn:Ht; cbn; try (left; lia); [done|].
    right. split; [lia|]. done.
Qed.

Lemma api_advances env p :
  process_ok p → room STEP_MESSAGES (ps_log p) → ∃ q, api_thread env p = Ok q ∧ advanced (EvApi env) p q.
Proof.
  intros Hp Hroom. unfold api_thread. destruct (ps_api p) as [s|] eqn:Hs.
  - destruct (server_messages_ok s (bytes_of "API server thread started") (bytes_of "API server thread stopped")).
    apply say_advances; try done. by apply api_moves.
  - exists p. split; [done|]. apply advanced_same; [done|]. left. unfold helpful. rewrite Hs.
    by destruct (ps_pc p); repeat case_match.
Qed.

Lemma needs_context_alive p s :
  process_ok p → ps_ws p = Some s → needs_context s = true → context p = Ok (ps_engine p).
Proof.
  intros Hp Hs Hn. apply context_ok; [done|]. pose proof (po_ws _ Hp) as Hat. rewrite Hs in Hat.
  destruct Hat as [Hr _]. cbn in Hr. lia.
Qed.

Lemma ws_moves env p s :
  process_ok p → ps_ws p = Some s → advanced (EvWs env) p (set_ws (Some (sv_step s)) p).
Proof.
  intros Hp Hs. pose proof (po_ws _ Hp) as Hat. rewrite Hs in Hat.
  destruct Hp as [Ha He Hc Hst Hcl Hf Hw Hapi Hx Hr Hl Hki]. split; try done; try (by left).
  - split; try done. by apply service_at_step.
  - intros Hstop Hpast Hex. unfold measure, waiting_rank, helpful, past_capture in *. cbn in *.
    rewrite Hs. destruct (ps_pc p) eqn:Hpc; cbn;
      try (right; split; [done|]; split; [done|]; by repeat case_match).
    destruct Hat as [_ Hat]. cbn in Hat. destruct Hat as [Hrun Hne].
    rewrite Hrun. destruct (ws_thread s) eqn:Ht; cbn; try (left; lia); [done|].
    right. split; [lia|]. done.
Qed.

Lemma tick_messages_ok g s :
  Forall level_ok (log_debug <$> websocket_tick (Some g) s) ∧
  (length (log_debug <$> websocket_tick (Some g) s) <= STEP_MESSAGES)%nat.
Proof.
  split; [apply Forall_fmap, Forall_true; auto|]. rewrite length_fmap.
  unfold websocket_tick, websocket_broadcast_stats, websocket_broadcast, STEP_MESSAGES. repeat case_match; cbn; lia.
Qed.

Lemma ws_advances env p :
  process_ok p → room STEP_MESSAGES (ps_log p) → ∃ q, ws_step env p = Ok q ∧ advanced (EvWs env) p q.
Proof.
  intros Hp Hroom. unfold ws_step. destruct (ps_ws p) as [s|] eqn:Hs.
  - pose proof (ws_moves env p s Hp Hs) as Hm. destruct (needs_context s) eqn:Hn.
    + rewrite (needs_context_alive p s) by done. cbn [rbind].
      destruct (tick_messages_ok (s_global (en_state (ps_engine p))) s). by apply say_advances.
    + destruct (server_messages_ok s (bytes_of "WebSocket server thread started on port " ++ print_u (ws_port s))
        (bytes_of "WebSocket server thread stopped")). by apply say_advances.
  - exists p. split; [done|]. apply advanced_same; [done|]. left. unfold helpful. rewrite Hs.
    by destruct (ps_pc p); repeat case_match.
Qed.

(** *** Signals *)

Lemma helpful_thread p : helpful p ≠ ActKernel.
Proof. unfold helpful. by destruct (ps_pc p); repeat case_match. Qed.

Lemma late_stopping p : process_ok p → (pc_rank (ps_pc p) < 10)%nat → stopping p = true.
Proof. intros Hp Hr. by apply (po_flag _ Hp), (po_stats _ Hp). Qed.

Lemma kernel_same env sig locked p : process_ok p → advanced (EvSignal env sig locked) p p.
Proof. intros Hp. apply advanced_same; [done|]. left. apply helpful_thread. Qed.

Lemma handler_moves env sig locked p :
  process_ok p → handled sig = true →
  advanced (EvSignal env sig locked) p (set_engine (signal_handler sig (ps_engine p)) p).
Proof.
  intros [Ha He Hc Hst Hcl Hf Hw Hapi Hx Hret Hl Hki] Hsig.
  assert (en_shutdown (signal_handler sig (ps_engine p)) = true) as Hsd
    by (unfold signal_handler; unfold handled in Hsig; by rewrite Hsig).
  split; unfold stopping, past_capture; cbn; rewrite ?Hsd; try done; try (by left).
  - split; try done. by apply signal_idle.
  - intros _. right. by exists env, sig, locked.
  - intros Hstop Hpast Hex. right. split; [done|]. split; [done|]. apply not_eq_sym, helpful_thread.
Qed.

Lemma kill_moves env sig locked p :
  process_ok p → kills sig = true → advanced (EvSignal env sig locked) p (set_killed sig p).
Proof.
  intros [Ha He Hc Hst Hcl Hf Hw Hapi Hx Hret Hl Hki] Hsig. split; try done; try (by left).
  - split; try done. by intros ? [= <-].
  - intros Hstop Hpast Hex. right. split; [done|]. split; [done|]. apply not_eq_sym, helpful_thread.
Qed.

(** The handler's message, on a lock that is free or not asked for. *)
Lemma handler_logs env sig locked g :
  log_ok g → room STEP_MESSAGES g → (locked = true → LOG_LEVEL_INFO < lg_level g) →
  ∃ g', log_all env [signal_message sig] (set_locked locked g) = Ok ((), g') ∧
    log_ok (set_locked false g') ∧ log_frame g (set_locked false g').
Proof.
  intros Ho Hroom Hl. destruct locked.
  - specialize (Hl eq_refl). exists (set_locked true g). destruct Ho as [_ Hb].
    split; [|by split; split]. unfold log_all. cbn [fmap list_fmap log_run]. unfold st_bind, LOG_DEPTH.
    rewrite log_message_skipped by done. done.
  - destruct (log_all_returns env [signal_message sig] (set_locked false g) 0) as (g' & -> & [Ho1 Ho2] & _ & Hf).
    + unfold signal_message. auto.
    + destruct Ho as [_ Hb]. by split.
    + eapply room_le; [|exact Hroom]. unfold STEP_MESSAGES. cbn. lia.
    + exists g'. split; [done|]. destruct Hf as [Hf1 Hf2]. split; by split.
Qed.

Lemma signal_advances env sig locked p :
  process_ok p → room STEP_MESSAGES (ps_log p) →
  (handled sig = true →
   (∀ ret, ps_pc p ≠ PcForget ret) ∧ (locked = true → LOG_LEVEL_INFO < lg_level (ps_log p))) →
  ended p = false →
  ∃ q, signal_step env sig locked p = Ok q ∧ advanced (EvSignal env sig locked) p q.
Proof.
  intros Hp Hroom Hcalm Hend. unfold signal_step. destruct (handled sig) eqn:Hsig.
  2: { destruct (kills sig) eqn:Hk; eexists; (split; [done|]); [by apply kill_moves|by apply kernel_same]. }
  destruct (Hcalm eq_refl) as [Hforget Hlock].
  destruct (handler_logs env sig locked (ps_log p) (po_log _ Hp) Hroom Hlock) as (g & -> & Ho & Hf).
  cbn [rbind]. change (context (set_log ?g p)) with (context p).
  destruct (decide (2 < pc_rank (ps_pc p))%nat) as [Hr|Hr].
  - exists (set_log (set_locked false g) (set_engine (signal_handler sig (ps_engine p)) p)). split.
    + rewrite context_ok by done. cbn [rbind]. cbn. by destruct (ps_pc p); cbn in Hr; try lia.
    + apply advanced_log; [by apply handler_moves|done|done].
  - exists (set_log (set_locked false g) p). split; [|apply advanced_log; [by apply kernel_same|done|done]].
    assert (en_shutdown (ps_engine p) = true) as Hsd by (apply late_stopping; [done|lia]).
    cbn. rewrite request_shutdown_same by done.
    destruct (ps_pc p) eqn:Hpc; cbn in Hr; try lia; [by destruct (Hforget ret)|done..].
Qed.

(** *** The main thread *)

(** A step of the main thread to a later point with the engine and its flag as they
    were. *)
Lemma main_moves env i p q :
  process_ok q → ps_log q = ps_log p ∧ ps_killed q = ps_killed p → stopping q = stopping p → (pc_rank (ps_pc q) < pc_rank (ps_pc p))%nat →
  (past_capture q → past_capture p ∨ capture_failure (EvMain env i)) →
  (thread_rank (ps_stats q) + thread_rank (ps_cleanup q) + waiting_rank q <
     10 + thread_rank (ps_stats p) + thread_rank (ps_cleanup p) + waiting_rank p)%nat →
  advanced (EvMain env i) p q.
Proof.
  intros Hq [Hl Hk] Hs Hr Hf Hm. split; unfold past_capture in *; rewrite ?Hs, ?Hl; try done.
  - by left.
  - cbn. lia.
  - intros _ _ _. left. unfold measure. lia.
Qed.

(** A step that waits. *)
Lemma main_waits env i p :
  process_ok p → helpful p ≠ ActMain ∨ ¬ past_capture p → advanced (EvMain env i) p p.
Proof. apply (advanced_same (EvMain env i)). Qed.

Lemma thread_rank_le t : (thread_rank t <= 2)%nat.
Proof. destruct t; cbn; lia. Qed.

Lemma waiting_rank_le p : (waiting_rank p <= 2)%nat.
Proof.
  unfold waiting_rank. destruct (ps_pc p); try lia.
  - destruct (ps_ws p); [apply thread_rank_le|lia].
  - destruct (ps_api p); [apply thread_rank_le|lia].
Qed.

Lemma open_moves env i cfg pc p :
  process_ok p → ps_pc p = PcOpen →
  packet_capture_init (mi_open i) (promiscuous_mode cfg) (snaplen cfg) = Some pc →
  advanced (EvMain env i) p (set_pc PcCapture (set_capture (Some (packet_capture_begin pc)) p)).
Proof.
  intros [Ha He Hc [Hs1 Hs2] [Hc1 Hc2] Hf Hw Hapi Hx Hret Hl Hki] Hpc Ho. rewrite Hpc in *. cbn in *.
  apply main_moves; unfold past_capture, waiting_rank; cbn; rewrite ?Hpc; cbn;
    [|done|done|lia|lia|lia].
  split; cbn; try done; try (split; [done|lia]).
  - intros _. eexists. split; [done|]. unfold packet_capture_init in Ho.
    repeat case_match; try done. by injection Ho as <-.
  - destruct (ps_ws p); [|done]. cbn in *. split; [lia|]. by destruct Hw.
  - destruct (ps_api p); [|done]. cbn in *. split; [lia|]. by destruct Hapi.
Qed.

Lemma open_messages_ok o iface promiscuous snaplen err pc :
  packet_capture_init o promiscuous snaplen = Some pc →
  Forall level_ok (open_messages o iface promiscuous snaplen err) ∧
  (length (open_messages o iface promiscuous snaplen err) <= 2)%nat.
Proof.
  unfold packet_capture_init, open_messages. intros Ho. repeat case_match; try done;
    cbn; split; auto; lia.
Qed.

Lemma open_advances cfg env i p :
  process_ok p → ps_pc p = PcOpen → calm cfg (EvMain env i) p →
  ∃ q, main_step cfg env i p = Ok q ∧ advanced (EvMain env i) p q.
Proof.
  intros Hp Hpc [Hroom [Hopen _]]. destruct (Hopen Hpc) as (pc & Ho & iface & Hiface).
  unfold main_step. rewrite Hpc.
  destruct (open_messages_ok _ (iface_of cfg) _ _ (mi_error i) pc Ho) as [Hlv Hlen].
  edestruct (say_returns env _ p 3 Hlv (po_log _ Hp)) as (g & -> & Hg & Hr & Hfr).
  { eapply room_le; [|exact Hroom]. unfold STEP_MESSAGES. lia. }
  cbn [rbind]. rewrite Ho. unfold begin_messages, print_s. rewrite Hiface. cbn [rbind].
  pose proof (open_moves env i cfg pc p Hp Hpc Ho) as Hm.
  edestruct (say_returns env) with (n := 0%nat)
    (p := set_log g (set_pc PcCapture (set_capture (Some (packet_capture_begin pc)) p))) as (g' & He & Hg' & _ & Hfr');
    [| | |eexists; split; [exact He|]]; [by auto|done|done|].
  change (advanced (EvMain env i) p
    (set_log g' (set_pc PcCapture (set_capture (Some (packet_capture_begin pc)) p)))).
  apply advanced_log; [done|done|]. destruct Hfr as [H1 H2], Hfr' as [H3 H4].
  cbn in H3, H4. split; [congruence|auto].
Qed.

Lemma service_at_later {T} `{Service T} (s : option T) waiting pc pc' :
  service_at s waiting pc → (pc_rank waiting < pc_rank pc')%nat → (pc_rank waiting < pc_rank pc)%nat →
  service_at s waiting pc'.
Proof.
  destruct s as [s|]; cbn; [|intros _ Hr _ ->; lia]. intros [Hr Hs] Hr' Hr0.
  split; [lia|]. case_decide; [lia|]. case_decide; [lia|done].
Qed.

(** What is left of [main_moves] at a known point is the new state's invariant. *)
Ltac advance Hpc :=
  apply main_moves; unfold past_capture, waiting_rank; cbn; rewrite ?Hpc; cbn;
  [|done|done|lia|by left; lia|lia].

(** The loop returns after a failure. *)
Lemma failure_moves env i p :
  process_ok p → ps_pc p = PcCapture → mi_capture i = CaptureError →
  advanced (EvMain env i) p (set_pc PcJoinStats p).
Proof.
  intros [Ha He Hc [Hs1 Hs2] [Hc1 Hc2] Hf Hw Hapi Hx Hret Hl Hki] Hpc Hev. rewrite Hpc in *. cbn in *.
  apply main_moves; unfold past_capture, waiting_rank; cbn; rewrite ?Hpc; cbn; [|done|done|lia| |lia].
  - split; cbn; try done; try (split; [done|lia]).
    + by apply service_at_later with PcCapture; [|cbn; lia..].
    + by apply service_at_later with PcCapture; [|cbn; lia..].
  - intros _. right. by exists env, i.
Qed.

Lemma capture_advances cfg env i p :
  process_ok p → ps_pc p = PcCapture → calm cfg (EvMain env i) p →
  ∃ q, main_step cfg env i p = Ok q ∧ advanced (EvMain env i) p q.
Proof.
  intros Hp Hpc [Hroom [_ Hframe]]. destruct (po_capture _ Hp Hpc) as (pc & Hcap & Hbreak).
  unfold main_step, capture_turn. rewrite Hpc, Hcap, Hbreak.
  destruct (mi_capture i) as [ev| |] eqn:Hev.
  - destruct Hframe as [r Hr]. rewrite context_ok by (done || (rewrite Hpc; cbn; lia)). cbn [rbind].
    destruct (capture_idle cfg ev (ps_engine p) r Hr (po_engine _ Hp)) as (en & Hen & Hi & Hsd).
    rewrite Hen. cbn [rbind]. eexists. split; [done|].
    assert (¬ past_capture p) as Hnp by (unfold past_capture; rewrite Hpc; cbn; lia).
    destruct Hp as [Ha He Hc Hs Hcl Hf Hw Hapi Hx Hret Hl Hki].
    split; unfold stopping; cbn; rewrite ?Hsd; try done; try (by left); try (by intros).
    split; cbn; rewrite ?Hsd; done.
  - exists p. split; [done|]. apply main_waits; [done|]. right. unfold past_capture. rewrite Hpc. cbn. lia.
  - say_it. by apply failure_moves.
Qed.

(** A service that the later parts of [main] have done with. *)
Lemma service_gone {T} `{Service T} (s : option T) waiting pc :
  service_at s waiting pc → (pc_rank pc < pc_rank waiting)%nat → s = None.
Proof. destruct s as [s|]; [|done]. intros [Hr _] Hlt. lia. Qed.

(** The joins of the two plain threads: the main thread goes on once the thread has
    returned. *)
Lemma join_stats_advances cfg env i p :
  process_ok p → ps_pc p = PcJoinStats → ∃ q, main_step cfg env i p = Ok q ∧ advanced (EvMain env i) p q.
Proof.
  intros Hp Hpc. unfold main_step. rewrite Hpc. unfold join.
  destruct (ps_stats p) eqn:Ht; [by destruct (po_stats _ Hp) as [[] _]| | | |].
  1-3: exists p; split; [done|]; apply main_waits; [done|];
    left; unfold helpful; by rewrite Hpc, Ht.
  eexists. split; [done|].
  destruct Hp as [Ha He Hc [Hs1 Hs2] [Hc1 Hc2] Hf Hw Hapi Hx Hret Hl Hki]. rewrite Hpc in *. cbn in *.
  advance Hpc.
  split; cbn; try done; try (split; [done|lia]).
  - by apply service_at_later with PcJoinStats; [|cbn; lia..].
  - by apply service_at_later with PcJoinStats; [|cbn; lia..].
Qed.

Lemma join_cleanup_advances cfg env i p :
  process_ok p → ps_pc p = PcJoinCleanup → ∃ q, main_step cfg env i p = Ok q ∧ advanced (EvMain env i) p q.
Proof.
  intros Hp Hpc. unfold main_step. rewrite Hpc. unfold join.
  destruct (ps_cleanup p) eqn:Ht; [by destruct (po_cleanup _ Hp) as [[] _]| | | |].
  1-3: exists p; split; [done|]; apply main_waits; [done|];
    left; unfold helpful; by rewrite Hpc, Ht.
  eexists. split; [done|].
  destruct Hp as [Ha He Hc [Hs1 Hs2] [Hc1 Hc2] Hf Hw Hapi Hx Hret Hl Hki]. rewrite Hpc in *. cbn in *.
  advance Hpc.
  split; cbn; try done.
  - split; [done|]. intros _. apply Hs2. lia.
  - by apply service_at_later with PcJoinCleanup; [|cbn; lia..].
  - by apply service_at_later with PcJoinCleanup; [|cbn; lia..].
Qed.

Lemma stop_ws_advances cfg env i p :
  process_ok p → ps_pc p = PcStopWs → ∃ q, main_step cfg env i p = Ok q ∧ advanced (EvMain env i) p q.
Proof.
  intros Hp Hpc. unfold main_step. rewrite Hpc. eexists. split; [done|].
  destruct Hp as [Ha He Hc [Hs1 Hs2] [Hc1 Hc2] Hf Hw Hapi Hx Hret Hl Hki]. rewrite Hpc in *. cbn in *.
  specialize (Hs2 ltac:(lia)). specialize (Hc2 ltac:(lia)). unfold stop_service.
  destruct (ps_ws p) as [s|] eqn:Hs; [destruct (sv_running s) eqn:Hrun|].
  - pose proof (thread_rank_le (ws_thread s)).
    advance Hpc.
    split; cbn; try done.
    + split; [lia|]. split; [done|]. destruct Hw as [_ Hw]. unfold service_ok in Hw.
      cbn in Hw, Hrun. rewrite Hrun in Hw. by destruct (ws_thread s).
    + by apply service_at_later with PcStopWs; [|cbn; lia..].
  - advance Hpc.
    split; cbn; try done. by apply service_at_later with PcStopWs; [|cbn; lia..].
  - advance Hpc.
    split; cbn; rewrite ?Hs; try done. by apply service_at_later with PcStopWs; [|cbn; lia..].
Qed.

Lemma join_ws_moves env i p s :
  process_ok p → ps_pc p = PcJoinWs → ps_ws p = Some s → ws_thread s = Returned →
  advanced (EvMain env i) p (set_pc PcStopApi (set_ws None p)).
Proof.
  intros [Ha He Hc [Hs1 Hs2] [Hc1 Hc2] Hf Hw Hapi Hx Hret Hl Hki] Hpc Hs Ht. rewrite Hpc in *. cbn in *.
  specialize (Hs2 ltac:(lia)). specialize (Hc2 ltac:(lia)).
  advance Hpc. split; cbn; try done. by apply service_at_later with PcJoinWs; [|cbn; lia..].
Qed.

Lemma join_ws_advances cfg env i p :
  process_ok p → ps_pc p = PcJoinWs → room STEP_MESSAGES (ps_log p) →
  ∃ q, main_step cfg env i p = Ok q ∧ advanced (EvMain env i) p q.
Proof.
  intros Hp Hpc Hroom. unfold main_step. rewrite Hpc. pose proof (po_ws _ Hp) as Hat. rewrite Hpc in Hat.
  unfold join_service. destruct (ps_ws p) as [s|] eqn:Hs; [|done]. destruct Hat as [_ [_ Hne]].
  cbn [sv_thread ws_service] in Hne |- *. destruct (ws_thread s) eqn:Ht; [done| | | |].
  1-3: exists p; split; [done|]; apply main_waits; [done|]; left; unfold helpful; by rewrite Hpc, Hs, Ht.
  say_it. by eapply join_ws_moves.
Qed.

Lemma stop_api_advances cfg env i p :
  process_ok p → ps_pc p = PcStopApi → ∃ q, main_step cfg env i p = Ok q ∧ advanced (EvMain env i) p q.
Proof.
  intros Hp Hpc. unfold main_step. rewrite Hpc. eexists. split; [done|].
  destruct Hp as [Ha He Hc [Hs1 Hs2] [Hc1 Hc2] Hf Hw Hapi Hx Hret Hl Hki]. rewrite Hpc in *. cbn in *.
  specialize (Hs2 ltac:(lia)). specialize (Hc2 ltac:(lia)). unfold stop_service.
  assert (ps_ws p = None) as Hnone by (eapply service_gone; [exact Hw|cbn; lia]).
  destruct (ps_api p) as [s|] eqn:Hs; [destruct (sv_running s) eqn:Hrun|].
  - pose proof (thread_rank_le (as_thread s)).
    advance Hpc.
    split; cbn; rewrite ?Hnone; try done.
    split; [lia|]. split; [done|]. destruct Hapi as [_ Hapi]. unfold service_ok in Hapi.
    cbn in Hapi, Hrun. rewrite Hrun in Hapi. by destruct (as_thread s).
  - advance Hpc.
    split; cbn; rewrite ?Hnone; done.
  - advance Hpc.
    split; cbn; rewrite ?Hnone, ?Hs; done.
Qed.

Lemma join_api_moves env i p s :
  process_ok p → ps_pc p = PcJoinApi → ps_api p = Some s → as_thread s = Returned →
  advanced (EvMain env i) p (set_pc PcRelease (set_api None p)).
Proof.
  intros [Ha He Hc [Hs1 Hs2] [Hc1 Hc2] Hf Hw Hapi Hx Hret Hl Hki] Hpc Hs Ht. rewrite Hpc in *. cbn in *.
  specialize (Hs2 ltac:(lia)). specialize (Hc2 ltac:(lia)).
  assert (ps_ws p = None) as Hnone by (eapply service_gone; [exact Hw|cbn; lia]).
  advance Hpc. split; cbn; rewrite ?Hnone; done.
Qed.

Lemma join_api_advances cfg env i p :
  process_ok p → ps_pc p = PcJoinApi → room STEP_MESSAGES (ps_log p) →
  ∃ q, main_step cfg env i p = Ok q ∧ advanced (EvMain env i) p q.
Proof.
  intros Hp Hpc Hroom. unfold main_step. rewrite Hpc. pose proof (po_api _ Hp) as Hat. rewrite Hpc in Hat.
  unfold join_service. destruct (ps_api p) as [s|] eqn:Hs; [|done]. destruct Hat as [_ [_ Hne]].
  cbn [sv_thread api_service] in Hne |- *. destruct (as_thread s) eqn:Ht; [done| | | |].
  1-3: exists p; split; [done|]; apply main_waits; [done|]; left; unfold helpful; by rewrite Hpc, Hs, Ht.
  say_it. by eapply join_api_moves.
Qed.

Lemma release_moves env i p k en :
  process_ok p → ps_pc p = PcRelease → idle en → en_shutdown en = stopping p →
  advanced (EvMain env i) p (set_pc (PcFreeContext EXIT_SUCCESS) (set_modules k (set_engine en p))).
Proof.
  intros [Ha He Hc [Hs1 Hs2] [Hc1 Hc2] Hf Hw Hapi Hx Hret Hl Hki] Hpc Hi Hsd.
  unfold stopping in Hsd. rewrite Hpc in *. cbn in *.
  specialize (Hs2 ltac:(lia)). specialize (Hc2 ltac:(lia)).
  assert (ps_ws p = None) as Hnone by (eapply service_gone; [exact Hw|cbn; lia]).
  assert (ps_api p = None) as Hnone' by (eapply service_gone; [exact Hapi|cbn; lia]).
  advance Hpc. split; cbn; rewrite ?Hnone, ?Hnone', ?Hsd; done.
Qed.

Lemma release_messages_ok p :
  process_ok p → ∃ ms, release_messages (ps_xdp p) (ps_geoip p) = Ok ms ∧ Forall level_ok ms ∧
    (length ms <= STEP_MESSAGES)%nat.
Proof.
  intros Hp. unfold release_messages, STEP_MESSAGES. destruct (ps_xdp p) as [prog|] eqn:Hprog.
  - destruct (po_xdp _ Hp prog Hprog) as [iface Hiface]. unfold print_s. rewrite Hiface. cbn [rbind].
    destruct (eb_loaded prog); cbn [rbind]; destruct (ps_geoip p); eexists; (split; [done|]); cbn; split; auto; lia.
  - cbn [rbind]. destruct (ps_geoip p); eexists; (split; [done|]); cbn; split; auto; lia.
Qed.

Lemma unload_returns p :
  process_ok p → ∃ k, ebpf_unload_program (ps_xdp p) (ps_kernel p) = Ok ((), k).
Proof.
  intros Hp. unfold ebpf_unload_program. destruct (ps_xdp p) as [prog|] eqn:Hprog; [|by eexists].
  destruct (eb_loaded prog); [|by eexists]. unfold st_bind, st_lift, xdp_off.
  destruct (po_xdp _ Hp prog Hprog) as [iface ->]. by eexists.
Qed.

Lemma release_advances cfg env i p :
  process_ok p → ps_pc p = PcRelease → room STEP_MESSAGES (ps_log p) →
  ∃ q, main_step cfg env i p = Ok q ∧ advanced (EvMain env i) p q.
Proof.
  intros Hp Hpc Hroom. unfold main_step. rewrite Hpc.
  destruct (unload_returns p Hp) as [k ->], (release_messages_ok p Hp) as (ms & -> & Hlv & Hlen).
  cbn [rbind]. destruct (release_idle _ (po_engine _ Hp)) as (en & -> & Hi & Hsd). cbn [rbind].
  apply say_advances; try done. by apply release_moves.
Qed.

(** The last three steps touch nothing but the context and the logger. *)
Lemma finish_moves env i p :
  process_ok p → (0 < pc_rank (ps_pc p) < 4)%nat →
  match ps_pc p with
  | PcFreeContext ret => advanced (EvMain env i) p (set_pc (PcForget ret) (set_alive false p))
  | PcForget ret => advanced (EvMain env i) p (set_pc (PcFinish ret) p)
  | PcFinish ret => advanced (EvMain env i) p (set_pc (PcExited ret) p)
  | _ => True
  end.
Proof.
  intros [Ha He Hc [Hs1 Hs2] [Hc1 Hc2] Hf Hw Hapi Hx Hret Hl Hki] Hrank.
  cbn in Hs2, Hc2. specialize (Hs2 ltac:(lia)). specialize (Hc2 ltac:(lia)).
  assert (ps_ws p = None) as Hnone by (eapply service_gone; [exact Hw|cbn; lia]).
  assert (ps_api p = None) as Hnone' by (eapply service_gone; [exact Hapi|cbn; lia]).
  destruct (ps_pc p) eqn:Hpc; cbn in Hrank; try done.
  all: advance Hpc; split; cbn; rewrite ?Hnone, ?Hnone'; done.
Qed.

(** The file is closed. *)
Lemma logger_cleanup_ok g :
  log_ok g → ∃ g', logger_cleanup g = Ok ((), g') ∧ log_ok g' ∧ room STEP_MESSAGES g' ∧ log_frame g g'.
Proof.
  intros [Hlock Hb]. destruct g as [fp fl lv sy lk by_ fs sl er]. cbn in Hlock, Hb. subst lk.
  unfold logger_cleanup, mutex_lock, mutex_unlock, set_fp, set_log_file, set_mode, set_locked, st_bind, st_modify.
  lg_fields. eexists. split; [done|]. split; [by split|]. split; [by right; left|by split].
Qed.

Lemma finish_advances cfg env i p :
  process_ok p → room STEP_MESSAGES (ps_log p) → (0 < pc_rank (ps_pc p) < 4)%nat →
  ∃ q, main_step cfg env i p = Ok q ∧ advanced (EvMain env i) p q.
Proof.
  intros Hp Hroom Hrank. pose proof (cleanup_idle _ (po_engine _ Hp)) as Hclean.
  pose proof (context_ok p Hp) as Hctx. pose proof (finish_moves env i p Hp Hrank) as Hm. unfold main_step.
  destruct (ps_pc p) eqn:Hpc; cbn in Hrank; try lia.
  - destruct (say_returns env [log_info (bytes_of "Cleaning up global context...")] p 0) as (g & -> & Hg & _ & Hf);
      [by auto|apply Hp|eapply room_le; [|exact Hroom]; unfold STEP_MESSAGES; cbn; lia|].
    cbn [rbind]. change (context (set_log g p)) with (context p). rewrite Hctx by (cbn; lia). cbn [rbind].
    rewrite Hclean. cbn [rbind]. eexists. split; [done|]. exact (advanced_log _ _ _ g Hm Hg Hf).
  - by eexists.
  - destruct (logger_cleanup_ok _ (po_log _ Hp)) as (g & -> & Hg & Hr & Hf). cbn [rbind].
    destruct (say_returns env [log_info (bytes_of "DDoS Protection System stopped")]
      (set_log g (set_pc (PcExited ret) p)) 0) as (g' & He & Hg' & _ & Hf');
      [by auto|done|eapply room_le; [|exact Hr]; unfold STEP_MESSAGES; cbn; lia|].
    exists (set_log g' (set_pc (PcExited ret) p)). split; [exact He|].
    apply advanced_log; [done|done|]. destruct Hf as [H1 H2], Hf' as [H3 H4]. cbn in H3, H4. split; [congruence|auto].
Qed.

Lemma main_advances cfg env i p :
  process_ok p → exited p = false → calm cfg (EvMain env i) p →
  ∃ q, main_step cfg env i p = Ok q ∧ advanced (EvMain env i) p q.
Proof.
  intros Hp Hex Hcalm. pose proof (proj1 Hcalm) as Hroom. destruct (ps_pc p) eqn:Hpc.
  - by apply open_advances.
  - by apply capture_advances.
  - by apply join_stats_advances.
  - by apply join_cleanup_advances.
  - by apply stop_ws_advances.
  - by apply join_ws_advances.
  - by apply stop_api_advances.
  - by apply join_api_advances.
  - by apply release_advances.
  - apply finish_advances; [done|done|]. rewrite Hpc. cbn. lia.
  - apply finish_advances; [done|done|]. rewrite Hpc. cbn. lia.
  - apply finish_advances; [done|done|]. rewrite Hpc. cbn. lia.
  - unfold exited in Hex. by rewrite Hpc in Hex.
Qed.

(** Every event that can be met steps to a good state. *)
Lemma step_advances cfg e p :
  process_ok p → calm cfg e p → ∃ q, step cfg e p = Ok q ∧ advanced e p q.
Proof.
  intros Hp Hcalm. unfold step. destruct (ended p) eqn:Hend.
  { exists p. split; [done|]. split; try done; try (by left). by rewrite Hend. }
  pose proof (proj1 Hcalm) as Hroom. destruct e as [env i|env|env now|env|env|env sig locked].
  - apply main_advances; [done| |done]. by apply orb_false_iff in Hend as [? _].
  - by apply stats_advances.
  - by apply cleanup_advances.
  - by apply ws_advances.
  - by apply api_advances.
  - apply signal_advances; [done|done|apply Hcalm|done].
Qed.

(** ** Executions from start-up *)

(** [ran p evs q]: an execution of [evs], all of them calm. *)
Inductive ran (cfg : config) (p : process) : list event → process → Prop :=
  | ran_nil : ran cfg p [] p
  | ran_snoc evs q e r :
      ran cfg p evs q → calm cfg e q → step cfg e q = Ok r → ran cfg p (evs ++ [e]) r.

Lemma step_from cfg e p q : process_ok p → calm cfg e p → step cfg e p = Ok q → advanced e p q.
Proof.
  intros Hp Hcalm Hstep. destruct (step_advances cfg e p Hp Hcalm) as (q' & Hq & Had).
  rewrite Hstep in Hq. by injection Hq as <-.
Qed.

Lemma ran_ok cfg p evs q : process_ok p → ran cfg p evs q → process_ok q.
Proof. intros Hp. induction 1 as [|evs q e r Hr IH Hc Hs]; [done|]. by apply (step_from cfg e q r IH Hc Hs). Qed.

Lemma service_start_ok {T} `{ServiceLaws T} (ok : bool) (s : T) waiting :
  sv_running s = false → alive (sv_thread s) = false → (pc_rank waiting < 12)%nat →
  service_at (Some (sv_start ok s).2) waiting PcOpen.
Proof.
  intros Hr Ht Hlt. cbn. split; [lia|]. case_decide as Hd; [lia|].
  apply start_ok. unfold service_ok. by rewrite Hr, Ht.
Qed.

Lemma ws_part_ok o cfg : service_at (ws_part o cfg) PcJoinWs PcOpen.
Proof.
  unfold ws_part, websocket_server_init. destruct (enable_dashboard cfg); [|done].
  destruct (mo_ws o).1; [|done].
  cbn [fmap option_fmap option_map].
  pose proof (service_start_ok (T := websocket_server) (mo_ws o).2
    (WebsocketServer (dashboard_port cfg) true false NotCreated) PcJoinWs eq_refl eq_refl ltac:(cbn; lia)) as Hs.
  exact Hs.
Qed.

Lemma api_part_ok o strdup cfg : service_at (api_part o strdup cfg) PcJoinApi PcOpen.
Proof.
  unfold api_part, api_server_init. destruct (enable_api cfg); [|done].
  destruct (mo_api o).1; [|done].
  cbn [fmap option_fmap option_map].
  pose proof (service_start_ok (T := api_server) (mo_api o).2
    (ApiServer (strdup (default (bytes_of "0.0.0.0") (api_bind_address cfg))) (api_port cfg)
       (api_auth_token cfg ≫= strdup) false NotCreated) PcJoinApi eq_refl eq_refl ltac:(cbn; lia)) as Hs.
  exact Hs.
Qed.

Lemma module_messages_ok o : Forall level_ok (module_messages o) ∧ length (module_messages o) = 4%nat.
Proof. unfold module_messages, module_message. split; [|done]. repeat case_match; auto. Qed.

Lemma start_messages_ok o : Forall level_ok (start_messages o) ∧ length (start_messages o) = 10%nat.
Proof.
  destruct (module_messages_ok o) as [Hm Hn]. unfold start_messages. rewrite !length_app, Hn. split; [|done].
  rewrite !Forall_app. split_and!; [|auto|done|auto]. unfold context_messages, cache_messages, table_messages.
  cbn. auto.
Qed.

Lemma api_messages_ok api ms : api_messages api = Ok ms → Forall level_ok ms ∧ (length ms <= 2)%nat.
Proof.
  unfold api_messages. destruct api as [s|]; [|intros [= <-]; split; [auto|cbn; lia]].
  intros (addr & _ & H)%rbind_Ok. apply (inj Ok) in H as <-. destruct (as_running s); cbn; split; auto; lia.
Qed.

(** The messages of the parts that may be enabled. *)
Lemma part_messages_ok o strdup cfg :
  (Forall level_ok (geoip_messages cfg (geoip_part o strdup cfg)) ∧
   (length (geoip_messages cfg (geoip_part o strdup cfg)) <= 1)%nat) ∧
  (Forall level_ok (xdp_messages cfg (xdp_part o strdup cfg)) ∧
   (length (xdp_messages cfg (xdp_part o strdup cfg)) <= 1)%nat) ∧
  (Forall level_ok (ws_messages (ws_part o cfg)) ∧ (length (ws_messages (ws_part o cfg)) <= 2)%nat) ∧
  (Forall level_ok (privileges_part cfg) ∧ (length (privileges_part cfg) <= 1)%nat).
Proof.
  split_and!.
  1-2: unfold geoip_messages; repeat case_match; cbn; auto; lia.
  1-2: unfold xdp_messages; repeat case_match; cbn; auto; lia.
  1-2: unfold ws_messages; destruct (ws_part o cfg) as [w|]; [destruct (ws_running w)|]; cbn; auto; lia.
  1-2: unfold privileges_part; repeat case_match; cbn; auto; lia.
Qed.

Lemma main_messages_ok o strdup argv cfg ms :
  main_messages o strdup argv cfg = Ok ms → Forall level_ok ms ∧ (length ms <= 100)%nat.
Proof.
  intros (api & Hapi & H)%rbind_Ok. apply (inj Ok) in H as <-.
  destruct (api_messages_ok _ _ Hapi), (start_messages_ok (mo_start o)) as [? Hn],
    (part_messages_ok o strdup cfg) as ([] & [] & [] & []).
  split; [rewrite !Forall_app; split_and!; auto|]. rewrite !length_app, Hn. cbn [length]. lia.
Qed.

(** The name of the server's address has been copied. *)
Lemma main_messages_returns o strdup argv cfg :
  (∀ s, is_Some (strdup s)) → ∃ ms, main_messages o strdup argv cfg = Ok ms.
Proof.
  intros Hdup. unfold main_messages.
  enough (∃ api, api_messages (api_part o strdup cfg) = Ok api) as [api ->] by (by eexists).
  unfold api_messages, api_part, api_server_init. destruct (enable_api cfg); [|by eexists].
  destruct (mo_api o).1; [|by eexists]. cbn [fmap option_fmap option_map].
  destruct (Hdup (default (bytes_of "0.0.0.0") (api_bind_address cfg))) as [addr Haddr]. rewrite Haddr.
  destruct (mo_api o).2; by eexists.
Qed.

(** What a program that has started is like. *)
Lemma main_start_shape o strdup argv disk env fs now fw k cfg p :
  main_start o strdup argv disk env fs now fw k = Ok (inr (cfg, p)) →
  ∃ en g, fresh en ∧ log_ok g ∧ room 900 g ∧ (log_file cfg = None → lg_fp g = None) ∧
    p = Process PcOpen true en None (created (mo_stats o)) (created (mo_cleanup o)) (ws_part o cfg)
          (api_part o strdup cfg) (geoip_part o strdup cfg) (xdp_part o strdup cfg) k g None.
Proof.
  unfold main_start. destruct (config_load _ _ _) as [cfg'|] eqn:Hcfg; [|done].
  apply config_load_level in Hcfg as [Hlow Hhigh].
  destruct (logger_init_room (mo_log_strdup o) (mo_log_fopen o) env (log_file cfg') (log_level cfg')
    (syslog_enabled cfg') fs) as (rc & lg & Hinit & Hlg);
    [unfold LOG_LEVEL_CRITICAL, LOG_LEVEL_ERROR in *; lia|].
  rewrite Hinit. cbn [rbind]. destruct (negb _); [done|]. destruct (Z.eqb_spec rc 0) as [Hrc|]; [|done].
  destruct (Hlg Hrc) as (Ho & Hroom & Hfile). cbn [negb]. destruct (negb _); [done|].
  intros ([en|] & Hen & H)%rbind_Ok; [|done]. apply rbind_Ok in H as (ms & Hms & H).
  apply main_messages_ok in Hms as [Hlv Hlen].
  destruct (log_all_returns env ms lg 900 Hlv Ho) as (g & Hg & Ho' & Hroom' & Hframe).
  { eapply room_le; [|exact Hroom]. lia. }
  rewrite Hg in H. cbn [rbind] in H. apply (inj Ok) in H. injection H as <- <-. exists en, g.
  split_and!; [by apply start_fresh in Hen|done|done|intros Hf; apply Hframe; auto|done].
Qed.

Lemma main_start_ok o strdup argv disk env fs now fw k cfg p :
  (∀ s, is_Some (strdup s)) → mo_stats o = true → mo_cleanup o = true →
  main_start o strdup argv disk env fs now fw k = Ok (inr (cfg, p)) →
  process_ok p ∧ ps_pc p = PcOpen ∧ stopping p = false.
Proof.
  intros Hdup Hst Hcl H. apply main_start_shape in H as (en & g & [Hn Hr Hrun Hgl Hp Hh Ht Hc] & Ho & _ & _ & ->).
  split; [|split; [done|exact Hr]]. split; cbn; try done.
  - split; try done. by rewrite Hrun, Hr.
  - rewrite Hst. split; [done|lia].
  - rewrite Hcl. split; [done|lia].
  - by rewrite Hst.
  - apply ws_part_ok.
  - apply api_part_ok.
  - intros prog. unfold xdp_part, ebpf_load_program. repeat case_match; try done.
    intros [= <-]. apply Hdup.
Qed.

(** The part of [main] before the threads returns, whatever else it is given. *)
Lemma main_start_returns o strdup argv disk env fs now fw k :
  (∀ s, is_Some (strdup s)) → ∃ r, main_start o strdup argv disk env fs now fw k = Ok r.
Proof.
  intros Hdup. unfold main_start. destruct (config_load _ _ _) as [cfg|] eqn:Hcfg; [|by eexists].
  destruct (negb _); [by eexists|]. apply config_load_level in Hcfg as [Hlow Hhigh].
  destruct (logger_init_room (mo_log_strdup o) (mo_log_fopen o) env (log_file cfg) (log_level cfg)
    (syslog_enabled cfg) fs) as (rc & g & -> & Hlg); [unfold LOG_LEVEL_CRITICAL, LOG_LEVEL_ERROR in *; lia|].
  cbn [rbind]. destruct (Z.eqb_spec rc 0) as [Hrc|]; [|by eexists]. cbn [negb]. destruct (negb _); [by eexists|].
  destruct (start_returns (mo_start o) cfg now fw) as [[en|] ->]; [|by eexists]. cbn [rbind].
  destruct (main_messages_returns o strdup argv cfg Hdup) as [ms Hms]. rewrite Hms. cbn [rbind].
  apply main_messages_ok in Hms as [Hlv Hlen]. destruct (Hlg Hrc) as (Ho & Hroom & _).
  destruct (log_all_returns env ms g 0 Hlv Ho) as (g' & -> & _); [eapply room_le; [|exact Hroom]; lia|]. by eexists.
Qed.

(** C2: When strings can be copied, start-up returns on every configuration file: with
    an exit status, or with the program running. Suppose the two threads could be
    created. Then no interleaving of the program's threads, of captured frames and of
    signals reaches undefined behaviour or a loop that does not end, as long as
    nothing is missing that the code does not check: the capture handle opens and its
    name is copied, the parser stays inside the frames, the log file is not close to
    its rotation when informational messages are logged, and SIGINT and SIGTERM arrive
    neither while a thread holds the logger's lock (unless informational messages are
    not logged) nor between the release of the context and the reset of the pointer
    to it. Every such execution can take every next step, on to the exit; no thread
    uses the context after the main thread has freed it. *)
Theorem process_never_fails o strdup argv disk env fs now fw k :
  (∀ s, is_Some (strdup s)) →
  ∃ r, main_start o strdup argv disk env fs now fw k = Ok r ∧
    ∀ cfg p evs q e, mo_stats o = true → mo_cleanup o = true → r = inr (cfg, p) →
    ran cfg p evs q → calm cfg e q →
    ∃ q', step cfg e q = Ok q' ∧ ps_alive q' = (2 <? pc_rank (ps_pc q'))%nat ∧
      (ps_alive q' = false →
       ps_stats q' = Returned ∧ ps_cleanup q' = Returned ∧ ps_ws q' = None ∧ ps_api q' = None).
Proof.
  intros Hdup. destruct (main_start_returns o strdup argv disk env fs now fw k Hdup) as [r Hstart].
  exists r. split; [exact Hstart|]. intros cfg p evs q e Hst Hcl -> Hran Hcalm.
  destruct (main_start_ok _ _ _ _ _ _ _ _ _ _ _ Hdup Hst Hcl Hstart) as (Hp & _ & _).
  destruct (step_advances cfg e q (ran_ok _ _ _ _ Hp Hran) Hcalm) as (q' & Hr & Had).
  exists q'. split; [done|]. pose proof (ad_ok _ _ _ Had) as Hok. split; [apply Hok|].
  rewrite (po_alive _ Hok). intros Hdead%Nat.ltb_ge.
  split_and!; [apply (po_stats _ Hok); cbn; lia|apply (po_cleanup _ Hok); cbn; lia| |];
    (eapply service_gone; [apply Hok|cbn; lia]).
Qed.

(** What an execution has met by the time it is past the capture loop, or past the
    join of the statistics thread. *)
Lemma ran_history cfg p evs q :
  process_ok p → ps_pc p = PcOpen → stopping p = false → ran cfg p evs q →
  process_ok q ∧ (stopping q = true → Exists stop_signal evs) ∧
  (past_capture q → Exists capture_failure evs).
Proof.
  intros Hp Hpc Hsd. induction 1 as [|evs q e r Hran (Hq & Hstop & Hpast) Hcalm Hstep].
  { rewrite Hsd. split_and!; [done|done|]. unfold past_capture. rewrite Hpc. cbn. lia. }
  pose proof (step_from cfg e q r Hq Hcalm Hstep) as [Hr _ Hsig _ Hfail _ _ _].
  split; [done|]. rewrite !Exists_app, !Exists_cons, !Exists_nil. naive_solver.
Qed.

(** C4: [main] returns only when the program has received SIGINT or SIGTERM and its
    capture loop has failed as well, once strings could be copied, both threads
    created, and the capture handle opened (when it does not open, [main] returns
    without a signal), and as long as nothing else is missing, as for C2. A signal
    alone leaves the main thread in the capture loop; a failing loop alone leaves it
    waiting for the statistics thread. The status is success. (A signal without a
    handler ends the process where it is; [main] does not return then.) *)
Theorem exit_needs_signal_and_failure o strdup argv disk env fs now fw k cfg p evs q ret :
  (∀ s, is_Some (strdup s)) → mo_stats o = true → mo_cleanup o = true →
  main_start o strdup argv disk env fs now fw k = Ok (inr (cfg, p)) →
  ran cfg p evs q → ps_pc q = PcExited ret →
  ret = EXIT_SUCCESS ∧ Exists stop_signal evs ∧ Exists capture_failure evs.
Proof.
  intros Hdup Hst Hcl Hstart Hran Hpc.
  destruct (main_start_ok _ _ _ _ _ _ _ _ _ _ _ Hdup Hst Hcl Hstart) as (Hp & Hopen & Hsd).
  destruct (ran_history cfg p evs q Hp Hopen Hsd Hran) as (Hq & Hstop & Hpast).
  pose proof (po_ret _ Hq) as Hret. rewrite Hpc in Hret. split; [done|]. split.
  - apply Hstop, (po_flag _ Hq), (po_stats _ Hq). rewrite Hpc. cbn. lia.
  - apply Hpast. unfold past_capture. rewrite Hpc. cbn. lia.
Qed.

Lemma signal_stops cfg e p q :
  process_ok p → step cfg e p = Ok q → stop_signal e → ended p = false → stopping q = true.
Proof.
  intros Hp Hstep (env & sig & locked & -> & Hsig) Hend. unfold step in Hstep. rewrite Hend in Hstep.
  unfold signal_step in Hstep. rewrite Hsig in Hstep. apply rbind_Ok in Hstep as ([[] g] & _ & Hstep).
  assert (∀ en, en_shutdown (signal_handler sig en) = true) as Hsd
    by (intros en; unfold signal_handler; unfold handled in Hsig; by rewrite Hsig).
  cbn [ps_pc set_log] in Hstep. destruct (ps_pc p) eqn:Hpc.
  12-13: apply (inj Ok) in Hstep as <-; done.
  all: apply rbind_Ok in Hstep as (en & _ & Heq); apply (inj Ok) in Heq as <-; by apply Hsd.
Qed.

Lemma step_ended cfg e p q : step cfg e p = Ok q → ended p = true → ended q = true.
Proof. unfold step. intros Hstep Hend. rewrite Hend in Hstep. by injection Hstep as <-. Qed.

Lemma ran_signalled cfg p evs q :
  process_ok p → ran cfg p evs q → Exists stop_signal evs → stopping q = true ∨ ended q = true.
Proof.
  intros Hp. induction 1 as [|evs q e r Hran IH Hcalm Hstep]; intros Hsig; [by apply Exists_nil in Hsig|].
  pose proof (ran_ok cfg p evs q Hp Hran) as Hq.
  destruct (ended q) eqn:Hend; [right; by eapply step_ended|]. left. apply Exists_app in Hsig as [Hsig|Hsig].
  - destruct (IH Hsig) as [Hs|]; [|congruence]. apply (ad_keeps _ _ _ (step_from cfg e q r Hq Hcalm Hstep)), Hs.
  - apply Exists_cons in Hsig as [Hsig|Hsig%Exists_nil]; [|done]. by eapply signal_stops.
Qed.

(** ** The exit is reached

    An infinite execution: the states and the events between them. It is fair when
    none of the five threads is left out for ever. *)
Record execution (cfg : config) (states : nat → process) (events : nat → event) : Prop := {
  ex_calm n : calm cfg (events n) (states n);
  ex_step n : step cfg (events n) (states n) = Ok (states (S n))
}.

Definition fair (events : nat → event) : Prop :=
  ∀ a n, a ≠ ActKernel → ∃ m, (n <= m)%nat ∧ actor_of (events m) = a.

Section liveness.
Context {cfg : config} {states : nat → process} {events : nat → event}.
Hypothesis Hex : execution cfg states events.

(** Up to the next step of the thread that helps, the measure does not grow; with
    it, it decreases, or the process is over. *)
Lemma measure_decreases d n :
  process_ok (states n) → stopping (states n) = true → past_capture (states n) →
  ended (states n) = false → actor_of (events (n + d)) = helpful (states n) →
  ∃ m, process_ok (states m) ∧ stopping (states m) = true ∧ past_capture (states m) ∧
    ((measure (states m) < measure (states n))%nat ∨ ended (states m) = true).
Proof.
  revert n. induction d as [|d IH]; intros n Hok Hs Hp He Ha;
    pose proof (step_from cfg _ _ _ Hok (ex_calm _ _ _ Hex n) (ex_step _ _ _ Hex n)) as
      [Hok' Hs' _ Hp' _ Hm _ _]; specialize (Hs' Hs); specialize (Hp' Hp);
    destruct (Hm Hs Hp He) as [Hlt|(Heq & Hh & Hne)]; try (exists (S n); split_and!; by auto).
  - rewrite Nat.add_0_r in Ha. done.
  - destruct (ended (states (S n))) eqn:He'; [exists (S n); split_and!; by auto|].
    destruct (IH (S n)) as (m & Hm2 & Hm3 & Hm4 & Hm5); [done..| |].
    { rewrite Hh, <- Ha. f_equal. f_equal. lia. }
    exists m. rewrite Heq in Hm5. done.
Qed.

(** What the end of a process is. *)
Definition over (p : process) : Prop :=
  ps_pc p = PcExited EXIT_SUCCESS ∨ ∃ sig, ps_killed p = Some sig ∧ kills sig = true.

Lemma ended_over p : process_ok p → ended p = true → over p.
Proof.
  intros Hok [He|He%bool_decide_eq_true]%orb_true_iff.
  - left. unfold exited in He. pose proof (po_ret _ Hok) as Hret.
    destruct (ps_pc p); try done. by rewrite Hret.
  - right. destruct He as [sig Hsig]. exists sig. split; [done|]. by apply (po_killed _ Hok).
Qed.

Lemma exit_reached n :
  fair events → process_ok (states n) → stopping (states n) = true → past_capture (states n) →
  ∃ m, over (states m).
Proof.
  intros Hfair. remember (measure (states n)) as k eqn:Hk. revert n Hk.
  induction k as [k IH] using lt_wf_ind. intros n -> Hok Hs Hp.
  destruct (ended (states n)) eqn:He; [exists n; by apply ended_over|].
  destruct (Hfair (helpful (states n)) n (helpful_thread _)) as (m & Hle & Ha).
  destruct (measure_decreases (m - n) n) as (m' & Hok' & Hs' & Hp' & [Hlt|Hend]); [done..| | |].
  - by rewrite Nat.add_comm, Nat.sub_add.
  - by apply (IH _ Hlt m').
  - exists m'. by apply ended_over.
Qed.
End liveness.

(** C3: Once SIGINT or SIGTERM has been received and the capture loop has returned,
    the program ends: in every execution from there that leaves no thread out for
    ever, the threads see the flag, the main thread joins all four, releases
    everything and returns success, unless a signal that has no handler kills the
    process first. The other events are any, as long as nothing is missing that the
    code does not check, as for C2: both threads were created and strings copied, the
    log file keeps room when informational messages are logged, and SIGINT and SIGTERM
    arrive neither while a thread holds the logger's lock (the handler's message would
    wait for it for ever, unless informational messages are not logged) nor between
    the release of the context and the reset of the pointer to it. *)
Theorem shutdown_completes o strdup argv disk env fs now fw k cfg p evs states events :
  (∀ s, is_Some (strdup s)) → mo_stats o = true → mo_cleanup o = true →
  main_start o strdup argv disk env fs now fw k = Ok (inr (cfg, p)) →
  ran cfg p evs (states 0%nat) → Exists stop_signal evs → past_capture (states 0%nat) →
  execution cfg states events → fair events →
  ∃ n, ps_pc (states n) = PcExited EXIT_SUCCESS ∨
    ∃ sig, ps_killed (states n) = Some sig ∧ kills sig = true.
Proof.
  intros Hdup Hst Hcl Hstart Hran Hsig Hpast Hex Hfair.
  destruct (main_start_ok _ _ _ _ _ _ _ _ _ _ _ Hdup Hst Hcl Hstart) as (Hp & Hopen & Hsd).
  pose proof (ran_ok cfg p evs _ Hp Hran) as Hok.
  destruct (ran_signalled cfg p evs _ Hp Hran Hsig) as [Hstop|Hend].
  - by apply (exit_reached Hex 0).
  - exists 0%nat. by apply ended_over.
Qed.

(** What the program does not survive: a signal without a handler, such as the SIGHUP
    that asks other daemons to read their configuration again; SIGINT or SIGTERM while
    a thread holds the logger's lock, when informational messages are logged, whose
    handler waits for that lock for ever; either after the context has been freed and
    before the pointer to it is reset, whose handler writes to freed memory. *)
Lemma sighup_kills cfg env locked p :
  ended p = false → step cfg (EvSignal env SIGHUP locked) p = Ok (set_killed SIGHUP p).
Proof. intros Hend. unfold step. by rewrite Hend. Qed.

Lemma signal_in_logger_deadlocks cfg env sig p :
  ended p = false → handled sig = true → lg_level (ps_log p) <= LOG_LEVEL_INFO →
  step cfg (EvSignal env sig true) p = Undef SelfDeadlock.
Proof.
  intros Hend Hsig Hl. unfold step, signal_step. rewrite Hend, Hsig.
  unfold log_all. cbn [fmap list_fmap log_run]. unfold LOG_DEPTH, st_bind.
  rewrite nested_message by done. cbn [set_locked lg_level]. rewrite (proj2 (Z.ltb_ge _ _)); [done|]. exact Hl.
Qed.

Lemma signal_after_free cfg env sig p ret :
  ps_pc p = PcForget ret → ps_killed p = None → ps_alive p = false → handled sig = true →
  log_ok (ps_log p) → room STEP_MESSAGES (ps_log p) →
  step cfg (EvSignal env sig false) p = Undef UseAfterFree.
Proof.
  intros Hpc Hk Ha Hsig Ho Hroom. unfold step, ended, exited, signal_step. rewrite Hpc, Hk, Hsig. cbn [orb].
  rewrite bool_decide_false by (by intros [? ?]).
  destruct (handler_logs env sig false _ Ho Hroom) as (g & -> & _); [done|]. cbn.
  rewrite Hpc. unfold context. cbn. by rewrite Ha.
Qed.

(** A start that nothing keeps from running. *)
Lemma main_start_runs o strdup argv disk env fs now fw k cfg en :
  (∀ s, is_Some (strdup s)) → config_load strdup (mo_config o) (disk (config_file argv)) = Some cfg →
  config_validate cfg = 0 → log_file cfg = None → mo_sigint o = true → mo_sigterm o = true →
  start (mo_start o) cfg now fw = Ok (Some en) →
  ∃ p, main_start o strdup argv disk env fs now fw k = Ok (inr (cfg, p)).
Proof.
  intros Hdup Hcfg Hval Hfile Hint Hterm Hen.
  destruct (main_start_returns o strdup argv disk env fs now fw k Hdup) as [r Hr].
  rewrite Hr. unfold main_start in Hr. rewrite Hcfg, Hval in Hr. cbn [negb] in Hr.
  apply config_load_level in Hcfg as [Hlow Hhigh].
  destruct (logger_init_Ok (mo_log_strdup o) (mo_log_fopen o) env (log_file cfg) (log_level cfg)
    (syslog_enabled cfg) fs) as [g Hg]; [unfold LOG_LEVEL_CRITICAL, LOG_LEVEL_ERROR in *; lia|].
  rewrite Hg, Hfile, Hint, Hterm in Hr. cbn [rbind] in Hr. change (negb (0 =? 0)) with false in Hr.
  change (negb (setup_signals true true =? 0)) with false in Hr. rewrite Hen in Hr. cbn [rbind] in Hr.
  apply rbind_Ok in Hr as (ms & _ & Hr). apply rbind_Ok in Hr as ([[] g'] & _ & Hr).
  apply (inj Ok) in Hr as <-. by eexists.
Qed.

(** The point the main thread is at after a step. *)
Lemma say_inv env ms p q : say env ms p = Ok q → ∃ g, q = set_log g p.
Proof. unfold say. intros ([[] g] & _ & H)%rbind_Ok. apply (inj Ok) in H as <-. by exists g. Qed.

Lemma signal_pc cfg env sig locked p q :
  handled sig = true → ended p = false → step cfg (EvSignal env sig locked) p = Ok q →
  ps_pc q = ps_pc p ∧ ended q = false.
Proof.
  unfold step, signal_step. intros Hsig Hend. rewrite Hend, Hsig. intros ([[] g] & _ & H)%rbind_Ok.
  cbn [ps_pc set_log] in H. destruct (ps_pc p) eqn:Hpc.
  12-13: apply (inj Ok) in H as <-; split; [done|exact Hend].
  all: apply rbind_Ok in H as (en & _ & H); apply (inj Ok) in H as <-; split; [done|exact Hend].
Qed.

Lemma open_pc cfg env i pc p q :
  ended p = false → ps_pc p = PcOpen →
  packet_capture_init (mi_open i) (promiscuous_mode cfg) (snaplen cfg) = Some pc →
  step cfg (EvMain env i) p = Ok q → ps_pc q = PcCapture ∧ ended q = false.
Proof.
  unfold step. intros Hend Hpc Ho. rewrite Hend. unfold main_step. rewrite Hpc.
  intros (p1 & [g1 ->]%say_inv & H)%rbind_Ok. rewrite Ho in H. apply rbind_Ok in H as (ms & _ & [g2 ->]%say_inv).
  split; [done|]. unfold ended in Hend |- *. by apply orb_false_iff in Hend as [_ Hk].
Qed.

Lemma failure_pc cfg env i p q :
  process_ok p → ended p = false → ps_pc p = PcCapture → mi_capture i = CaptureError →
  step cfg (EvMain env i) p = Ok q → ps_pc q = PcJoinStats.
Proof.
  unfold step. intros Hp Hend Hpc Hev. destruct (po_capture _ Hp Hpc) as (pc & Hcap & Hbreak).
  rewrite Hend. unfold main_step, capture_turn. rewrite Hpc, Hcap, Hbreak, Hev. by intros [g ->]%say_inv.
Qed.

(** A start whose capture handle cannot be opened, after two steps of the main
    thread. *)
Record freed (p : process) : Prop := {
  fr_pc : ps_pc p = PcForget EXIT_FAILURE;
  fr_alive : ps_alive p = false;
  fr_killed : ps_killed p = None
}.

Lemma open_messages_fail o iface promiscuous snaplen err :
  Forall level_ok (open_messages o iface promiscuous snaplen err) ∧
  (length (open_messages o iface promiscuous snaplen err) <= 2)%nat.
Proof. unfold open_messages. repeat case_match; cbn; split; auto; lia. Qed.

Lemma failed_open_freed o strdup argv disk env fs now fw k cfg p env' i :
  main_start o strdup argv disk env fs now fw k = Ok (inr (cfg, p)) →
  packet_capture_init (mi_open i) (promiscuous_mode cfg) (snaplen cfg) = None →
  ∃ p1, step cfg (EvMain env' i) p = Ok p1 ∧
  ∃ q, step cfg (EvMain env' i) p1 = Ok q ∧ freed q ∧ ps_stats q = created (mo_stats o) ∧
    log_ok (ps_log q) ∧ room 10 (ps_log q).
Proof.
  intros Hstart Hopen. apply main_start_shape in Hstart as (en & g & [Hn Hr Hrun Hgl Hp Hh Ht Hc] & Ho & Hroom & _ & Hshape).
  destruct (open_messages_fail (mi_open i) (iface_of cfg) (promiscuous_mode cfg) (snaplen cfg) (mi_error i)) as [Hlv Hlen].
  destruct (say_returns env' _ p 20 Hlv) as (g1 & Hs1 & Ho1 & Hr1 & _);
    [by subst p|subst p; eapply room_le; [|exact Hroom]; lia|].
  destruct (say_returns env' [log_error (bytes_of "Failed to initialize packet capture")]
    (set_pc (PcFreeContext EXIT_FAILURE) (set_log g1 p)) 19) as (g2 & Hs2 & Ho2 & Hr2 & _); [auto|done|done|].
  destruct (say_returns env' [log_info (bytes_of "Cleaning up global context...")]
    (set_log g2 (set_pc (PcFreeContext EXIT_FAILURE) (set_log g1 p))) 18) as (g3 & Hs3 & Ho3 & Hr3 & _); [auto|done|done|].
  assert (cleanup_context (s_heap (en_state en)) (en_conn_table en) (s_cache (en_state en)) = Ok ∅) as Hclean
    by (rewrite Hh; by apply cleanup_context_empty).
  eexists. split.
  - unfold step. replace (ended p) with false by (by subst p). unfold main_step.
    replace (ps_pc p) with PcOpen by (by subst p). rewrite Hs1. cbn [rbind]. rewrite Hopen. exact Hs2.
  - eexists. split.
    + unfold step. rewrite Hshape at 1. cbn [ended exited orb ps_pc ps_killed set_log set_pc].
      rewrite bool_decide_false by (by intros [? ?]). unfold main_step. cbn [ps_pc set_log set_pc].
      rewrite Hs3. cbn [rbind]. unfold context. subst p. cbn. rewrite Hclean. done.
    + split; [by subst p|]. split; [by subst p|]. split; [exact Ho3|]. eapply room_le; [|exact Hr3]. lia.
Qed.

Lemma freed_running p : freed p → ended p = false.
Proof. intros [Hpc _ Hk]. unfold ended, exited. rewrite Hpc, Hk. by rewrite bool_decide_false by (by intros [? ?]). Qed.

Lemma stats_reads_freed cfg env p :
  freed p → ps_stats p = Created → log_ok (ps_log p) → room 10 (ps_log p) →
  run cfg [EvStats env; EvStats env] p = Undef UseAfterFree.
Proof.
  intros Hf Ht Ho Hr. pose proof (freed_running p Hf) as Hend. cbn [run].
  unfold step at 1. rewrite Hend. unfold stats_thread_func at 1. rewrite Ht.
  destruct (say_returns env [log_info (bytes_of "Statistics thread started")] (set_stats_thread AtTest p) 9)
    as (g & -> & _); [auto|done|done|]. cbn [rbind]. unfold step.
  change (ended (set_log g (set_stats_thread AtTest p))) with (ended p). rewrite Hend.
  unfold stats_thread_func, context. cbn. by rewrite (fr_alive _ Hf).
Qed.

Lemma forget_exits cfg env i p :
  freed p → log_ok (ps_log p) →
  ∃ q, run cfg [EvMain env i; EvMain env i] p = Ok q ∧ ps_pc q = PcExited EXIT_FAILURE.
Proof.
  intros Hf Ho. pose proof (freed_running p Hf) as Hend. cbn [run].
  unfold step at 1. rewrite Hend. unfold main_step at 1. rewrite (fr_pc _ Hf). cbn [rbind]. unfold step.
  replace (ended (set_pc (PcFinish EXIT_FAILURE) p)) with false.
  2: { unfold ended, exited. cbn. rewrite (fr_killed _ Hf). by rewrite bool_decide_false by (by intros [? ?]). }
  unfold main_step. cbn [ps_pc set_pc]. destruct (logger_cleanup_ok _ Ho) as (g & Hg & Ho' & Hr & _).
  change (ps_log (set_pc (PcFinish EXIT_FAILURE) p)) with (ps_log p). rewrite Hg. cbn [rbind].
  edestruct (say_returns env [log_info (bytes_of "DDoS Protection System stopped")]
    (set_pc (PcExited EXIT_FAILURE) (set_log g (set_pc (PcFinish EXIT_FAILURE) p))) 4) as (g' & Hs & _); [auto|done|done|].
  unfold set_pc, set_log in Hs |- *. cbn in Hs |- *.
  eexists. split; [by rewrite Hs|done].
Qed.

(** C39: When the capture handle cannot be opened the main thread frees the context
    and exits with failure while the threads it has started still run: if the
    statistics thread, after its first message, gets to test its condition in between,
    it reads freed memory. *)
Theorem capture_failure_frees_under_threads o strdup argv disk env fs now fw k cfg p env' i :
  mo_stats o = true →
  main_start o strdup argv disk env fs now fw k = Ok (inr (cfg, p)) →
  packet_capture_init (mi_open i) (promiscuous_mode cfg) (snaplen cfg) = None →
  run cfg [EvMain env' i; EvMain env' i; EvStats env'; EvStats env'] p = Undef UseAfterFree ∧
  ∃ q, run cfg [EvMain env' i; EvMain env' i; EvMain env' i; EvMain env' i] p = Ok q ∧
    ps_pc q = PcExited EXIT_FAILURE.
Proof.
  intros Hst Hstart Hopen.
  destruct (failed_open_freed _ _ _ _ _ _ _ _ _ _ _ env' i Hstart Hopen) as (p1 & H1 & q & H2 & Hq & Ht & Ho & Hr).
  cbn [run]. rewrite H1. cbn [rbind]. rewrite H2. cbn [rbind]. split.
  - apply stats_reads_freed; [done|by rewrite Ht, Hst|done|done].
  - by apply forget_exits.
Qed.
End main.

(** ** Witnesses

    A configuration with an interface, both servers, a country database and the
    kernel filter, and a start where nothing fails. *)

#[local] Existing Instances tree_jansson tree_pack sample_dump numeric_ntop.

Definition example_json : tree :=
  TObject [("network"%string, TObject [("interface"%string, TString (bytes_of "eth0"))]);
           ("geoip"%string, TObject [("enabled"%string, TBool true);
                              ("database"%string, TString (bytes_of "country.mmdb"))]);
           ("xdp"%string, TObject [("enabled"%string, TBool true);
                              ("program"%string, TString (bytes_of "xdp_filter.o"))]);
           ("api"%string, TObject [("enabled"%string, TBool true)]);
           ("dashboard"%string, TObject [("enabled"%string, TBool true)])].

Definition example_argv : list (list Z) := [bytes_of "ddos-protect"; bytes_of "my.conf"].
Definition example_disk (file : list Z) : option tree :=
  if strcmp_eq file (bytes_of "my.conf") then Some example_json else None.

Definition main_all_ok : main_outcomes :=
  MainOutcomes true true true true true all_ok true true (true, true) (true, true) true true.

Definition example_firewall : firewall := Firewall FIREWALL_BACKEND_IPTABLES None [].
Definition example_kernel : kernel := Kernel (XdpMaps ∅ ∅ no_stats) [].

Definition started_config : config := default config_zero (config_load Some true (Some example_json)).

Lemma example_start :
  ∃ p, main_start main_all_ok Some example_argv example_disk example_env ∅ 5 example_firewall
      example_kernel = Ok (inr (started_config, p)) ∧
    is_Some (ps_ws p) ∧ is_Some (ps_api p) ∧ is_Some (ps_xdp p) ∧
    ended p = false ∧ lg_fp (ps_log p) = None.
Proof.
  destruct (start_all_ok started_config 5 example_firewall) as [en Hen].
  destruct (main_start_runs (js := tree_jansson) main_all_ok Some example_argv example_disk example_env ∅ 5 example_firewall
    example_kernel started_config en) as [p Hp];
    [intros s; by eexists|reflexivity|reflexivity|reflexivity|reflexivity|reflexivity|exact Hen|].
  exists p. split; [exact Hp|]. apply main_start_shape in Hp as (en' & g & _ & _ & _ & Hg & ->).
  split; [by eexists|]. split; [by eexists|]. split; [by eexists|]. split; [reflexivity|]. by apply Hg.
Qed.

Definition open_ok : open_outcomes := OpenOutcomes true (Some (bytes_of "eth0")) true true DLT_EN10MB.
Definition open_fails : open_outcomes := OpenOutcomes true (Some (bytes_of "eth0")) false true DLT_EN10MB.

(** SIGINT; the handle opens; the capture fails; then each thread in turn. *)
Definition main_input_end : main_input := MainInput open_ok CaptureError (bytes_of "the interface went down").
Definition turns (n : nat) : event :=
  match (n mod 5)%nat with
  | 0%nat => EvMain example_env main_input_end
  | 1%nat => EvStats example_env
  | 2%nat => EvCleanup example_env 60
  | 3%nat => EvWs example_env
  | _ => EvApi example_env
  end.
Definition example_prefix : list event :=
  [EvSignal example_env SIGINT false; EvMain example_env main_input_end; EvMain example_env main_input_end].

Fixpoint states_from (cfg : config) (p : process) (n : nat) : process :=
  match n with
  | O => p
  | S n' =>
      let q := states_from cfg p n' in match step cfg (turns n') q with Ok r => r | _ => q end
  end.

(** With no log file there is always room. *)
Definition no_file (p : process) : Prop := lg_fp (ps_log p) = None.

Lemma no_file_room n p : no_file p → room n (ps_log p).
Proof. intros Hf. by right; left. Qed.

Lemma main_calm cfg p : no_file p → calm cfg (EvMain example_env main_input_end) p.
Proof.
  intros Hf. split; [by apply no_file_room|]. split; [|done]. intros _. eexists. split; [done|]. by eexists.
Qed.

Lemma turns_calm cfg n p : no_file p → calm cfg (turns n) p.
Proof.
  intros Hf. unfold turns. destruct (n mod 5)%nat as [|[|[|[|]]]]; [by apply main_calm|..];
    (split; [by apply no_file_room|done]).
Qed.

Lemma advanced_no_file e p q : advanced e p q → no_file p → no_file q.
Proof. intros Had. apply (ad_log _ _ _ Had). Qed.

Lemma turns_fair : fair turns.
Proof.
  intros a n Ha.
  assert (∃ k, (k < 5)%nat ∧ ∀ m, (m mod 5)%nat = k → actor_of (turns m) = a) as (k & Hk & Hm).
  { unfold turns. destruct a; [exists 0%nat|exists 1%nat|exists 2%nat|exists 3%nat|exists 4%nat|done];
      (split; [lia|]); by intros m ->. }
  exists (n * 5 + k)%nat. split; [lia|]. apply Hm.
  rewrite Nat.add_comm, Nat.Div0.mod_add. by apply Nat.mod_small.
Qed.

Lemma states_ok cfg p n :
  process_ok p → no_file p → process_ok (states_from cfg p n) ∧ no_file (states_from cfg p n).
Proof.
  intros Hp Hf. induction n as [|n [IH IHf]]; [done|]. cbn [states_from].
  destruct (step_advances cfg (turns n) _ IH (turns_calm cfg n _ IHf)) as (q & -> & Had).
  split; [apply Had|by eapply advanced_no_file].
Qed.

Lemma states_execution cfg p : process_ok p → no_file p → execution cfg (states_from cfg p) turns.
Proof.
  intros Hp Hf. split; intros n; destruct (states_ok cfg p n Hp Hf) as [Hn Hfn]; [by apply turns_calm|].
  cbn [states_from]. by destruct (step_advances cfg (turns n) _ Hn (turns_calm cfg n _ Hfn)) as (q & -> & _).
Qed.

(** The prefix reaches the join of the statistics thread. *)
Lemma prefix_ran cfg p :
  process_ok p → ps_pc p = PcOpen → ended p = false → no_file p →
  ∃ q, ran cfg p example_prefix q ∧ past_capture q ∧ no_file q ∧ ps_killed q = None.
Proof.
  intros Hp Hpc Hend Hf.
  assert (calm cfg (EvSignal example_env SIGINT false) p) as Hc1.
  { split; [by apply no_file_room|]. intros _. split; [by rewrite Hpc|done]. }
  destruct (step_advances cfg _ p Hp Hc1) as (p1 & H1 & Had1).
  destruct (signal_pc cfg example_env SIGINT false p p1 eq_refl Hend H1) as [Hpc1 Hend1]. rewrite Hpc in Hpc1.
  pose proof (advanced_no_file _ _ _ Had1 Hf) as Hf1.
  destruct (step_advances cfg _ p1 (ad_ok _ _ _ Had1) (main_calm cfg p1 Hf1)) as (p2 & H2 & Had2).
  destruct (open_pc cfg example_env main_input_end _ p1 p2 Hend1 Hpc1 eq_refl H2) as [Hpc2 Hend2].
  pose proof (advanced_no_file _ _ _ Had2 Hf1) as Hf2.
  destruct (step_advances cfg _ p2 (ad_ok _ _ _ Had2) (main_calm cfg p2 Hf2)) as (p3 & H3 & Had3).
  exists p3. split; [|split; [|split; [by eapply advanced_no_file|]]].
  - apply (ran_snoc cfg p [EvSignal example_env SIGINT false; EvMain example_env main_input_end] p2);
      [|by apply main_calm|exact H3].
    apply (ran_snoc cfg p [EvSignal example_env SIGINT false] p1); [|by apply main_calm|exact H2].
    apply (ran_snoc cfg p [] p); [constructor|exact Hc1|exact H1].
  - unfold past_capture. by rewrite (failure_pc cfg example_env main_input_end p2 p3 (ad_ok _ _ _ Had2) Hend2 Hpc2 eq_refl H3).
  - rewrite (ad_killed _ _ _ Had3) by done. apply orb_false_iff in Hend2 as [_ Hk].
    destruct (ps_killed p2) as [sig|]; [|done]. by rewrite bool_decide_true in Hk by (by eexists).
Qed.

Lemma prefix_signalled : Exists stop_signal example_prefix.
Proof. apply Exists_cons. left. by exists example_env, SIGINT, false. Qed.

Lemma states_ran cfg p evs q n :
  process_ok q → no_file q → ran cfg p evs q → ∃ evs', ran cfg p evs' (states_from cfg q n).
Proof.
  intros Hq Hf Hran. induction n as [|n [evs' IH]]; [by exists evs|]. exists (evs' ++ [turns n]).
  pose proof (states_execution cfg q Hq Hf) as [Hc Hs]. eapply ran_snoc; [exact IH|apply Hc|apply Hs].
Qed.

(** No step kills the process. *)
Lemma turns_unkilled cfg p n : process_ok p → no_file p → ps_killed p = None → ps_killed (states_from cfg p n) = None.
Proof.
  intros Hp Hf Hk. induction n as [|n IH]; [done|].
  destruct (states_ok cfg p n Hp Hf) as [Hn Hfn]. pose proof (states_execution cfg p Hp Hf) as [Hc Hs].
  rewrite (ad_killed _ _ _ (step_from _ _ _ _ Hn (Hc n) (Hs n))); [done|].
  unfold turns. by destruct (n mod 5)%nat as [|[|[|[|]]]].
Qed.

Lemma example_started :
  ∃ p, main_start main_all_ok Some example_argv example_disk example_env ∅ 5 example_firewall
      example_kernel = Ok (inr (started_config, p)) ∧
    process_ok p ∧ ps_pc p = PcOpen ∧ ended p = false ∧ no_file p.
Proof.
  destruct example_start as (p & Hstart & _ & _ & _ & Hend & Hf). exists p. split; [exact Hstart|].
  destruct (main_start_ok (js := tree_jansson) main_all_ok Some _ _ _ _ _ _ _ _ _ (λ s, ex_intro _ s eq_refl) eq_refl eq_refl Hstart)
    as (Hp & Hpc & _). done.
Qed.

Lemma process_never_fails_witness :
  ∃ p r, main_start main_all_ok Some example_argv example_disk example_env ∅ 5 example_firewall
    example_kernel = Ok (inr (started_config, p)) ∧ step started_config (EvStats example_env) p = Ok r.
Proof.
  destruct example_started as (p & Hstart & _ & _ & _ & Hf). exists p.
  destruct (process_never_fails (js := tree_jansson) main_all_ok Some example_argv example_disk example_env ∅ 5
    example_firewall example_kernel) as (r & Hr & Hsteps); [intros s; by eexists|].
  rewrite Hstart in Hr. apply (inj Ok) in Hr.
  destruct (Hsteps started_config p [] p (EvStats example_env) eq_refl eq_refl (eq_sym Hr) ltac:(constructor)
    (conj (no_file_room _ p Hf) I)) as (q & Hq & _).
  exists q. split; [exact Hstart|exact Hq].
Defined.

Lemma shutdown_completes_witness :
  ∃ p q n, main_start main_all_ok Some example_argv example_disk example_env ∅ 5 example_firewall
      example_kernel = Ok (inr (started_config, p)) ∧
    ran started_config p example_prefix q ∧
    ps_pc (states_from started_config q n) = PcExited EXIT_SUCCESS.
Proof.
  destruct example_started as (p & Hstart & Hp & Hpc & Hend & Hf).
  destruct (prefix_ran started_config p Hp Hpc Hend Hf) as (q & Hran & Hpast & Hfq & Hkq). exists p, q.
  destruct (shutdown_completes (js := tree_jansson) main_all_ok Some example_argv example_disk example_env ∅ 5
    example_firewall example_kernel started_config p example_prefix (states_from started_config q) turns) as [n Hn];
    [intros s; by eexists|reflexivity|reflexivity|exact Hstart|exact Hran|exact prefix_signalled|exact Hpast
    |apply states_execution; [exact (ran_ok _ p _ q Hp Hran)|exact Hfq]|exact turns_fair|].
  exists n. split; [exact Hstart|]. split; [exact Hran|].
  destruct Hn as [Hn|(sig & Hsig & _)]; [exact Hn|].
  rewrite (turns_unkilled _ q n (ran_ok _ p _ q Hp Hran) Hfq Hkq) in Hsig. discriminate Hsig.
Defined.

Lemma exit_needs_signal_and_failure_witness :
  ∃ p evs q ret, main_start main_all_ok Some example_argv example_disk example_env ∅ 5
      example_firewall example_kernel = Ok (inr (started_config, p)) ∧
    ran started_config p evs q ∧ ps_pc q = PcExited ret ∧ ret = EXIT_SUCCESS ∧ Exists capture_failure evs.
Proof.
  destruct example_started as (p & Hstart & Hp & Hpc & Hend & Hf).
  destruct (prefix_ran started_config p Hp Hpc Hend Hf) as (q & Hran & Hpast & Hfq & Hkq).
  pose proof (ran_ok _ p _ q Hp Hran) as Hq.
  assert (∃ n, ps_pc (states_from started_config q n) = PcExited EXIT_SUCCESS) as [n Hn].
  { destruct (ran_signalled _ p _ q Hp Hran prefix_signalled) as [Hstop|Hover].
    - destruct (exit_reached (states_execution started_config q Hq Hfq) 0 turns_fair) as [n [Hn|(sig & Hsig & _)]];
        [exact Hq|exact Hstop|exact Hpast|by exists n|]. by rewrite (turns_unkilled _ q n Hq Hfq Hkq) in Hsig.
    - destruct (ended_over q Hq Hover) as [Hn|(sig & Hsig & _)]; [by exists 0%nat|by rewrite Hkq in Hsig]. }
  destruct (states_ran _ p _ q n Hq Hfq Hran) as [evs Hevs].
  exists p, evs, (states_from started_config q n), EXIT_SUCCESS.
  destruct (exit_needs_signal_and_failure (js := tree_jansson) main_all_ok Some example_argv example_disk example_env ∅ 5
    example_firewall example_kernel started_config p evs (states_from started_config q n) EXIT_SUCCESS) as (_ & _ & H);
    [intros s; by eexists|reflexivity|reflexivity|exact Hstart|exact Hevs|exact Hn|].
  split_and!; [exact Hstart|exact Hevs|exact Hn|reflexivity|exact H].
Defined.

Lemma capture_failure_frees_under_threads_witness :
  let i := MainInput open_fails Idle (bytes_of "No such device exists") in
  ∃ p, main_start main_all_ok Some example_argv example_disk example_env ∅ 5 example_firewall
      example_kernel = Ok (inr (started_config, p)) ∧
    run started_config [EvMain example_env i; EvMain example_env i; EvStats example_env; EvStats example_env] p =
      Undef UseAfterFree.
Proof.
  intros i. destruct example_started as (p & Hstart & _). exists p. split; [exact Hstart|].
  apply (capture_failure_frees_under_threads (js := tree_jansson) main_all_ok Some example_argv example_disk example_env ∅ 5
    example_firewall example_kernel started_config p example_env i); [reflexivity|exact Hstart|reflexivity].
Defined.
